(* ===== verification/_CoqProject ===== *)
-Q . S2P
Prelude.v
GoStd.v
Disk.v
Version.v
Netaddr.v
Protocol.v
GoCrypto.v
Passutil.v
Credseal.v
CertificateGate.v
Transport.v
EventRing.v
LogEntries.v
ConfigData.v
EntrySecurity.v
StreamLimiter.v
ConnLimiter.v
PermanentBlocks.v
FailTracker.v
ServerConfig.v
Authorization.v
CredentialSeal.v
Reverse.v
Lifecycle.v
Server.v
Programs.v
Ownership.v
Handler.v
HandlerTraces.v
HandlerRun.v
Yaml.v
ServerUpgrade.v
VirtualAddress.v
VirtualRedirect.v
ClientErrors.v
ClientConfig.v
VirtualRules.v
ClientState.v
ClientPrograms.v
ClientRun.v
ClientHealth.v
ClientTraces.v
SavedLogin.v
ServerStart.v
AdminConfig.v
AdminSave.v
AdminRoundTrip.v
LogReader.v
LogAnalysis.v
LogWindow.v
ProfileSwitch.v
MobileProfile.v
MobileRoundTrip.v
ClientTexts.v
ClientGui.v
