(* ===== verification/Prelude.v ===== *)
(** * LSYL Tunnel: a verification library for the Go implementation

    LSYL Tunnel carries TCP connections between a client machine and a server.
    The client proves that it has the server's certificate, starts TLS, logs in
    and asks the server to open a target for it, or to listen on a port and hand
    the connections back. This library models the Go code of both programs and
    proves what makes them correct. The sources are named relative to the
    repository; the server is src/server/tunnel, the client src/client/tunnel,
    what they share src/internal.

    ** How the code is modelled

    Functions over values are functions, a [(T, error)] is a [result T] whose
    error is the text of the error, because the program compares and forwards
    those texts. Integers are [Z] with the wrap-around of their width written
    out; bytes are characters. A critical section, what a goroutine does under
    one lock, is one function on the state. Goroutines are programs (Programs.v)
    over those sections and what they ask of the machine: a program says what it
    calls next for every answer, so what holds of all its traces holds under
    every interleaving. Runs give the calls a meaning: functions with an
    environment on the server (HandlerRun.v), a step relation between any number
    of goroutines on the client (ClientRun.v, ClientGui.v; Ownership.v keeps the
    account of what is open). The order of a range over a map is
    a parameter, [MapRange].

    ** The parts

    Shared: GoStd.v, Disk.v, GoCrypto.v and Yaml.v are what the code uses of Go's
    library, executable where Go's behaviour is defined (addresses, numbers,
    paths, hashes, base64). Version.v, Netaddr.v, Protocol.v, Passutil.v,
    Credseal.v, CertificateGate.v and Transport.v are the packages of
    src/internal: versions, address policy, handshake frames, password hashes,
    sealed logins, the certificate gate, the proxy.

    Server: ConfigData.v and ServerConfig.v (config.go), ServerUpgrade.v
    (config_compat.go), Authorization.v (authorization.go,
    configured_forwards.go), ConnLimiter.v, StreamLimiter.v, FailTracker.v,
    PermanentBlocks.v, EntrySecurity.v, EventRing.v, LogEntries.v,
    CredentialSeal.v, Reverse.v, Lifecycle.v (the files of those names), Server.v
    (the state of server.go and what it records, monitor.go), Handler.v (the
    handlers of server.go and reverse.go as programs), HandlerTraces.v and
    HandlerRun.v (what all their runs do), ServerStart.v ([Start]).

    Client: ClientConfig.v (config.go, config_compat.go, credential.go),
    VirtualAddress.v (certificate_policy.go), VirtualRedirect.v
    (virtual_redirect.go), VirtualRules.v (from the configuration to the rules),
    ClientErrors.v (virtual_errors.go and the texts and delays of status.go),
    ClientState.v and ClientPrograms.v (client.go, status.go: the sections and
    the programs), ClientRun.v, ClientTraces.v and ClientHealth.v (their runs).
    SavedLogin.v follows a saved login from the server to the client and back.

    Client interface (src/client/gui, src/client/lite, src/client/mobileprofile):
    ProfileSwitch.v (switching between profiles), MobileProfile.v and
    MobileRoundTrip.v (the portable profile, exported and imported), ClientTexts.v
    (texts and commands), ClientGui.v (the requests of the page).

    Server interface (src/server/gui): AdminConfig.v (the page that edits the
    configuration), AdminSave.v and AdminRoundTrip.v (saving it), LogReader.v
    (the recent lines and requests of the logs), LogAnalysis.v and LogWindow.v
    (the sums over a window of time).

    A connection of the server passes [acceptConn] (block list, connection
    limiter, lifecycle), [handleAcceptedConn] (gate, TLS), [handleConn] (request,
    password, authorisation) and one of [handleOpen], [registerReverseControl]
    and [registerReverseStream]. A connection of the client is accepted by
    [acceptLoop], served by [handleLocal] and, for a virtual forward, reaches it
    through the rewriting of VirtualRedirect.v; [reverseLoop] keeps a reverse
    listener, [healthLoop] closes the client when the server is gone.

    ** What the theorems show

    Access: HandlerTraces.v (nothing is dialled or listened to without a login
    and an authorisation, slots and connections are released on every path,
    logins and answers are accounted for), Authorization.v (what is authorised
    exactly), CertificateGate.v (which proofs are accepted), FailTracker.v and
    PermanentBlocks.v (blocks hold, survive a restart, are lifted exactly),
    ConnLimiter.v and StreamLimiter.v (limits hold and counters are exact).
    Shutdown: Lifecycle.v (when [Close] returns nothing runs and everything is
    closed; it always can return), Reverse.v (no waiting connection is lost or
    handed out twice), HandlerRun.v (a control ends; totals add up).
    Configuration: both programs' loaded configurations satisfy the declared
    rules, saving and loading is a round trip, the structure check accepts exactly
    the declared shape; ServerStart.v (a started server is where the other
    theorems begin). Keys: CredentialSeal.v (which key is activated, which sealed
    login gives a password), SavedLogin.v (the login a client sealed is accepted
    until it expires). Virtual forwards: only addresses of the certificate are
    taken over, flows are never dropped while there is room, replies return to
    the sender, valid configurations give valid rules. Client: sockets are
    accounted for in every interleaving, exchanges run under deadlines, local
    connections and reverse loops end as they should, the health loop equals its
    reference, refusals are understood. Interface: what the page accepts the
    server loads, but for one case, and what it shows it saves; the log views
    show the last lines, one row per request, and sums that count a request
    once, read every line of the window once and do not depend on the order of
    maps or the location service. On the client a failed switch of profiles
    leaves every file as it was, an exported profile imports as what it came from,
    what is imported is safe to run, no password is saved, a login starts a client
    exactly when it says so and no running client is forgotten. Some lemmas show what the code gets
    wrong: [append_without_line_break], [permanent_write_failure_unblocks],
    [server_keepalive_not_reached], [padded_expiry_never_used],
    [rotation_renames_key_file], [bytes_up_is_download],
    [local_exchange_unbounded], [close_leaves_listener], [second_reverse_loop],
    [duplicate_ports_saved], [rollback_loses_current], [forced_export_loses].

    ** Bounds

    Recursion that is not structural has fuel. Parsers take the length of their
    input, which every step shortens. [allocateNATPort] tries 65535 ports, as the
    code does. The loops of goroutines take a number of rounds: theorems about
    them hold for every number ([control_ends] gives one that is enough; the
    health loop is compared on scripts of any length). The loop over the days of
    a window takes the hours of the window, because a day has more than an hour
    ([range_days_reach]).

    ** Parameters

    Code that is not in the repository is a parameter: RSA, AES-GCM, X.509 and
    PEM parsing ([SealCrypto], [X509], [PEM]), the JSON and YAML codecs, local
    time ([LocalTime]), the behaviour of the disk, the network and the random
    source. What is needed of them is in classes of laws ([SealLaws]) or a
    hypothesis of the theorem; every theorem with hypotheses has an instance
    (the lemmas named [_witness]).

    ** Not modelled

    The packet driver (virtual_redirect_windows.go calls WinDivert through system
    calls in an elevated process; its packets are the inputs of
    VirtualRedirect.v), the windows, trays and HTTP routes of the graphical
    programs and the end of their processes, the small client but for its texts,
    and of src/server/gui the page's own state, the service control and the client
    of the monitor, the service and WebView hosts and the command line tools: they
    call operating system interfaces around the code above. HTTP and TLS themselves
    are Go's; the tickers of the cleanup loops are left out, each turn is an
    operation of its component. Log lines are kept only where another part reads
    them. *)

From stdpp Require Export prelude gmap strings list numbers pretty.
From Stdlib Require Export ZArith Lia Ascii.

#[local] Open Scope Z_scope.

(** ** Results of fallible Go functions

    A Go function returning [(T, error)] is a function into [result T]; the
    error is the text [err.Error()] gives, because the program compares and
    forwards that text. *)

Inductive result (A : Type) : Type :=
| Ok (a : A)
| Err (e : string).
Arguments Ok {A} a.
Arguments Err {A} e.

#[export] Instance result_ret : MRet result := @Ok.
#[export] Instance result_bind : MBind result := λ A B f m,
  match m with Ok a => f a | Err e => Err e end.
#[export] Instance result_fmap : FMap result := λ A B f m,
  match m with Ok a => Ok (f a) | Err e => Err e end.
#[export] Instance result_eq_dec `{EqDecision A} : EqDecision (result A).
Proof. solve_decision. Defined.

Definition is_ok {A} (r : result A) : bool :=
  match r with Ok _ => true | Err _ => false end.

(** [fmt.Errorf(prefix + ": %w", err)] around a failing call. *)
Definition wrap_err {A} (prefix : string) (r : result A) : result A :=
  match r with Ok a => Ok a | Err e => Err (prefix +:+ ": " +:+ e) end.

(** A Go [if cond { return err }] guard. *)
Definition guard_err (bad : bool) (e : string) : result unit :=
  if bad then Err e else Ok tt.

(** [for _, x := range xs { if err := f(x); err != nil { return err } }] *)
Fixpoint each {A} (f : A → result unit) (xs : list A) : result unit :=
  match xs with
  | [] => Ok tt
  | x :: xs => match f x with Ok _ => each f xs | Err e => Err e end
  end.

(** The same loop threading a state through its iterations. *)
Fixpoint fold_err {A S} (f : S → A → result S) (s : S) (xs : list A) : result S :=
  match xs with
  | [] => Ok s
  | x :: xs => match f s x with Ok s' => fold_err f s' xs | Err e => Err e end
  end.

(** ** Machine integers

    Go's [int], [int64] and [time.Duration] are 64-bit two's complement;
    [uint16], [uint32] and [uint64] wrap modulo a power of two. *)

Definition wrap_u (w : Z) (x : Z) : Z := x `mod` 2 ^ w.
Definition wrap_s (w : Z) (x : Z) : Z :=
  let m := x `mod` 2 ^ w in if m <? 2 ^ (w - 1) then m else m - 2 ^ w.
Abbreviation wrap_i64 := (wrap_s 64).
Abbreviation wrap_u64 := (wrap_u 64).
Abbreviation wrap_u32 := (wrap_u 32).
Abbreviation wrap_u16 := (wrap_u 16).
Definition max_i64 : Z := 2 ^ 63 - 1.
Definition min_i64 : Z := - 2 ^ 63.

(** ** Time

    A [time.Time] is the number of nanoseconds since the zero time (1 January
    of year 1, UTC), so Go's [IsZero] is equality with [0]; a [time.Duration]
    is a number of nanoseconds. *)

Abbreviation Time := Z (only parsing).
Abbreviation Duration := Z (only parsing).
Definition zeroTime : Time := 0%Z.
Definition IsZero (t : Time) : bool := (t =? 0)%Z.
Definition After (t u : Time) : bool := (u <? t)%Z.
Definition Before (t u : Time) : bool := (t <? u)%Z.
Definition nsecond : Duration := 1000000000%Z.
Definition nminute : Duration := (60 * nsecond)%Z.
Definition nhour : Duration := (60 * nminute)%Z.
(** [time.Duration(n) * time.Second], with the 64-bit wrap-around. *)
Definition seconds (n : Z) : Duration := wrap_i64 (n * nsecond).

(** ** Iterating over a Go map

    [for k, v := range m] visits every entry once in an order the language
    leaves open. A [MapRange] fixes that order for the maps of one run; every
    theorem that depends on a loop over a map holds for all of them. *)

Record MapRange (A : Type) := mkMapRange {
  range_entries : gmap string A → list (string * A);
  range_complete : ∀ m, range_entries m ≡ₚ map_to_list m
}.
Arguments mkMapRange {A} _ _.
Arguments range_entries {A} _ _.
Arguments range_complete {A} _ _.

Definition canonicalRange {A} : MapRange A :=
  mkMapRange map_to_list (λ m, reflexivity _).

Lemma range_elem {A} (rg : MapRange A) (m : gmap string A) k v :
  (k, v) ∈ range_entries rg m ↔ m !! k = Some v.
Proof. rewrite range_complete. apply elem_of_map_to_list. Qed.

(** [for k := range set], for a [map[string]struct{}]. *)
Record SetRange := mkSetRange {
  set_entries : gset string → list string;
  set_complete : ∀ s, set_entries s ≡ₚ elements s
}.
Definition canonicalSetRange : SetRange := mkSetRange elements (λ s, reflexivity _).

Lemma set_elem (rg : SetRange) s k : k ∈ set_entries rg s ↔ k ∈ s.
Proof. rewrite (set_complete rg s). apply elem_of_elements. Qed.

(** ** Tactics and hint databases *)

Create HintDb gostd discriminated.

Ltac destr_match :=
  match goal with
  | |- context [match ?x with _ => _ end] => destruct x eqn:?
  end.

Ltac destr_hyp H :=
  match type of H with
  | context [match ?x with _ => _ end] => destruct x eqn:?
  end.

(** Turns the boolean tests the source's guards are made of into propositions
    and calls [lia]. *)
Ltac bool_lia :=
  rewrite ?andb_true_iff, ?andb_false_iff, ?orb_true_iff, ?orb_false_iff,
    ?negb_true_iff, ?negb_false_iff, ?Z.ltb_lt, ?Z.ltb_ge, ?Z.leb_le,
    ?Z.leb_gt, ?Z.eqb_eq, ?Z.eqb_neq in *; lia.

(** Two results of the same call are the same result. *)
Ltac simp_ok :=
  repeat match goal with
  | H1 : ?o = Ok ?x, H2 : ?o = Ok ?y |- _ =>
      assert (y = x) by congruence; clear H2
  | H1 : ?o = Ok _, H2 : ?o = Err _ |- _ => congruence
  end; simplify_eq.

(** ** Generic lemmas *)

Lemma bind_ok {A B} (f : A → result B) (m : result A) b :
  m ≫= f = Ok b ↔ ∃ a, m = Ok a ∧ f a = Ok b.
Proof. destruct m; simpl; naive_solver. Qed.

Lemma guard_err_ok bad e u : guard_err bad e = Ok u ↔ bad = false.
Proof. destruct bad, u; naive_solver. Qed.

Lemma each_ok {A} (f : A → result unit) xs :
  each f xs = Ok tt ↔ Forall (λ x, f x = Ok tt) xs.
Proof.
  induction xs as [|x xs IH]; simpl; [by split|].
  destruct (f x) as [[]|e] eqn:E; rewrite Forall_cons.
  - naive_solver.
  - rewrite E. naive_solver.
Qed.

(** A loop invariant for [fold_err]. *)
Lemma fold_err_inv {A S} (P : S → Prop) (f : S → A → result S) s xs s' :
  (∀ s x s', P s → f s x = Ok s' → P s') →
  P s → fold_err f s xs = Ok s' → P s'.
Proof.
  intros Hstep. revert s.
  induction xs as [|x xs IH]; intros s Hs; simpl; [naive_solver|].
  destruct (f s x) eqn:E; [|done]. eauto.
Qed.

Lemma wrap_s_range w x : (0 < w)%Z → (- 2 ^ (w - 1) ≤ wrap_s w x < 2 ^ (w - 1))%Z.
Proof.
  intros Hw. unfold wrap_s.
  assert (2 ^ w = 2 * 2 ^ (w - 1))%Z as E.
  { rewrite <-Z.pow_succ_r by lia. f_equal. lia. }
  pose proof (Z.mod_pos_bound x (2 ^ w)) as B.
  assert (0 < 2 ^ (w - 1))%Z by (apply Z.pow_pos_nonneg; lia).
  destruct (Z.ltb_spec (x `mod` 2 ^ w) (2 ^ (w - 1))); lia.
Qed.

Lemma wrap_s_id w x :
  (0 < w)%Z → (- 2 ^ (w - 1) ≤ x < 2 ^ (w - 1))%Z → wrap_s w x = x.
Proof.
  intros Hw Hx. unfold wrap_s.
  assert (2 ^ w = 2 * 2 ^ (w - 1))%Z as E.
  { rewrite <-Z.pow_succ_r by lia. f_equal. lia. }
  destruct (Z.le_gt_cases 0 x).
  - rewrite Z.mod_small by lia.
    destruct (Z.ltb_spec x (2 ^ (w - 1))); lia.
  - assert (x `mod` 2 ^ w = x + 2 ^ w)%Z as ->.
    { symmetry. apply Z.mod_unique_pos with (-1)%Z; lia. }
    destruct (Z.ltb_spec (x + 2 ^ w) (2 ^ (w - 1))); lia.
Qed.

Lemma wrap_u_range w x : (0 ≤ w)%Z → (0 ≤ wrap_u w x < 2 ^ w)%Z.
Proof. intros. apply Z.mod_pos_bound, Z.pow_pos_nonneg; lia. Qed.

Lemma wrap_u_id w x : (0 ≤ x < 2 ^ w)%Z → wrap_u w x = x.
Proof. apply Z.mod_small. Qed.

Lemma length_filter_le {A} (P : A → Prop) `{∀ x, Decision (P x)} (l : list A) :
  (length (filter P l) ≤ length l)%nat.
Proof.
  induction l as [|x l IH]; [done|]. rewrite filter_cons.
  case_decide; simpl; lia.
Qed.

Lemma filter_none {A} (P : A → Prop) `{∀ x, Decision (P x)} (l : list A) :
  Forall (λ x, ¬ P x) l → filter P l = [].
Proof.
  induction 1 as [|x l Hx Hl IH]; [done|]. rewrite filter_cons. by rewrite decide_False.
Qed.

Lemma filter_all {A} (P : A → Prop) `{∀ x, Decision (P x)} (l : list A) :
  (∀ x, x ∈ l → P x) → filter P l = l.
Proof.
  induction l as [|x l IH]; intros Hl; [done|]. rewrite filter_cons.
  rewrite decide_True by (apply Hl; by left). f_equal. apply IH. intros y Hy. apply Hl. by right.
Qed.

Lemma Forall_filter {A} (Q P : A → Prop) `{∀ x, Decision (P x)} (l : list A) :
  Forall Q l → Forall Q (filter P l).
Proof. rewrite !Forall_forall. intros HQ x [_ Hx]%list_elem_of_filter. by apply HQ. Qed.

#[export] Hint Resolve bind_ok guard_err_ok each_ok : gostd.

(** ** Sums over maps

    The totals the program keeps beside a map, or computes by ranging over it. *)

Definition map_sum {A} (f : A → Z) (m : gmap string A) : Z :=
  map_fold (λ _ a acc, f a + acc) 0 m.

Lemma map_sum_empty {A} (f : A → Z) : map_sum f ∅ = 0.
Proof. apply map_fold_empty. Qed.

Lemma map_sum_insert {A} (f : A → Z) m k a :
  m !! k = None → map_sum f (<[k := a]> m) = f a + map_sum f m.
Proof. intros. unfold map_sum. rewrite map_fold_insert_L; [done|intros; lia|done]. Qed.

Lemma map_sum_delete {A} (f : A → Z) m k a :
  m !! k = Some a → map_sum f (delete k m) = map_sum f m - f a.
Proof.
  intros Hk. rewrite <-(insert_delete_id m k a Hk) at 2.
  rewrite map_sum_insert by apply lookup_delete_eq. lia.
Qed.

Lemma map_sum_update {A} (f : A → Z) m k a b :
  m !! k = Some a → map_sum f (<[k := b]> m) = map_sum f m - f a + f b.
Proof.
  intros Hk. rewrite <-insert_delete_eq.
  rewrite map_sum_insert by apply lookup_delete_eq. rewrite (map_sum_delete f m k a) by done. lia.
Qed.

Lemma map_sum_nonneg {A} (f : A → Z) m : (∀ k a, m !! k = Some a → 0 ≤ f a) → 0 ≤ map_sum f m.
Proof.
  induction m as [|k a m Hk IH] using map_ind; intros Hf; [done|].
  rewrite map_sum_insert by done.
  assert (0 ≤ f a) by (apply (Hf k); by rewrite lookup_insert_eq).
  assert (0 ≤ map_sum f m); [|lia]. apply IH. intros k' a' Hk'. apply (Hf k').
  rewrite lookup_insert_ne; [done|]. intros ->. congruence.
Qed.

Lemma map_sum_lookup {A} (f : A → Z) m k a :
  (∀ k a, m !! k = Some a → 0 ≤ f a) → m !! k = Some a → f a ≤ map_sum f m.
Proof.
  intros Hf Hk. pose proof (map_sum_delete f m k a Hk).
  assert (0 ≤ map_sum f (delete k m)); [|lia]. apply map_sum_nonneg.
  intros k' a' [_ Hk']%lookup_delete_Some. by apply (Hf k').
Qed.

Lemma map_sum_ext {A} (f g : A → Z) m :
  (∀ k a, m !! k = Some a → f a = g a) → map_sum f m = map_sum g m.
Proof.
  induction m as [|k a m Hk IH] using map_ind; intros Hf; [done|].
  rewrite !map_sum_insert by done. f_equal.
  - apply (Hf k). by rewrite lookup_insert_eq.
  - apply IH. intros k' a' Hk'. apply (Hf k').
    rewrite lookup_insert_ne; [done|]. intros ->. congruence.
Qed.

(** Adding up in the order of a [range] loop gives the sum. *)
Lemma range_sum {A} (rg : MapRange A) (f : A → Z) m acc :
  foldl (λ t ka, t + f ka.2) acc (range_entries rg m) = acc + map_sum f m.
Proof.
  assert (∀ l acc, foldl (λ t (ka : string * A), t + f ka.2) acc l
                   = acc + foldr (λ ka t, f ka.2 + t) 0 l) as ->.
  { induction l as [|x l IH]; intros acc'; simpl; [lia|]. rewrite IH. lia. }
  f_equal. unfold map_sum. rewrite map_fold_foldr.
  transitivity (foldr (λ (ka : string * A) t, f ka.2 + t) 0 (map_to_list m)).
  - apply (foldr_permutation (=)); [typeclasses eauto|intros; lia|apply range_complete].
  - induction (map_to_list m) as [|[k a] l IH]; cbn; congruence.
Qed.

(** Building a map by inserting the entries of a [range] loop copies it. *)
Lemma range_rebuild {A} (rg : MapRange A) (m : gmap string A) :
  foldl (λ (acc : gmap string A) ka, <[ka.1 := ka.2]> acc) ∅ (range_entries rg m) = m.
Proof.
  assert (∀ es : list (string * A),
    foldl (λ (acc : gmap string A) ka, <[ka.1 := ka.2]> acc) ∅ es = list_to_map (reverse es)) as ->.
  { induction es as [|x es IH] using rev_ind; [done|].
    rewrite foldl_snoc, reverse_snoc, IH. by destruct x. }
  assert (reverse (range_entries rg m) ≡ₚ map_to_list m) as Hes.
  { rewrite (reverse_Permutation (range_entries rg m)). apply range_complete. }
  rewrite <-(list_to_map_to_list m) at 2. apply list_to_map_proper; [|done].
  rewrite Hes. apply NoDup_fst_map_to_list.
Qed.

(** ** Closures run at most once

    [var once sync.Once; return func() { once.Do(f) }]: a token that has run
    does nothing the next time. *)
Inductive onceToken (A : Type) := tokenNoop | token (a : A) (ran : bool).
Arguments tokenNoop {A}.
Arguments token {A} a ran.

(** The argument of [f] when calling the token runs it. *)
Definition token_fires {A} (t : onceToken A) : option A :=
  match t with token a false => Some a | _ => None end.
Definition token_call {A} (t : onceToken A) : onceToken A :=
  match t with token a _ => token a true | tokenNoop => tokenNoop end.

(** The tokens for [a] that have not run yet. *)
Definition pending {A} `{EqDecision A} (a : A) (ts : list (onceToken A)) : Z :=
  Z.of_nat (length (filter (λ t, token_fires t = Some a) ts)).

Lemma pending_nonneg {A} `{EqDecision A} (a : A) ts : 0 ≤ pending a ts.
Proof. unfold pending. lia. Qed.

Lemma pending_snoc {A} `{EqDecision A} (a : A) ts t :
  pending a (ts ++ [t]) = pending a ts + (if decide (token_fires t = Some a) then 1 else 0).
Proof.
  unfold pending. rewrite filter_app, length_app, filter_cons, filter_nil.
  case_decide; cbn [length]; lia.
Qed.

Lemma elem_of_insert {A} (x y : A) i (l : list A) : x ∈ <[i := y]> l → x = y ∨ x ∈ l.
Proof.
  intros [j Hj]%list_elem_of_lookup. apply list_lookup_insert_Some in Hj as [(_ & -> & _)|[_ Hj]].
  - by left.
  - right. by eapply list_elem_of_lookup_2.
Qed.

Lemma pending_call {A} `{EqDecision A} (a : A) ts i t :
  ts !! i = Some t →
  pending a (<[i := token_call t]> ts)
  = pending a ts - (if decide (token_fires t = Some a) then 1 else 0).
Proof.
  intros Hi. unfold pending.
  assert (token_fires (token_call t) ≠ Some a) as Hne by by destruct t.
  rewrite insert_take_drop by (by eapply lookup_lt_Some).
  rewrite <-(take_drop_middle ts i t Hi) at 3.
  rewrite !filter_app, !length_app, !filter_cons.
  destruct (decide (token_fires (token_call t) = Some a)); [done|].
  case_decide; cbn [length]; lia.
Qed.

(** The tokens of any key that have not run yet; counters per key that agree
    with the tokens add up to their number. *)
Definition pending_any {A} (ts : list (onceToken A)) : Z :=
  Z.of_nat (length (filter (λ t, is_Some (token_fires t)) ts)).

Lemma map_sum_fmap {A B} (g : A → B) (f : B → Z) (m : gmap string A) :
  map_sum f (g <$> m) = map_sum (λ a, f (g a)) m.
Proof.
  induction m as [|k a m Hk IH] using map_ind; [done|].
  rewrite fmap_insert, !map_sum_insert; [by rewrite IH|done|by rewrite lookup_fmap, Hk].
Qed.

Lemma counters_sum (ts : list (onceToken string)) (m : gmap string Z) :
  (∀ k, default 0 (m !! k) = pending k ts) → map_sum id m = pending_any ts.
Proof.
  revert m. induction ts as [|t ts IH] using rev_ind; intros m Hm.
  - transitivity (map_sum (λ _ : Z, 0) m).
    + apply map_sum_ext. intros k a Hk. specialize (Hm k). by rewrite Hk in Hm.
    + clear. induction m as [|k a m Hk IH] using map_ind; [done|].
      rewrite map_sum_insert by done. lia.
  - unfold pending_any. rewrite filter_app, length_app, filter_cons, filter_nil.
    assert (∀ k, default 0 (m !! k) = pending k ts + if decide (token_fires t = Some k) then 1 else 0)
      as Hm' by (intros k; by rewrite Hm, pending_snoc). clear Hm.
    destruct (token_fires t) as [k|].
    + rewrite decide_True by by eexists.
      pose proof (Hm' k) as Hk. rewrite decide_True in Hk by done.
      pose proof (pending_nonneg k ts). destruct (m !! k) as [x|] eqn:Ek; cbn in Hk; [|lia].
      specialize (IH (<[k := x - 1]> m)). unfold pending_any in IH.
      rewrite (map_sum_update id m k x) in IH by done. cbn [length] in *. unfold id in *.
      rewrite Nat2Z.inj_add, <-IH; [lia|]. intros j. destruct (decide (k = j)) as [<-|Hj].
      * rewrite lookup_insert_eq. cbn. lia.
      * rewrite lookup_insert_ne, Hm' by done. rewrite decide_False by congruence. lia.
    + rewrite decide_False by (intros [? [=]]). cbn [length]. rewrite Nat.add_0_r.
      apply IH. intros k. rewrite Hm', decide_False by done. lia.
Qed.

(** A counter that wraps still changes when it is incremented. *)
Lemma wrap_succ_ne w x : 0 < w → wrap_u w (x + 1) ≠ x.
Proof.
  intros Hw E. unfold wrap_u in E. pose proof (Z.div_mod (x + 1) (2 ^ w)) as D.
  assert (2 ≤ 2 ^ w) as P by (change 2 with (2 ^ 1) at 1; apply Z.pow_le_mono_r; lia).
  rewrite E in D. assert (2 ^ w * ((x + 1) `div` 2 ^ w) = 1) as M by lia.
  apply Z.mul_eq_1 in M. lia.
Qed.

(** ** Loops that update the map they range over

    Go lets the body change or delete the entry it is at. *)
Definition range_update {A} (rg : MapRange A) (f : gmap string A → string → A → gmap string A)
    (m : gmap string A) : gmap string A :=
  foldl (λ m' ka, f m' ka.1 ka.2) m (range_entries rg m).

Lemma range_update_ind {A} (P : gmap string A → Prop) rg f m :
  P m →
  (∀ m' k a, P m' → m' !! k = Some a →
     P (f m' k a) ∧ ∀ j, j ≠ k → f m' k a !! j = m' !! j) →
  P (range_update rg f m).
Proof.
  intros Hm Hstep. unfold range_update.
  assert (NoDup (range_entries rg m).*1) as Hnd.
  { rewrite (range_complete rg m). apply NoDup_fst_map_to_list. }
  assert (∀ k a, (k, a) ∈ range_entries rg m → m !! k = Some a) as Hin.
  { intros k a. apply range_elem. }
  assert (∀ (es : list (string * A)) m', P m' → NoDup es.*1 →
    (∀ k a, (k, a) ∈ es → m' !! k = Some a) →
    P (foldl (λ m' ka, f m' ka.1 ka.2) m' es)) as Hgen; [|by apply Hgen].
  clear m Hm Hnd Hin.
  induction es as [|[k a] es IH]; intros m' Hm Hnd Hin; [done|]. cbn in Hnd |- *.
  apply NoDup_cons in Hnd as [Hk Hnd].
  destruct (Hstep m' k a Hm) as [HP Hother]; [apply Hin; left|].
  apply IH; [done..|]. intros k' a' Hin'. rewrite Hother.
  - apply Hin. by right.
  - intros ->. apply Hk. apply list_elem_of_fmap. by exists (k, a').
Qed.

(** A loop whose body treats entries alike and touches only the key it is at:
    its result at a key is the body's. *)
Lemma entries_loop_lookup {A B} (g : A → option B) (es : list (string * A)) (m : gmap string B) k :
  NoDup es.*1 →
  foldl (λ (m : gmap string B) ka, match g ka.2 with Some b => <[ka.1 := b]> m | None => delete ka.1 m end)
    m es !! k
  = match list_find (λ ka, ka.1 = k) es with Some (_, ka) => g ka.2 | None => m !! k end.
Proof.
  revert m. induction es as [|[j a] es IH]; intros m HN; [done|]. cbn in HN |- *.
  apply NoDup_cons in HN as [Hj HN]. rewrite IH by done. case_decide as E; cbn in E.
  - subst j. assert (list_find (λ ka, ka.1 = k) es = None) as ->.
    { apply list_find_None, Forall_forall. intros [j b] Hb E. cbn in E. subst j.
      apply Hj. apply list_elem_of_fmap. by exists (k, b). }
    cbn. destruct (g a); [by rewrite lookup_insert_eq|by rewrite lookup_delete_eq].
  - destruct (list_find _ es) as [[i [k' a']]|]; cbn; [done|].
    destruct (g a); [by rewrite lookup_insert_ne|by rewrite lookup_delete_ne].
Qed.

Lemma range_nodup {A} (rg : MapRange A) (m : gmap string A) : NoDup (range_entries rg m).*1.
Proof. rewrite (range_complete rg m). apply NoDup_fst_map_to_list. Qed.

Lemma range_find {A} (rg : MapRange A) (m : gmap string A) k :
  match list_find (λ ka, ka.1 = k) (range_entries rg m) with
  | Some (_, ka) => m !! k = Some ka.2 | None => m !! k = None end.
Proof.
  destruct (list_find (λ ka, ka.1 = k) (range_entries rg m)) as [[i [j a]]|] eqn:E.
  - apply list_find_Some in E as (Hi & Hj & _). cbn in Hj. subst j.
    apply list_elem_of_lookup_2, range_elem in Hi. by rewrite Hi.
  - destruct (m !! k) as [a|] eqn:Ek; [|done].
    apply list_find_None in E. rewrite Forall_forall in E.
    exfalso. apply (E (k, a)); [by apply range_elem|done].
Qed.

Lemma range_update_lookup {A} rg f (g : A → option A) (m : gmap string A) k :
  (∀ m' k a, f m' k a = match g a with Some b => <[k := b]> m' | None => delete k m' end) →
  range_update rg f m !! k = m !! k ≫= g.
Proof.
  intros Hf. unfold range_update.
  assert (∀ es (m' : gmap string A), foldl (λ m' ka, f m' ka.1 ka.2) m' es
    = foldl (λ m ka, match g ka.2 with Some b => <[ka.1 := b]> m | None => delete ka.1 m end) m' es) as ->.
  { induction es as [|ka es IH]; intros m'; [done|]. cbn. by rewrite Hf, IH. }
  rewrite entries_loop_lookup by apply range_nodup. pose proof (range_find rg m k) as F.
  destruct (list_find _ _) as [[i ka]|]; by rewrite F.
Qed.

(** The same loop starting from an empty map. *)
Lemma range_rebuild_lookup {A B} (rg : MapRange A) (g : A → option B) (m : gmap string A) k :
  foldl (λ (m' : gmap string B) ka, match g ka.2 with Some b => <[ka.1 := b]> m' | None => delete ka.1 m' end)
    ∅ (range_entries rg m) !! k = m !! k ≫= g.
Proof.
  rewrite entries_loop_lookup by apply range_nodup. pose proof (range_find rg m k) as F.
  rewrite lookup_empty. destruct (list_find _ _) as [[i ka]|]; by rewrite F.
Qed.

(** The scan for the entry seen longest ago, skipping some:
    [if oldestKey == "" || state.lastSeen.Before(oldest) { ... }]. *)
Definition pick_oldest {A} (skip : A → bool) (seen : A → Time)
    (entries : list (string * A)) : string * Time :=
  foldl (λ best ka,
    if skip ka.2 then best
    else if String.eqb best.1 "" || Before (seen ka.2) best.2 then (ka.1, seen ka.2) else best)
    ("", zeroTime) entries.

Lemma pick_oldest_spec {A} skip seen (rg : MapRange A) m :
  (∀ k a, m !! k = Some a → k ≠ "") →
  let k := (pick_oldest skip seen (range_entries rg m)).1 in
  (k = "" → ∀ j a, m !! j = Some a → skip a = true) ∧
  (k ≠ "" → ∃ a, m !! k = Some a ∧ skip a = false ∧
     ∀ j b, m !! j = Some b → skip b = false → seen a ≤ seen b).
Proof.
  intros Hne. unfold pick_oldest. set (F := λ best ka, _).
  assert (∀ es, (∀ k a, (k, a) ∈ es → k ≠ "") →
    let best := foldl F ("", zeroTime) es in
    (best.1 = "" → ∀ j a, (j, a) ∈ es → skip a = true) ∧
    (best.1 ≠ "" → ∃ a, (best.1, a) ∈ es ∧ skip a = false ∧ best.2 = seen a ∧
       ∀ j b, (j, b) ∈ es → skip b = false → seen a ≤ seen b)) as H.
  { induction es as [|[k a] es IH] using rev_ind; intros Hk.
    { cbn. split; [intros _ j a []%not_elem_of_nil|done]. }
    cbn zeta. rewrite foldl_snoc. unfold F at 1 3 5 7. cbn [fst snd].
    assert (k ≠ "") as Hkne by (apply (Hk k a); set_solver).
    destruct IH as [IH1 IH2]; [intros k' a' ?; apply (Hk k' a'); set_solver|].
    set (best := foldl F ("", zeroTime) es) in *.
    destruct (skip a) eqn:Ea.
    - split.
      + intros E j b [?|E'%list_elem_of_singleton]%elem_of_app; [by eapply IH1|by simplify_eq].
      + intros E. destruct (IH2 E) as (b & Hb & Hs & Hv & Hmin). exists b.
        split_and!; [set_solver|done..|].
        intros j c [?|E'%list_elem_of_singleton]%elem_of_app; [by apply (Hmin j)|].
        simplify_eq. congruence.
    - destruct (String.eqb_spec best.1 "") as [E|E]; cbn [orb].
      + cbn. split; [done|]. intros _. exists a. split_and!; [set_solver|done..|].
        intros j c [Hc|E'%list_elem_of_singleton]%elem_of_app; [|by simplify_eq].
        intros Hs. rewrite (IH1 E j c Hc) in Hs. done.
      + destruct (IH2 E) as (b & Hb & Hs & Hv & Hmin). unfold Before. rewrite Hv.
        destruct (Z.ltb_spec (seen a) (seen b)); cbn [fst snd].
        * split; [done|]. intros _. exists a. split_and!; [set_solver|done..|].
          intros j c [Hc|E'%list_elem_of_singleton]%elem_of_app Hs'; [|by simplify_eq].
          specialize (Hmin j c Hc Hs'). lia.
        * split; [done|]. intros _. exists b. split_and!; [set_solver|done..|].
          intros j c [Hc|E'%list_elem_of_singleton]%elem_of_app Hs'; [by apply (Hmin j)|].
          simplify_eq. lia. }
  specialize (H (range_entries rg m)). cbn zeta in H.
  destruct H as [H1 H2]; [intros k a Hk%range_elem; by eapply Hne|].
  split.
  - intros E j a Hj. eapply H1; [done|]. by apply range_elem.
  - intros E. destruct (H2 E) as (a & Ha & Hs & _ & Hmin). exists a.
    split_and!; [by apply range_elem in Ha|done|].
    intros j b Hj. apply (Hmin j b). by apply range_elem.
Qed.
