(* ===== verification/GoStd.v ===== *)
(** * The part of Go's standard library the program uses

    Go strings are byte strings, so they are Rocq [string]s (lists of 8-bit
    characters). This file gives [strings], [strconv], [net] and [net/netip]
    functions as executable definitions written after the documented
    algorithms: [SplitHostPort], [JoinHostPort], [ParseAddr] (IPv4, IPv6,
    embedded IPv4, zones), [IP.String] (RFC 5952), [Atoi] with its 64-bit
    range. Case folding is the ASCII one; white space is Unicode's, in UTF-8. *)

From S2P Require Import Prelude.

#[local] Open Scope Z_scope.

Abbreviation chars := (list Ascii.ascii).

Definition to_chars (s : string) : chars := String.list_ascii_of_string s.
Definition of_chars (l : chars) : string := String.string_of_list_ascii l.
Definition code (c : Ascii.ascii) : Z := Z.of_N (Ascii.N_of_ascii c).
Definition of_code (z : Z) : Ascii.ascii := Ascii.ascii_of_N (Z.to_N z).
Definition slen (s : string) : Z := Z.of_nat (String.length s).

(** ** Package strings *)

Definition HasPrefix (s p : string) : bool := String.prefix p s.

Fixpoint chars_prefix (p l : chars) : bool :=
  match p, l with
  | [], _ => true
  | a :: p, b :: l => Ascii.eqb a b && chars_prefix p l
  | _, _ => false
  end.

Definition HasSuffix (s p : string) : bool :=
  chars_prefix (reverse (to_chars p)) (reverse (to_chars s)).

Fixpoint Contains (s sub : string) : bool :=
  String.prefix sub s ||
  match s with EmptyString => false | String _ t => Contains t sub end.

Definition containsAny (text : string) (needles : list string) : bool :=
  existsb (Contains text) needles.

Definition TrimPrefix (s p : string) : string :=
  if HasPrefix s p then of_chars (drop (String.length p) (to_chars s)) else s.
Definition TrimSuffix (s p : string) : string :=
  if HasSuffix s p
  then of_chars (take (String.length s - String.length p) (to_chars s)) else s.

(** Unicode white space is: the six ASCII blanks, U+0085, U+00A0, U+1680,
    U+2000 to U+200A, U+2028, U+2029, U+202F, U+205F and U+3000. The table
    gives the UTF-8 encodings of the others. *)
Definition ascii_space (c : Ascii.ascii) : bool :=
  let z := code c in (9 <=? z) && (z <=? 13) || (z =? 32).

Definition utf8_spaces : list chars :=
  map (map of_code)
    ([[0xC2; 0x85]; [0xC2; 0xA0]; [0xE1; 0x9A; 0x80]; [0xE2; 0x80; 0xA8];
      [0xE2; 0x80; 0xA9]; [0xE2; 0x80; 0xAF]; [0xE2; 0x81; 0x9F]; [0xE3; 0x80; 0x80]]
     ++ map (λ z, [0xE2; 0x80; z])
          [0x80; 0x81; 0x82; 0x83; 0x84; 0x85; 0x86; 0x87; 0x88; 0x89; 0x8A]).

(** The number of bytes of the white space [l] starts with, for the
    encodings in [tbl]; 0 if there is none. *)
Definition space_width (tbl : list chars) (l : chars) : nat :=
  match l with
  | [] => 0%nat
  | c :: _ =>
      if ascii_space c then 1%nat
      else match List.find (λ p, chars_prefix p l) tbl with
           | Some p => length p
           | None => 0%nat
           end
  end.

Fixpoint trim_front (tbl : list chars) (fuel : nat) (l : chars) : chars :=
  match fuel with
  | O => l
  | S fuel =>
      match space_width tbl l with
      | O => l
      | n => trim_front tbl fuel (drop n l)
      end
  end.

Definition trim_left (l : chars) : chars := trim_front utf8_spaces (length l) l.
Definition trim_right (l : chars) : chars :=
  reverse (trim_front (map reverse utf8_spaces) (length l) (reverse l)).

Definition TrimSpace (s : string) : string := of_chars (trim_right (trim_left (to_chars s))).

Fixpoint drop_in (cut : chars) (l : chars) : chars :=
  match l with
  | c :: t => if existsb (Ascii.eqb c) cut then drop_in cut t else l
  | [] => []
  end.

(** [strings.Trim] and [strings.TrimRight] for an ASCII cutset. *)
Definition Trim (s cutset : string) : string :=
  let cut := to_chars cutset in
  of_chars (reverse (drop_in cut (reverse (drop_in cut (to_chars s))))).
Definition TrimRight (s cutset : string) : string :=
  of_chars (reverse (drop_in (to_chars cutset) (reverse (to_chars s)))).

Definition lower_char (c : Ascii.ascii) : Ascii.ascii :=
  let z := code c in if (65 <=? z) && (z <=? 90) then of_code (z + 32) else c.
Definition upper_char (c : Ascii.ascii) : Ascii.ascii :=
  let z := code c in if (97 <=? z) && (z <=? 122) then of_code (z - 32) else c.
Definition ToLower (s : string) : string := of_chars (map lower_char (to_chars s)).
Definition ToUpper (s : string) : string := of_chars (map upper_char (to_chars s)).

Fixpoint split_on (sep : Ascii.ascii) (l : chars) : list chars :=
  match l with
  | [] => [[]]
  | c :: t =>
      match split_on sep t with
      | [] => [[c]]
      | h :: r => if Ascii.eqb c sep then [] :: h :: r else (c :: h) :: r
      end
  end.

(** [strings.Split] with a one-byte separator. *)
Definition Split (s : string) (sep : Ascii.ascii) : list string :=
  map of_chars (split_on sep (to_chars s)).

Fixpoint Join (l : list string) (sep : string) : string :=
  match l with
  | [] => ""
  | [x] => x
  | x :: t => x +:+ sep +:+ Join t sep
  end.

Fixpoint chars_index (c : Ascii.ascii) (l : chars) : option nat :=
  match l with
  | [] => None
  | d :: t => if Ascii.eqb d c then Some 0%nat else S <$> chars_index c t
  end.

Definition chars_last_index (c : Ascii.ascii) (l : chars) : option nat :=
  (λ i, (length l - S i)%nat) <$> chars_index c (reverse l).

(** [strings.ContainsAny(s, " \t\r\n")] and the like. *)
Definition ContainsAny (s cutset : string) : bool :=
  existsb (λ c, existsb (Ascii.eqb c) (to_chars cutset)) (to_chars s).

(** [strings.ReplaceAll] for a non-empty [old]; [skip] bytes are still part of
    the last occurrence. *)
Fixpoint replace_go (old new : chars) (skip : nat) (l : chars) : chars :=
  match l with
  | [] => []
  | c :: t =>
      match skip with
      | S k => replace_go old new k t
      | O => if chars_prefix old l then new ++ replace_go old new (length old - 1) t
             else c :: replace_go old new 0 t
      end
  end.
Definition ReplaceAll (s old new : string) : string :=
  of_chars (replace_go (to_chars old) (to_chars new) 0 (to_chars s)).

(** [strings.Cut]-style [strings.Index]: the text after the first occurrence. *)
Fixpoint after_first (sub : chars) (l : chars) : option chars :=
  if chars_prefix sub l then Some (drop (length sub) l)
  else match l with [] => None | _ :: t => after_first sub t end.

Fixpoint fields_go (fuel : nat) (cur : chars) (l : chars) : list chars :=
  match fuel, l with
  | _, [] => match cur with [] => [] | _ => [cur] end
  | O, _ => []
  | S fuel, c :: t =>
      match space_width utf8_spaces l with
      | O => fields_go fuel (cur ++ [c]) t
      | w => match cur with
             | [] => fields_go fuel [] (drop w l)
             | _ => cur :: fields_go fuel [] (drop w l)
             end
      end
  end.
(** [strings.Fields] *)
Definition Fields (s : string) : list string :=
  map of_chars (fields_go (String.length s) [] (to_chars s)).

Example replace_fields :
  ReplaceAll "aabaa" "aa" "x" = "xbx" ∧ Fields "  a bc  d " = ["a"; "bc"; "d"] ∧
  after_first (to_chars "b") (to_chars "abcb") = Some (to_chars "cb").
Proof. vm_compute. repeat split; reflexivity. Qed.

(** ** Package strconv *)

Definition digit_of (c : Ascii.ascii) : option Z :=
  let z := code c in if (48 <=? z) && (z <=? 57) then Some (z - 48) else None.

Fixpoint digits_value (acc : Z) (l : chars) : option Z :=
  match l with
  | [] => Some acc
  | c :: t => d ← digit_of c; digits_value (acc * 10 + d) t
  end.

Definition parse_digits (l : chars) : option Z :=
  match l with [] => None | _ => digits_value 0 l end.

(** [strconv.Atoi]: an optional sign, decimal digits, the range of [int64]. *)
Definition Atoi (s : string) : option Z :=
  let l := to_chars s in
  r ← match l with
      | c :: t => if code c =? 45 then Z.opp <$> parse_digits t
                  else if code c =? 43 then parse_digits t
                  else parse_digits l
      | [] => None
      end;
  if (min_i64 <=? r) && (r <=? max_i64) then Some r else None.

(** [strconv.ParseUint(s, 10, 32)]. *)
Definition ParseUint32 (s : string) : option Z :=
  r ← parse_digits (to_chars s); if r <? 2 ^ 32 then Some r else None.

Definition Itoa (z : Z) : string := pretty z.

(** [fmt.Sprintf("%0<width>d", z)] of a number that is not negative. *)
Definition ItoaPad (width : nat) (z : Z) : string :=
  let digits := Itoa z in
  of_chars (replicate (width - String.length digits) "0"%char) +:+ digits.

(** [%q] for the printable bytes, with the escapes of the common others. *)
Definition quote_char (c : Ascii.ascii) : string :=
  let z := code c in
  if z =? 34 then of_chars [of_code 92; of_code 34]
  else if z =? 92 then of_chars [of_code 92; of_code 92]
  else if z =? 10 then "\n"
  else if z =? 13 then "\r"
  else if z =? 9 then "\t"
  else of_chars [c].
Definition quote (s : string) : string :=
  let q := of_chars [of_code 34] in
  q +:+ foldr (λ c r, quote_char c +:+ r) "" (to_chars s) +:+ q.

(** ** Package net: host and port *)

Definition colon : Ascii.ascii := ":"%char.
Definition dot : Ascii.ascii := "."%char.
Definition lbracket : Ascii.ascii := "["%char.
Definition rbracket : Ascii.ascii := "]"%char.
Definition percent : Ascii.ascii := "%"%char.

Definition has_char (c : Ascii.ascii) (l : chars) : bool := existsb (Ascii.eqb c) l.

Definition addrErr {A} (addr why : string) : result A :=
  Err ("address " +:+ addr +:+ ": " +:+ why).

(** [net.SplitHostPort]. *)
Definition SplitHostPort (hostport : string) : result (string * string) :=
  let l := to_chars hostport in
  match chars_last_index colon l with
  | None => addrErr hostport "missing port in address"
  | Some i =>
      let finish (host : chars) (j k : nat) : result (string * string) :=
        if has_char lbracket (drop j l) then addrErr hostport "unexpected '[' in address"
        else if has_char rbracket (drop k l) then addrErr hostport "unexpected ']' in address"
        else Ok (of_chars host, of_chars (drop (S i) l)) in
      match l with
      | c :: _ =>
          if Ascii.eqb c lbracket then
            match chars_index rbracket l with
            | None => addrErr hostport "missing ']' in address"
            | Some e =>
                if (S e =? length l)%nat then addrErr hostport "missing port in address"
                else if (S e =? i)%nat then finish (drop 1 (take e l)) 1%nat (S e)
                else match l !! S e with
                     | Some d => if Ascii.eqb d colon
                                 then addrErr hostport "too many colons in address"
                                 else addrErr hostport "missing port in address"
                     | None => addrErr hostport "missing port in address"
                     end
            end
          else if has_char colon (take i l) then addrErr hostport "too many colons in address"
          else finish (take i l) 0%nat 0%nat
      | [] => addrErr hostport "missing port in address"
      end
  end.

(** [net.JoinHostPort]. *)
Definition JoinHostPort (host port : string) : string :=
  if has_char colon (to_chars host)
  then "[" +:+ host +:+ "]:" +:+ port else host +:+ ":" +:+ port.

(** ** Packages net and net/netip: IP addresses

    An address is IPv4 (four bytes) or IPv6 (sixteen bytes and a zone). *)

Inductive netipAddr : Type :=
| Addr4 (b : list Z)
| Addr6 (b : list Z) (zone : string).

(** [parseIPv4Fields]: [val] and [digLen] are the octet read so far, [prev] is
    whether the previous byte was a dot, [fields] the octets read. *)
Fixpoint parseIPv4Fields (val : Z) (digLen : nat) (prevDot : bool) (fields : list Z)
    (l : chars) : option (list Z) :=
  match l with
  | [] => if (length fields =? 3)%nat then Some (fields ++ [val]) else None
  | c :: t =>
      match digit_of c with
      | Some d =>
          if (digLen =? 1)%nat && (val =? 0) then None
          else let v := val * 10 + d in
               if 255 <? v then None
               else parseIPv4Fields v (S digLen) false fields t
      | None =>
          if Ascii.eqb c dot then
            if prevDot || (length t =? 0)%nat then None
            else if (length fields =? 3)%nat then None
            else parseIPv4Fields 0 0%nat true (fields ++ [val]) t
          else None
      end
  end.

Definition parseIPv4 (l : chars) : option (list Z) :=
  match l with
  | [] => None
  | _ => parseIPv4Fields 0 0%nat true [] l
  end.

Definition hex_digit (c : Ascii.ascii) : option Z :=
  let z := code c in
  if (48 <=? z) && (z <=? 57) then Some (z - 48)
  else if (97 <=? z) && (z <=? 102) then Some (z - 87)
  else if (65 <=? z) && (z <=? 70) then Some (z - 55)
  else None.

(** The hexadecimal digits a group starts with: at most four, the value, how
    many were read, and the rest; [None] when there are more than four. *)
Fixpoint hex_group (off : nat) (acc : Z) (l : chars) : option (Z * nat * chars) :=
  match l with
  | c :: t =>
      match hex_digit c with
      | Some d => if (3 <? off)%nat then None else hex_group (S off) (acc * 16 + d) t
      | None => Some (acc, off, l)
      end
  | [] => Some (acc, off, [])
  end.

Definition zeros (n : nat) : list Z := replicate n 0.

(** The end of [parseIPv6]: the bytes read, where the "::" stood. *)
Definition ipv6_finish (bytes : list Z) (ellipsis : option nat) (rest : chars)
    (zone : string) : option netipAddr :=
  match rest with
  | _ :: _ => None
  | [] =>
      if (length bytes <? 16)%nat then
        match ellipsis with
        | None => None
        | Some e => Some (Addr6 (take e bytes ++ zeros (16 - length bytes) ++ drop e bytes) zone)
        end
      else match ellipsis with None => Some (Addr6 bytes zone) | Some _ => None end
  end.

(** The loop of [parseIPv6]; each round reads one group, eight at most. *)
Fixpoint ipv6_groups (fuel : nat) (bytes : list Z) (ellipsis : option nat) (l : chars)
    (zone : string) : option netipAddr :=
  match fuel with
  | O => ipv6_finish bytes ellipsis l zone
  | S fuel =>
      if (16 <=? length bytes)%nat then ipv6_finish bytes ellipsis l zone
      else
      '(acc, off, rest) ← hex_group 0 0 l;
      if (off =? 0)%nat then None
      else match rest with
      | [] => ipv6_finish (bytes ++ [acc / 256; acc `mod` 256]) ellipsis [] zone
      | c :: t =>
          if Ascii.eqb c dot then
            if bool_decide (ellipsis = None) && negb (length bytes =? 12)%nat then None
            else if (16 <? length bytes + 4)%nat then None
            else v4 ← parseIPv4Fields 0 0%nat true [] l;
                 ipv6_finish (bytes ++ v4) ellipsis [] zone
          else
            let bytes' := bytes ++ [acc / 256; acc `mod` 256] in
            if negb (Ascii.eqb c colon) then None
            else match t with
            | [] => None
            | c2 :: t2 =>
                if Ascii.eqb c2 colon then
                  match ellipsis with
                  | Some _ => None
                  | None =>
                      match t2 with
                      | [] => ipv6_finish bytes' (Some (length bytes')) [] zone
                      | _ => ipv6_groups fuel bytes' (Some (length bytes')) t2 zone
                      end
                  end
                else ipv6_groups fuel bytes' ellipsis t zone
            end
      end
  end.

Definition parseIPv6 (l : chars) : option netipAddr :=
  '(s, zone) ← match chars_index percent l with
               | None => Some (l, [])
               | Some i => match drop (S i) l with
                           | [] => None
                           | z => Some (take i l, z)
                           end
               end;
  match s with
  | c1 :: c2 :: t =>
      if Ascii.eqb c1 colon && Ascii.eqb c2 colon then
        match t with
        | [] => Some (Addr6 (zeros 16) (of_chars zone))
        | _ => ipv6_groups 8 [] (Some 0%nat) t (of_chars zone)
        end
      else ipv6_groups 8 [] None s (of_chars zone)
  | _ => ipv6_groups 8 [] None s (of_chars zone)
  end.

(** [netip.ParseAddr] looks for the first dot, colon or percent sign. *)
Fixpoint parse_addr_kind (whole l : chars) : option netipAddr :=
  match l with
  | [] => None
  | c :: t =>
      if Ascii.eqb c dot then Addr4 <$> parseIPv4 whole
      else if Ascii.eqb c colon then parseIPv6 whole
      else if Ascii.eqb c percent then None
      else parse_addr_kind whole t
  end.

Definition ParseAddr (s : string) : option netipAddr :=
  parse_addr_kind (to_chars s) (to_chars s).

(** A [net.IP] of the 16-byte form, as [net.ParseIP] returns it. *)
Definition v4InV6Prefix : list Z := zeros 10 ++ [255; 255].

Definition ParseIP (s : string) : option (list Z) :=
  match ParseAddr s with
  | Some (Addr4 b) => Some (v4InV6Prefix ++ b)
  | Some (Addr6 b zone) => if String.eqb zone "" then Some b else None
  | None => None
  end.

Definition To4 (ip : list Z) : option (list Z) :=
  if bool_decide (take 12 ip = v4InV6Prefix) then Some (drop 12 ip) else None.

Definition byte_at (l : list Z) (i : nat) : Z := default 0 (l !! i).

Definition IsPrivate (ip : list Z) : bool :=
  match To4 ip with
  | Some b => (byte_at b 0 =? 10)
              || (byte_at b 0 =? 172) && (Z.land (byte_at b 1) 0xf0 =? 16)
              || (byte_at b 0 =? 192) && (byte_at b 1 =? 168)
  | None => (length ip =? 16)%nat && (Z.land (byte_at ip 0) 0xfe =? 0xfc)
  end.

Definition v6Loopback : list Z := zeros 15 ++ [1].

Definition IsLoopback (ip : list Z) : bool :=
  match To4 ip with
  | Some b => byte_at b 0 =? 127
  | None => bool_decide (ip = v6Loopback)
  end.

Definition IsLinkLocalUnicast (ip : list Z) : bool :=
  match To4 ip with
  | Some b => (byte_at b 0 =? 169) && (byte_at b 1 =? 254)
  | None => (length ip =? 16)%nat && (byte_at ip 0 =? 0xfe)
            && (Z.land (byte_at ip 1) 0xc0 =? 0x80)
  end.

(** [addr.Unmap().IsLoopback()]. *)
Definition unmapped_loopback (a : netipAddr) : bool :=
  match a with
  | Addr4 b => byte_at b 0 =? 127
  | Addr6 b _ => IsLoopback b
  end.

Definition hex_char (d : Z) : Ascii.ascii :=
  if d <? 10 then of_code (48 + d) else of_code (87 + d).

(** Lower-case hexadecimal without leading zeros, of a 16-bit value. *)
Definition hex16 (v : Z) : string :=
  let ds := [v / 4096; (v / 256) `mod` 16; (v / 16) `mod` 16; v `mod` 16] in
  match list_find (λ d, d ≠ 0) ds with
  | Some (i, _) => of_chars (map hex_char (drop i ds))
  | None => "0"
  end.

Definition v6u16 (ip : list Z) (i : nat) : Z :=
  byte_at ip (2 * i) * 256 + byte_at ip (2 * i + 1).

Fixpoint zero_run (ip : list Z) (fuel i : nat) : nat :=
  match fuel with
  | O => 0%nat
  | S fuel => if (i <? 8)%nat && (v6u16 ip i =? 0) then S (zero_run ip fuel (S i)) else 0%nat
  end.

(** The first of the longest runs of at least two zero groups. *)
Definition longest_zero_run (ip : list Z) : option (nat * nat) :=
  foldl (λ best i,
    let l := zero_run ip 8 i in
    let cur := match best with Some (s, e) => (e - s)%nat | None => 0%nat end in
    if (2 <=? l)%nat && (cur <? l)%nat then Some (i, (i + l)%nat) else best)
    None (seq 0 8).

Fixpoint v6_groups_text (ip : list Z) (run : option (nat * nat)) (fuel i : nat) : string :=
  match fuel with
  | O => ""
  | S fuel =>
      if (8 <=? i)%nat then ""
      else match run with
      | Some (s, e) =>
          if (i =? s)%nat then
            if (8 <=? e)%nat then "::"
            else "::" +:+ hex16 (v6u16 ip e) +:+ v6_groups_text ip run fuel (S e)
          else (if (0 <? i)%nat then ":" else "") +:+ hex16 (v6u16 ip i)
               +:+ v6_groups_text ip run fuel (S i)
      | None => (if (0 <? i)%nat then ":" else "") +:+ hex16 (v6u16 ip i)
                +:+ v6_groups_text ip run fuel (S i)
      end
  end.

(** [IP.String] of a 16-byte address. *)
Definition IPString (ip : list Z) : string :=
  match To4 ip with
  | Some b => Join (map Itoa b) "."
  | None => v6_groups_text ip (longest_zero_run ip) 8 0
  end.

(** Checks of the model against the documented behaviour. *)
Example parse_v4 : ParseIP "10.1.2.3" = Some (v4InV6Prefix ++ [10; 1; 2; 3]).
Proof. reflexivity. Qed.
Example parse_v4_leading_zero : ParseIP "10.01.2.3" = None.
Proof. reflexivity. Qed.
Example parse_v4_short : ParseIP "10.1.2" = None /\ ParseIP "10.1.2." = None.
Proof. split; reflexivity. Qed.
Example ip_string_v6 :
  IPString <$> ParseIP "2001:0DB8:0:0:1:0:0:1" = Some "2001:db8::1:0:0:1".
Proof. vm_compute. reflexivity. Qed.
Example ip_string_mapped : IPString <$> ParseIP "::ffff:10.0.0.1" = Some "10.0.0.1".
Proof. vm_compute. reflexivity. Qed.
Example parse_v6_zone : ParseIP "fe80::1%eth0" = None.
Proof. reflexivity. Qed.
Example split_v6 : SplitHostPort "[::1]:80" = Ok ("::1", "80").
Proof. reflexivity. Qed.
Example split_bad : SplitHostPort "::1:80" = addrErr "::1:80" "too many colons in address".
Proof. reflexivity. Qed.
Example trim_nbsp : TrimSpace " x y  " = "x y".
Proof. vm_compute. reflexivity. Qed.

(** [sort.Strings] compares bytes. *)
Definition string_le (s t : string) : Prop := String.leb s t = true.
#[export] Instance string_le_dec s t : Decision (string_le s t) := bool_eq_dec _ _.

(** ** Lemmas about the model *)

Lemma string_le_total s t : string_le s t ∨ string_le t s.
Proof.
  unfold string_le, String.leb. rewrite (String.compare_antisym s t).
  destruct (String.compare t s); cbn; auto.
Qed.

Lemma of_to_chars s : of_chars (to_chars s) = s.
Proof. apply String.string_of_list_ascii_of_string. Qed.
Lemma to_of_chars l : to_chars (of_chars l) = l.
Proof. apply String.list_ascii_of_string_of_list_ascii. Qed.
Lemma to_chars_app s t : to_chars (s +:+ t) = to_chars s ++ to_chars t.
Proof. induction s as [|c s IH]; simpl; [done|]. f_equal. apply IH. Qed.
Lemma string_app_assoc s t u : s +:+ (t +:+ u) = (s +:+ t) +:+ u.
Proof.
  induction s as [|c s IH]; [done|].
  change (String c (s +:+ (t +:+ u)) = String c ((s +:+ t) +:+ u)). by rewrite IH.
Qed.
Lemma string_app_nil_r s : s +:+ "" = s.
Proof. induction s as [|c s IH]; [done|]. change (String c (s +:+ "") = String c s). by rewrite IH. Qed.
Lemma to_chars_inj s t : to_chars s = to_chars t → s = t.
Proof. intros E. rewrite <-(of_to_chars s), <-(of_to_chars t). by f_equal. Qed.
Lemma length_to_chars s : length (to_chars s) = String.length s.
Proof. induction s as [|c s IH]; simpl; [done|]. f_equal. apply IH. Qed.
Create Rewrite HintDb gostd_rw.
#[export] Hint Rewrite to_chars_app of_to_chars to_of_chars length_to_chars : gostd_rw.

Definition is_digit (c : Ascii.ascii) : bool := bool_decide (is_Some (digit_of c)).

Lemma is_digit_spec c : is_digit c = true ↔ ∃ d, digit_of c = Some d ∧ 0 ≤ d ≤ 9.
Proof.
  unfold is_digit. rewrite bool_decide_eq_true. split.
  - intros [d Hd]. exists d. split; [done|]. unfold digit_of in Hd.
    destruct ((48 <=? code c) && (code c <=? 57)) eqn:E; simplify_eq/=. bool_lia.
  - naive_solver.
Qed.

(** Decimal text: what [Itoa] prints is digits only, and reads back. *)
Lemma pretty_N_char_digit x : (x < 10)%N → digit_of (pretty_N_char x) = Some (Z.of_N x).
Proof.
  intros Hx. assert (x = 0 ∨ x = 1 ∨ x = 2 ∨ x = 3 ∨ x = 4 ∨ x = 5 ∨ x = 6 ∨ x = 7
    ∨ x = 8 ∨ x = 9)%N by lia. naive_solver.
Qed.

Lemma digits_value_pretty n s a :
  ∃ k, 0 ≤ k ∧ digits_value a (to_chars (pretty_N_go n s))
               = digits_value (a * 10 ^ k + Z.of_N n) (to_chars s).
Proof.
  revert s. induction (N.lt_wf_0 n) as [n _ IH]; intros s.
  destruct (decide (n = 0)%N) as [->|Hn].
  { exists 0. rewrite pretty_N_go_0. split; [lia|]. f_equal. lia. }
  rewrite pretty_N_go_step by lia.
  destruct (IH (n `div` 10)%N) with (s := String (pretty_N_char (n `mod` 10)) s)
    as (k & Hk & E); [apply N.div_lt; lia|].
  exists (k + 1). split; [lia|]. rewrite E. cbn [to_chars String.list_ascii_of_string digits_value].
  rewrite pretty_N_char_digit by (apply N.mod_lt; lia). cbn [mbind option_bind].
  f_equal. rewrite Z.pow_add_r, Z.pow_1_r, N2Z.inj_mod, N2Z.inj_div by lia.
  change (Z.of_N 10) with 10.
  pose proof (Z.div_mod (Z.of_N n) 10 ltac:(lia)) as E'. rewrite E' at 3. ring.
Qed.

Lemma pretty_N_go_digits n s :
  Forall (λ c, is_digit c = true) (to_chars s) →
  Forall (λ c, is_digit c = true) (to_chars (pretty_N_go n s)).
Proof.
  revert s. induction (N.lt_wf_0 n) as [n _ IH]; intros s Hs.
  destruct (decide (n = 0)%N) as [->|Hn]; [by rewrite pretty_N_go_0|].
  rewrite pretty_N_go_step by lia. apply IH; [apply N.div_lt; lia|].
  constructor; [|done]. apply is_digit_spec. eexists.
  rewrite pretty_N_char_digit by (apply N.mod_lt; lia). split; [done|].
  pose proof (N.mod_lt n 10 ltac:(lia)) as Hm. revert Hm.
  generalize (n `mod` 10)%N. lia.
Qed.

Lemma Itoa_nonneg z : 0 ≤ z → Itoa z = pretty (Z.to_N z).
Proof. by destruct z. Qed.

Lemma Itoa_digits z : 0 ≤ z → Forall (λ c, is_digit c = true) (to_chars (Itoa z)).
Proof.
  intros Hz. rewrite Itoa_nonneg by done. unfold pretty, pretty_N. case_decide.
  - by repeat constructor.
  - by apply pretty_N_go_digits.
Qed.

Lemma parse_digits_Itoa z : 0 ≤ z → parse_digits (to_chars (Itoa z)) = Some z.
Proof.
  intros Hz. rewrite Itoa_nonneg by done. unfold pretty, pretty_N. case_decide as H0.
  - replace z with 0 by lia. done.
  - assert (digits_value 0 (to_chars (pretty_N_go (Z.to_N z) "")) = Some z) as E.
    { destruct (digits_value_pretty (Z.to_N z) "" 0) as (k & _ & ->).
      cbn. f_equal. lia. }
    unfold parse_digits. destruct (to_chars _) eqn:El; [|done].
    exfalso. cbn in E. assert (z = 0) by congruence. lia.
Qed.

Lemma Itoa_head z : 0 ≤ z → ∃ c t, to_chars (Itoa z) = c :: t ∧ is_digit c = true.
Proof.
  intros Hz. pose proof (parse_digits_Itoa z Hz). pose proof (Itoa_digits z Hz) as F.
  destruct (to_chars (Itoa z)) as [|c t]; [done|]. inversion F. eauto.
Qed.

(** [strconv.Atoi] undoes [strconv.Itoa] on the non-negative [int]s. *)
Lemma Atoi_Itoa z : 0 ≤ z ≤ max_i64 → Atoi (Itoa z) = Some z.
Proof.
  intros Hz. destruct (Itoa_head z) as (c & t & E & Hc); [lia|].
  pose proof (parse_digits_Itoa z ltac:(lia)) as P.
  unfold Atoi. rewrite E in *.
  apply is_digit_spec in Hc as (d & Hd & Hr). unfold digit_of in Hd.
  destruct ((48 <=? code c) && (code c <=? 57)) eqn:B; simplify_eq.
  destruct (Z.eqb_spec (code c) 45) as [?|_]; [bool_lia|].
  destruct (Z.eqb_spec (code c) 43) as [?|_]; [bool_lia|].
  rewrite P. cbn [mbind option_bind].
  replace (min_i64 <=? z) with true by (symmetry; unfold min_i64; bool_lia).
  replace (z <=? max_i64) with true by (symmetry; bool_lia). done.
Qed.

Lemma Atoi_range s n : Atoi s = Some n → min_i64 ≤ n ≤ max_i64.
Proof.
  unfold Atoi. intros H. apply bind_Some in H as (r & _ & H).
  destruct ((min_i64 <=? r) && (r <=? max_i64)) eqn:E; simplify_eq. bool_lia.
Qed.

Lemma has_char_false c l : has_char c l = false ↔ Forall (λ d, c ≠ d) l.
Proof.
  induction l as [|d l IH]; cbn; [by split|].
  rewrite orb_false_iff, Forall_cons, Ascii.eqb_neq.
  unfold has_char in IH. naive_solver.
Qed.

Lemma chars_index_none c l : chars_index c l = None ↔ has_char c l = false.
Proof.
  induction l as [|d l IH]; cbn; [done|].
  rewrite (Ascii.eqb_sym c d). destruct (Ascii.eqb d c); cbn; [by split|].
  destruct (chars_index c l); cbn; naive_solver.
Qed.

Lemma chars_index_app c l r : has_char c l = false → chars_index c (l ++ c :: r) = Some (length l).
Proof.
  induction l as [|d l IH]; cbn.
  - by rewrite Ascii.eqb_refl.
  - rewrite orb_false_iff, (Ascii.eqb_sym c d). intros [-> H]. by rewrite IH.
Qed.

Lemma has_char_app c l r : has_char c (l ++ r) = has_char c l || has_char c r.
Proof. apply existsb_app. Qed.

Lemma has_char_reverse c l : has_char c (reverse l) = has_char c l.
Proof.
  induction l as [|d l IH]; [done|].
  rewrite reverse_cons, has_char_app, IH. cbn. rewrite orb_false_r. apply orb_comm.
Qed.

Lemma chars_last_index_app c l r :
  has_char c r = false → chars_last_index c (l ++ c :: r) = Some (length l).
Proof.
  intros H. unfold chars_last_index.
  rewrite reverse_app, reverse_cons, <-(assoc_L (++)). cbn [app].
  rewrite chars_index_app by (by rewrite has_char_reverse).
  cbn. f_equal. rewrite length_reverse, length_app. cbn. lia.
Qed.

Lemma digits_no_char c l :
  is_digit c = false → Forall (λ d, is_digit d = true) l → has_char c l = false.
Proof.
  intros Hc H. apply has_char_false. eapply Forall_impl; [done|].
  cbn. intros d Hd ->. congruence.
Qed.

(** A host without colons or brackets and a port of digits survive
    [JoinHostPort] followed by [SplitHostPort]. *)
Lemma SplitHostPort_JoinHostPort host z :
  0 ≤ z →
  has_char colon (to_chars host) = false →
  has_char lbracket (to_chars host) = false →
  has_char rbracket (to_chars host) = false →
  SplitHostPort (JoinHostPort host (Itoa z)) = Ok (host, Itoa z).
Proof.
  intros Hz Hc Hl Hr. pose proof (Itoa_digits z Hz) as Hd.
  unfold JoinHostPort. rewrite Hc. unfold SplitHostPort.
  rewrite !to_chars_app. change (to_chars ":") with [colon]. cbn [app].
  pose proof (digits_no_char colon _ eq_refl Hd).
  rewrite chars_last_index_app by done.
  assert (has_char lbracket (to_chars host ++ colon :: to_chars (Itoa z)) = false) as Hl'.
  { rewrite has_char_app, Hl. cbn. by apply (digits_no_char lbracket). }
  assert (has_char rbracket (to_chars host ++ colon :: to_chars (Itoa z)) = false) as Hr'.
  { rewrite has_char_app, Hr. cbn. by apply (digits_no_char rbracket). }
  destruct (to_chars host ++ colon :: to_chars (Itoa z)) as [|c t] eqn:E.
  { by destruct (to_chars host). }
  assert (Ascii.eqb c lbracket = false) as ->.
  { cbn in Hl'. rewrite Ascii.eqb_sym. by apply orb_false_iff in Hl' as [? _]. }
  rewrite <-E, take_app_length, Hc, !drop_0, E, Hl', Hr', <-E.
  rewrite of_to_chars. do 2 f_equal.
  replace (S (length (to_chars host))) with (length (to_chars host ++ [colon]))
    by (rewrite length_app; cbn; lia).
  change (colon :: to_chars (Itoa z)) with ([colon] ++ to_chars (Itoa z)).
  rewrite (assoc_L (++)), drop_app_length. apply of_to_chars.
Qed.

(** [strings.Split] on a separator undoes joining pieces that lack it. *)
Lemma split_on_app sep l r :
  has_char sep l = false → split_on sep (l ++ sep :: r) = l :: split_on sep r.
Proof.
  induction l as [|c l IH]; cbn.
  - rewrite Ascii.eqb_refl. by destruct (split_on sep r) eqn:E; destruct r; cbn in E;
      try (destruct (split_on sep r); try destruct (Ascii.eqb _ _); discriminate).
  - rewrite orb_false_iff, (Ascii.eqb_sym sep c). intros [Hc H].
    rewrite IH by done. by rewrite Hc.
Qed.

Lemma split_on_none sep l : has_char sep l = false → split_on sep l = [l].
Proof.
  induction l as [|c l IH]; cbn; [done|].
  rewrite orb_false_iff, (Ascii.eqb_sym sep c). intros [Hc H].
  rewrite IH by done. by rewrite Hc.
Qed.

(** [TrimSpace] leaves a text alone whose first and last bytes are neither
    ASCII blanks nor part of a multi-byte sequence. *)
Definition plain_char (c : Ascii.ascii) : bool := negb (ascii_space c) && (code c <? 128).

Definition multibyte (tbl : list chars) : bool :=
  forallb (λ p, match p with [] => false | d :: _ => 128 <=? code d end) tbl.

Lemma space_width_plain tbl c l :
  multibyte tbl = true →
  plain_char c = true → space_width tbl (c :: l) = 0%nat.
Proof.
  intros Ht Hc. unfold plain_char in Hc. apply andb_true_iff in Hc as [Hs Hc].
  cbn. apply negb_true_iff in Hs as ->.
  destruct (List.find _ tbl) as [p|] eqn:E; [|done].
  apply List.find_some in E as [Hin Hp].
  unfold multibyte in Ht. rewrite forallb_forall in Ht. specialize (Ht p Hin).
  destruct p as [|d p]; [done|]. cbn in Hp. apply andb_true_iff in Hp as [Hp _].
  apply Ascii.eqb_eq in Hp. subst. bool_lia.
Qed.

Lemma trim_front_plain tbl fuel l :
  multibyte tbl = true →
  match l with c :: _ => plain_char c = true | [] => True end →
  trim_front tbl fuel l = l.
Proof.
  intros Ht Hl. destruct fuel as [|fuel]; [done|]. cbn [trim_front].
  destruct l as [|c l]; [done|]. by rewrite space_width_plain.
Qed.

Lemma TrimSpace_plain s :
  Forall (λ c, plain_char c = true) (to_chars s) → TrimSpace s = s.
Proof.
  intros H. unfold TrimSpace, trim_left, trim_right.
  assert (∀ l, Forall (λ c, plain_char c = true) l →
    match l with c :: _ => plain_char c = true | [] => True end) as Hd.
  { intros [|c l]; [done|]. by inversion 1. }
  rewrite (trim_front_plain utf8_spaces); [|reflexivity|by apply Hd].
  rewrite trim_front_plain; [|reflexivity|apply Hd; by apply Forall_reverse].
  rewrite reverse_involutive. apply of_to_chars.
Qed.

Lemma digits_plain l :
  Forall (λ c, is_digit c = true) l → Forall (λ c, plain_char c = true) l.
Proof.
  intros F. eapply Forall_impl; [exact F|]. intros c Hc.
  apply is_digit_spec in Hc as (d & Hd & Hr).
  unfold digit_of in Hd. destruct ((48 <=? code c) && (code c <=? 57)) eqn:B; simplify_eq.
  unfold plain_char, ascii_space. apply andb_true_iff. split; [|bool_lia].
  apply negb_true_iff. apply andb_true_iff in B as [B1 B2].
  apply Z.leb_le in B1, B2.
  destruct (Z.leb_spec (code c) 13); [lia|]. rewrite andb_false_r. cbn. apply Z.eqb_neq. lia.
Qed.

Lemma HasPrefix_app p s : HasPrefix (p +:+ s) p = true.
Proof.
  unfold HasPrefix. induction p as [|c p IH]; [by destruct s|].
  change (String c p +:+ s) with (String c (p +:+ s)). cbn [String.prefix].
  destruct (Ascii.ascii_dec c c) as [_|n]; [exact IH|by destruct n].
Qed.

Lemma TrimPrefix_app p s : TrimPrefix (p +:+ s) p = s.
Proof.
  unfold TrimPrefix. rewrite HasPrefix_app, to_chars_app.
  rewrite <-length_to_chars, drop_app_length. apply of_to_chars.
Qed.

Lemma HasSuffix_last s p l q c e :
  to_chars s = l ++ [c] → to_chars p = q ++ [e] → c ≠ e → HasSuffix s p = false.
Proof.
  intros Es Ep Hne. unfold HasSuffix. rewrite Es, Ep, !reverse_app. cbn.
  destruct (Ascii.eqb_spec e c); [congruence|done].
Qed.

Lemma drop_in_head cut c l : existsb (Ascii.eqb c) cut = false → drop_in cut (c :: l) = c :: l.
Proof. cbn. by intros ->. Qed.

Lemma Trim_ends s cutset c l e q :
  to_chars s = c :: l → to_chars s = q ++ [e] →
  existsb (Ascii.eqb c) (to_chars cutset) = false →
  existsb (Ascii.eqb e) (to_chars cutset) = false →
  Trim s cutset = s.
Proof.
  intros E1 E2 Hc He. unfold Trim. rewrite E1, drop_in_head, <-E1, E2 by done.
  rewrite reverse_app. cbn [app reverse]. rewrite reverse_singleton. cbn [app].
  rewrite drop_in_head by done. rewrite reverse_cons, reverse_involutive, <-E2.
  apply of_to_chars.
Qed.

Lemma digit_code c : is_digit c = true → 48 ≤ code c ≤ 57.
Proof.
  intros (d & Hd & _)%is_digit_spec. unfold digit_of in Hd.
  destruct ((48 <=? code c) && (code c <=? 57)) eqn:B; simplify_eq. bool_lia.
Qed.

Lemma lower_char_digit c : is_digit c = true → lower_char c = c.
Proof.
  intros Hd%digit_code. unfold lower_char.
  destruct (Z.leb_spec 65 (code c)); [lia|]. done.
Qed.

Lemma ToLower_id s : Forall (λ c, lower_char c = c) (to_chars s) → ToLower s = s.
Proof.
  intros H. unfold ToLower. apply to_chars_inj. rewrite to_of_chars.
  induction H as [|c l Hc _ IH]; cbn; [done|]. by rewrite Hc, IH.
Qed.

Lemma Itoa_last z : 0 ≤ z → ∃ c l, to_chars (Itoa z) = l ++ [c] ∧ is_digit c = true.
Proof.
  intros Hz. pose proof (Itoa_digits z Hz) as F.
  destruct (Itoa_head z Hz) as (c & t & E & _).
  destruct (exists_last (l := to_chars (Itoa z))) as (l & x & El); [by rewrite E|].
  exists x, l. split; [done|]. rewrite El, Forall_app in F. by destruct F as [_ [? _]%Forall_cons].
Qed.

Lemma Itoa_neq_empty z : 0 ≤ z → String.eqb (Itoa z) "" = false.
Proof.
  intros Hz. destruct (Itoa_head z Hz) as (d & t & E & _). by destruct (Itoa z).
Qed.

(** ** [TrimSpace] trims everything *)

Lemma space_width_pos tbl l : (space_width tbl l <= length l)%nat.
Proof.
  destruct l as [|c l]; [done|]. cbn -[Ascii.eqb]. destruct (ascii_space c); [lia|].
  destruct (List.find _ tbl) as [p|] eqn:E; [|lia].
  apply List.find_some in E as [_ Hp].
  assert (∀ p l, chars_prefix p l = true → (length p <= length l)%nat) as Hlen.
  { clear. induction p as [|a p IH]; intros [|b l] H; cbn in *; try lia; try done.
    apply andb_true_iff in H as [_ H]. apply IH in H. lia. }
  by apply Hlen in Hp.
Qed.

Lemma trim_front_trimmed tbl fuel l :
  (length l <= fuel)%nat → space_width tbl (trim_front tbl fuel l) = 0%nat.
Proof.
  revert l. induction fuel as [|fuel IH]; intros l Hl; cbn [trim_front].
  - destruct l; [done|cbn in Hl; lia].
  - destruct (space_width tbl l) as [|n] eqn:E; [done|]. apply IH.
    rewrite length_drop. pose proof (space_width_pos tbl l). lia.
Qed.

Lemma trim_front_id tbl fuel l : space_width tbl l = 0%nat → trim_front tbl fuel l = l.
Proof. intros H. destruct fuel; cbn [trim_front]; [done|by rewrite H]. Qed.

Lemma chars_prefix_app p l r : chars_prefix p l = true → chars_prefix p (l ++ r) = true.
Proof.
  revert l. induction p as [|a p IH]; intros [|b l] H; cbn in *; try done.
  apply andb_true_iff in H as [-> H]. by apply IH.
Qed.

(** Nothing new is blank at the front when the end is cut off. *)
Lemma space_width_prefix l r :
  space_width utf8_spaces (l ++ r) = 0%nat → space_width utf8_spaces l = 0%nat.
Proof.
  destruct l as [|c l]; [done|]. cbn [app space_width].
  destruct (ascii_space c); [done|].
  destruct (List.find _ utf8_spaces) as [p|] eqn:E.
  - intros Hp. apply List.find_some in E as [E _]. exfalso. clear -E Hp. revert Hp.
    repeat (destruct E as [<-|E]; [done|]). destruct E.
  - intros _. destruct (List.find (λ p, chars_prefix p (c :: l)) utf8_spaces) as [p|] eqn:E'; [|done].
    apply List.find_some in E' as [Hin Hp].
    apply (List.find_none _ _ E) in Hin. cbn beta in Hin.
    rewrite app_comm_cons in Hin. by rewrite (chars_prefix_app _ _ r Hp) in Hin.
Qed.

Lemma trim_front_suffix tbl fuel l : ∃ p, l = p ++ trim_front tbl fuel l.
Proof.
  revert l. induction fuel as [|fuel IH]; intros l; cbn [trim_front]; [by exists []|].
  destruct (space_width tbl l) as [|n]; [by exists []|].
  destruct (IH (drop (S n) l)) as [p Hp]. exists (take (S n) l ++ p).
  by rewrite <-app_assoc, <-Hp, take_drop.
Qed.

Lemma trim_right_prefix l : ∃ r, l = trim_right l ++ r.
Proof.
  unfold trim_right. destruct (trim_front_suffix (map reverse utf8_spaces) (length l) (reverse l))
    as [p Hp]. exists (reverse p). rewrite <-reverse_app, <-Hp. by rewrite reverse_involutive.
Qed.

Lemma TrimSpace_idemp s : TrimSpace (TrimSpace s) = TrimSpace s.
Proof.
  unfold TrimSpace. rewrite to_of_chars. f_equal.
  set (a := trim_left (to_chars s)).
  assert (space_width utf8_spaces (trim_right a) = 0%nat) as Ha.
  { destruct (trim_right_prefix a) as [r Hr]. apply (space_width_prefix _ r). rewrite <-Hr.
    by apply trim_front_trimmed. }
  assert (trim_left (trim_right a) = trim_right a) as ->.
  { unfold trim_left. by apply trim_front_id. }
  unfold trim_right at 1. rewrite trim_front_id.
  - by rewrite reverse_involutive.
  - unfold trim_right. rewrite reverse_involutive. apply trim_front_trimmed.
    by rewrite length_reverse.
Qed.

(** Joining lines that contain no separator and splitting again. *)
Lemma to_chars_Join_cons x y ls sep :
  to_chars (Join (x :: y :: ls) (String sep "")) = to_chars x ++ sep :: to_chars (Join (y :: ls) (String sep "")).
Proof. cbn [Join]. by rewrite !to_chars_app. Qed.

Lemma Split_Join sep ls :
  ls ≠ [] → Forall (λ l, has_char sep (to_chars l) = false) ls →
  Split (Join ls (String sep "")) sep = ls.
Proof.
  intros Hne H. unfold Split. induction ls as [|x ls IH]; [done|].
  apply Forall_cons in H as [Hx H]. destruct ls as [|y ls].
  - cbn [Join]. rewrite split_on_none by done. cbn. by rewrite of_to_chars.
  - rewrite to_chars_Join_cons, split_on_app by done. cbn [map].
    rewrite of_to_chars. f_equal. by apply IH.
Qed.

Lemma split_on_no_sep sep l : Forall (λ x, has_char sep x = false) (split_on sep l).
Proof.
  induction l as [|c l IH]; cbn [split_on]; [by repeat constructor|].
  destruct (split_on sep l) as [|h r] eqn:E.
  - destruct l; cbn in E; [done|]. destruct (split_on sep l); [done|]. by case_match.
  - apply Forall_cons in IH as [Hh Hr]. destruct (Ascii.eqb c sep) eqn:Ec.
    + by repeat constructor.
    + constructor; [|done]. cbn. by rewrite Ascii.eqb_sym, Ec.
Qed.

Lemma split_on_ne sep l : split_on sep l ≠ [].
Proof. destruct l as [|c l]; cbn; [done|]. destruct (split_on sep l); [done|]. by case_match. Qed.

Lemma split_on_snoc sep l : split_on sep (l ++ [sep]) = split_on sep l ++ [[]].
Proof.
  induction l as [|c l IH]; cbn; [by rewrite Ascii.eqb_refl|].
  rewrite IH. destruct (split_on sep l) as [|h r] eqn:E; [by apply split_on_ne in E|].
  cbn. by destruct (Ascii.eqb c sep).
Qed.

Lemma HasSuffix_char s c : HasSuffix s (String c "") = true → ∃ t, s = t +:+ String c "".
Proof.
  unfold HasSuffix. change (reverse (to_chars (String c ""))) with [c].
  destruct (reverse (to_chars s)) as [|d r] eqn:E; [done|]. cbn.
  rewrite andb_true_r. intros <-%Ascii.eqb_eq. exists (of_chars (reverse r)).
  apply to_chars_inj. rewrite to_chars_app, to_of_chars.
  rewrite <-(reverse_involutive (to_chars s)), E, reverse_cons. done.
Qed.

Lemma ReplaceAll_none s c old new :
  has_char c (to_chars s) = false → ReplaceAll s (String c old) new = s.
Proof.
  intros H. unfold ReplaceAll. rewrite <-(of_to_chars s) at 2. f_equal.
  cbn [to_chars String.list_ascii_of_string].
  change (String.list_ascii_of_string s) with (to_chars s).
  induction (to_chars s) as [|d l IH]; [done|]. cbn [has_char existsb] in H.
  apply orb_false_iff in H as [Hc H]. cbn [replace_go chars_prefix].
  rewrite Hc. cbn [andb]. by rewrite IH.
Qed.

(** Texts are computed with [vm_compute]; simplification leaves them alone. *)
#[global] Arguments TrimSpace _ : simpl never.
#[global] Arguments SplitHostPort _ : simpl never.
#[global] Arguments JoinHostPort _ _ : simpl never.
#[global] Arguments ToLower _ : simpl never.
#[global] Arguments ToUpper _ : simpl never.
#[global] Arguments Itoa _ : simpl never.
#[global] Arguments Atoi _ : simpl never.
#[global] Arguments quote _ : simpl never.
#[global] Arguments ParseIP _ : simpl never.
#[global] Arguments IPString _ : simpl never.
#[global] Arguments Split _ _ : simpl never.
