(* ===== verification/Disk.v ===== *)
(** * Paths, files and lines (packages path/filepath, os and bufio)

    Paths are slash-separated. A disk maps the cleaned paths of the files that
    exist to their contents; which reads, writes and directory creations fail,
    with what error, and what a failed write leaves in the file, is a parameter
    of the disk, so that every theorem about code that handles files holds for
    every behaviour of the file system. *)

From S2P Require Import Prelude.
From S2P Require Import GoStd.

#[local] Open Scope Z_scope.

(** ** Package path/filepath *)

Definition slash : Ascii.ascii := "/"%char.

Definition clean_elem (rooted : bool) (out : list string) (e : string) : list string :=
  if String.eqb e "" || String.eqb e "." then out
  else if String.eqb e ".." then
    match reverse out with
    | [] => if rooted then [] else [".."]
    | l :: r => if String.eqb l ".." then out ++ [".."] else reverse r
    end
  else out ++ [e].

Definition Clean (path : string) : string :=
  if String.eqb path "" then "."
  else
    let rooted := HasPrefix path "/" in
    let out := Join (foldl (clean_elem rooted) [] (Split path slash)) "/" in
    if rooted then "/" +:+ out else if String.eqb out "" then "." else out.

(** The text up to and including the last slash, and the rest. *)
Definition split_last_slash (path : string) : string * string :=
  let l := to_chars path in
  match chars_last_index slash l with
  | Some i => (of_chars (take (S i) l), of_chars (drop (S i) l))
  | None => ("", path)
  end.

Definition Dir (path : string) : string := Clean (split_last_slash path).1.

Definition Base (path : string) : string :=
  if String.eqb path "" then "."
  else
    let trimmed := TrimRight path "/" in
    if String.eqb trimmed "" then "/" else (split_last_slash trimmed).2.

Definition Ext (path : string) : string :=
  let base := to_chars (split_last_slash path).2 in
  match chars_last_index dot base with
  | Some i => of_chars (drop i base)
  | None => ""
  end.

(** [filepath.Join]: empty elements are dropped. *)
Definition JoinPaths (elems : list string) : string :=
  match filter (λ e, String.eqb e "" = false) elems with
  | [] => ""
  | es => Clean (Join es "/")
  end.
Definition JoinPath (a b : string) : string := JoinPaths [a; b].

Definition IsAbs (path : string) : bool := HasPrefix path "/".

(** The elements of a clean path: the first one of a rooted path is empty. *)
Definition path_elems (path : string) : list string :=
  if String.eqb path "." then [] else if String.eqb path "/" then [""] else Split path slash.

(** What is left of both after the elements they share. *)
Fixpoint drop_common (base targ : list string) : list string * list string :=
  match base, targ with
  | b :: bs, t :: ts => if String.eqb b t then drop_common bs ts else (base, targ)
  | _, _ => (base, targ)
  end.

Definition Rel (basepath targpath : string) : result string :=
  let base := Clean basepath in
  let targ := Clean targpath in
  let fail := Err ("Rel: can't make " +:+ targpath +:+ " relative to " +:+ basepath) in
  if String.eqb targ base then Ok "."
  else if negb (Bool.eqb (IsAbs base) (IsAbs targ)) then fail
  else match drop_common (path_elems base) (if String.eqb targ "." then ["."] else path_elems targ) with
  | ([], ts) => Ok (Join ts "/")
  | (b :: bs, ts) =>
      if String.eqb b ".." && negb (bool_decide (ts = [])) then fail
      else Ok (Join (replicate (S (length bs)) ".." ++ ts) "/")
  end.

Example relative_paths :
  Rel "/etc/lsyl" "/etc/lsyl/certs/a.key" = Ok "certs/a.key" ∧ Rel "/a/b" "/c" = Ok "../../c" ∧
  Rel "." "certs/a" = Ok "certs/a" ∧ is_ok (Rel ".." "a") = false ∧ Rel "/" "/a" = Ok "a" ∧
  Rel "/a" "/" = Ok ".." ∧ is_ok (Rel "a" "/a") = false.
Proof. vm_compute. repeat split; reflexivity. Qed.

Example paths :
  map Clean ["./"; "a//b/../c/."; "/../x"; "../../a"; ""] = ["."; "a/c"; "/x"; "../../a"; "."] ∧
  map Dir ["logs/x.jsonl"; "/x"; "x"] = ["logs"; "/"; "."] ∧
  map Base ["logs/x.jsonl"; "logs/"; "/"] = ["x.jsonl"; "logs"; "/"] ∧
  map Ext ["logs/x.jsonl"; "a.b/c"; ".env"; "x."] = [".jsonl"; ""; ".env"; "."] ∧
  JoinPath "." "x-1.jsonl" = "x-1.jsonl".
Proof. vm_compute. repeat split; reflexivity. Qed.

(** ** Files *)

Record Disk := mkDisk {
  dk_files : gmap string string;
  dk_readErr : string → option string;
  dk_openErr : string → option string;
  dk_mkdirErr : string → option string;
  dk_writeErr : string → option (string * option string)
}.

Inductive readResult := ReadNotExist | ReadErr (e : string) | ReadData (text : string).

Definition set_file (d : Disk) (path : string) (t : option string) : Disk :=
  mkDisk (partial_alter (λ _, t) path (dk_files d))
    (dk_readErr d) (dk_openErr d) (dk_mkdirErr d) (dk_writeErr d).

Definition ReadFile (d : Disk) (path : string) : readResult :=
  match dk_readErr d path with
  | Some e => ReadErr e
  | None => match dk_files d !! path with None => ReadNotExist | Some t => ReadData t end
  end.

Definition not_exist (path : string) : string := "open " +:+ path +:+ ": no such file or directory".

(** [os.ReadFile], when what kind of error it gave does not matter. *)
Definition read_file (d : Disk) (path : string) : result string :=
  match ReadFile d path with
  | ReadNotExist => Err (not_exist path)
  | ReadErr e => Err e
  | ReadData data => Ok data
  end.

Definition MkdirAll (d : Disk) (path : string) : result unit :=
  match dk_mkdirErr d path with Some e => Err e | None => Ok tt end.

Definition WriteFile (d : Disk) (path data : string) : Disk * result unit :=
  match dk_writeErr d path with
  | Some (e, left_there) => (set_file d path left_there, Err e)
  | None => (set_file d path (Some data), Ok tt)
  end.

(** [os.OpenFile] with [O_CREATE|O_APPEND|O_WRONLY], and a write to such a
    file. *)
Definition OpenAppend (d : Disk) (path : string) : Disk * result unit :=
  match dk_openErr d path with
  | Some e => (d, Err e)
  | None => (set_file d path (Some (default "" (dk_files d !! path))), Ok tt)
  end.
Definition WriteOpen (d : Disk) (path data : string) : Disk * result unit :=
  WriteFile d path (default "" (dk_files d !! path) +:+ data).

(** A disk on which every operation succeeds. *)
Definition goodDisk (files : gmap string string) : Disk :=
  mkDisk files (λ _, None) (λ _, None) (λ _, None) (λ _, None).

(** ** Encodings of files *)

(** The YAML library: its decoder starts from Go's zero value. *)
Class YAMLCodec (A : Type) := {
  yaml_marshal : A → result string;
  yaml_unmarshal : string → result A
}.

(** ** The calendar of the machine

    Local time depends on the machine's time zone. *)
Class LocalTime := {
  FormatRFC3339 : Time → string;
  ParseRFC3339 : string → option Time;
  FormatDate : Time → string;        (* "2006-01-02" in local time *)
  FormatStamp : Time → string;       (* "20060102T150405" in local time *)
  FormatMonth : Time → string;       (* "2006-01" in local time *)
  CivilDate : Time → Z * Z * Z;      (* t.In(time.Local).Date() *)
  MakeDate : Z → Z → Z → Time;       (* time.Date(y, m, d, 0, 0, 0, 0, time.Local) *)
  AddMonths : Time → Z → Time;       (* t.AddDate(0, n, 0) *)
  AddDays : Time → Z → Time          (* t.AddDate(0, 0, n) *)
}.

(** ** Lines ([bufio.Scanner] with [ScanLines])

    A line ends at a newline or at the end of a non-empty rest, and loses one
    trailing carriage return; a line of [max] bytes or more stops the scan. *)

Definition newline : Ascii.ascii := "010"%char.
Definition carriage : Ascii.ascii := "013"%char.
Definition nl : string := String newline "".
Definition cr : string := String carriage "".

Definition drop_cr (l : chars) : chars :=
  match reverse l with
  | c :: r => if Ascii.eqb c carriage then reverse r else l
  | [] => l
  end.

Fixpoint cut_lines (max : Z) (ls : list chars) : list string * result unit :=
  match ls with
  | [] | [[]] => ([], Ok tt)
  | l :: ls =>
      if max <=? Z.of_nat (length l) then ([], Err "bufio.Scanner: token too long")
      else let '(out, e) := cut_lines max ls in (of_chars (drop_cr l) :: out, e)
  end.

Definition ScanLines (max : Z) (text : string) : list string * result unit :=
  cut_lines max (split_on newline (to_chars text)).

Definition MaxScanTokenSize : Z := 64 * 1024.

Example scan : ScanLines 8 ("a" +:+ cr +:+ nl +:+ nl +:+ "b" +:+ nl +:+ "12345678" +:+ nl +:+ "c")
  = (["a"; ""; "b"], Err "bufio.Scanner: token too long") ∧
  ScanLines 8 ("a" +:+ nl) = (["a"], Ok tt) ∧ ScanLines 8 "a" = (["a"], Ok tt).
Proof. vm_compute. repeat split; reflexivity. Qed.

(** ** Which operations fail never changes *)

Definition same_errors (d d' : Disk) : Prop :=
  dk_readErr d' = dk_readErr d ∧ dk_openErr d' = dk_openErr d ∧
  dk_mkdirErr d' = dk_mkdirErr d ∧ dk_writeErr d' = dk_writeErr d.

#[export] Instance same_errors_refl : Reflexive same_errors.
Proof. by repeat split. Qed.
#[export] Instance same_errors_trans : Transitive same_errors.
Proof. intros d1 d2 d3 (A1&A2&A3&A4) (B1&B2&B3&B4). repeat split; congruence. Qed.

Lemma WriteFile_errors d p x : same_errors d (WriteFile d p x).1.
Proof. unfold WriteFile. by destruct (dk_writeErr d p) as [[? ?]|]. Qed.
Lemma OpenAppend_errors d p : same_errors d (OpenAppend d p).1.
Proof. unfold OpenAppend. by destruct (dk_openErr d p). Qed.

Definition no_errors (d : Disk) : Prop :=
  ∀ p, dk_readErr d p = None ∧ dk_openErr d p = None ∧ dk_mkdirErr d p = None ∧ dk_writeErr d p = None.

Lemma no_errors_same d d' : same_errors d d' → no_errors d → no_errors d'.
Proof. intros (A1&A2&A3&A4) H p. rewrite A1, A2, A3, A4. apply H. Qed.

(** ** Cleaned paths *)

Definition plain_elem (e : string) : Prop :=
  e ≠ "" ∧ e ≠ "." ∧ e ≠ ".." ∧ has_char slash (to_chars e) = false.

(** The elements [Clean] keeps: parents first, and none below the root. *)
Definition clean_elems (rooted : bool) (out : list string) : Prop :=
  ∃ k rest, out = replicate k ".." ++ rest ∧ Forall plain_elem rest ∧ (rooted = true → k = 0%nat).

Lemma clean_elem_ok rooted out e :
  clean_elems rooted out → has_char slash (to_chars e) = false → clean_elems rooted (clean_elem rooted out e).
Proof.
  intros (k & rest & -> & Hrest & Hk) He. unfold clean_elem.
  destruct (String.eqb_spec e ""), (String.eqb_spec e "."); cbn [orb]; try (by exists k, rest).
  destruct (String.eqb_spec e "..") as [->|].
  - destruct rest as [|x rest _] using rev_ind.
    + rewrite app_nil_r. destruct k as [|k].
      * cbn. destruct rooted; [by exists 0%nat, []|]. by exists 1%nat, [].
      * rewrite reverse_replicate. cbn [replicate]. exists (S (S k)), []. rewrite app_nil_r.
        split_and!; [symmetry; apply (replicate_S_end (S k))|constructor|].
        intros E. by apply Hk in E.
    + rewrite app_assoc, reverse_snoc. apply Forall_app in Hrest as [Hrest Hx]. apply Forall_singleton in Hx as (_ & _ & Hx & _).
      destruct (String.eqb_spec x ".."); [done|]. rewrite reverse_involutive. by exists k, rest.
  - exists k, (rest ++ [e]). rewrite app_assoc. split_and!; [done| |done]. apply Forall_app. split; [done|]. by repeat constructor.
Qed.

Lemma clean_fold_ok rooted es : ∀ out,
  clean_elems rooted out → Forall (λ e, has_char slash (to_chars e) = false) es →
  clean_elems rooted (foldl (clean_elem rooted) out es).
Proof.
  induction es as [|e es IH]; intros out Ho Hes; [done|]. apply Forall_cons in Hes as [He Hes].
  cbn [foldl]. apply IH; [by apply clean_elem_ok|done].
Qed.

(** Cleaning clean elements changes nothing. *)
Lemma clean_fold_id rooted out : clean_elems rooted out → foldl (clean_elem rooted) [] out = out.
Proof.
  intros (k & rest & -> & Hrest & Hk). rewrite foldl_app.
  assert (foldl (clean_elem rooted) [] (replicate k "..") = replicate k "..") as ->.
  { destruct rooted; [by rewrite Hk|]. clear. induction k as [|k IH]; [done|].
    rewrite replicate_S_end, foldl_app, IH. cbn. unfold clean_elem. cbn.
    destruct (reverse (replicate k "..")) as [|l r] eqn:E.
    - apply (f_equal reverse) in E. rewrite reverse_involutive in E. by rewrite E.
    - assert (l ∈ replicate k "..") as Hl by (rewrite <-elem_of_reverse, E; apply list_elem_of_here).
      apply elem_of_replicate in Hl as [-> _]. done. }
  generalize (replicate k ".."). clear Hk. induction Hrest as [|e rest (H1 & H2 & H3 & _) _ IH]; intros p.
  { cbn. by rewrite app_nil_r. }
  cbn [foldl]. rewrite (IH (clean_elem rooted p e)). unfold clean_elem.
  destruct (String.eqb_spec e ""), (String.eqb_spec e "."), (String.eqb_spec e ".."); try done. cbn [orb].
  by rewrite <-app_assoc.
Qed.

Lemma clean_elems_named rooted out : clean_elems rooted out → Forall (λ e, e ≠ "" ∧ has_char slash (to_chars e) = false) out.
Proof.
  intros (k & rest & -> & Hrest & _). apply Forall_app. split.
  - by apply Forall_replicate.
  - eapply Forall_impl; [done|]. by intros e (? & _ & _ & ?).
Qed.

Lemma prefix_no_slash e t : e ≠ "" → has_char slash (to_chars e) = false → HasPrefix (e +:+ t) "/" = false.
Proof.
  destruct e as [|c e]; [done|]. intros _ H. cbn in H. apply orb_false_iff in H as [H _].
  unfold HasPrefix. change (String c e +:+ t) with (String c (e +:+ t)). cbn [String.prefix].
  by destruct (Ascii.ascii_dec "/" c) as [<-|].
Qed.

Lemma Clean_idemp path : Clean (Clean path) = Clean path.
Proof.
  unfold Clean at 2 3. destruct (String.eqb_spec path ""); [done|]. cbv zeta.
  set (rooted := HasPrefix path "/").
  pose proof (clean_fold_ok rooted (Split path slash) []) as Hok.
  assert (clean_elems rooted []) as Hnil by (by exists 0%nat, []).
  specialize (Hok Hnil). set (out := foldl _ _ _) in *.
  assert (clean_elems rooted out) as Hout.
  { apply Hok. unfold Split. apply Forall_map. eapply Forall_impl; [apply split_on_no_sep|].
    intros l Hl. by rewrite to_of_chars. }
  clearbody out rooted. clear Hok. pose proof (clean_elems_named _ _ Hout) as Hn.
  assert (out ≠ [] → Split (Join out "/") slash = out) as Hsplit.
  { intros Hne. apply Split_Join; [done|]. eapply Forall_impl; [exact Hn|]. by intros ? [_ ?]. }
  assert (out ≠ [] → Join out "/" ≠ "" ∧ HasPrefix (Join out "/") "/" = false) as Hjoin.
  { intros Hne. destruct out as [|e out]; [done|]. apply Forall_cons in Hn as [[He Hs] _].
    destruct out as [|e' out]; cbn [Join]; [split; [done|]; by rewrite <-(string_app_nil_r e); apply prefix_no_slash|].
    split; [by destruct e|by apply prefix_no_slash]. }
  destruct rooted.
  - unfold Clean. cbn [String.eqb]. assert (HasPrefix ("/" +:+ Join out "/") "/" = true) as -> by (by destruct (Join out "/")).
    assert (foldl (clean_elem true) [] (Split ("/" +:+ Join out "/") slash) = out) as ->; [|done].
    unfold Split. cbn [to_chars]. rewrite to_chars_app. change (to_chars "/") with ([] ++ [slash]).
    rewrite <-app_assoc. change ([slash] ++ to_chars (Join out "/")) with (slash :: to_chars (Join out "/")). rewrite split_on_app by done. cbn [map foldl clean_elem]. change (of_chars []) with "". cbn [String.eqb orb].
    destruct (decide (out = [])) as [->|Hne]; [done|]. fold (Split (Join out "/") slash).
    rewrite Hsplit by done. by apply clean_fold_id.
  - destruct (decide (out = [])) as [->|Hne]; [done|]. destruct (Hjoin Hne) as [H1 H2].
    destruct (String.eqb_spec (Join out "/") ""); [done|]. unfold Clean.
    destruct (String.eqb_spec (Join out "/") ""); [done|]. rewrite H2, Hsplit by done. cbv zeta.
    rewrite clean_fold_id by done. by destruct (String.eqb_spec (Join out "/") "").
Qed.

Lemma Clean_JoinPath a b : b ≠ "" → Clean (JoinPath a b) = JoinPath a b.
Proof.
  intros Hb. unfold JoinPath, JoinPaths. rewrite !filter_cons, filter_nil.
  destruct (String.eqb_spec b ""); [done|]. rewrite (decide_True (P := false = false)) by done.
  destruct (decide (String.eqb a "" = false)); apply Clean_idemp.
Qed.

(** ** Lines without a carriage return *)

Lemma drop_cr_id l : has_char carriage l = false → drop_cr l = l.
Proof.
  intros H. unfold drop_cr. rewrite <-has_char_reverse in H.
  destruct (reverse l) as [|c r]; [done|]. cbn [has_char existsb] in H. apply orb_false_iff in H as [H _].
  by rewrite Ascii.eqb_sym, H.
Qed.
