(* ===== verification/Version.v ===== *)
(** * Versions and their comparison (src/internal/version/version.go)

    Three-part versions as arrays of three [int]s, the comparison used for
    every compatibility decision, and the minimum and maximum checks of
    configuration files. Theorems: parsing undoes printing; [Compare] is the
    lexicographic order of the parsed parts, so [Less] is a strict weak order;
    [CheckMin] and [CheckMax] accept exactly the versions in range. *)

From S2P Require Import Prelude.
From S2P Require Import GoStd.

#[local] Open Scope Z_scope.

Definition AppVersion : string := "3.1.1".
Definition LegacyClientVersion : string := "1.1.0".
Definition ClientConfigVersion : Z := 2.
Definition ClientConfigRequiresClientVersion : string := "2.1.0".
Definition ServerConfigVersion : Z := 1.
Definition ServerConfigRequiresServerVersion : string := "2.0.0".
Definition ProtocolVersion : Z := 3.
Definition LegacyProtocolVersion : Z := 1.
Definition MinCompatibleClientVersion : string := "3.0.0".

(** The loop of [parse] over the parts, [i] the index of the next one. *)
Fixpoint parse_parts (i : Z) (parts : list string) : result (list Z) :=
  match parts with
  | [] => Ok []
  | part :: rest =>
      if String.eqb part "" then Err ("version part " +:+ Itoa (i + 1) +:+ " is empty")
      else match Atoi part with
      | Some n =>
          if n <? 0 then Err ("version part " +:+ Itoa (i + 1) +:+ " is invalid")
          else (cons n) <$> parse_parts (i + 1) rest
      | None => Err ("version part " +:+ Itoa (i + 1) +:+ " is invalid")
      end
  end.

Definition parse (v : string) : result (list Z) :=
  let v := TrimSpace (TrimPrefix v "v") in
  let parts := Split v dot in
  if negb (length parts =? 3)%nat then Err "version must have three parts"
  else parse_parts 0 parts.

(** [for i := range left]: the first differing part decides. *)
Fixpoint compare_parts (lhs rhs : list Z) : Z :=
  match lhs, rhs with
  | l :: lhs, r :: rhs =>
      if l <? r then -1 else if r <? l then 1 else compare_parts lhs rhs
  | _, _ => 0
  end.

Definition Compare (a b : string) : result Z :=
  lhs ← parse a;
  rhs ← parse b;
  Ok (compare_parts lhs rhs).

Definition Less (a b : string) : result bool := cmp ← Compare a b; Ok (cmp <? 0).
Definition Greater (a b : string) : result bool := cmp ← Compare a b; Ok (0 <? cmp).
Definition Validate (v : string) : result unit := _ ← parse v; Ok tt.

Definition CheckMin (current minimum subject : string) : result unit :=
  let minimum := TrimSpace minimum in
  if String.eqb minimum "" then Ok tt
  else match Less current minimum with
  | Err e => Err (subject +:+ " requires invalid minimum version " +:+ quote minimum +:+ ": " +:+ e)
  | Ok less =>
      if less then Err (subject +:+ " requires version >= " +:+ minimum
                        +:+ ", current version is " +:+ current)
      else Ok tt
  end.

Definition CheckMax (current maximum subject : string) : result unit :=
  let maximum := TrimSpace maximum in
  if String.eqb maximum "" then Ok tt
  else match Greater current maximum with
  | Err e => Err (subject +:+ " requires invalid maximum version " +:+ quote maximum +:+ ": " +:+ e)
  | Ok greater =>
      if greater then Err (subject +:+ " requires version <= " +:+ maximum
                           +:+ ", current version is " +:+ current)
      else Ok tt
  end.

(** ** Well-formedness of parsed versions *)

Definition valid_version (v : list Z) : Prop :=
  length v = 3%nat ∧ Forall (λ n, 0 ≤ n ≤ max_i64) v.

Lemma parse_parts_spec i parts v :
  parse_parts i parts = Ok v →
  length v = length parts ∧ Forall (λ n, 0 ≤ n ≤ max_i64) v.
Proof.
  revert i v. induction parts as [|p ps IH]; intros i v H; simplify_eq/=; [done|].
  destruct (String.eqb p ""); [done|].
  destruct (Atoi p) as [n|] eqn:E; [|done].
  destruct (Z.ltb_spec n 0); [done|].
  destruct (parse_parts (i + 1) ps) as [v'|] eqn:Ev; simplify_eq/=.
  apply IH in Ev as [Hl Hf]. apply Atoi_range in E.
  split; [by f_equal|]. constructor; [lia|done].
Qed.

Lemma parse_valid v p : parse v = Ok p → valid_version p.
Proof.
  unfold parse. destruct (length _ =? 3)%nat eqn:E; [|done]. cbn [negb].
  intros H%parse_parts_spec. apply Nat.eqb_eq in E. split; [lia|apply H].
Qed.

(** ** The order on parsed versions *)

Inductive version_lt : list Z → list Z → Prop :=
| version_lt_head l r ls rs : l < r → version_lt (l :: ls) (r :: rs)
| version_lt_tail l ls rs : version_lt ls rs → version_lt (l :: ls) (l :: rs).

#[export] Hint Constructors version_lt : gostd.

Lemma compare_parts_lt a b :
  length a = length b → compare_parts a b < 0 ↔ version_lt a b.
Proof.
  revert b. induction a as [|x a IH]; intros [|y b]; try done; cbn.
  { split; [lia|inversion 1]. }
  intros [= Hl]. destruct (Z.ltb_spec x y); [split; [eauto with gostd|lia]|].
  destruct (Z.ltb_spec y x).
  - split; [lia|]. inversion 1; lia.
  - assert (x = y) as -> by lia. rewrite IH by done.
    split; [eauto with gostd|]. inversion 1; [lia|done].
Qed.

Lemma compare_parts_antisym a b : compare_parts a b = - compare_parts b a.
Proof.
  revert b. induction a as [|x a IH]; intros [|y b]; try done; cbn.
  destruct (Z.ltb_spec x y), (Z.ltb_spec y x); try lia. apply IH.
Qed.

Lemma compare_parts_eq a b :
  length a = length b → compare_parts a b = 0 ↔ a = b.
Proof.
  revert b. induction a as [|x a IH]; intros [|y b]; try done; cbn; intros [= Hl].
  destruct (Z.ltb_spec x y), (Z.ltb_spec y x); try (split; [lia|intros [=]; lia]).
  assert (x = y) as -> by lia. rewrite IH by done. naive_solver.
Qed.

Lemma version_lt_trans a b c : version_lt a b → version_lt b c → version_lt a c.
Proof.
  intros H. revert c. induction H; intros c Hc; inversion Hc; subst; eauto with gostd.
  constructor. lia.
Qed.

Lemma version_lt_irrefl a : ¬ version_lt a a.
Proof. induction a; inversion 1; [lia|done]. Qed.

Lemma version_lt_total a b :
  length a = length b → version_lt a b ∨ a = b ∨ version_lt b a.
Proof.
  intros Hl. rewrite <-!compare_parts_lt by done. rewrite <-compare_parts_eq by done.
  rewrite (compare_parts_antisym b a). lia.
Qed.

(** ** Properties *)


(** Printing three non-negative [int]s with dots between them, with or without
    a leading [v], and parsing the text gives the numbers back. *)
Theorem parse_print a b c :
  0 ≤ a ≤ max_i64 → 0 ≤ b ≤ max_i64 → 0 ≤ c ≤ max_i64 →
  let text := Itoa a +:+ "." +:+ Itoa b +:+ "." +:+ Itoa c in
  parse text = Ok [a; b; c] ∧ parse ("v" +:+ text) = Ok [a; b; c].
Proof.
  intros Ha Hb Hc text.
  pose proof (Itoa_digits a ltac:(lia)) as Da. pose proof (Itoa_digits b ltac:(lia)) as Db.
  pose proof (Itoa_digits c ltac:(lia)) as Dc.
  assert (TrimSpace text = text) as Htrim.
  { apply TrimSpace_plain. subst text. autorewrite with gostd_rw.
    repeat (apply Forall_app; split); try (by apply digits_plain); by repeat constructor. }
  assert (TrimPrefix text "v" = text) as Hno.
  { destruct (Itoa_head a ltac:(lia)) as (d & t & E & Hd).
    assert (∃ s, text = String d s) as [s ->].
    { subst text. destruct (Itoa a) as [|d' s'] eqn:Ea; [done|]. cbn in E.
      injection E as <- _. cbn. eauto. }
    unfold TrimPrefix, HasPrefix. cbn [String.prefix].
    destruct (Ascii.ascii_dec _ _) as [<-|]; [done|done]. }
  assert (TrimPrefix ("v" +:+ text) "v" = text) as Hv.
  { apply TrimPrefix_app. }
  unfold parse. rewrite Hno, Hv, Htrim.
  assert (Split text dot = [Itoa a; Itoa b; Itoa c]) as ->.
  { unfold Split. subst text. autorewrite with gostd_rw.
    change (to_chars ".") with [dot]. cbn [app].
    rewrite !split_on_app by (by apply digits_no_char).
    rewrite split_on_none by (by apply digits_no_char). cbn. by rewrite !of_to_chars. }
  assert (∀ z, 0 ≤ z → String.eqb (Itoa z) "" = false) as Hne.
  { intros z Hz. destruct (Itoa_head z Hz) as (d & t & E & _). by destruct (Itoa z). }
  cbn [length Nat.eqb negb parse_parts].
  rewrite !Hne, !Atoi_Itoa by lia.
  destruct (Z.ltb_spec a 0), (Z.ltb_spec b 0), (Z.ltb_spec c 0); try lia. done.
Qed.

Lemma parse_print_witness :
  parse "v3.1.1" = Ok [3; 1; 1] ∧ parse (Itoa 3 +:+ "." +:+ Itoa 1 +:+ "." +:+ Itoa 1) = Ok [3; 1; 1].
Proof.
  destruct (parse_print 3 1 1) as [H1 H2]; [unfold max_i64; lia..|]. split; assumption.
Defined.

(** [Compare] is the lexicographic order of the parsed parts. *)
Lemma Compare_lex a b pa pb :
  parse a = Ok pa → parse b = Ok pb →
  Compare a b = Ok (compare_parts pa pb) ∧
  (compare_parts pa pb < 0 ↔ version_lt pa pb) ∧
  (compare_parts pa pb = 0 ↔ pa = pb) ∧
  (compare_parts pa pb > 0 ↔ version_lt pb pa).
Proof.
  intros Ha Hb. unfold Compare. rewrite Ha, Hb. cbn. split; [done|].
  apply parse_valid in Ha as [La _]. apply parse_valid in Hb as [Lb _].
  rewrite compare_parts_lt, compare_parts_eq, <-(compare_parts_lt pb pa) by congruence.
  rewrite (compare_parts_antisym pa pb). split_and!; [done..|lia].
Qed.

Lemma Compare_inv a b r :
  Compare a b = Ok r →
  ∃ pa pb, parse a = Ok pa ∧ parse b = Ok pb ∧ r = compare_parts pa pb.
Proof.
  intros (pa & Ha & Hr)%bind_ok. apply bind_ok in Hr as (pb & Hb & Hr).
  simplify_eq. eauto.
Qed.

Lemma Less_ok a b r :
  Less a b = Ok r →
  ∃ pa pb, parse a = Ok pa ∧ parse b = Ok pb ∧ (r = true ↔ version_lt pa pb).
Proof.
  intros (cmp & H & Hr)%bind_ok. simplify_eq.
  apply Compare_inv in H as (pa & pb & Ha & Hb & ->).
  destruct (Compare_lex a b pa pb) as (_ & Hlt & _); [done..|].
  exists pa, pb. by rewrite Z.ltb_lt.
Qed.

Lemma Greater_ok a b r :
  Greater a b = Ok r →
  ∃ pa pb, parse a = Ok pa ∧ parse b = Ok pb ∧ (r = true ↔ version_lt pb pa).
Proof.
  intros (cmp & H & Hr)%bind_ok. simplify_eq.
  apply Compare_inv in H as (pa & pb & Ha & Hb & ->).
  destruct (Compare_lex a b pa pb) as (_ & _ & _ & Hgt); [done..|].
  exists pa, pb. rewrite Z.ltb_lt. split_and!; [done..|]. rewrite <-Hgt. lia.
Qed.

Lemma Less_total a b pa pb : parse a = Ok pa → parse b = Ok pb → ∃ r, Less a b = Ok r.
Proof.
  intros Ha Hb. destruct (Compare_lex a b pa pb) as [E _]; [done..|].
  unfold Less. rewrite E. cbn. eauto.
Qed.

Lemma Greater_total a b pa pb : parse a = Ok pa → parse b = Ok pb → ∃ r, Greater a b = Ok r.
Proof.
  intros Ha Hb. destruct (Compare_lex a b pa pb) as [E _]; [done..|].
  unfold Greater. rewrite E. cbn. eauto.
Qed.

(** The versions a bound accepts: both texts parse and the order holds. *)
Definition in_order (lo hi : string) : Prop :=
  ∃ pl ph, parse lo = Ok pl ∧ parse hi = Ok ph ∧ ¬ version_lt ph pl.

Lemma CheckMin_ok current minimum subject :
  CheckMin current minimum subject = Ok tt ↔
  TrimSpace minimum = "" ∨ in_order (TrimSpace minimum) current.
Proof.
  unfold CheckMin. destruct (String.eqb_spec (TrimSpace minimum) "") as [E0|Hne].
  { split; auto. }
  destruct (Less current (TrimSpace minimum)) as [r|e] eqn:E.
  - apply Less_ok in E as (pa & pb & Ha & Hb & Hr). unfold in_order.
    destruct r; split; [done| |intros _; right; exists pb, pa|done].
    + intros [?|(?&?&?&?&Hlt)]; [done|]. destruct Hlt. simp_ok. by apply Hr.
    + split_and!; [done..|]. by intros H%Hr.
  - split; [done|]. intros [?|(?&?&H1&H2&_)]; [done|].
    destruct (Less_total _ _ _ _ H2 H1). congruence.
Qed.

Lemma CheckMax_ok current maximum subject :
  CheckMax current maximum subject = Ok tt ↔
  TrimSpace maximum = "" ∨ in_order current (TrimSpace maximum).
Proof.
  unfold CheckMax. destruct (String.eqb_spec (TrimSpace maximum) "") as [E0|Hne].
  { split; auto. }
  destruct (Greater current (TrimSpace maximum)) as [r|e] eqn:E.
  - apply Greater_ok in E as (pa & pb & Ha & Hb & Hr). unfold in_order.
    destruct r; split; [done| |intros _; right; exists pa, pb|done].
    + intros [?|(?&?&?&?&Hlt)]; [done|]. destruct Hlt. simp_ok. by apply Hr.
    + split_and!; [done..|]. by intros H%Hr.
  - split; [done|]. intros [?|(?&?&H1&H2&_)]; [done|].
    destruct (Greater_total _ _ _ _ H1 H2). congruence.
Qed.

(** [CheckMin] and [CheckMax] accept exactly an absent bound or a parsable
    current version on the right side of a parsable bound, and [Less] is a
    strict weak order on the texts that parse: irreflexive, transitive, and
    two versions neither of which is less have the same parts. *)
Theorem version_bounds :
  (∀ current minimum subject, CheckMin current minimum subject = Ok tt ↔
     TrimSpace minimum = "" ∨ in_order (TrimSpace minimum) current) ∧
  (∀ current maximum subject, CheckMax current maximum subject = Ok tt ↔
     TrimSpace maximum = "" ∨ in_order current (TrimSpace maximum)) ∧
  (∀ a, Less a a ≠ Ok true) ∧
  (∀ a b c, Less a b = Ok true → Less b c = Ok true → Less a c = Ok true) ∧
  (∀ a b, Less a b = Ok false → Less b a = Ok false → parse a = parse b).
Proof.
  split_and!; [apply CheckMin_ok|apply CheckMax_ok|..].
  - intros a (pa & pb & Ha & Hb & H)%Less_ok. simp_ok.
    by apply (version_lt_irrefl pa), H.
  - intros a b c (pa & pb & Ha & Hb & H1)%Less_ok (pb' & pc & Hb' & Hc & H2)%Less_ok.
    simp_ok. destruct (Less_total a c pa pc) as [r Hr]; [done..|].
    pose proof Hr as (?&?&?&?&H3)%Less_ok. simp_ok.
    rewrite Hr. f_equal. apply H3. eapply version_lt_trans; [by apply H1|by apply H2].
  - intros a b (pa & pb & Ha & Hb & H1)%Less_ok (pb' & pa' & Hb' & Ha' & H2)%Less_ok.
    simp_ok. pose proof (parse_valid _ _ Ha) as [La _].
    pose proof (parse_valid _ _ Hb) as [Lb _].
    destruct (version_lt_total pa pb) as [Hl|[->|Hl]]; [congruence|..].
    + by apply H1 in Hl.
    + congruence.
    + by apply H2 in Hl.
Qed.

Lemma version_bounds_witness :
  Less "3.0.0" "3.1.1" = Ok true ∧ Less "2.9.9" "3.1.1" = Ok true ∧
  CheckMin AppVersion " 2.0.0 " "server config" = Ok tt.
Proof.
  destruct version_bounds as (Hmin & _ & _ & Htrans & _).
  split_and!; [reflexivity| |].
  - apply (Htrans "2.9.9" "3.0.0" "3.1.1"); reflexivity.
  - apply Hmin. right. exists [2; 0; 0], [3; 1; 1].
    split_and!; [reflexivity..|]. inversion 1; lia.
Defined.
