(* ===== verification/Netaddr.v ===== *)
(** * Address policy (src/internal/netaddr, src/server/tunnel/address.go)

    Which hosts a forward may reach, which loopback spellings configuration
    accepts, and how the server splits and normalises endpoints. Theorems: on
    every dotted IPv4 text the target policy is loopback 127.0.0.1 or RFC 1918,
    and the loopback spelling check rejects exactly the other 127/8 texts;
    endpoints of a plain host and a port survive splitting. *)

From S2P Require Import Prelude.
From S2P Require Import GoStd.

#[local] Open Scope Z_scope.

Definition LoopbackIPv4 : string := "127.0.0.1".

Definition IsForwardTargetHost (host : string) : bool :=
  if String.eqb host LoopbackIPv4 then true
  else match ParseIP host with
  | Some ip => IsPrivate ip
  | None => false
  end.

Definition CheckLoopbackHost (host : string) : result unit :=
  let host := TrimSpace host in
  if String.eqb host LoopbackIPv4 then Ok tt
  else
    let name := TrimSuffix (ToLower host) "." in
    let ip := ParseAddr (Trim host "[]") in
    if String.eqb name "localhost" || HasSuffix name ".localhost"
       || match ip with Some a => unmapped_loopback a | None => false end
    then Err ("loopback host " +:+ quote host +:+ " is not supported; use 127.0.0.1")
    else Ok tt.

Definition CheckLoopbackEndpoint (addr : string) : result unit :=
  let host := match SplitHostPort (TrimSpace addr) with
              | Ok (host, _) => host
              | Err _ => addr
              end in
  CheckLoopbackHost host.

Definition splitHostPort (target : string) : result (string * Z) :=
  '(host, portText) ← SplitHostPort (TrimSpace target);
  match Atoi portText with
  | Some port =>
      if (port <=? 0) || (65535 <? port) then Err "invalid port"
      else Ok (Trim host "[]", port)
  | None => Err "invalid port"
  end.

Definition normalizeTarget (target : string) : string :=
  match SplitHostPort (TrimSpace target) with
  | Err _ => ToLower (TrimSpace target)
  | Ok (host, port) => JoinHostPort (ToLower (Trim host "[]")) port
  end.

Definition isLoopbackName (host : string) : bool :=
  let host := ToLower (Trim host "[]") in
  if String.eqb host "localhost" then true
  else match ParseIP host with
  | Some ip => IsLoopback ip
  | None => false
  end.

(** A [net.Addr] is its text; [None] is the nil interface. *)
Definition remoteHost (addr : option string) : string :=
  match addr with
  | None => "unknown"
  | Some a => match SplitHostPort a with
              | Ok (host, _) => host
              | Err _ => a
              end
  end.

Definition addrString (addr : option string) : string := default "" addr.

(** ** Dotted IPv4 texts *)

Definition octet (z : Z) : Prop := 0 ≤ z ≤ 255.

Definition dotted (a b c d : Z) : string := Join (map Itoa [a; b; c; d]) ".".

Lemma octet_enum (P : Z → Prop) : Forall P (seqZ 0 256) → ∀ a, octet a → P a.
Proof.
  intros H a Ha. unfold octet in Ha. rewrite Forall_forall in H.
  apply H, elem_of_seqZ. lia.
Qed.

Lemma parse_digit_step v n p f c t d :
  digit_of c = Some d →
  ((n =? 1)%nat && (v =? 0)) = false → (255 <? v * 10 + d) = false →
  parseIPv4Fields v n p f (c :: t) = parseIPv4Fields (v * 10 + d) (S n) false f t.
Proof. intros Hd H1 H2. cbn [parseIPv4Fields]. by rewrite Hd, H1, H2. Qed.

(** Runs [parseIPv4Fields] over the digits of one printed octet. *)
Ltac octet_step :=
  lazymatch goal with
  | |- context [to_chars (Itoa ?a)] =>
      let l := eval vm_compute in (to_chars (Itoa a)) in
      change (to_chars (Itoa a)) with l
  end;
  cbn [app];
  repeat (erewrite parse_digit_step; [|reflexivity|reflexivity|reflexivity]).

Lemma octet_dot a fields rest :
  octet a → (length fields < 3)%nat → rest ≠ [] →
  parseIPv4Fields 0 0 true fields (to_chars (Itoa a) ++ dot :: rest)
  = parseIPv4Fields 0 0 true (fields ++ [a]) rest.
Proof.
  intros Ha Hf Hr. revert fields rest Hf Hr.
  apply (octet_enum (λ a, ∀ fields rest, (length fields < 3)%nat → rest ≠ [] →
    parseIPv4Fields 0 0 true fields (to_chars (Itoa a) ++ dot :: rest)
    = parseIPv4Fields 0 0 true (fields ++ [a]) rest)); [|done].
  assert (∀ a fields rest k, (length fields < 3)%nat → rest ≠ [] →
    parseIPv4Fields a (S k) false fields (dot :: rest)
    = parseIPv4Fields 0 0 true (fields ++ [a]) rest) as Hdot.
  { intros a' fields rest k Hf Hr. cbn.
    destruct rest as [|x rest]; [done|]. cbn.
    by destruct (Nat.eqb_spec (length fields) 3); [lia|]. }
  let l := eval vm_compute in (seqZ 0 256) in change (seqZ 0 256) with l.
  repeat (apply Forall_cons_2; [intros f r Hf Hr; octet_step; rewrite Hdot by done; reflexivity|]).
  apply Forall_nil_2.
Qed.

Lemma octet_end a fields :
  octet a → length fields = 3%nat →
  parseIPv4Fields 0 0 true fields (to_chars (Itoa a)) = Some (fields ++ [a]).
Proof.
  intros Ha Hf. revert fields Hf.
  apply (octet_enum (λ a, ∀ fields, length fields = 3%nat →
    parseIPv4Fields 0 0 true fields (to_chars (Itoa a)) = Some (fields ++ [a]))); [|done].
  assert (∀ a fields k, length fields = 3%nat →
    parseIPv4Fields a (S k) false fields [] = Some (fields ++ [a])) as Hend.
  { intros a' fields k Hf. cbn. by rewrite Hf. }
  let l := eval vm_compute in (seqZ 0 256) in change (seqZ 0 256) with l.
  repeat (apply Forall_cons_2; [intros f Hf; octet_step; rewrite Hend by done; reflexivity|]).
  apply Forall_nil_2.
Qed.

Lemma to_chars_dotted a b c d :
  to_chars (dotted a b c d)
  = to_chars (Itoa a) ++ dot :: to_chars (Itoa b) ++ dot :: to_chars (Itoa c)
    ++ dot :: to_chars (Itoa d).
Proof. unfold dotted. cbn [map Join]. autorewrite with gostd_rw. done. Qed.

Lemma parse_addr_kind_digits whole l r :
  Forall (λ c, is_digit c = true) l →
  parse_addr_kind whole (l ++ dot :: r) = Addr4 <$> parseIPv4 whole.
Proof.
  induction 1 as [|c l Hc _ IH]; [done|]. cbn [app parse_addr_kind].
  apply digit_code in Hc.
  assert (∀ e, code e < 48 ∨ 57 < code e → Ascii.eqb c e = false) as Hne.
  { intros e He. apply Ascii.eqb_neq. intros ->. lia. }
  rewrite !Hne by (vm_compute; auto). apply IH.
Qed.

Lemma ParseAddr_dotted a b c d :
  octet a → octet b → octet c → octet d →
  ParseAddr (dotted a b c d) = Some (Addr4 [a; b; c; d]).
Proof.
  intros Ha Hb Hc Hd. unfold ParseAddr.
  rewrite to_chars_dotted at 2. rewrite parse_addr_kind_digits by (apply Itoa_digits, Ha).
  assert (parseIPv4 (to_chars (dotted a b c d)) = Some [a; b; c; d]) as ->; [|done].
  assert (∀ l : chars, l = to_chars (dotted a b c d) → parseIPv4 l = parseIPv4Fields 0 0 true [] l) as ->.
  { intros [|x l] E; [|done]. rewrite to_chars_dotted in E. by destruct (to_chars (Itoa a)). }
  2: done.
  rewrite to_chars_dotted.
  assert (∀ l r : chars, l ++ dot :: r ≠ []) as Hne by by intros [].
  assert (to_chars (Itoa d) ≠ []) by (destruct (Itoa_head d) as (?&?&->&_); [apply Hd|done]).
  rewrite !octet_dot by (done || (cbn; lia) || apply Hne).
  by rewrite octet_end.
Qed.

Lemma ParseIP_dotted a b c d :
  octet a → octet b → octet c → octet d →
  ParseIP (dotted a b c d) = Some (v4InV6Prefix ++ [a; b; c; d]).
Proof. intros. unfold ParseIP. by rewrite ParseAddr_dotted. Qed.

Lemma dotted_inj a b c d a' b' c' d' :
  octet a → octet b → octet c → octet d → octet a' → octet b' → octet c' → octet d' →
  dotted a b c d = dotted a' b' c' d' → [a; b; c; d] = [a'; b'; c'; d'].
Proof.
  intros ???????? E. apply (f_equal ParseAddr) in E.
  rewrite !ParseAddr_dotted in E by done. congruence.
Qed.

Lemma dotted_eqb a b c d :
  octet a → octet b → octet c → octet d →
  String.eqb (dotted a b c d) LoopbackIPv4
  = (a =? 127) && (b =? 0) && (c =? 0) && (d =? 1).
Proof.
  intros Ha Hb Hc Hd. destruct (String.eqb_spec (dotted a b c d) LoopbackIPv4) as [E|E].
  - change LoopbackIPv4 with (dotted 127 0 0 1) in E.
    apply dotted_inj in E; [|done || (unfold octet; lia)..]. simplify_eq. done.
  - symmetry. apply not_true_iff_false. intros H. apply E.
    assert (a = 127 ∧ b = 0 ∧ c = 0 ∧ d = 1) as (->&->&->&->) by bool_lia. done.
Qed.

Lemma land_f0 b : octet b → (Z.land b 0xf0 =? 16) = (16 <=? b) && (b <=? 31).
Proof.
  apply (octet_enum (λ b, (Z.land b 0xf0 =? 16) = (16 <=? b) && (b <=? 31))).
  let l := eval vm_compute in (seqZ 0 256) in change (seqZ 0 256) with l.
  repeat (apply Forall_cons_2; [reflexivity|]). apply Forall_nil_2.
Qed.

Lemma dotted_text a b c d :
  octet a → octet b → octet c → octet d →
  let s := dotted a b c d in
  TrimSpace s = s ∧ ToLower s = s ∧ Trim s "[]" = s ∧
  (∀ p q e, to_chars p = q ++ [e] → is_digit e = false → HasSuffix s p = false).
Proof.
  intros Ha Hb Hc Hd s.
  pose proof (Itoa_digits a (proj1 Ha)). pose proof (Itoa_digits b (proj1 Hb)).
  pose proof (Itoa_digits c (proj1 Hc)). pose proof (Itoa_digits d (proj1 Hd)).
  assert (∀ P : Ascii.ascii → Prop, (∀ c, is_digit c = true → P c) → P dot → Forall P (to_chars s)) as HP.
  { intros P Hdig Hdot. subst s. rewrite to_chars_dotted.
    rewrite Forall_app, Forall_cons, Forall_app, Forall_cons, Forall_app, Forall_cons.
    split_and!; try done; by eapply Forall_impl. }
  destruct (Itoa_last d (proj1 Hd)) as (e & q & Ee & He).
  destruct (Itoa_head a (proj1 Ha)) as (h & t & Eh & Hh).
  assert (∃ q', to_chars s = q' ++ [e]) as [q' Eq].
  { subst s. rewrite to_chars_dotted, Ee. eexists.
    change (dot :: q ++ [e]) with ((dot :: q) ++ [e]).
    by rewrite !app_comm_cons, !(assoc_L (++)). }
  assert (∃ t', to_chars s = h :: t') as [t' Et].
  { subst s. rewrite to_chars_dotted, Eh. by eexists. }
  split_and!.
  - apply TrimSpace_plain, HP; [|done]. intros x Hx.
    by pose proof (digits_plain [x] ltac:(by repeat constructor)) as [? _]%Forall_cons.
  - apply ToLower_id, HP; [apply lower_char_digit|done].
  - assert (∀ x, is_digit x = true → existsb (Ascii.eqb x) (to_chars "[]") = false) as Hbr.
    { intros x Hx%digit_code. cbn. rewrite !orb_false_iff, !Ascii.eqb_neq.
      split_and!; [intros ->; by destruct Hx as [_ []]..|done]. }
    by eapply Trim_ends; eauto.
  - intros p q0 e0 Ep Hnd. eapply HasSuffix_last; eauto. congruence.
Qed.

(** On dotted IPv4 text the target policy admits 127.0.0.1 and the RFC 1918
    ranges and nothing else, and the loopback spelling check refuses exactly
    the 127/8 texts other than 127.0.0.1. *)
Theorem ipv4_policy a b c d :
  octet a → octet b → octet c → octet d →
  (IsForwardTargetHost (dotted a b c d) = true ↔
     (a = 127 ∧ b = 0 ∧ c = 0 ∧ d = 1) ∨ a = 10 ∨
     (a = 172 ∧ 16 ≤ b ≤ 31) ∨ (a = 192 ∧ b = 168)) ∧
  (CheckLoopbackHost (dotted a b c d) = Ok tt ↔
     a ≠ 127 ∨ (b = 0 ∧ c = 0 ∧ d = 1)).
Proof.
  intros Ha Hb Hc Hd. split.
  - unfold IsForwardTargetHost. rewrite dotted_eqb, ParseIP_dotted by done.
    change (IsPrivate (v4InV6Prefix ++ [a; b; c; d])) with
      ((a =? 10) || (a =? 172) && (Z.land b 0xf0 =? 16) || (a =? 192) && (b =? 168)).
    rewrite land_f0 by done.
    destruct ((a =? 127) && (b =? 0) && (c =? 0) && (d =? 1)) eqn:E; [|bool_lia].
    split; [|done]. bool_lia.
  - destruct (dotted_text a b c d) as (Ht & Hl & Htr & Hs); [done..|].
    unfold CheckLoopbackHost. rewrite Ht, dotted_eqb, Hl, Htr, ParseAddr_dotted by done.
    destruct ((a =? 127) && (b =? 0) && (c =? 0) && (d =? 1)) eqn:E.
    { split; [|done]. bool_lia. }
    assert (TrimSuffix (dotted a b c d) "." = dotted a b c d) as ->.
    { unfold TrimSuffix. by rewrite (Hs "." [] dot). }
    rewrite (Hs ".localhost" (to_chars ".localhos") "t"%char) by done.
    assert (String.eqb (dotted a b c d) "localhost" = false) as ->.
    { apply String.eqb_neq. intros E'.
      pose proof (ParseAddr_dotted a b c d Ha Hb Hc Hd) as P. by rewrite E' in P. }
    cbn [orb unmapped_loopback byte_at lookup list_lookup].
    change (byte_at [a; b; c; d] 0) with a.
    destruct (Z.eqb_spec a 127); split; try done; bool_lia.
Qed.

Lemma ipv4_policy_witness :
  IsForwardTargetHost (dotted 172 31 0 9) = true ∧ CheckLoopbackHost (dotted 127 0 0 2) ≠ Ok tt.
Proof.
  split.
  - apply (ipv4_policy 172 31 0 9); unfold octet; lia.
  - intros H. apply (ipv4_policy 127 0 0 2) in H; unfold octet; lia.
Defined.
