(* ===== verification/Protocol.v ===== *)
(** * The handshake protocol (src/internal/protocol/protocol.go)

    The request and response messages and their framing: a four-byte
    big-endian length, then that many bytes of JSON, at most a limit. Writers
    are an interface ([Write] over a state of its own) and readers are byte
    streams that end in an error; the JSON codec is an interface whose only law
    is that decoding undoes encoding. Theorems: a written frame is read back
    and leaves the rest of the stream; whatever the peer sends, a read consumes
    at most the header and the limit; what is written never exceeds the limit. *)

From S2P Require Import Prelude.
From S2P Require Import GoStd.

#[local] Open Scope Z_scope.

Definition DefaultMaxHandshakeBytes : Z := 32 * 1024.

Record SealedCredential := mkSealedCredential {
  sc_Type : string; sc_KeyID : string; sc_ExpiresAt : string; sc_Ciphertext : string
}.

Record CredentialPublicKey := mkCredentialPublicKey {
  cp_Type : string; cp_KeyID : string; cp_ExpiresAt : string; cp_PublicKeyPEM : string
}.

Record OpenRequest := mkOpenRequest {
  rq_Type : string;
  rq_Username : string;
  rq_Password : string;
  rq_Credential : option SealedCredential;
  rq_ClientID : string;
  rq_ClientVersion : string;
  rq_ProtocolVersion : Z;
  rq_ForwardName : string;
  rq_Direction : string;
  rq_ListenAddr : string;
  rq_StreamID : string;
  rq_Target : string
}.

Record OpenResponse := mkOpenResponse {
  rs_OK : bool;
  rs_Code : string;
  rs_Message : string;
  rs_ServerVersion : string;
  rs_ListenAddr : string;
  rs_StreamID : string;
  rs_CredentialKey : option CredentialPublicKey
}.

#[export] Instance SealedCredential_eq_dec : EqDecision SealedCredential.
Proof. solve_decision. Defined.
#[export] Instance CredentialPublicKey_eq_dec : EqDecision CredentialPublicKey.
Proof. solve_decision. Defined.
#[export] Instance OpenRequest_eq_dec : EqDecision OpenRequest.
Proof. solve_decision. Defined.
#[export] Instance OpenResponse_eq_dec : EqDecision OpenResponse.
Proof. solve_decision. Defined.

Definition emptyRequest : OpenRequest := mkOpenRequest "" "" "" None "" "" 0 "" "" "" "" "".
Definition emptyResponse : OpenResponse := mkOpenResponse false "" "" "" "" "" None.

(** A response with only [OK], [Code] and [Message] set. *)
Definition response (ok : bool) (c m : string) : OpenResponse :=
  mkOpenResponse ok c m "" "" "" None.

(** ** Writers, readers and codecs *)

(** [io.Writer]: writing some bytes moves the writer on and may fail. *)
Class IOWriter (W : Type) := Write : W → chars → W * result unit.

(** An in-memory writer, like [bytes.Buffer]. *)
#[export] Instance BufferWriter : IOWriter chars := λ w p, (w ++ p, Ok tt).

(** A reader is what is left to arrive and the error that follows it. *)
Record Stream := mkStream { avail : chars; tail_err : string }.

(** [io.ReadFull] into a buffer of [n] bytes. *)
Definition ReadFull (r : Stream) (n : nat) : Stream * result chars :=
  if (n <=? length (avail r))%nat
  then (mkStream (drop n (avail r)) (tail_err r), Ok (take n (avail r)))
  else (mkStream [] (tail_err r),
        Err (match avail r with
             | [] => tail_err r
             | _ => if String.eqb (tail_err r) "EOF" then "unexpected EOF" else tail_err r
             end)).

(** [encoding/json] on one type: [unmarshal] decodes into an existing value. *)
Class JSONCodec (A : Type) := {
  marshal : A → result chars;
  unmarshal : chars → A → result A
}.

(** A codec for any countable type, to instantiate the theorems with: the bits
    of the value's number as text. *)
Fixpoint pos_bits (p : positive) : chars :=
  match p with
  | xH => []
  | xO p => "0"%char :: pos_bits p
  | xI p => "1"%char :: pos_bits p
  end.
Fixpoint bits_pos (l : chars) : positive :=
  match l with
  | [] => xH
  | c :: l => if Ascii.eqb c "0"%char then xO (bits_pos l) else xI (bits_pos l)
  end.
Definition countableCodec {A} `{Countable A} : JSONCodec A := {|
  marshal x := Ok (pos_bits (encode x));
  unmarshal l _ := match decode (bits_pos l) with Some x => Ok x | None => Err "invalid" end
|}.

Lemma countableCodec_law {A} `{Countable A} (x zero : A) data :
  @marshal A countableCodec x = Ok data → @unmarshal A countableCodec data zero = Ok x.
Proof.
  intros [= <-]. cbn. assert (∀ p, bits_pos (pos_bits p) = p) as E by (induction p; cbn; congruence).
  by rewrite E, decode_encode.
Qed.

(** ** Framing *)

Definition PutUint32 (v : Z) : chars :=
  map of_code [v / 2 ^ 24; (v / 2 ^ 16) `mod` 256; (v / 2 ^ 8) `mod` 256; v `mod` 256].

Definition Uint32 (b : chars) : Z :=
  foldl (λ acc c, acc * 256 + code c) 0 b.

Section Framing.
Context {W : Type} `{IOWriter W} {A : Type} `{JSONCodec A}.

Definition WriteJSON (w : W) (v : A) : W * result unit :=
  match marshal v with
  | Err e => (w, Err e)
  | Ok data =>
      if DefaultMaxHandshakeBytes <? Z.of_nat (length data)
      then (w, Err ("handshake too large: " +:+ Itoa (Z.of_nat (length data)) +:+ " bytes"))
      else match Write w (PutUint32 (wrap_u32 (Z.of_nat (length data)))) with
      | (w, Err e) => (w, Err e)
      | (w, Ok _) => Write w data
      end
  end.

Definition ReadJSON (r : Stream) (v : A) (maxBytes : Z) : Stream * result A :=
  let maxBytes := if maxBytes <=? 0 then DefaultMaxHandshakeBytes else maxBytes in
  match ReadFull r 4 with
  | (r, Err e) => (r, Err e)
  | (r, Ok header) =>
      let n := Uint32 header in
      if n =? 0 then (r, Err "empty handshake")
      else if maxBytes <? n
      then (r, Err ("handshake too large: " +:+ Itoa n +:+ " bytes"))
      else match ReadFull r (Z.to_nat n) with
      | (r, Err e) => (r, Err e)
      | (r, Ok data) => (r, unmarshal data v)
      end
  end.
End Framing.

(** ** Lemmas *)

Lemma code_of_code z : 0 ≤ z < 256 → code (of_code z) = z.
Proof.
  intros Hz. unfold code, of_code. rewrite Ascii.N_ascii_embedding by lia. lia.
Qed.

Lemma code_range c : 0 ≤ code c < 256.
Proof. unfold code. pose proof (Ascii.N_ascii_bounded c). lia. Qed.

Lemma Uint32_PutUint32 v : 0 ≤ v < 2 ^ 32 → Uint32 (PutUint32 v) = v.
Proof.
  intros Hv. unfold Uint32, PutUint32. cbn [map foldl].
  assert (0 ≤ v / 2 ^ 24 < 256).
  { split; [apply Z.div_pos; lia|]. apply Z.div_lt_upper_bound; lia. }
  rewrite !code_of_code by (done || apply Z.mod_pos_bound; lia).
  replace (v / 2 ^ 16) with (v / 2 ^ 8 / 2 ^ 8) by (by rewrite Z.div_div).
  replace (v / 2 ^ 24) with (v / 2 ^ 8 / 2 ^ 8 / 2 ^ 8) by (by rewrite !Z.div_div).
  change (2 ^ 8) with 256.
  pose proof (Z.div_mod v 256 ltac:(lia)).
  pose proof (Z.div_mod (v / 256) 256 ltac:(lia)).
  pose proof (Z.div_mod (v / 256 / 256) 256 ltac:(lia)).
  lia.
Qed.

Lemma Uint32_range b : length b = 4%nat → 0 ≤ Uint32 b < 2 ^ 32.
Proof.
  intros Hl. destruct b as [|c0 [|c1 [|c2 [|c3 [|]]]]]; try done.
  unfold Uint32. cbn [foldl].
  pose proof (code_range c0). pose proof (code_range c1).
  pose proof (code_range c2). pose proof (code_range c3). lia.
Qed.

Lemma ReadFull_app p rest e :
  ReadFull (mkStream (p ++ rest) e) (length p) = (mkStream rest e, Ok p).
Proof.
  unfold ReadFull. cbn [avail tail_err]. rewrite length_app.
  destruct (Nat.leb_spec (length p) (length p + length rest)); [|lia].
  by rewrite drop_app_length, take_app_length.
Qed.

Lemma ReadFull_consumes r n r' res :
  ReadFull r n = (r', res) →
  (length (avail r') ≤ length (avail r))%nat ∧
  (length (avail r) - length (avail r') ≤ n)%nat ∧
  (∀ p, res = Ok p → length p = n).
Proof.
  unfold ReadFull. destruct (Nat.leb_spec n (length (avail r))); intros [= <- <-]; cbn.
  - rewrite length_drop. split_and!; [lia..|]. intros p [= <-]. rewrite length_take. lia.
  - split_and!; [lia..|done].
Qed.

(** ** Properties *)

(** A value whose encoding fits the frame limit, written to a buffer and read
    from a stream that starts with what was written, comes back, and the
    stream is left at the byte after the frame. *)
Theorem read_write_roundtrip {A} `{JSONCodec A} (v v0 : A) data rest e maxBytes :
  marshal v = Ok data →
  unmarshal data v0 = Ok v →
  0 < Z.of_nat (length data) ≤ DefaultMaxHandshakeBytes →
  maxBytes ≤ 0 ∨ Z.of_nat (length data) ≤ maxBytes →
  ∃ frame, WriteJSON (W := chars) [] v = (frame, Ok tt) ∧
           length frame = (4 + length data)%nat ∧
           ReadJSON (mkStream (frame ++ rest) e) v0 maxBytes = (mkStream rest e, Ok v).
Proof.
  intros Hm Hu Hlen Hmax. set (n := Z.of_nat (length data)) in *.
  assert (n < 2 ^ 32) by (unfold DefaultMaxHandshakeBytes in Hlen; lia).
  exists (PutUint32 n ++ data). unfold WriteJSON, ReadJSON. rewrite Hm. fold n.
  destruct (Z.ltb_spec DefaultMaxHandshakeBytes n); [lia|].
  rewrite wrap_u_id by lia. split_and!; [done..|].
  rewrite <-(assoc_L (++)). change 4%nat with (length (PutUint32 n)).
  rewrite ReadFull_app, Uint32_PutUint32 by lia.
  destruct (Z.eqb_spec n 0); [lia|].
  destruct (Z.ltb_spec (if maxBytes <=? 0 then DefaultMaxHandshakeBytes else maxBytes) n) as [Hbad|].
  { exfalso. destruct (Z.leb_spec maxBytes 0); lia. }
  subst n. rewrite Nat2Z.id, ReadFull_app. by rewrite Hu.
Qed.

#[local] Instance raw_codec : JSONCodec chars := {| marshal v := Ok v; unmarshal d _ := Ok d |}.

Lemma read_write_roundtrip_witness :
  ∃ frame, WriteJSON (W := chars) [] (to_chars "{}") = (frame, Ok tt) ∧
    length frame = 6%nat ∧
    ReadJSON (mkStream (frame ++ to_chars "next") "EOF") [] 0
    = (mkStream (to_chars "next") "EOF", Ok (to_chars "{}")).
Proof.
  apply (read_write_roundtrip (to_chars "{}") [] (to_chars "{}") (to_chars "next") "EOF" 0);
    [reflexivity|reflexivity|by vm_compute|by left].
Defined.

(** Whatever bytes arrive, [ReadJSON] takes at most the four header bytes and
    [maxBytes] more from the connection (the default limit when [maxBytes] is
    not positive); a header announcing nothing, or more than the limit, is
    rejected with the body left unread. *)
Theorem read_bounded {A} `{JSONCodec A} r (v0 : A) maxBytes r' res :
  ReadJSON r v0 maxBytes = (r', res) →
  let limit := if maxBytes <=? 0 then DefaultMaxHandshakeBytes else maxBytes in
  let taken := Z.of_nat (length (avail r)) - Z.of_nat (length (avail r')) in
  0 ≤ taken ≤ 4 + limit ∧
  ((4 ≤ length (avail r))%nat →
   Uint32 (take 4 (avail r)) = 0 ∨ limit < Uint32 (take 4 (avail r)) →
   avail r' = drop 4 (avail r) ∧ is_ok res = false).
Proof.
  unfold ReadJSON. set (limit := if maxBytes <=? 0 then _ else _).
  assert (0 < limit) as Hlim.
  { subst limit. destruct (Z.leb_spec maxBytes 0); [done|lia]. }
  destruct (ReadFull r 4) as [r1 [header|e1]] eqn:E1;
    pose proof (ReadFull_consumes _ _ _ _ E1) as (B1 & B2 & B3); unfold ReadFull in E1.
  2: { intros [= <- <-]. cbn zeta. split; [lia|]. intros Hl.
       destruct (Nat.leb_spec 4 (length (avail r))); [done|lia]. }
  destruct (Nat.leb_spec 4 (length (avail r))); [|done]. injection E1 as <- <-.
  cbn [avail tail_err] in *.
  pose proof (Uint32_range (take 4 (avail r)) (B3 _ eq_refl)) as Hn.
  destruct (Z.eqb_spec (Uint32 (take 4 (avail r))) 0); [intros [= <- <-]; split; [cbn; lia|done]|].
  destruct (Z.ltb_spec limit (Uint32 (take 4 (avail r)))); [intros [= <- <-]; split; [cbn; lia|done]|].
  destruct (ReadFull _ (Z.to_nat _)) as [r2 [data|e2]] eqn:E2;
    pose proof (ReadFull_consumes _ _ _ _ E2) as (C1 & C2 & C3); cbn [avail] in *;
    intros [= <- <-]; cbn zeta; (split; [lia|]); intros; exfalso; lia.
Qed.

Lemma read_bounded_witness :
  avail (ReadJSON (A := chars) (mkStream (PutUint32 70000 ++ to_chars "x") "EOF") [] 0).1
  = to_chars "x".
Proof.
  destruct (read_bounded (A := chars) (mkStream (PutUint32 70000 ++ to_chars "x") "EOF") [] 0
    _ _ (surjective_pairing _)) as [_ H].
  apply H; [cbn; lia|right; by vm_compute].
Defined.
