(* ===== verification/GoCrypto.v ===== *)
(** * Encodings and hashes of Go's standard library

    SHA-256, HMAC and PBKDF2 as [crypto/sha256], [crypto/hmac] and
    [crypto/pbkdf2] compute them, [base64.RawStdEncoding] and [encoding/hex].
    Bytes are characters. *)

From S2P Require Import Prelude.
From S2P Require Import GoStd.
From S2P Require Import Protocol.

#[local] Open Scope Z_scope.

(** ** SHA-256 and HMAC *)

Module Sha256.

Definition rotr (n x : Z) : Z := Z.lor (Z.shiftr x n) (wrap_u32 (Z.shiftl x (32 - n))).

Definition Sigma0 (x : Z) : Z := Z.lxor (rotr 2 x) (Z.lxor (rotr 13 x) (rotr 22 x)).
Definition Sigma1 (x : Z) : Z := Z.lxor (rotr 6 x) (Z.lxor (rotr 11 x) (rotr 25 x)).
Definition sigma0 (x : Z) : Z := Z.lxor (rotr 7 x) (Z.lxor (rotr 18 x) (Z.shiftr x 3)).
Definition sigma1 (x : Z) : Z := Z.lxor (rotr 17 x) (Z.lxor (rotr 19 x) (Z.shiftr x 10)).
Definition Ch (x y z : Z) : Z := Z.lxor (Z.land x y) (Z.land (Z.lxor x (2 ^ 32 - 1)) z).
Definition Maj (x y z : Z) : Z :=
  Z.lxor (Z.land x y) (Z.lxor (Z.land x z) (Z.land y z)).

(** The constants are the first 32 bits of the fractions of roots of primes. *)
Fixpoint root_digits (pow : Z) (bits : nat) (x acc : Z) : Z :=
  match bits with
  | O => acc
  | S bits =>
      let candidate := acc + 2 ^ Z.of_nat bits in
      root_digits pow bits x (if candidate ^ pow <=? x then candidate else acc)
  end.

(** [2 ^ 32] times the [pow]th root of [x], rounded down, without its integral part. *)
Definition root_fraction (pow x : Z) : Z := wrap_u32 (root_digits pow 40 (x * 2 ^ (32 * pow)) 0).

Definition is_prime (n : Z) : bool := forallb (λ d, negb (n `mod` d =? 0)) (seqZ 2 (n - 2)).
Definition primes : list Z := List.filter is_prime (seqZ 2 310).

Definition K : list Z := Eval vm_compute in map (root_fraction 3) (take 64 primes).
Definition H0 : list Z := Eval vm_compute in map (root_fraction 2) (take 8 primes).

(** The message schedule, last word first. *)
Fixpoint schedule (n : nat) (w : list Z) : list Z :=
  match n with
  | O => w
  | S n =>
      let at_ i := nth i w 0 in
      schedule n (wrap_u32 (sigma1 (at_ 1%nat) + at_ 6%nat + sigma0 (at_ 14%nat) + at_ 15%nat) :: w)
  end.

Definition round (h : list Z) (kw : Z * Z) : list Z :=
  match h with
  | [a; b; c; d; e; f; g; hh] =>
      let t1 := wrap_u32 (hh + Sigma1 e + Ch e f g + kw.1 + kw.2) in
      let t2 := wrap_u32 (Sigma0 a + Maj a b c) in
      [wrap_u32 (t1 + t2); a; b; c; wrap_u32 (d + t1); e; f; g]
  | _ => h
  end.

Definition compress (h : list Z) (block : list Z) : list Z :=
  let w := reverse (schedule 48 (reverse block)) in
  zip_with (λ x y, wrap_u32 (x + y)) h (foldl round h (zip K w)).

Fixpoint words (l : chars) : list Z :=
  match l with
  | a :: b :: c :: d :: l => Uint32 [a; b; c; d] :: words l
  | _ => []
  end.

Definition pad (l : chars) : chars :=
  let n := Z.of_nat (length l) in
  l ++ [of_code 0x80] ++ replicate (Z.to_nat ((55 - n) `mod` 64)) (of_code 0)
    ++ PutUint32 (wrap_u32 (n * 8 / 2 ^ 32)) ++ PutUint32 (wrap_u32 (n * 8)).

Fixpoint blocks (fuel : nat) (h : list Z) (ws : list Z) : list Z :=
  match fuel with
  | O => h
  | S fuel => match ws with [] => h | _ => blocks fuel (compress h (take 16 ws)) (drop 16 ws) end
  end.

(** The last step of the digest takes eight words of four bytes. *)
Definition digest (h : list Z) : chars := concat (map PutUint32 (take 8 (h ++ replicate 8 0))).

Definition Sum256 (l : chars) : chars :=
  let ws := words (pad l) in digest (blocks (length ws) H0 ws).

Definition Size : nat := 32.
Definition BlockSize : nat := 64.

Definition xor_pad (b : Z) (key : chars) : chars :=
  map (λ c, of_code (Z.lxor (code c) b)) (key ++ replicate (BlockSize - length key) (of_code 0)).

(** [hmac.New(sha256.New, key)], all its writes and [Sum(nil)]. *)
Definition HMAC (key message : chars) : chars :=
  let key := if (BlockSize <? length key)%nat then Sum256 key else key in
  Sum256 (xor_pad 0x5c key ++ Sum256 (xor_pad 0x36 key ++ message)).

Lemma length_words ws : length (concat (map PutUint32 ws)) = (4 * length ws)%nat.
Proof. induction ws as [|w ws IH]; [done|]. cbn [map concat]. rewrite length_app, IH. cbn. lia. Qed.

Lemma length_Sum256 l : length (Sum256 l) = Size.
Proof.
  unfold Sum256, digest. rewrite length_words, length_take, length_app, length_replicate.
  unfold Size. lia.
Qed.

Lemma length_HMAC key message : length (HMAC key message) = Size.
Proof. apply length_Sum256. Qed.

Definition hex (l : chars) : string :=
  of_chars (concat (map (λ c, [hex_char (code c / 16); hex_char (code c `mod` 16)]) l)).

(** The published test vectors of SHA-256 and of HMAC-SHA-256. *)
Example vectors :
  hex (Sum256 (to_chars "abc"))
  = "ba7816bf8f01cfea414140de5dae2223b00361a396177a9cb410ff61f20015ad" ∧
  hex (HMAC (to_chars "key") (to_chars "The quick brown fox jumps over the lazy dog"))
  = "f7bc83f430538424b13298e6aa6fb143ef4d59a14946175997479dbc2d1a3cd8".
Proof. split; vm_compute; reflexivity. Qed.

End Sha256.

(** ** PBKDF2 *)

Definition xor_bytes (a b : chars) : chars :=
  zip_with (λ x y, of_code (Z.lxor (code x) (code y))) a b.

(** [U] and the exclusive or of all of them, [iterations] times in all. *)
Definition pbkdf2_block (password salt : chars) (iterations i : Z) : chars :=
  let u1 := Sha256.HMAC password (salt ++ PutUint32 i) in
  (Z.iter (iterations - 1)
     (λ s, let u := Sha256.HMAC password s.1 in (u, xor_bytes s.2 u)) (u1, u1)).2.

Definition pbkdf2_Key (password salt : chars) (iterations keyLen : Z) : chars :=
  let numBlocks := (keyLen + 31) / 32 in
  take (Z.to_nat keyLen)
    (concat (map (λ i, pbkdf2_block password salt iterations (Z.of_nat i)) (seq 1 (Z.to_nat numBlocks)))).

(** RFC 7914's vector for PBKDF2-HMAC-SHA-256, and one of two iterations. *)
Example pbkdf2_vectors :
  Sha256.hex (pbkdf2_Key (to_chars "passwd") (to_chars "salt") 1 64)
  = "55ac046e56e3089fec1691c22544b605f94185216dde0465e68b9d57c20dacbc"
    +:+ "49ca9cccf179b645991664b39d77ef317c71b845b1e30bd509112041d3a19783" ∧
  Sha256.hex (pbkdf2_Key (to_chars "password") (to_chars "salt") 2 32)
  = "ae4d0c95af6b46d32d0adff928f06dd02a303f8ef3c251dfd6e2d85a95474c43".
Proof. split; vm_compute; reflexivity. Qed.

(** ** Hexadecimal *)

Definition hex_value (c : Ascii.ascii) : option Z :=
  let z := code c in
  if (48 <=? z) && (z <=? 57) then Some (z - 48)
  else if (97 <=? z) && (z <=? 102) then Some (z - 87)
  else if (65 <=? z) && (z <=? 70) then Some (z - 55)
  else None.

Fixpoint hex_decode (l : chars) : option chars :=
  match l with
  | [] => Some []
  | a :: b :: l =>
      x ← hex_value a; y ← hex_value b; rest ← hex_decode l; Some (of_code (x * 16 + y) :: rest)
  | [_] => None
  end.

(** ** Base 64, without padding *)

Definition base64_char (i : Z) : Ascii.ascii :=
  of_code (if i <? 26 then 65 + i else if i <? 52 then 71 + i else if i <? 62 then i - 4
           else if i =? 62 then 43 else 47).

Definition base64_value (c : Ascii.ascii) : option Z :=
  let z := code c in
  if (65 <=? z) && (z <=? 90) then Some (z - 65)
  else if (97 <=? z) && (z <=? 122) then Some (z - 71)
  else if (48 <=? z) && (z <=? 57) then Some (z + 4)
  else if z =? 43 then Some 62 else if z =? 47 then Some 63 else None.

Fixpoint base64_encode (l : chars) : chars :=
  match l with
  | [] => []
  | [a] => let x := code a in [base64_char (x / 4); base64_char (x `mod` 4 * 16)]
  | [a; b] =>
      let x := code a in let y := code b in
      [base64_char (x / 4); base64_char (x `mod` 4 * 16 + y / 16); base64_char (y `mod` 16 * 4)]
  | a :: b :: c :: l =>
      let x := code a in let y := code b in let z := code c in
      base64_char (x / 4) :: base64_char (x `mod` 4 * 16 + y / 16)
      :: base64_char (y `mod` 16 * 4 + z / 64) :: base64_char (z `mod` 64) :: base64_encode l
  end.

(** The values of the characters; line breaks are skipped, the bits left over
    in the last group are dropped. *)
Fixpoint base64_bytes (vs : list Z) : option chars :=
  match vs with
  | [] => Some []
  | [_] => None
  | [a; b] => Some [of_code (a * 4 + b / 16)]
  | [a; b; c] => Some [of_code (a * 4 + b / 16); of_code (b `mod` 16 * 16 + c / 4)]
  | a :: b :: c :: d :: vs =>
      rest ← base64_bytes vs;
      Some (of_code (a * 4 + b / 16) :: of_code (b `mod` 16 * 16 + c / 4)
            :: of_code (c `mod` 4 * 64 + d) :: rest)
  end.

Definition line_break (c : Ascii.ascii) : bool := (code c =? 10) || (code c =? 13).

Definition base64_decode (l : chars) : option chars :=
  vs ← mapM base64_value (filter (λ c, line_break c = false) l); base64_bytes vs.

Example encodings :
  of_chars (base64_encode (to_chars "light work")) = "bGlnaHQgd29yaw" ∧
  base64_decode (to_chars "bGlnaHQgd29yay4") = Some (to_chars "light work.") ∧
  base64_decode (to_chars "bGln=") = None ∧
  hex_decode (to_chars "4a4B") = Some (to_chars "JK") ∧ hex_decode (to_chars "4") = None.
Proof. vm_compute. repeat split; reflexivity. Qed.

(** [encoding/pem]: [pem_Decode] gives the type and bytes of the first block
    and what follows; [pem_EncodeToMemory] writes one block. *)
Class PEM := {
  pem_Decode : chars → option (string * chars * chars);
  pem_EncodeToMemory : string → chars → chars
}.

(** ** Lemmas *)

Lemma of_code_code c : of_code (code c) = c.
Proof. unfold of_code, code. rewrite N2Z.id. apply Ascii.ascii_N_embedding. Qed.

Lemma of_code_eq c z : z = code c → of_code z = c.
Proof. intros ->. apply of_code_code. Qed.

Definition sextet (i : Z) : Prop := 0 ≤ i < 64.

Lemma sextet_char i : sextet i →
  base64_value (base64_char i) = Some i ∧ line_break (base64_char i) = false ∧
  plain_char (base64_char i) = true ∧ Ascii.eqb (base64_char i) ":" = false.
Proof.
  intros Hi. assert (i ∈ seqZ 0 64) as Hin by (apply elem_of_seqZ; unfold sextet in Hi; lia).
  revert i Hin Hi. apply (proj1 (Forall_forall (λ i, sextet i → _) _)).
  repeat constructor.
Qed.

Ltac div_lia := Z.to_euclidean_division_equations; lia.
Ltac sextets := repeat (apply Forall_cons_2; [unfold sextet; div_lia|]); try apply Forall_nil_2.

Lemma base64_encode_chars l : ∃ vs, base64_encode l = map base64_char vs ∧ Forall sextet vs ∧
  base64_bytes vs = Some l.
Proof.
  remember (length l) as n eqn:En. assert (length l ≤ n)%nat as Hn by lia. clear En.
  revert l Hn. induction n as [|n IH]; intros l Hn.
  { destruct l; [|cbn in Hn; lia]. by exists []. }
  destruct l as [|a [|b [|c l]]].
  - by exists [].
  - pose proof (code_range a). eexists [_; _]. split; [done|]. split; [sextets|].
    cbn [base64_bytes]. by rewrite (of_code_eq a) by div_lia.
  - pose proof (code_range a). pose proof (code_range b). eexists [_; _; _]. split; [done|].
    split; [sextets|]. cbn [base64_bytes]. by rewrite (of_code_eq a), (of_code_eq b) by div_lia.
  - cbn in Hn. destruct (IH l) as (vs & E & Hs & Hb); [lia|].
    pose proof (code_range a). pose proof (code_range b). pose proof (code_range c).
    eexists (_ :: _ :: _ :: _ :: vs). split; [cbn; by rewrite E|]. split; [sextets; done|].
    cbn. rewrite Hb. cbn [base64_bytes]. by rewrite (of_code_eq a), (of_code_eq b), (of_code_eq c) by div_lia.
Qed.

Lemma base64_roundtrip l : base64_decode (base64_encode l) = Some l.
Proof.
  destruct (base64_encode_chars l) as (vs & -> & Hs & Hb). unfold base64_decode.
  assert (filter (λ c, line_break c = false) (map base64_char vs) = map base64_char vs) as ->.
  { apply filter_all. intros c. rewrite list_elem_of_fmap. intros (i & -> & Hi).
    rewrite Forall_forall in Hs. by apply sextet_char, Hs. }
  assert (mapM base64_value (map base64_char vs) = Some vs) as ->; [|done].
  clear Hb. induction Hs as [|i vs Hi Hs IH]; [done|]. cbn.
  rewrite (proj1 (sextet_char i Hi)). cbn. by rewrite IH.
Qed.
