(* ===== verification/Passutil.v ===== *)
(** * Password hashes (src/internal/passutil/passutil.go)

    The three encodings a user's password hash may have, their verification
    and the hash a new password gets. Random bytes are an argument. *)

From S2P Require Import Prelude.
From S2P Require Import GoStd.
From S2P Require Import Protocol.
From S2P Require Import GoCrypto.

#[local] Open Scope Z_scope.

Definition DefaultIterations : Z := 210000.
Definition DefaultKeyBytes : Z := 32.

Definition pbkdf2SHA256 (password salt : chars) (iterations keyLen : Z) : result chars :=
  if (iterations <=? 0) || (keyLen <=? 0)
  then Err "PBKDF2 iterations and key length must be positive"
  else Ok (pbkdf2_Key password salt iterations keyLen).

Definition hash_text (salt key : chars) : string :=
  "pbkdf2-sha256:" +:+ Itoa DefaultIterations +:+ ":" +:+ of_chars (base64_encode salt)
  +:+ ":" +:+ of_chars (base64_encode key).

(** [salt] is what [rand.Read] gives for sixteen bytes. *)
Definition HashPassword (salt : result chars) (password : string) : result string :=
  salt ← salt;
  key ← pbkdf2SHA256 (to_chars password) salt DefaultIterations DefaultKeyBytes;
  Ok (hash_text salt key).

Definition VerifyPassword (password encoded : string) : bool :=
  let encoded := TrimSpace encoded in
  if HasPrefix encoded "plain:" then
    bool_decide (to_chars password = to_chars (TrimPrefix encoded "plain:"))
  else if HasPrefix encoded "sha256:" then
    match hex_decode (to_chars (TrimPrefix encoded "sha256:")) with
    | None => false
    | Some want => bool_decide (Sha256.Sum256 (to_chars password) = want)
    end
  else match Split encoded ":" with
  | [kind; iterations; salt; want] =>
      if negb (String.eqb kind "pbkdf2-sha256") then false
      else match Atoi iterations with
      | None => false
      | Some iterations =>
          if (iterations <? 10000) || (2000000 <? iterations) then false
          else match base64_decode (to_chars salt) with
          | None => false
          | Some salt =>
              if (length salt <? 8)%nat then false
              else match base64_decode (to_chars want) with
              | None => false
              | Some want =>
                  if (length want =? 0)%nat || (128 <? length want)%nat then false
                  else match pbkdf2SHA256 (to_chars password) salt iterations (Z.of_nat (length want)) with
                  | Err _ => false
                  | Ok got => bool_decide (got = want)
                  end
              end
          end
      end
  | _ => false
  end.

Example verify_plain_and_digest :
  VerifyPassword "secret" " plain:secret " = true ∧ VerifyPassword "Secret" "plain:secret" = false ∧
  VerifyPassword "abc"
    "sha256:ba7816bf8f01cfea414140de5dae2223b00361a396177a9cb410ff61f20015ad" = true ∧
  VerifyPassword "abd"
    "sha256:ba7816bf8f01cfea414140de5dae2223b00361a396177a9cb410ff61f20015ad" = false ∧
  VerifyPassword "abc" "pbkdf2-sha256:5000:c2FsdHNhbHQ:AAAA" = false ∧ VerifyPassword "x" "" = false.
Proof. vm_compute. repeat split; reflexivity. Qed.

(** ** Lemmas *)

Lemma length_xor_bytes a b : length a = length b → length (xor_bytes a b) = length a.
Proof. intros E. unfold xor_bytes. rewrite length_zip_with. lia. Qed.

Lemma length_pbkdf2_block password salt iterations i :
  length (pbkdf2_block password salt iterations i) = Sha256.Size.
Proof.
  unfold pbkdf2_block. set (u1 := Sha256.HMAC _ _).
  assert (length u1 = Sha256.Size) as Hu by apply Sha256.length_HMAC. clearbody u1.
  destruct (iterations - 1) as [|p|p]; cbn [Z.iter snd]; [done| |done].
  apply (Pos.iter_invariant p _ _ (λ s : chars * chars, length s.2 = Sha256.Size)); [|done].
  intros [u x] Hs. cbn [fst snd] in *. rewrite length_xor_bytes; [done|].
  by rewrite Hs, Sha256.length_HMAC.
Qed.

#[export] Hint Rewrite length_pbkdf2_block Sha256.length_HMAC : gostd_rw.

Lemma length_pbkdf2_Key password salt iterations :
  length (pbkdf2_Key password salt iterations DefaultKeyBytes) = 32%nat.
Proof.
  unfold pbkdf2_Key. change (Z.to_nat ((DefaultKeyBytes + 31) / 32)) with 1%nat.
  cbn [seq map concat]. rewrite app_nil_r, length_take, length_pbkdf2_block. done.
Qed.

Lemma base64_text l :
  Forall (λ c, plain_char c = true) (to_chars (of_chars (base64_encode l))) ∧
  has_char ":" (to_chars (of_chars (base64_encode l))) = false.
Proof.
  rewrite to_of_chars. destruct (base64_encode_chars l) as (vs & -> & Hs & _). split.
  - apply Forall_map. eapply Forall_impl; [done|]. intros i Hi. by apply sextet_char.
  - apply has_char_false, Forall_map. eapply Forall_impl; [done|]. intros i Hi E.
    pose proof (sextet_char i Hi) as (_ & _ & _ & Hc). cbn in Hc. by rewrite <-E in Hc.
Qed.

Definition plain_text (s : string) : bool := forallb plain_char (to_chars s).

Definition hash_parts (salt key : chars) : list string :=
  ["pbkdf2-sha256"; "210000"; of_chars (base64_encode salt); of_chars (base64_encode key)].

Definition encoded_hash (salt key : chars) : string := Join (hash_parts salt key) ":".

Lemma encoded_hash_plain salt key : TrimSpace (encoded_hash salt key) = encoded_hash salt key.
Proof.
  apply TrimSpace_plain. unfold encoded_hash, hash_parts. rewrite !to_chars_Join_cons.
  assert (∀ s, plain_text s = true → Forall (λ c, plain_char c = true) (to_chars s)) as Hp
    
    by (intros s Hs; apply Forall_forall; intros c Hc;
        by apply (proj1 (forallb_forall _ _) Hs), list_elem_of_In).
  cbn [Join].
  repeat (apply Forall_app_2; [first [exact (proj1 (base64_text _))|by apply Hp]|];
          apply Forall_cons_2; [done|]).
  apply base64_text.
Qed.

Lemma encoded_hash_split salt key : Split (encoded_hash salt key) ":" = hash_parts salt key.
Proof.
  apply (Split_Join ":"); [done|]. unfold hash_parts. rewrite !Forall_cons.
  split_and!; try apply base64_text; done.
Qed.

#[local] Opaque pbkdf2_Key.

Lemma pbkdf2SHA256_default password salt :
  pbkdf2SHA256 password salt DefaultIterations DefaultKeyBytes
  = Ok (pbkdf2_Key password salt DefaultIterations DefaultKeyBytes).
Proof. reflexivity. Qed.

Lemma verify_encoded salt key other :
  (8 ≤ length salt)%nat → length key = 32%nat →
  VerifyPassword other (encoded_hash salt key)
  = bool_decide (pbkdf2_Key (to_chars other) salt DefaultIterations DefaultKeyBytes = key).
Proof.
  intros Hs Hk. unfold VerifyPassword.
  rewrite encoded_hash_plain, encoded_hash_split. unfold encoded_hash, hash_parts.
  change (HasPrefix _ "plain:") with false. change (HasPrefix _ "sha256:") with false. cbv iota.
  change (negb (String.eqb "pbkdf2-sha256" "pbkdf2-sha256")) with false.
  change (Atoi "210000") with (Some DefaultIterations). cbv iota.
  change ((DefaultIterations <? 10000) || (2000000 <? DefaultIterations)) with false. cbv iota.
  rewrite !to_of_chars, !base64_roundtrip.
  destruct (Nat.ltb_spec (length salt) 8); [lia|]. rewrite Hk. cbn [Nat.eqb orb Nat.ltb Nat.leb].
  change (Z.of_nat 32) with DefaultKeyBytes. by rewrite pbkdf2SHA256_default.
Qed.

Lemma hash_text_encoded salt key : hash_text salt key = encoded_hash salt key.
Proof. reflexivity. Qed.

Lemma HashPassword_text salt password :
  HashPassword (Ok salt) password
  = Ok (encoded_hash salt (pbkdf2_Key (to_chars password) salt DefaultIterations DefaultKeyBytes)).
Proof.
  rewrite <-hash_text_encoded. unfold HashPassword.
  cbn [mbind]. unfold result_bind. by rewrite pbkdf2SHA256_default.
Qed.

(** ** Property *)

(** Hashing a password with a salt of at least eight bytes gives a text
    that verifies exactly the passwords whose derived key is the same, so the
    password itself. *)
Theorem hash_verifies salt password :
  (8 ≤ length salt)%nat →
  ∃ encoded, HashPassword (Ok salt) password = Ok encoded ∧
    VerifyPassword password encoded = true ∧
    ∀ other, VerifyPassword other encoded = true ↔
      pbkdf2_Key (to_chars other) salt DefaultIterations DefaultKeyBytes
      = pbkdf2_Key (to_chars password) salt DefaultIterations DefaultKeyBytes.
Proof.
  intros Hs.
  exists (encoded_hash salt (pbkdf2_Key (to_chars password) salt DefaultIterations DefaultKeyBytes)).
  pose proof (λ other, verify_encoded salt _ other Hs 
    (length_pbkdf2_Key (to_chars password) salt DefaultIterations)) as Hv.
  split; [|split; [by rewrite Hv, bool_decide_true|intros other; by rewrite Hv, bool_decide_eq_true]].
  apply HashPassword_text.
Qed.

Lemma hash_verifies_witness :
  ∃ encoded, HashPassword (Ok (to_chars "0123456789abcdef")) "secret" = Ok encoded ∧
    VerifyPassword "secret" encoded = true.
Proof.
  destruct (hash_verifies (to_chars "0123456789abcdef") "secret" ltac:(cbn; lia))
    as (encoded & H1 & H2 & _).
  by exists encoded.
Defined.
