(* ===== verification/Credseal.v ===== *)
(** * Sealed credentials (src/internal/credseal/credseal.go)

    A client keeps its login sealed under a public key of the server. RSA,
    AES-GCM and the key formats are a class with the laws the code relies on;
    random bytes are arguments; JSON is the codec class. *)

From S2P Require Import Prelude.
From S2P Require Import GoStd.
From S2P Require Import Disk.
From S2P Require Import Protocol.
From S2P Require Import GoCrypto.

#[local] Open Scope Z_scope.

Definition TypeServerSealed : string := "server_sealed".
Definition EnvelopeAlg : string := "rsa-oaep-sha256+a256gcm".

Record PlainCredential := mkPlainCredential {
  pc_Username : string;
  pc_Password : string;
  pc_ClientID : string;
  pc_IssuedAt : string;
  pc_ExpiresAt : string;
  pc_Nonce : string
}.

Definition zeroPlain : PlainCredential := mkPlainCredential "" "" "" "" "" "".

Record encryptedEnvelope := mkEnvelope {
  env_Alg : string; env_EK : string; env_Nonce : string; env_CT : string
}.

Definition zeroEnvelope : encryptedEnvelope := mkEnvelope "" "" "" "".

(** [rsa.PublicKey]. *)
Record PublicKey := mkPublicKey { pk_N : Z; pk_E : Z }.

(** The cryptography of the standard library: RSA keys and their DER forms
    ([None] is a key of another kind), [rsa.EncryptOAEP] and
    [rsa.GenerateKey] with the random bytes they draw, AES-GCM for a key of 32
    bytes. *)
Class SealCrypto := {
  PrivateKey : Type;
  public : PrivateKey → PublicKey;
  ParsePKIXPublicKey : chars → result (option PublicKey);
  ParsePKCS1PrivateKey : chars → result PrivateKey;
  ParsePKCS8PrivateKey : chars → result (option PrivateKey);
  MarshalPKIXPublicKey : PublicKey → result chars;
  MarshalPKCS1PrivateKey : PrivateKey → chars;
  GenerateKey : Z → result PrivateKey;
  EncryptOAEP : PublicKey → chars → string → result chars;
  DecryptOAEP : PrivateKey → chars → string → result chars;
  gcm_seal : chars → chars → chars → string → chars;          (* key, nonce, payload, data *)
  gcm_open : chars → chars → chars → string → result chars
}.

(** What the code relies on. *)
Class SealLaws `{SealCrypto} `{PEM} := {
  oaep_law k m label c : EncryptOAEP (public k) m label = Ok c → DecryptOAEP k c label = Ok m;
  gcm_law key nonce m data : gcm_open key nonce (gcm_seal key nonce m data) data = Ok m;
  pem_law type bytes : ∃ rest, pem_Decode (pem_EncodeToMemory type bytes) = Some (type, bytes, rest);
  pkcs1_law k : ParsePKCS1PrivateKey (MarshalPKCS1PrivateKey k) = Ok k;
  pkix_law p der : MarshalPKIXPublicKey p = Ok der → ParsePKIXPublicKey der = Ok (Some p)
}.

Section Sealing.
Context `{SealCrypto} `{PEM} `{PlainCodec : JSONCodec PlainCredential}
  `{EnvelopeCodec : JSONCodec encryptedEnvelope} `{LocalTime}.

Definition ParsePublicKeyPEM (data : chars) : result PublicKey :=
  match pem_Decode data with
  | None => Err "public key PEM not found"
  | Some (_, bytes, _) =>
      match ParsePKIXPublicKey bytes with
      | Err e => Err e
      | Ok None => Err "public key is not RSA"
      | Ok (Some pub) => Ok pub
      end
  end.

Definition ParsePrivateKeyPEM (data : chars) : result PrivateKey :=
  match pem_Decode data with
  | None => Err "private key PEM not found"
  | Some (_, bytes, _) =>
      match ParsePKCS1PrivateKey bytes with
      | Ok key => Ok key
      | Err _ =>
          match ParsePKCS8PrivateKey bytes with
          | Err e => Err e
          | Ok None => Err "private key is not RSA"
          | Ok (Some key) => Ok key
          end
      end
  end.

Definition base64 (l : chars) : string := of_chars (base64_encode l).

(** The fields [Seal] fills in; [plainNonce] is random. *)
Definition complete_plain (key : CredentialPublicKey) (now : Time) (plainNonce : chars)
    (plain : PlainCredential) : PlainCredential :=
  mkPlainCredential (pc_Username plain) (pc_Password plain) (pc_ClientID plain)
    (if String.eqb (pc_IssuedAt plain) "" then FormatRFC3339 now else pc_IssuedAt plain)
    (if String.eqb (pc_ExpiresAt plain) "" then cp_ExpiresAt key else pc_ExpiresAt plain)
    (if String.eqb (pc_Nonce plain) "" then base64 plainNonce else pc_Nonce plain).

Definition Seal (key : CredentialPublicKey) (plain : PlainCredential) (now : Time)
    (plainNonce contentKey nonce : chars) : result SealedCredential :=
  pub ← ParsePublicKeyPEM (to_chars (cp_PublicKeyPEM key));
  payload ← marshal (complete_plain key now plainNonce plain);
  let ct := gcm_seal contentKey nonce payload (cp_KeyID key) in
  ek ← EncryptOAEP pub contentKey (cp_KeyID key);
  env ← marshal (mkEnvelope EnvelopeAlg (base64 ek) (base64 nonce) (base64 ct));
  Ok (mkSealedCredential TypeServerSealed (cp_KeyID key) (cp_ExpiresAt key) (base64 env)).

Definition base64_field (what text : string) : result chars :=
  match base64_decode (to_chars text) with
  | Some b => Ok b
  | None => wrap_err ("decode credential " +:+ what) (Err "illegal base64 data")
  end.

Definition Open (sealed : SealedCredential) (privateKey : PrivateKey) : result PlainCredential :=
  if negb (String.eqb (sc_Type sealed) TypeServerSealed) then Err "unsupported credential type"
  else
    envJSON ← base64_field "envelope" (sc_Ciphertext sealed);
    env ← wrap_err "parse credential envelope" (unmarshal envJSON zeroEnvelope);
    if negb (String.eqb (env_Alg env) EnvelopeAlg) then Err "unsupported credential envelope"
    else
      ek ← base64_field "key" (env_EK env);
      nonce ← base64_field "nonce" (env_Nonce env);
      ct ← base64_field "ciphertext" (env_CT env);
      contentKey ← wrap_err "open credential key" (DecryptOAEP privateKey ek (sc_KeyID sealed));
      payload ← wrap_err "open credential payload" (gcm_open contentKey nonce ct (sc_KeyID sealed));
      wrap_err "parse credential payload" (unmarshal payload zeroPlain).

(** ** Key files *)

Definition writeFileSecure (d : Disk) (path data : string) : Disk * result unit :=
  match MkdirAll d (Dir path) with
  | Err e => (d, Err e)
  | Ok _ => WriteFile d path data
  end.

Definition public_pem (key : PrivateKey) : result string :=
  publicDER ← MarshalPKIXPublicKey (public key);
  Ok (of_chars (pem_EncodeToMemory "PUBLIC KEY" publicDER)).

Definition GenerateKeyPair (bits : Z) : result (PrivateKey * string * string) :=
  let bits := if bits <? 2048 then 3072 else bits in
  key ← GenerateKey bits;
  publicPEM ← public_pem key;
  Ok (key, of_chars (pem_EncodeToMemory "RSA PRIVATE KEY" (MarshalPKCS1PrivateKey key)), publicPEM).

(** The public file kept when it belongs to the key. *)
Definition kept_public (d : Disk) (publicPath : string) (key : PrivateKey) : option string :=
  match ReadFile d publicPath with
  | ReadData publicData =>
      match ParsePublicKeyPEM (to_chars publicData) with
      | Ok pub =>
          if (pk_N pub =? pk_N (public key)) && (pk_E pub =? pk_E (public key))
          then Some publicData else None
      | Err _ => None
      end
  | _ => None
  end.

Definition EnsureKeyFiles (d : Disk) (privatePath publicPath : string) (bits : Z)
    : Disk * result (PrivateKey * string) :=
  match ReadFile d privatePath with
  | ReadData privateData =>
      match ParsePrivateKeyPEM (to_chars privateData) with
      | Err e => (d, Err e)
      | Ok key =>
          match kept_public d publicPath key with
          | Some publicData => (d, Ok (key, publicData))
          | None =>
              match public_pem key with
              | Err e => (d, Err e)
              | Ok publicData =>
                  match writeFileSecure d publicPath publicData with
                  | (d, Err e) => (d, Err e)
                  | (d, Ok _) => (d, Ok (key, publicData))
                  end
              end
          end
      end
  | _ =>
      match GenerateKeyPair bits with
      | Err e => (d, Err e)
      | Ok (key, privatePEM, publicPEM) =>
          match writeFileSecure d privatePath privatePEM with
          | (d, Err e) => (d, Err e)
          | (d, Ok _) =>
              match writeFileSecure d publicPath publicPEM with
              | (d, Err e) => (d, Err e)
              | (d, Ok _) => (d, Ok (key, publicPEM))
              end
          end
      end
  end.
End Sealing.

(** ** Properties *)

Section Properties.
Context `{SealLaws} `{PlainCodec : JSONCodec PlainCredential}
  `{EnvelopeCodec : JSONCodec encryptedEnvelope} `{LocalTime}.

(** A login sealed under the public key of a private key is opened by that
    key: it comes back with the fields sealing filled in, and the sealed record
    names the key and its expiry. *)
Lemma open_seal k key plain now plainNonce contentKey nonce sealed :
  (∀ (x : PlainCredential) data, marshal x = Ok data → unmarshal data zeroPlain = Ok x) →
  (∀ (x : encryptedEnvelope) data, marshal x = Ok data → unmarshal data zeroEnvelope = Ok x) →
  ParsePublicKeyPEM (to_chars (cp_PublicKeyPEM key)) = Ok (public k) →
  Seal key plain now plainNonce contentKey nonce = Ok sealed →
  Open sealed k = Ok (complete_plain key now plainNonce plain) ∧
  sc_Type sealed = TypeServerSealed ∧ sc_KeyID sealed = cp_KeyID key ∧
  sc_ExpiresAt sealed = cp_ExpiresAt key.
Proof.
  intros Hplain Henv Hpub Hseal. unfold Seal in Hseal. rewrite Hpub in Hseal.
  cbn [mbind result_bind] in Hseal.
  destruct (marshal (complete_plain key now plainNonce plain)) as [payload|e] eqn:Ep; [|done].
  cbn [mbind result_bind] in Hseal.
  destruct (EncryptOAEP (public k) contentKey (cp_KeyID key)) as [ek|e] eqn:Ek; [|done].
  cbn [mbind result_bind] in Hseal. destruct (marshal (mkEnvelope _ _ _ _)) as [env|e] eqn:Ee; [|done].
  injection Hseal as <-. split; [|done]. unfold Open, base64_field. cbn [sc_Type sc_Ciphertext sc_KeyID].
  change (negb (String.eqb TypeServerSealed TypeServerSealed)) with false. cbv iota.
  unfold base64 in *. rewrite to_of_chars, base64_roundtrip. cbn [mbind result_bind].
  rewrite (Henv _ _ Ee). cbn [wrap_err mbind result_bind env_Alg env_EK env_Nonce env_CT].
  change (negb (String.eqb EnvelopeAlg EnvelopeAlg)) with false. cbv iota.
  rewrite !to_of_chars, !base64_roundtrip. cbn [mbind result_bind].
  rewrite (oaep_law _ _ _ _ Ek). cbn [wrap_err mbind result_bind].
  rewrite gcm_law. cbn [wrap_err mbind result_bind]. by rewrite (Hplain _ _ Ep).
Qed.
End Properties.

Section KeyFiles.
Context `{SealLaws} `{PlainCodec : JSONCodec PlainCredential}
  `{EnvelopeCodec : JSONCodec encryptedEnvelope} `{LocalTime}.

Lemma kept_public_written d path key text :
  public_pem key = Ok text → dk_readErr d path = None → dk_files d !! path = Some text →
  kept_public d path key = Some text.
Proof.
  unfold public_pem. intros Hp Hr Hf. unfold kept_public, ReadFile. rewrite Hr, Hf.
  destruct (MarshalPKIXPublicKey (public key)) as [der|e] eqn:Ed; [|done]. injection Hp as <-.
  unfold ParsePublicKeyPEM. rewrite to_of_chars.
  destruct (pem_law "PUBLIC KEY" der) as (rest & ->). rewrite (pkix_law _ _ Ed).
  by rewrite !Z.eqb_refl.
Qed.

Lemma writeFileSecure_ok d path data d' u :
  writeFileSecure d path data = (d', Ok u) →
  dk_readErr d' = dk_readErr d ∧ dk_files d' !! path = Some data ∧
  ∀ p, p ≠ path → dk_files d' !! p = dk_files d !! p.
Proof.
  unfold writeFileSecure, WriteFile. destruct (MkdirAll d (Dir path)); [|done].
  destruct (dk_writeErr d path) as [[e t]|]; [done|]. intros [= <- _]. unfold set_file. cbn.
  split; [done|]. split; [apply lookup_partial_alter_eq|].
  intros p Hp. by rewrite lookup_partial_alter_ne.
Qed.

(** Reading back a key whose files are on the disk. *)
Lemma EnsureKeyFiles_present d privatePath publicPath bits data key text :
  dk_readErr d privatePath = None → dk_files d !! privatePath = Some data →
  ParsePrivateKeyPEM (to_chars data) = Ok key → kept_public d publicPath key = Some text →
  EnsureKeyFiles d privatePath publicPath bits = (d, Ok (key, text)).
Proof.
  intros Hr Hf Hp Hk. unfold EnsureKeyFiles, ReadFile. by rewrite Hr, Hf, Hp, Hk.
Qed.

Lemma private_pem_parsed key :
  ParsePrivateKeyPEM (to_chars (of_chars (pem_EncodeToMemory "RSA PRIVATE KEY" (MarshalPKCS1PrivateKey key))))
  = Ok key.
Proof.
  unfold ParsePrivateKeyPEM. rewrite to_of_chars.
  destruct (pem_law "RSA PRIVATE KEY" (MarshalPKCS1PrivateKey key)) as (rest & ->).
  by rewrite pkcs1_law.
Qed.

(** The key files are stable: once they are in order, asking for them again
    gives the same key and the same public text and changes nothing, and a
    private key that can be read is never replaced. *)
Theorem key_files_stable d d' privatePath publicPath bits bits' key text :
  (∀ p, dk_readErr d p = None) →
  privatePath ≠ publicPath →
  EnsureKeyFiles d privatePath publicPath bits = (d', Ok (key, text)) →
  EnsureKeyFiles d' privatePath publicPath bits' = (d', Ok (key, text)) ∧
  (∀ data, dk_files d !! privatePath = Some data →
     dk_files d' !! privatePath = Some data ∧ ParsePrivateKeyPEM (to_chars data) = Ok key).
Proof.
  intros Hr Hne Hens. pose proof Hens as E. unfold EnsureKeyFiles, ReadFile in E. rewrite Hr in E.
  destruct (dk_files d !! privatePath) as [data|] eqn:Ef.
  - destruct (ParsePrivateKeyPEM (to_chars data)) as [k|e] eqn:Ep; [|done].
    destruct (kept_public d publicPath k) as [pub|] eqn:Ek.
    { injection E as <- <- <-. split; [by eapply EnsureKeyFiles_present|]. by intros ? [= <-]. }
    destruct (public_pem k) as [pub|e] eqn:Epub; [|done].
    destruct (writeFileSecure d publicPath pub) as [d1 [u|e]] eqn:Ew; [|done]. injection E as <- <- <-.
    destruct (writeFileSecure_ok _ _ _ _ _ Ew) as (Hr' & Hf & Ho). split.
    + eapply EnsureKeyFiles_present; [by rewrite Hr'|by rewrite Ho|done|].
      by apply kept_public_written; [|rewrite Hr'|].
    + intros ? [= <-]. by rewrite Ho.
  - split; [|by intros]. unfold GenerateKeyPair in E.
    destruct (GenerateKey _) as [k|e]; [|done]. cbn [mbind result_bind] in E.
    destruct (public_pem k) as [pub|e] eqn:Epub; [|done]. cbn [mbind result_bind] in E.
    destruct (writeFileSecure d privatePath _) as [d1 [u|e]] eqn:Ew; [|done].
    destruct (writeFileSecure d1 publicPath pub) as [d2 [u'|e]] eqn:Ew'; [|done]. injection E as <- <- <-.
    destruct (writeFileSecure_ok _ _ _ _ _ Ew) as (Hr1 & Hf1 & _).
    destruct (writeFileSecure_ok _ _ _ _ _ Ew') as (Hr2 & Hf2 & Ho2).
    eapply EnsureKeyFiles_present; [by rewrite Hr2, Hr1|by rewrite Ho2|apply private_pem_parsed|].
    by apply kept_public_written; [|rewrite Hr2, Hr1|].
Qed.
End KeyFiles.

(** ** An instance: a toy cipher that keeps its laws *)

Module Toy.

Definition number (l : chars) : Z := Z.pos (bits_pos l).
Definition digits (z : Z) : chars := pos_bits (Z.to_pos z).

(** Records as their fields, each character marked and each field ended. *)
Definition write_field (s : string) : chars :=
  flat_map (λ c, ["1"%char; c]) (to_chars s) ++ ["0"%char].
Fixpoint read_field (l : chars) : option (chars * chars) :=
  match l with
  | m :: t =>
      if Ascii.eqb m "0"%char then Some ([], t)
      else match t with
           | c :: t => '(f, rest) ← read_field t; Some (c :: f, rest)
           | [] => None
           end
  | [] => None
  end.
Fixpoint read_fields (n : nat) (l : chars) : option (list string) :=
  match n with
  | O => Some []
  | S n => '(f, rest) ← read_field l; fs ← read_fields n rest; Some (of_chars f :: fs)
  end.
Definition write_fields (fs : list string) : chars := concat (map write_field fs).

Lemma read_write_fields fs : read_fields (length fs) (write_fields fs) = Some fs.
Proof.
  assert (∀ s rest, read_field (write_field s ++ rest) = Some (to_chars s, rest)) as Hf.
  { intros s rest. unfold write_field. induction (to_chars s) as [|c l IH]; [done|].
    cbn [flat_map app read_field]. change (Ascii.eqb "1" "0") with false. cbv iota.
    cbn [app] in IH. by rewrite IH. }
  induction fs as [|f fs IH]; [done|]. cbn [length read_fields write_fields map concat].
  rewrite Hf. cbn [mbind option_bind]. fold (write_fields fs). rewrite IH. cbn [mbind option_bind].
  by rewrite of_to_chars.
Qed.

#[export] Instance toyPEM : PEM := {|
  pem_Decode l := match read_fields 2 l with
                  | Some [t; bytes] => Some (t, to_chars bytes, [])
                  | _ => None
                  end;
  pem_EncodeToMemory t bytes := write_fields [t; of_chars bytes]
|}.

(** A key is a positive number, its public key the same one. *)
#[export] Instance toyCrypto : SealCrypto := {|
  PrivateKey := positive;
  public k := mkPublicKey (Z.pos k) 65537;
  ParsePKIXPublicKey l := Ok (Some (mkPublicKey (number l) 65537));
  ParsePKCS1PrivateKey l := Ok (bits_pos l);
  ParsePKCS8PrivateKey l := Ok None;
  MarshalPKIXPublicKey p := if (0 <? pk_N p) && (pk_E p =? 65537) then Ok (digits (pk_N p)) else Err "bad key";
  MarshalPKCS1PrivateKey k := pos_bits k;
  GenerateKey bits := Ok (Z.to_pos bits);
  EncryptOAEP p m label := Ok (m ++ to_chars label);
  DecryptOAEP k c label := Ok (take (length c - String.length label) c);
  gcm_seal key nonce m data := m;
  gcm_open key nonce c data := Ok c
|}.

Lemma bits_roundtrip p : bits_pos (pos_bits p) = p.
Proof. induction p as [p IH|p IH|]; cbn; by rewrite ?IH. Qed.

#[export] Instance toyLaws : SealLaws.
Proof.
  split.
  - intros k m label c [= <-]. cbn. rewrite length_app, length_to_chars.
    replace (length m + String.length label - String.length label)%nat with (length m) by lia.
    by rewrite take_app_length.
  - done.
  - intros t bytes. exists []. cbn [pem_Decode toyPEM pem_EncodeToMemory].
    rewrite (read_write_fields [_; _]). by rewrite to_of_chars.
  - intros k. cbn. by rewrite bits_roundtrip.
  - intros [N E] der. cbn.
    destruct (Z.ltb_spec 0 N); [|done]. destruct (Z.eqb_spec E 65537) as [->|]; [|done]. intros [= <-].
    unfold number, digits. rewrite bits_roundtrip. by rewrite Z2Pos.id.
Qed.

#[export] Instance plainCodec : JSONCodec PlainCredential := {|
  marshal p := Ok (write_fields [pc_Username p; pc_Password p; pc_ClientID p; pc_IssuedAt p; pc_ExpiresAt p; pc_Nonce p]);
  unmarshal l _ := match read_fields 6 l with
                   | Some [a; b; c; d; e; f] => Ok (mkPlainCredential a b c d e f)
                   | _ => Err "invalid"
                   end
|}.
#[export] Instance envelopeCodec : JSONCodec encryptedEnvelope := {|
  marshal p := Ok (write_fields [env_Alg p; env_EK p; env_Nonce p; env_CT p]);
  unmarshal l _ := match read_fields 4 l with
                   | Some [a; b; c; d] => Ok (mkEnvelope a b c d)
                   | _ => Err "invalid"
                   end
|}.

Lemma plainCodec_law (x : PlainCredential) data : marshal x = Ok data → unmarshal data zeroPlain = Ok x.
Proof. intros [= <-]. cbn [unmarshal plainCodec]. rewrite (read_write_fields [_; _; _; _; _; _]). by destruct x. Qed.
Lemma envelopeCodec_law (x : encryptedEnvelope) data : marshal x = Ok data → unmarshal data zeroEnvelope = Ok x.
Proof. intros [= <-]. cbn [unmarshal envelopeCodec]. rewrite (read_write_fields [_; _; _; _]). by destruct x. Qed.

End Toy.

#[local] Existing Instances Toy.toyPEM Toy.toyCrypto Toy.toyLaws Toy.plainCodec Toy.envelopeCodec.

#[local] Instance frozenTime : LocalTime :=
  Build_LocalTime (λ t, pretty t) (λ s, Atoi s) (λ _, "") (λ _, "") (λ _, "") (λ _, (0, 0, 0))
    (λ _ _ _, 0) (λ t n, t + n) (λ t n, t + n).

Definition sampleLogin : PlainCredential := mkPlainCredential "ann" "secret" "pc" "" "" "".
Definition samplePublic : CredentialPublicKey :=
  mkCredentialPublicKey TypeServerSealed "k1" "99"
    (of_chars (pem_EncodeToMemory "PUBLIC KEY" (Toy.digits 7))).

Lemma open_seal_witness :
  ∃ sealed, Seal samplePublic sampleLogin 5 (to_chars "nn") (to_chars "kk") (to_chars "n") = Ok sealed ∧
    pc_Password <$> Open sealed (7%positive : @PrivateKey Toy.toyCrypto) = Ok "secret".
Proof.
  destruct (Seal samplePublic sampleLogin 5 (to_chars "nn") (to_chars "kk") (to_chars "n"))
    as [sealed|e] eqn:E; [|vm_compute in E; discriminate E].
  exists sealed. split; [done|].
  destruct (open_seal (7%positive : @PrivateKey Toy.toyCrypto) samplePublic sampleLogin 5
    (to_chars "nn") (to_chars "kk") (to_chars "n") sealed) as [H _];
    [apply Toy.plainCodec_law|apply Toy.envelopeCodec_law|vm_compute; reflexivity|exact E|].
  rewrite H. reflexivity.
Defined.

Lemma key_files_stable_witness :
  let r := EnsureKeyFiles (goodDisk ∅) "certs/a.key" "certs/a.pub" 3072 in
  EnsureKeyFiles r.1 "certs/a.key" "certs/a.pub" 1 = r ∧ is_ok r.2 = true.
Proof.
  cbv zeta. destruct (EnsureKeyFiles (goodDisk ∅) "certs/a.key" "certs/a.pub" 3072) as [d [[k t]|e]] eqn:E;
    [|vm_compute in E; discriminate E].
  split; [|done]. apply (key_files_stable (goodDisk ∅) d "certs/a.key" "certs/a.pub" 3072 1 k t);
    [done|done|exact E].
Defined.
