(* ===== verification/CertificateGate.v ===== *)
(** * The certificate possession gate (src/internal/transport/certificate_gate.go)

    Before TLS starts, the server sends a challenge of fixed size and accepts
    only a response with a proof made from the certificate's bytes, with the
    hash and the MAC of GoCrypto.v; parsing a certificate and a PEM block are
    parameters. *)

From S2P Require Import Prelude.
From S2P Require Import GoStd.
From S2P Require Import Protocol.
From S2P Require Import GoCrypto.

#[local] Open Scope Z_scope.

Import Sha256.

(** ** Constants *)

Definition certificateGateVersion : Ascii.ascii := of_code 1.
Definition certificateGateNonceSize : nat := 32.
Definition certificateGateChallengeSize : nat := 8 + 1 + certificateGateNonceSize.
Definition certificateGateResponseSize : nat := 8 + 1 + certificateGateNonceSize + Size.
Definition certificateGateChallengeMagic : chars := to_chars "LSYLGATE".
Definition certificateGateResponseMagic : chars := to_chars "LSYLPROF".
Definition certificateGateKeyContext : chars :=
  to_chars "LSYL-TUNNEL-CERTIFICATE-GATE-KEY-V1" ++ [of_code 0].
Definition certificateGateProofContext : chars :=
  to_chars "LSYL-TUNNEL-CERTIFICATE-GATE-PROOF-V1" ++ [of_code 0].

(** The errors of the gate, apart from each other as [errors.Is] sees them. *)
Inductive gateError :=
  | ErrCertificateGateProtocol (detail : string)
  | ErrCertificateGateProof
  | gateFailure (text : string).

Definition gateErrorText (e : gateError) : string :=
  match e with
  | ErrCertificateGateProtocol detail => "invalid certificate possession gate protocol" +:+ detail
  | ErrCertificateGateProof => "certificate possession gate proof rejected"
  | gateFailure text => text
  end.

(** ** The key *)

(** [crypto/x509]: parsing gives the raw bytes of the certificate. *)
Class X509 := ParseCertificate : chars → result chars.

Definition CertificateGateKey : Type := chars.

Section Key.
Context `{X509} `{PEM}.

Definition CertificateGateKeyFromDER (der : chars) : result CertificateGateKey :=
  match ParseCertificate der with
  | Err e => Err ("parse certificate possession gate certificate: " +:+ e)
  | Ok raw => Ok (Sum256 (certificateGateKeyContext ++ raw))
  end.

(** Each block is shorter than the data it was found in: the length of the
    data is fuel enough. *)
Fixpoint key_from_pem (fuel : nat) (data : chars) : result CertificateGateKey :=
  let none := Err "certificate possession gate requires an X.509 certificate" in
  match fuel, data with
  | O, _ | _, [] => none
  | S fuel, _ =>
      match pem_Decode data with
      | None => none
      | Some (type, bytes, rest) =>
          if String.eqb type "CERTIFICATE" then CertificateGateKeyFromDER bytes
          else key_from_pem fuel rest
      end
  end.

Definition CertificateGateKeyFromPEM (data : chars) : result CertificateGateKey :=
  key_from_pem (length data) data.

(** The fuel is enough when every block leaves less than it was given. *)
Lemma key_from_pem_fuel :
  (∀ data t b rest, pem_Decode data = Some (t, b, rest) → (length rest < length data)%nat) →
  ∀ fuel data, (length data ≤ fuel)%nat → key_from_pem fuel data = CertificateGateKeyFromPEM data.
Proof.
  intros Hdec. unfold CertificateGateKeyFromPEM.
  assert (∀ f1 f2 data, (length data ≤ f1)%nat → (length data ≤ f2)%nat →
            key_from_pem f1 data = key_from_pem f2 data) as Hall.
  { induction f1 as [|f1 IH]; intros [|f2] [|c data] L1 L2; try done; cbn in L1, L2; try lia.
    cbn. destruct (pem_Decode (c :: data)) as [[[t b] rest]|] eqn:E; [|done].
    pose proof (Hdec _ _ _ _ E) as Hl. cbn in Hl.
    destruct (String.eqb t "CERTIFICATE"); [done|]. apply IH; lia. }
  intros. by apply Hall.
Qed.
End Key.

(** ** The exchange *)

(** [net.Conn] as the gate uses it: [Write] says how many bytes it took, and
    reading is [io.ReadFull]. *)
Class NetConn (W : Type) := {
  conn_write : W → chars → W * Z * result unit;
  conn_read : W → nat → W * result chars
}.

Section Gate.
Context {W : Type} `{NetConn W}.

(** Each round takes a byte at least: the length is fuel enough. *)
Fixpoint write_loop (fuel : nat) (w : W) (data : chars) : W * result unit :=
  match data, fuel with
  | [], _ => (w, Ok tt)
  | _, O => (w, Err "short write")
  | _, S fuel =>
      match conn_write w data with
      | (w, _, Err e) => (w, Err e)
      | (w, n, Ok _) =>
          if n <=? 0 then (w, Err "short write") else write_loop fuel w (drop (Z.to_nat n) data)
      end
  end.

Definition writeAll (w : W) (data : chars) : W * result unit := write_loop (length data) w data.

Definition certificateGateProof (key : CertificateGateKey) (challenge responseHeader : chars) : chars :=
  HMAC key (certificateGateProofContext ++ challenge ++ responseHeader).

Definition gate_header (magic nonce : chars) : chars := magic ++ [certificateGateVersion] ++ nonce.

Definition header_ok (magic frame : chars) : bool :=
  bool_decide (take 8 frame = magic) && bool_decide (frame !! 8%nat = Some certificateGateVersion).

(** [nonce] is what [rand.Read] gives. *)
Definition server_gate (nonce : result chars) (w : W) (key : CertificateGateKey)
    : W * option gateError :=
  match nonce with
  | Err e => (w, Some (gateFailure ("generate certificate possession gate challenge: " +:+ e)))
  | Ok nonce =>
      let challenge := gate_header certificateGateChallengeMagic nonce in
      match writeAll w challenge with
      | (w, Err e) => (w, Some (gateFailure ("write certificate possession gate challenge: " +:+ e)))
      | (w, Ok _) =>
          match conn_read w certificateGateResponseSize with
          | (w, Err e) => (w, Some (gateFailure ("read certificate possession gate proof: " +:+ e)))
          | (w, Ok response) =>
              if negb (header_ok certificateGateResponseMagic response)
              then (w, Some (ErrCertificateGateProtocol ""))
              else
                let header := take (9 + certificateGateNonceSize) response in
                let expected := certificateGateProof key challenge header in
                if bool_decide (drop (9 + certificateGateNonceSize) response = expected)
                then (w, None) else (w, Some ErrCertificateGateProof)
          end
      end
  end.

Definition ServerCertificateGate (nonce : result chars) (conn : option W) (key : CertificateGateKey)
    : option W * option gateError :=
  match conn with
  | None => (None, Some (ErrCertificateGateProtocol ": connection is nil"))
  | Some w => let '(w, e) := server_gate nonce w key in (Some w, e)
  end.

Definition client_gate (nonce : result chars) (w : W) (key : CertificateGateKey)
    : W * option gateError :=
  match conn_read w certificateGateChallengeSize with
  | (w, Err e) =>
      (w, Some (gateFailure ("read certificate possession gate challenge: " +:+ e)))
  | (w, Ok challenge) =>
      if negb (header_ok certificateGateChallengeMagic challenge)
      then (w, Some (ErrCertificateGateProtocol ""))
      else match nonce with
      | Err e => (w, Some (gateFailure ("generate certificate possession gate nonce: " +:+ e)))
      | Ok nonce =>
          let header := gate_header certificateGateResponseMagic nonce in
          match writeAll w (header ++ certificateGateProof key challenge header) with
          | (w, Err e) =>
              (w, Some (gateFailure ("write certificate possession gate proof: " +:+ e)))
          | (w, Ok _) => (w, None)
          end
      end
  end.

Definition ClientCertificateGate (nonce : result chars) (conn : option W) (key : CertificateGateKey)
    : option W * option gateError :=
  match conn with
  | None => (None, Some (ErrCertificateGateProtocol ": connection is nil"))
  | Some w => let '(w, e) := client_gate nonce w key in (Some w, e)
  end.

(** [strings.LastIndex(address, ":")], the address before it. *)
Definition tlsConfigForAddress (serverName address : string) : string :=
  if negb (String.eqb serverName "") then serverName
  else match chars_last_index ":"%char (to_chars address) with
       | None => address
       | Some i => of_chars (take i (to_chars address))
       end.

(** The deadline of the gate and the handshake. *)
Definition gate_deadline (now handshakeTimeout : Duration) (contextDeadline : option Time) : Time :=
  let handshakeTimeout := if handshakeTimeout <=? 0 then 5 * nsecond else handshakeTimeout in
  let deadline := now + handshakeTimeout in
  match contextDeadline with
  | Some d => if Before d deadline then d else deadline
  | None => deadline
  end.

(** What dialing leaves: the raw connection if there was one, whether it was
    closed, and the answer. [dial] is the dialer, [tls] the handshake of
    [crypto/tls] for a server name. *)
Record dialed (T : Type) := mkDialed {
  dl_raw : option W;
  dl_closed : bool;
  dl_result : result T
}.
#[global] Arguments mkDialed {T}.
#[global] Arguments dl_raw {T}.
#[global] Arguments dl_closed {T}.
#[global] Arguments dl_result {T}.

Definition DialTLSWithCertificateGate {T} (dial : string → result W) (tls : W → string → result T)
    (nonce : result chars) (address serverName : string) (gateKey : CertificateGateKey) : dialed T :=
  match dial address with
  | Err e => mkDialed None false (Err e)
  | Ok raw =>
      match client_gate nonce raw gateKey with
      | (raw, Some e) => mkDialed (Some raw) true (Err (gateErrorText e))
      | (raw, None) =>
          match tls raw (tlsConfigForAddress serverName address) with
          | Err e => mkDialed (Some raw) true
                       (Err ("TLS handshake after certificate possession gate: " +:+ e))
          | Ok conn => mkDialed (Some raw) false (Ok conn)
          end
      end
  end.
End Gate.

(** ** An in-memory connection *)

(** What is left to arrive and what was sent. *)
Record memConn := mkMemConn { mc_in : Stream; mc_out : chars }.

#[export] Instance memNetConn : NetConn memConn := {|
  conn_write w p := (mkMemConn (mc_in w) (mc_out w ++ p), Z.of_nat (length p), Ok tt);
  conn_read w n := let '(s, r) := ReadFull (mc_in w) n in (mkMemConn s (mc_out w), r)
|}.

Definition incoming (bytes : chars) : memConn := mkMemConn (mkStream bytes "EOF") [].

Lemma writeAll_mem (w : memConn) data :
  writeAll w data = (mkMemConn (mc_in w) (mc_out w ++ data), Ok tt).
Proof.
  unfold writeAll. destruct data as [|c data]; cbn [length write_loop].
  - by destruct w; rewrite app_nil_r.
  - cbn [conn_write memNetConn].
    destruct (Z.leb_spec (Z.of_nat (length (c :: data))) 0); [cbn in *; lia|].
    rewrite Nat2Z.id, drop_all. by destruct (length data).
Qed.

Lemma length_gate_header magic nonce :
  length magic = 8%nat → length nonce = certificateGateNonceSize →
  length (gate_header magic nonce) = certificateGateChallengeSize.
Proof. intros H1 H2. unfold gate_header. rewrite !length_app, H1, H2. done. Qed.

Lemma header_ok_header magic nonce rest :
  length magic = 8%nat → header_ok magic (gate_header magic nonce ++ rest) = true.
Proof.
  intros Hm. unfold header_ok, gate_header. rewrite <-!(assoc_L (++)).
  assert (take 8 (magic ++ [certificateGateVersion] ++ nonce ++ rest) = magic) as ->.
  { by rewrite <-Hm, take_app_length. }
  rewrite bool_decide_true by done.
  rewrite lookup_app_r by lia. by rewrite Hm, bool_decide_true.
Qed.

Lemma header_ok_inv magic frame n :
  length magic = 8%nat → length frame = n → (9 ≤ n)%nat → header_ok magic frame = true →
  frame = gate_header magic (drop 9 frame).
Proof.
  intros Hm Hl Hn Hok. unfold header_ok in Hok. apply andb_true_iff in Hok as [E1 E2].
  apply bool_decide_eq_true in E1, E2. unfold gate_header.
  rewrite <-(take_drop 8 frame) at 1. rewrite E1. f_equal.
  by rewrite (drop_S _ _ _ E2).
Qed.

(** ** Properties *)

(** A response made with [key] for the challenge of [nonce]. *)
Definition proof_frame (key : CertificateGateKey) (nonce nonce' : chars) : chars :=
  let header := gate_header certificateGateResponseMagic nonce' in
  header ++ certificateGateProof key (gate_header certificateGateChallengeMagic nonce) header.

Lemma length_proof_frame key nonce nonce' :
  length nonce' = certificateGateNonceSize →
  length (proof_frame key nonce nonce') = certificateGateResponseSize.
Proof.
  intros Hn. unfold proof_frame. rewrite length_app, length_gate_header by done.
  unfold certificateGateProof. by rewrite length_HMAC.
Qed.

Lemma server_gate_in nonce bytes key :
  length nonce = certificateGateNonceSize →
  let challenge := gate_header certificateGateChallengeMagic nonce in
  server_gate (Ok nonce) (incoming bytes) key =
  if (certificateGateResponseSize <=? length bytes)%nat
  then let response := take certificateGateResponseSize bytes in
       (mkMemConn (mkStream (drop certificateGateResponseSize bytes) "EOF") challenge,
        if negb (header_ok certificateGateResponseMagic response)
        then Some (ErrCertificateGateProtocol "")
        else if bool_decide (drop (9 + certificateGateNonceSize) response
               = certificateGateProof key challenge (take (9 + certificateGateNonceSize) response))
             then None else Some ErrCertificateGateProof)
  else (mkMemConn (mkStream [] "EOF") challenge,
        Some (gateFailure ("read certificate possession gate proof: "
                           +:+ match bytes with [] => "EOF" | _ => "unexpected EOF" end))).
Proof.
  intros Hn challenge. unfold server_gate, incoming. rewrite writeAll_mem.
  cbn [mc_in mc_out app conn_read memNetConn]. fold challenge.
  unfold ReadFull. cbn [avail tail_err].
  destruct (certificateGateResponseSize <=? length bytes)%nat; [|by destruct bytes].
  destruct (negb _); [done|]. by destruct (bool_decide _).
Qed.

Lemma gate_accepted key nonce nonce' rest :
  length nonce = certificateGateNonceSize →
  length nonce' = certificateGateNonceSize →
  (ServerCertificateGate (Ok nonce) (Some (incoming (proof_frame key nonce nonce' ++ rest))) key).2
  = None.
Proof.
  intros Hn Hn'. cbn [ServerCertificateGate]. rewrite server_gate_in by done.
  pose proof (length_proof_frame key nonce nonce' Hn') as Hl.
  destruct (Nat.leb_spec certificateGateResponseSize (length (proof_frame key nonce nonce' ++ rest)))
    as [_|Hbad]; [|rewrite length_app, Hl in Hbad; lia].
  cbv zeta. cbn [snd]. rewrite <-Hl, take_app_length.
  unfold proof_frame. cbv zeta. rewrite header_ok_header by done. cbn [negb].
  change (9 + certificateGateNonceSize)%nat with certificateGateChallengeSize.
  rewrite <-(length_gate_header certificateGateResponseMagic nonce' eq_refl Hn').
  rewrite take_app_length, drop_app_length. by rewrite bool_decide_true.
Qed.

(** C12: the gate answers the challenge of its nonce, takes the bytes of one
    response and no more, and lets the connection on exactly when those bytes
    are a response made with the server's key for this very challenge. *)
Theorem gate_accepts_exactly nonce bytes key :
  length nonce = certificateGateNonceSize →
  let '(w, e) := ServerCertificateGate (Ok nonce) (Some (incoming bytes)) key in
  (e = None ↔ ∃ nonce' rest, length nonce' = certificateGateNonceSize ∧
                             bytes = proof_frame key nonce nonce' ++ rest) ∧
  ∃ w', w = Some w' ∧ mc_out w' = gate_header certificateGateChallengeMagic nonce ∧
        avail (mc_in w') = drop certificateGateResponseSize bytes.
Proof.
  intros Hn. cbn [ServerCertificateGate]. rewrite server_gate_in by done.
  destruct (Nat.leb_spec certificateGateResponseSize (length bytes)) as [Hl|Hl].
  2: { split; [|eexists; split_and!; [done..|]; cbn [mc_in avail]; by rewrite drop_ge by lia].
       split; [done|]. intros (nonce' & rest & Hn' & ->).
       rewrite length_app, length_proof_frame in Hl by done. lia. }
  set (response := take certificateGateResponseSize bytes). cbv zeta.
  split; [|by eexists].
  assert (length response = certificateGateResponseSize) as Hr
    by (subst response; rewrite length_take; lia).
  split.
  - destruct (header_ok _ response) eqn:Ehd; cbn [negb]; [|done].
    case_bool_decide as Ep; [|done]. intros _.
    exists (drop 9 (take (9 + certificateGateNonceSize) response)),
      (drop certificateGateResponseSize bytes). split.
    { rewrite length_drop, length_take, Hr. done. }
    unfold proof_frame. cbv zeta.
    assert (take (9 + certificateGateNonceSize) response
            = gate_header certificateGateResponseMagic
                (drop 9 (take (9 + certificateGateNonceSize) response))) as Et.
    { apply (header_ok_inv _ _ certificateGateChallengeSize); [done| |by vm_compute; lia|].
      - rewrite length_take, Hr. done.
      - revert Ehd. unfold header_ok. rewrite take_take, lookup_take_lt by (vm_compute; lia). done. }
    rewrite <-Et, <-Ep, take_drop. subst response. by rewrite take_drop.
  - intros (nonce' & rest & Hn' & ->). pose proof (gate_accepted key nonce nonce' rest Hn Hn') as Ha.
    cbn [ServerCertificateGate] in Ha. rewrite server_gate_in in Ha by done.
    by destruct (Nat.leb_spec certificateGateResponseSize (length (proof_frame key nonce nonce' ++ rest)));
      [|lia].
Qed.

Definition sampleNonce : chars := replicate 32 "n"%char.
Definition sampleKey : CertificateGateKey := replicate 32 "k"%char.

Lemma gate_accepts_exactly_witness :
  let '(_, e) := ServerCertificateGate (Ok sampleNonce)
                   (Some (incoming (proof_frame sampleKey sampleNonce sampleNonce))) sampleKey in
  e = None.
Proof.
  pose proof (gate_accepts_exactly sampleNonce (proof_frame sampleKey sampleNonce sampleNonce)
                sampleKey eq_refl) as H.
  destruct (ServerCertificateGate _ _ _) as [w e]. apply H. exists sampleNonce, [].
  by rewrite app_nil_r.
Defined.

Lemma client_gate_in nonce nonce' key :
  length nonce = certificateGateNonceSize →
  client_gate (Ok nonce') (incoming (gate_header certificateGateChallengeMagic nonce)) key
  = (mkMemConn (mkStream [] "EOF") (proof_frame key nonce nonce'), None).
Proof.
  intros Hn. unfold client_gate, incoming. cbn [conn_read memNetConn mc_in mc_out].
  set (challenge := gate_header certificateGateChallengeMagic nonce).
  assert (ReadFull (mkStream challenge "EOF") certificateGateChallengeSize
          = (mkStream [] "EOF", Ok challenge)) as ->.
  { subst challenge. rewrite <-(length_gate_header certificateGateChallengeMagic nonce eq_refl Hn).
    etransitivity; [|apply (ReadFull_app _ [])]. by rewrite app_nil_r. }
  assert (header_ok certificateGateChallengeMagic challenge = true) as ->.
  { rewrite <-(app_nil_r challenge). by apply header_ok_header. }
  cbn [negb]. by rewrite writeAll_mem.
Qed.

Lemma client_gate_bad nonce' bytes key :
  header_ok certificateGateChallengeMagic (take certificateGateChallengeSize bytes) = false →
  ∃ w e, client_gate (Ok nonce') (incoming bytes) key = (w, Some e).
Proof.
  intros Hbad. unfold client_gate, incoming. cbn [conn_read memNetConn mc_in mc_out].
  unfold ReadFull. cbn [avail tail_err].
  destruct (certificateGateChallengeSize <=? length bytes)%nat; [|by do 2 eexists].
  rewrite Hbad. by do 2 eexists.
Qed.

(** A client that dials a server with the server's certificate passes the
    gate and only then starts TLS, for the name in the address it dialed; with
    bytes that are no challenge TLS is never started, whatever it would
    answer, and the connection is closed. *)
Theorem dial_through_gate {T} (tls tls' : memConn → string → result T)
    nonce nonce' challenge address serverName key :
  length nonce = certificateGateNonceSize →
  length nonce' = certificateGateNonceSize →
  let dialTLS tls bytes :=
    DialTLSWithCertificateGate (λ _, Ok (incoming bytes)) tls (Ok nonce') address serverName key in
  let d := dialTLS tls (gate_header certificateGateChallengeMagic nonce) in
  (∃ w, dl_raw d = Some w ∧
        (ServerCertificateGate (Ok nonce) (Some (incoming (mc_out w))) key).2 = None ∧
        dl_closed d = negb (is_ok (tls w (tlsConfigForAddress serverName address))) ∧
        (∀ conn, dl_result d = Ok conn ↔ tls w (tlsConfigForAddress serverName address) = Ok conn)) ∧
  (header_ok certificateGateChallengeMagic (take certificateGateChallengeSize challenge) = false →
   dialTLS tls challenge = dialTLS tls' challenge ∧ dl_closed (dialTLS tls challenge) = true ∧
   is_ok (dl_result (dialTLS tls challenge)) = false).
Proof.
  intros Hn Hn' dialTLS d. split.
  - assert (d = dialTLS tls (gate_header certificateGateChallengeMagic nonce)) as E by done.
    clearbody d. subst dialTLS. cbn beta in E. unfold DialTLSWithCertificateGate in E.
    rewrite client_gate_in in E by done. subst d. set (name := tlsConfigForAddress _ _).
    eexists. split_and!; [by destruct (tls _ _)| |by destruct (tls _ _)|by destruct (tls _ _)].
    cbn [mc_out].
    pose proof (gate_accepted key nonce nonce' [] Hn Hn') as Hs. rewrite app_nil_r in Hs.
    by destruct (ServerCertificateGate _ _ _) as [w e].
  - intros Hbad. subst dialTLS. cbn beta. unfold DialTLSWithCertificateGate.
    by destruct (client_gate_bad nonce' challenge key Hbad) as (w & e & ->).
Qed.

Lemma dial_through_gate_witness :
  let d := DialTLSWithCertificateGate (λ _, Ok (incoming (gate_header certificateGateChallengeMagic sampleNonce)))
             (λ _ name, Ok name) (Ok sampleNonce) "tunnel.example:3443" "" sampleKey in
  dl_result d = Ok "tunnel.example" ∧ dl_closed d = false.
Proof.
  destruct (dial_through_gate (λ _ name, Ok name) (λ _ name, Ok name) sampleNonce sampleNonce []
    "tunnel.example:3443" "" sampleKey eq_refl eq_refl) as [(w & _ & _ & H1 & H2) _].
  split; [apply H2; by vm_compute|exact H1].
Defined.
