(* ===== verification/Transport.v ===== *)
(** * Proxying (src/internal/transport/transport.go)

    The pair of copies that carries a stream, the byte rate limiter both
    directions share, and the TLS version and keep-alive helpers. The limiter
    computes with 64-bit floats: they are the standard library's [SpecFloat]
    ones. What [io.Copy] moved in each direction is an argument. *)

From S2P Require Import Prelude.
From S2P Require Import GoStd.
From Stdlib Require Import Floats.SpecFloat.

#[local] Open Scope Z_scope.

Definition VersionTLS12 : Z := 0x0303.
Definition VersionTLS13 : Z := 0x0304.

Definition TLSMinVersion (version : string) : Z :=
  let version := TrimSpace version in
  if bool_decide (version ∈ ["1.2"; "TLS1.2"; "tls1.2"]) then VersionTLS12 else VersionTLS13.

(** ** Proxying a pair of connections *)

Inductive direction := left_to_right | right_to_left.

#[export] Instance direction_eq_dec : EqDecision direction.
Proof. solve_decision. Defined.

Record proxyCopyResult := mkCopyResult { cr_direction : direction; cr_bytes : Z }.

(** What the proxy works on: whether each end was closed, the counters of the
    two directions ([None] where the caller passed none) and the results sent
    on the [done] channel, in order. *)
Record proxyState := mkProxyState {
  px_leftClosed : bool;
  px_rightClosed : bool;
  px_leftToRightBytes : option Z;
  px_rightToLeftBytes : option Z;
  px_done : list proxyCopyResult
}.

(** One copy ending after [n] bytes; [halfClose] says that the destination can
    close its write side alone. *)
Definition copyAndClose (dir : direction) (n : Z) (halfClose : bool) (s : proxyState) : proxyState :=
  let add (c : option Z) := option_map (λ c, wrap_i64 (c + n)) c in
  let result := px_done s ++ [mkCopyResult dir n] in
  match dir with
  | left_to_right =>
      mkProxyState (px_leftClosed s) (px_rightClosed s || negb halfClose)
        (add (px_leftToRightBytes s)) (px_rightToLeftBytes s) result
  | right_to_left =>
      mkProxyState (px_leftClosed s || negb halfClose) (px_rightClosed s)
        (px_leftToRightBytes s) (add (px_rightToLeftBytes s)) result
  end.

Definition closeBoth (s : proxyState) : proxyState :=
  mkProxyState true true (px_leftToRightBytes s) (px_rightToLeftBytes s) (px_done s).

(** The two results, in the order they came. *)
Definition collectResults (results : list proxyCopyResult) : Z * Z :=
  foldl (λ acc result,
           if decide (cr_direction result = left_to_right) then (cr_bytes result, acc.2)
           else (acc.1, cr_bytes result)) (0, 0) results.

(** [first] is the direction that ended first; both ends are closed then, and
    the other copy ends. *)
Definition ProxyPairWithOptions (leftToRight rightToLeft : Z) (halfLeft halfRight : bool)
    (first : direction) (leftToRightBytes rightToLeftBytes : option Z) : (Z * Z) * proxyState :=
  let s := mkProxyState false false leftToRightBytes rightToLeftBytes [] in
  let copy dir := match dir with
                  | left_to_right => copyAndClose left_to_right leftToRight halfRight
                  | right_to_left => copyAndClose right_to_left rightToLeft halfLeft
                  end in
  let second := if decide (first = left_to_right) then right_to_left else left_to_right in
  let s := copy second (closeBoth (copy first s)) in
  (collectResults (px_done s), s).

Definition ProxyPair := ProxyPairWithOptions.

(** ** The byte rate limiter *)

(** IEEE 754 binary64. *)
Definition float64 (z : Z) : spec_float := binary_normalize 53 1024 z 0 false.
Definition fdiv (x y : spec_float) : spec_float := SFdiv 53 1024 x y.
Definition fmul (x y : spec_float) : spec_float := SFmul 53 1024 x y.

(** [time.Duration(x)]: truncation towards zero. *)
Definition trunc (x : spec_float) : Z :=
  match x with
  | S754_finite s m e =>
      let v := if 0 <=? e then Z.pos m * 2 ^ e else Z.quot (Z.pos m) (2 ^ (- e)) in
      if s then - v else v
  | _ => 0
  end.

(** [time.Duration(float64(n) / rate * float64(time.Second))]. *)
Definition chunkDuration (n rate : Z) : Duration :=
  trunc (fmul (fdiv (float64 n) (float64 rate)) (float64 nsecond)).

Record byteRateLimiter := mkByteRateLimiter {
  brl_rate : Z;
  brl_chunk : Z;
  brl_next : Time
}.

Definition newByteRateLimiter (now : Time) (rateBytesPerSec : Z) : byteRateLimiter :=
  let chunk := Z.quot rateBytesPerSec 10 in
  let chunk := if chunk <? 1 then 1 else chunk in
  let chunk := if 32 * 1024 <? chunk then 32 * 1024 else chunk in
  let initialBurst := chunkDuration chunk rateBytesPerSec in
  mkByteRateLimiter rateBytesPerSec chunk (now - initialBurst).

(** The limiter of a stream whose rate is not limited is nil. *)
Definition streamLimiter (now : Time) (rateLimitBytesPerSec : Z) : option byteRateLimiter :=
  if 0 <? rateLimitBytesPerSec then Some (newByteRateLimiter now rateLimitBytesPerSec) else None.

Definition maxChunk (l : option byteRateLimiter) : Z :=
  match l with None => 0 | Some l => if brl_chunk l <? 1 then 1 else brl_chunk l end.

(** The moment the chunk may go on; [wait] is slept when it is positive. *)
Definition waitChunk (l : byteRateLimiter) (n : Z) (now : Time) : byteRateLimiter * Duration :=
  let duration := chunkDuration n (brl_rate l) in
  let available := brl_next l in
  let available := if Before available now then now else available in
  (mkByteRateLimiter (brl_rate l) (brl_chunk l) (available + duration), available - now).

(** The chunks [wait] splits a read into; each takes a byte at least. *)
Fixpoint wait_chunks (fuel : nat) (chunk remaining : Z) : list Z :=
  match fuel with
  | O => []
  | S fuel =>
      if 0 <? remaining then
        let c := if chunk <? remaining then chunk else remaining in
        c :: wait_chunks fuel chunk (remaining - c)
      else []
  end.

(** [clock] gives the time of each chunk's reading. *)
Fixpoint wait_all (l : byteRateLimiter) (chunks : list Z) (clock : nat → Time) (i : nat)
    : byteRateLimiter * list Duration :=
  match chunks with
  | [] => (l, [])
  | c :: chunks =>
      let '(l, w) := waitChunk l c (clock i) in
      let '(l, ws) := wait_all l chunks clock (S i) in (l, w :: ws)
  end.

Definition wait (l : option byteRateLimiter) (n : Z) (clock : nat → Time)
    : option byteRateLimiter * list Duration :=
  match l with
  | None => (None, [])
  | Some l =>
      if (brl_rate l <=? 0) || (n <=? 0) then (Some l, [])
      else let '(l, ws) := wait_all l (wait_chunks (Z.to_nat n) (brl_chunk l) n) clock 0 in
           (Some l, ws)
  end.

(** The size of the buffer the wrapped reader is given. *)
Definition limitedReadSize (l : option byteRateLimiter) (size : Z) : Z :=
  let max := maxChunk l in if (0 <? max) && (max <? size) then max else size.

(** ** Keep-alive *)

(** A connection is a TCP one, one that gives what it wraps ([NetConn]), or
    any other. *)
Inductive netConn := tcpConn | netConner (inner : netConn) | otherConn (inner : netConn).

(** The period set on the TCP connection, when one is reached. *)
Fixpoint EnableTCPKeepAlive (conn : netConn) (period : Duration) : option Duration :=
  let period := if period <=? 0 then 30 * nsecond else period in
  match conn with
  | tcpConn => Some period
  | netConner inner => EnableTCPKeepAlive inner period
  | otherConn _ => None
  end.

Example limits :
  chunkDuration 104857 (1024 * 1024) = 99999427 ∧ chunkDuration 1 3 = 333333333 ∧
  newByteRateLimiter 0 1000 = mkByteRateLimiter 1000 100 (-100000000) ∧
  maxChunk (Some (newByteRateLimiter 0 (10 * 1024 * 1024))) = 32768 ∧
  TLSMinVersion " 1.2 " = VersionTLS12 ∧ TLSMinVersion "1.1" = VersionTLS13.
Proof. vm_compute. repeat split; reflexivity. Qed.

(** ** Properties *)

(** When each of the given calls, in the order they hold the lock, may go on. *)
Fixpoint releases (l : byteRateLimiter) (calls : list (Z * Time)) : list Time :=
  match calls with
  | [] => []
  | (n, now) :: calls => let '(l, w) := waitChunk l n now in now + w :: releases l calls
  end.

Definition chunk_time (rate : Z) (calls : list (Z * Time)) : Duration :=
  foldr (λ c a, chunkDuration c.1 rate + a) 0 calls.

Lemma waitChunk_spec l n now :
  let '(l', w) := waitChunk l n now in
  brl_rate l' = brl_rate l ∧ 0 ≤ w ∧ brl_next l ≤ now + w ∧
  brl_next l' = now + w + chunkDuration n (brl_rate l) ∧ (w = 0 ∨ now + w = brl_next l).
Proof.
  unfold waitChunk, Before. cbn. destruct (Z.ltb_spec (brl_next l) now); cbn; lia.
Qed.

Lemma releases_after l calls k r :
  releases l calls !! k = Some r → brl_next l + chunk_time (brl_rate l) (take k calls) ≤ r.
Proof.
  revert l k. induction calls as [|[n now] calls IH]; intros l k; [done|].
  cbn [releases]. pose proof (waitChunk_spec l n now) as Hw.
  destruct (waitChunk l n now) as [l' w]. destruct Hw as (Hr & Hw & Hn & Hn' & _).
  destruct k as [|k]; cbn [lookup list_lookup take]; [intros [= <-]; cbn; lia|].
  intros Hk. apply IH in Hk. rewrite Hr in Hk. cbn [chunk_time foldr fst].
  fold (chunk_time (brl_rate l) (take k calls)). lia.
Qed.

Lemma releases_apart l calls i j ri rj :
  releases l calls !! i = Some ri → releases l calls !! j = Some rj → (i < j)%nat →
  ri + chunk_time (brl_rate l) (take (j - i) (drop i calls)) ≤ rj.
Proof.
  revert l i j. induction calls as [|[n now] calls IH]; intros l i j; [done|].
  cbn [releases]. pose proof (waitChunk_spec l n now) as Hw.
  destruct (waitChunk l n now) as [l' w]. destruct Hw as (Hr & Hw & Hn & Hn' & _).
  intros Hi Hj Hij. destruct j as [|j]; [lia|]. cbn [lookup list_lookup] in Hj.
  destruct i as [|i]; cbn [lookup list_lookup] in Hi.
  - injection Hi as <-. pose proof (releases_after _ _ _ _ Hj) as Ha. rewrite Hr in Ha.
    cbn [Nat.sub drop take chunk_time foldr fst]. fold (chunk_time (brl_rate l) (take j calls)). lia.
  - rewrite <-Hr. apply (IH l' i j); [done|done|lia].
Qed.

Lemma releases_next l calls k m now0 n now r r' :
  calls !! k = Some (m, now0) → calls !! S k = Some (n, now) →
  releases l calls !! k = Some r → releases l calls !! S k = Some r' →
  r' = Z.max now (r + chunkDuration m (brl_rate l)).
Proof.
  revert l k. induction calls as [|[m' now'] calls IH]; intros l k; [done|].
  cbn [releases]. pose proof (waitChunk_spec l m' now') as Hw.
  destruct (waitChunk l m' now') as [l' w]. destruct Hw as (Hr & Hw & Hn & Hn' & _).
  intros H1 H2 H3 H4. cbn [lookup list_lookup] in H2, H4.
  destruct k as [|k]; cbn [lookup list_lookup] in H1, H3; [|rewrite <-Hr; by eapply IH].
  injection H1 as -> ->. injection H3 as <-. destruct calls as [|[n1 now1] calls]; [done|].
  cbn in H2. injection H2 as -> ->. cbn [releases] in H4.
  pose proof (waitChunk_spec l' n now) as Hw'. destruct (waitChunk l' n now) as [l'' w'].
  cbn in H4. injection H4 as <-. rewrite <-Hn'. lia.
Qed.

(** A limited stream never runs ahead of its rate: between any two chunks,
    of either direction, at least the time passes that the bytes from the first
    to before the second take at that rate, whatever the moments at which the
    copies ask; and no chunk waits longer than for the one before it. *)
Theorem stream_rate_limited l calls :
  (∀ i j ri rj, releases l calls !! i = Some ri → releases l calls !! j = Some rj → (i < j)%nat →
     ri + chunk_time (brl_rate l) (take (j - i) (drop i calls)) ≤ rj) ∧
  (∀ k m now0 n now r r', calls !! k = Some (m, now0) → calls !! S k = Some (n, now) →
     releases l calls !! k = Some r → releases l calls !! S k = Some r' →
     r' = Z.max now (r + chunkDuration m (brl_rate l))).
Proof. split; intros; [by apply releases_apart|by eapply releases_next]. Qed.

Lemma stream_rate_limited_witness :
  releases (newByteRateLimiter 0 1000) [(100, 0); (100, 0); (50, 10)] = [0; 100000000; 200000000] ∧
  0 + chunk_time 1000 (take 2 (drop 0 [(100, 0); (100, 0); (50, 10)])) ≤ 200000000.
Proof.
  split; [by vm_compute|].
  refine (proj1 (stream_rate_limited (newByteRateLimiter 0 1000) [(100, 0); (100, 0); (50, 10)])
    0%nat 2%nat 0 200000000 _ _ _); [by vm_compute|by vm_compute|lia].
Defined.

Lemma wait_chunks_spec chunk n fuel :
  0 < chunk → (Z.to_nat n ≤ fuel)%nat →
  foldr Z.add 0 (wait_chunks fuel chunk n) = Z.max 0 n ∧
  Forall (λ c, 0 < c ≤ chunk) (wait_chunks fuel chunk n).
Proof.
  intros Hc. revert n. induction fuel as [|fuel IH]; intros n Hf; cbn [wait_chunks].
  - split; [cbn; lia|constructor].
  - destruct (Z.ltb_spec 0 n); [|split; [cbn; lia|constructor]].
    destruct (Z.ltb_spec chunk n); cbn zeta.
    + destruct (IH (n - chunk) ltac:(lia)) as [H1 H2]. split; [cbn; lia|]. constructor; [lia|done].
    + destruct (IH (n - n) ltac:(lia)) as [H1 H2]. split; [cbn; lia|]. constructor; [lia|done].
Qed.

(** A wrapped read asks for one chunk at most, and so waits for one chunk. *)
Lemma limited_read_one_chunk now rate size n :
  0 < rate → 0 < n ≤ limitedReadSize (Some (newByteRateLimiter now rate)) size →
  wait_chunks (Z.to_nat n) (brl_chunk (newByteRateLimiter now rate)) n = [n].
Proof.
  intros Hr Hn. set (l := newByteRateLimiter now rate) in *.
  assert (0 < brl_chunk l) as Hc.
  { subst l. unfold newByteRateLimiter. cbn [brl_chunk].
    destruct (Z.ltb_spec (Z.quot rate 10) 1);
      [by destruct (Z.ltb_spec (32 * 1024) 1)|].
    destruct (Z.ltb_spec (32 * 1024) (Z.quot rate 10)); lia. }
  assert (n ≤ brl_chunk l) as Hle.
  { revert Hn. unfold limitedReadSize, maxChunk. destruct (Z.ltb_spec (brl_chunk l) 1); [lia|].
    destruct (Z.ltb_spec 0 (brl_chunk l)); [|lia]. destruct (Z.ltb_spec (brl_chunk l) size); cbn [andb]; lia. }
  destruct (Z.to_nat n) as [|k] eqn:Ek; [lia|]. cbn [wait_chunks].
  destruct (Z.ltb_spec 0 n); [|lia]. destruct (Z.ltb_spec (brl_chunk l) n); [lia|].
  cbn zeta. rewrite Z.sub_diag. by destruct k.
Qed.

(** Whichever direction ends first, the pair answers with the bytes of each
    direction in its place, adds them to the right counters, and leaves both
    ends closed. *)
Theorem proxy_pair_accounts l2r r2l halfLeft halfRight first c1 c2 :
  let '(answer, s) := ProxyPairWithOptions l2r r2l halfLeft halfRight first c1 c2 in
  answer = (l2r, r2l) ∧ px_leftClosed s = true ∧ px_rightClosed s = true ∧
  px_leftToRightBytes s = option_map (λ c, wrap_i64 (c + l2r)) c1 ∧
  px_rightToLeftBytes s = option_map (λ c, wrap_i64 (c + r2l)) c2.
Proof. by destruct first, halfLeft, halfRight. Qed.

(** A keep-alive reaches the socket through connections that give what they
    wrap, and stops at one that does not: the server hands out TLS over the
    connection that keeps its first bytes, which wraps without giving. *)
Lemma server_keepalive_not_reached period :
  EnableTCPKeepAlive (netConner (otherConn (netConner tcpConn))) period = None ∧
  EnableTCPKeepAlive (netConner (netConner tcpConn)) period
  = Some (if period <=? 0 then 30 * nsecond else period).
Proof.
  split; [done|]. cbn [EnableTCPKeepAlive].
  destruct (Z.leb_spec period 0) as [Hp|Hp]; [done|].
  by destruct (Z.leb_spec period 0); [lia|]; destruct (Z.leb_spec period 0); [lia|].
Qed.
