(* ===== verification/EventRing.v ===== *)
(** * The recent-event ring (src/server/tunnel/runtime_event_ring.go,
    runtime_events.go)

    The monitor's bounded history of events: a circular buffer with a start
    index and a length. Its specification is a list of which the last
    [capacity] elements are kept; the theorem is that the ring refines it. *)

From S2P Require Import Prelude.
From S2P Require Import GoStd.

#[local] Open Scope nat_scope.

Definition defaultRecentEvents : nat := 500.

Record RuntimeEvent := mkRuntimeEvent {
  re_Time : string;
  re_RequestID : string;
  re_Kind : string;
  re_Result : string;
  re_RemoteIP : string;
  re_Username : string;
  re_ClientID : string;
  re_ForwardName : string;
  re_Direction : string;
  re_Target : string;
  re_ListenAddr : string;
  re_Code : string;
  re_Message : string;
  re_DurationMS : Z;
  re_BytesUp : Z;
  re_BytesDown : Z
}.

Definition zeroEvent : RuntimeEvent :=
  mkRuntimeEvent "" "" "" "" "" "" "" "" "" "" "" "" "" 0 0 0.

Record runtimeEventRing := mkRing {
  ring_items : list RuntimeEvent;
  ring_start : nat;
  ring_length : nat
}.

(** A capacity that is not positive becomes the default one. *)
Definition newRuntimeEventRing (capacity : Z) : runtimeEventRing :=
  let capacity := if (capacity <=? 0)%Z then defaultRecentEvents else Z.to_nat capacity in
  mkRing (replicate capacity zeroEvent) 0 0.

(** [None] is the nil ring. *)
Definition Append (r : option runtimeEventRing) (event : RuntimeEvent) : option runtimeEventRing :=
  match r with
  | None => None
  | Some r =>
      let cap := length (ring_items r) in
      if cap =? 0 then Some r
      else if ring_length r <? cap then
        let index := (ring_start r + ring_length r) mod cap in
        Some (mkRing (<[index := event]> (ring_items r)) (ring_start r) (S (ring_length r)))
      else
        Some (mkRing (<[ring_start r := event]> (ring_items r))
                     ((ring_start r + 1) mod cap) (ring_length r))
  end.

Definition ring_at (r : runtimeEventRing) (i : nat) : RuntimeEvent :=
  nth ((ring_start r + i) mod length (ring_items r)) (ring_items r) zeroEvent.

Definition Snapshot (r : option runtimeEventRing) : list RuntimeEvent :=
  match r with
  | None => []
  | Some r => map (ring_at r) (seq 0 (ring_length r))
  end.

(** ** Representation invariant *)

Definition ring_inv (r : runtimeEventRing) : Prop :=
  0 < length (ring_items r) ∧
  ring_length r ≤ length (ring_items r) ∧
  ring_start r < length (ring_items r) ∧
  (ring_length r < length (ring_items r) → ring_start r = 0).

Lemma newRing_inv capacity : ring_inv (newRuntimeEventRing capacity).
Proof.
  unfold ring_inv, newRuntimeEventRing. cbn. rewrite length_replicate.
  assert (0 < if (capacity <=? 0)%Z then defaultRecentEvents else Z.to_nat capacity).
  { destruct (Z.leb_spec capacity 0); unfold defaultRecentEvents; lia. }
  lia.
Qed.

Lemma mod_twice x n : x < 2 * n → x mod n = if x <? n then x else x - n.
Proof.
  intros Hx. destruct (Nat.ltb_spec x n); [by apply Nat.mod_small|].
  symmetry. apply Nat.mod_unique with 1; lia.
Qed.

Lemma Append_inv r e :
  ring_inv r → ∃ r', Append (Some r) e = Some r' ∧ ring_inv r' ∧
    length (ring_items r') = length (ring_items r).
Proof.
  intros (Hpos & Hlen & Hstart & Hfull). unfold Append.
  destruct (Nat.eqb_spec (length (ring_items r)) 0); [lia|].
  destruct (Nat.ltb_spec (ring_length r) (length (ring_items r)));
    eexists; (split; [done|]); unfold ring_inv; cbn; rewrite length_insert;
    (split; [|done]); split_and!;
    solve [lia|intros; apply Hfull; lia|apply Nat.mod_upper_bound; lia].
Qed.

(** ** The specification: the last [n] of a growing list *)

Definition lastn {A} (n : nat) (l : list A) : list A := drop (length l - n) l.

Lemma lastn_snoc {A} n (l : list A) x :
  0 < n → lastn n (lastn n l ++ [x]) = lastn n (l ++ [x]).
Proof.
  intros Hn. unfold lastn. rewrite !length_app, length_drop. cbn [length].
  rewrite <-drop_app_le, drop_drop by lia. f_equal. lia.
Qed.

Lemma Snapshot_length r : length (Snapshot (Some r)) = ring_length r.
Proof. cbn. by rewrite length_map, length_seq. Qed.

(** Reading position [i] after [event] went to position [j]. *)
Lemma ring_at_insert items start len start' event i j :
  j < length items →
  ring_at (mkRing (<[j := event]> items) start' len) i
  = if (start' + i) mod length items =? j then event
    else nth ((start' + i) mod length items) items start.
Proof.
  intros Hj. unfold ring_at. cbn. rewrite length_insert, nth_lookup.
  destruct (Nat.eqb_spec ((start' + i) mod length items) j) as [->|Hne].
  - by rewrite list_lookup_insert_eq.
  - rewrite list_lookup_insert_ne by done.
    destruct (items !! _) eqn:E; [by rewrite nth_lookup, E|].
    apply lookup_ge_None in E.
    pose proof (Nat.mod_upper_bound (start' + i) (length items)). lia.
Qed.

Lemma Append_snapshot r e r' :
  ring_inv r → Append (Some r) e = Some r' →
  Snapshot (Some r') = lastn (length (ring_items r)) (Snapshot (Some r) ++ [e]).
Proof.
  intros (Hpos & Hlen & Hstart & Hfull) HA. unfold lastn.
  rewrite length_app, Snapshot_length. cbn [length].
  unfold Append in HA. destruct (Nat.eqb_spec (length (ring_items r)) 0) as [|_]; [lia|].
  set (n := length (ring_items r)) in *.
  destruct (Nat.ltb_spec (ring_length r) n) as [Hlt|Hge]; injection HA as <-.
  - specialize (Hfull Hlt). replace (ring_length r + 1 - n) with 0 by lia.
    rewrite drop_0. unfold Snapshot. cbn [ring_length]. rewrite seq_S, map_app. cbn [map].
    rewrite Hfull. cbn [Nat.add]. rewrite (Nat.mod_small (ring_length r)) by lia. f_equal.
    + apply map_ext_in. intros i Hi%in_seq.
      rewrite (ring_at_insert _ zeroEvent) by (subst n; lia). fold n.
      rewrite Nat.mod_small by lia. cbn [Nat.add].
      destruct (Nat.eqb_spec i (ring_length r)); [lia|].
      unfold ring_at. rewrite Hfull. cbn [Nat.add]. fold n. by rewrite Nat.mod_small by lia.
    + rewrite (ring_at_insert _ zeroEvent) by (subst n; lia). fold n. cbn [Nat.add].
      rewrite Nat.mod_small by lia. by rewrite Nat.eqb_refl.
  - assert (ring_length r = n) as Hn by lia.
    unfold Snapshot. cbn [ring_length]. rewrite Hn. replace (n + 1 - n) with 1 by lia.
    assert (∀ f : nat → RuntimeEvent,
      map f (seq 0 n) = f 0 :: map (λ i, f (S i)) (seq 0 (n - 1))) as Hcons.
    { intros f. replace n with (S (n - 1)) at 1 by lia. cbn. by rewrite <-seq_shift, map_map. }
    rewrite (Hcons (ring_at r)). cbn [app drop].
    assert (seq 0 n = seq 0 (n - 1) ++ [n - 1]) as ->.
    { replace n with (S (n - 1)) at 1 by lia. apply seq_S. }
    rewrite map_app, drop_0. cbn [map].
    assert (∀ i, i < n → ((ring_start r + 1) mod n + i) mod n = (ring_start r + S i) mod n) as Hm.
    { intros i Hi. rewrite Nat.Div0.add_mod_idemp_l. f_equal. lia. }
    f_equal.
    + apply map_ext_in. intros i Hi%in_seq.
      rewrite (ring_at_insert _ zeroEvent) by (subst n; lia). fold n. rewrite Hm by lia.
      destruct (Nat.eqb_spec ((ring_start r + S i) mod n) (ring_start r)) as [E|_]; [|done].
      rewrite mod_twice in E by lia. destruct (Nat.ltb_spec (ring_start r + S i) n); lia.
    + rewrite (ring_at_insert _ zeroEvent) by (subst n; lia). fold n. rewrite Hm by lia.
      rewrite mod_twice by lia.
      destruct (Nat.ltb_spec (ring_start r + S (n - 1)) n); [lia|].
      destruct (Nat.eqb_spec (ring_start r + S (n - 1) - n) (ring_start r)); [done|lia].
Qed.

(** ** Property *)

Definition AppendAll (r : option runtimeEventRing) (es : list RuntimeEvent) :=
  foldl Append r es.

(** After any sequence of events, the ring created with a capacity holds the
    last [capacity] of them in order (500 when the capacity is not positive). *)
Theorem ring_refines_lastn capacity es :
  Snapshot (AppendAll (Some (newRuntimeEventRing capacity)) es)
  = lastn (if (capacity <=? 0)%Z then defaultRecentEvents else Z.to_nat capacity) es.
Proof.
  set (n := if (capacity <=? 0)%Z then _ else _).
  assert (∃ r, AppendAll (Some (newRuntimeEventRing capacity)) es = Some r ∧ ring_inv r ∧
    length (ring_items r) = n ∧ Snapshot (Some r) = lastn n es) as (r & -> & _ & _ & ?); [|done].
  induction es as [|e es IH] using rev_ind.
  - eexists. split_and!; [done|apply newRing_inv|cbn; by rewrite length_replicate|].
    unfold lastn. by rewrite drop_nil.
  - destruct IH as (r & Hr & Hinv & Hlen & Hsnap).
    destruct (Append_inv r e Hinv) as (r' & HA & Hinv' & Hlen').
    exists r'. unfold AppendAll in *. rewrite foldl_snoc, Hr.
    split_and!; [done..|congruence|].
    rewrite (Append_snapshot r e r') by done. rewrite Hsnap, Hlen.
    apply lastn_snoc. destruct Hinv as [? _]. lia.
Qed.
