(* ===== verification/LogEntries.v ===== *)
(** * Log entries and the dated log files (src/server/tunnel/event_logs.go,
    runtime_events.go)

    The entries the server records, the files they go to (one per day, one
    JSON object per line), the derived fields of the flow log. *)

From S2P Require Import Prelude.
From S2P Require Import GoStd.
From S2P Require Import Disk.
From S2P Require Import Protocol.
From S2P Require Import EventRing.

#[local] Open Scope Z_scope.

Record RequestLogEntry := mkRequestLogEntry {
  rl_Time : string;
  rl_RequestID : string;
  rl_RemoteAddr : string;
  rl_RemoteIP : string;
  rl_LocalAddr : string;
  rl_Request : OpenRequest;
  rl_ReadError : string;
  rl_AuthResult : string;
  rl_Response : OpenResponse;
  rl_Result : string;
  rl_DurationMS : Z
}.

Record BusinessLogEntry := mkBusinessLogEntry {
  bl_Time : string;
  bl_StartedAt : string;
  bl_EndedAt : string;
  bl_RequestID : string;
  bl_Kind : string;
  bl_Result : string;
  bl_RemoteIP : string;
  bl_Username : string;
  bl_ClientID : string;
  bl_ForwardName : string;
  bl_Direction : string;
  bl_Target : string;
  bl_ListenAddr : string;
  bl_Code : string;
  bl_Message : string;
  bl_DurationMS : Z;
  bl_BytesUp : Z;
  bl_BytesDown : Z
}.

Record EntryTrafficLogEntry := mkEntryTrafficLogEntry {
  et_Time : string;
  et_RequestID : string;
  et_Event : string;
  et_Result : string;
  et_RemoteAddr : string;
  et_RemoteIP : string;
  et_LocalAddr : string;
  et_Code : string;
  et_Message : string;
  et_Abnormal : bool;
  et_DurationMS : Z;
  et_Limit : Z;
  et_WindowSec : Z;
  et_PermanentBlockCreated : bool
}.

Record FlowTrafficLogEntry := mkFlowTrafficLogEntry {
  ft_Time : string;
  ft_RequestID : string;
  ft_Event : string;
  ft_Kind : string;
  ft_Result : string;
  ft_RemoteIP : string;
  ft_Username : string;
  ft_ClientID : string;
  ft_ForwardName : string;
  ft_Direction : string;
  ft_Target : string;
  ft_ListenAddr : string;
  ft_Code : string;
  ft_Message : string;
  ft_Abnormal : bool;
  ft_DurationMS : Z;
  ft_BytesUp : Z;
  ft_BytesDown : Z;
  ft_BytesTotal : Z;
  ft_AverageBytesPerSec : Z;
  ft_RateLimitBytesPerSec : Z;
  ft_MaxConcurrentStreamsUser : Z
}.

(** ** Dated files *)

(** [currentDate] and whether the file of that date is open; the disk keeps
    what was written. *)
Record jsonlLog := mkJsonlLog {
  jl_basePath : string;
  jl_currentDate : string;
  jl_file : option string
}.

Definition newJSONLLog (basePath : string) : option jsonlLog :=
  let basePath := TrimSpace basePath in
  if String.eqb basePath "" then None else Some (mkJsonlLog basePath "" None).

Definition datedJSONLPath (basePath date : string) : string :=
  let ext := Ext basePath in
  let name := TrimSuffix (Base basePath) ext in
  let ext := if String.eqb ext "" then ".jsonl" else ext in
  JoinPath (Dir basePath) (name +:+ "-" +:+ date +:+ ext).

Definition rotateLocked (l : jsonlLog) (date : string) (d : Disk) : jsonlLog * Disk * result unit :=
  let l := mkJsonlLog (jl_basePath l) (jl_currentDate l) None in
  let path := datedJSONLPath (jl_basePath l) date in
  match MkdirAll d (Dir path) with
  | Err e => (l, d, Err e)
  | Ok _ =>
      match OpenAppend d path with
      | (d, Err e) => (l, d, Err e)
      | (d, Ok _) => (mkJsonlLog (jl_basePath l) date (Some path), d, Ok tt)
      end
  end.

(** [date] is the local date of the clock at the call. *)
Definition WriteJSONLine (l : option jsonlLog) (data : string) (date : string) (d : Disk)
    : option jsonlLog * Disk * result unit :=
  match l with
  | None => (None, d, Ok tt)
  | Some l =>
      if String.eqb data "" then (Some l, d, Err "JSONL entry is empty")
      else if ContainsAny data (cr +:+ nl)
      then (Some l, d, Err "JSONL entry contains a line break")
      else
        let '(l, d, r) :=
          match jl_file l with
          | Some _ => if String.eqb (jl_currentDate l) date then (l, d, Ok tt)
                      else rotateLocked l date d
          | None => rotateLocked l date d
          end in
        match r, jl_file l with
        | Err e, _ => (Some l, d, Err e)
        | Ok _, None => (Some l, d, Ok tt)
        | Ok _, Some path =>
            let '(d, r) := WriteOpen d path (data +:+ nl) in (Some l, d, r)
        end
  end.

(** [Write] marshals first. *)
Definition WriteEntry {A} `{JSONCodec A} (l : option jsonlLog) (entry : A) (date : string) (d : Disk)
    : option jsonlLog * Disk * result unit :=
  match marshal entry with
  | Err e => (l, d, Err e)
  | Ok data => WriteJSONLine l (of_chars data) date d
  end.

Definition CloseLog (l : option jsonlLog) : option jsonlLog :=
  match l with
  | None => None
  | Some l => Some (mkJsonlLog (jl_basePath l) (jl_currentDate l) None)
  end.

(** ** Derived fields *)

Definition averageBytesPerSec (bytesTotal durationMS : Z) : Z :=
  if (bytesTotal <=? 0) || (durationMS <=? 0) then 0
  else Z.quot (wrap_i64 (bytesTotal * 1000)) durationMS.

(** The fields [recordFlowTrafficLog] fills in when they are zero. *)
Definition completeFlowEntry (now rate maxStreams : Z) `{LocalTime} (e : FlowTrafficLogEntry)
    : FlowTrafficLogEntry :=
  let total := if ft_BytesTotal e =? 0 then wrap_i64 (ft_BytesUp e + ft_BytesDown e)
               else ft_BytesTotal e in
  mkFlowTrafficLogEntry
    (if String.eqb (ft_Time e) "" then FormatRFC3339 now else ft_Time e)
    (ft_RequestID e) (ft_Event e) (ft_Kind e) (ft_Result e) (ft_RemoteIP e) (ft_Username e)
    (ft_ClientID e) (ft_ForwardName e) (ft_Direction e) (ft_Target e) (ft_ListenAddr e)
    (ft_Code e) (ft_Message e) (ft_Abnormal e) (ft_DurationMS e) (ft_BytesUp e) (ft_BytesDown e)
    total
    (if ft_AverageBytesPerSec e =? 0 then averageBytesPerSec total (ft_DurationMS e)
     else ft_AverageBytesPerSec e)
    (if ft_RateLimitBytesPerSec e =? 0 then rate else ft_RateLimitBytesPerSec e)
    (if ft_MaxConcurrentStreamsUser e =? 0 then maxStreams else ft_MaxConcurrentStreamsUser e).

Definition isBusinessRuntimeEvent (event : RuntimeEvent) : bool :=
  bool_decide (re_Kind event ∈
    ["auth"; "login"; "open"; "reverse_listen"; "reverse_stream"; "reverse_inbound"]).

Definition businessEntry (event : RuntimeEvent) : BusinessLogEntry :=
  mkBusinessLogEntry (re_Time event) "" "" (re_RequestID event) (re_Kind event) (re_Result event)
    (re_RemoteIP event) (re_Username event) (re_ClientID event) (re_ForwardName event)
    (re_Direction event) (re_Target event) (re_ListenAddr event) (re_Code event)
    (re_Message event) (re_DurationMS event) (re_BytesUp event) (re_BytesDown event).

Definition logValue (value : string) : string :=
  let value := TrimSpace value in
  if String.eqb value "" then "-"
  else if ContainsAny value (" " +:+ String "009" "" +:+ cr +:+ nl) then quote value else value.

Example dated :
  datedJSONLPath "logs/requests.jsonl" "2024-05-06" = "logs/requests-2024-05-06.jsonl" ∧
  datedJSONLPath "requests" "2024-05-06" = "requests-2024-05-06.jsonl" ∧
  averageBytesPerSec 1500 2000 = 750.
Proof. vm_compute. repeat split; reflexivity. Qed.

(** ** The log files hold the lines written on their day *)

Definition good_line (data : string) : bool :=
  negb (String.eqb data "") && negb (ContainsAny data (cr +:+ nl)).

(** One [WriteJSONLine] per line, each with the date of its clock reading. *)
Definition write_lines (l : jsonlLog) (ws : list (string * string)) (d : Disk)
    : option jsonlLog * Disk :=
  foldl (λ s w, (WriteJSONLine s.1 w.1 w.2 s.2).1) (Some l, d) ws.

Fixpoint concat_lines (ls : list string) : string :=
  match ls with [] => "" | l :: ls => l +:+ nl +:+ concat_lines ls end.

Definition file_text (d : Disk) (path : string) : string := default "" (dk_files d !! path).

Lemma concat_lines_app l1 l2 : concat_lines (l1 ++ l2) = concat_lines l1 +:+ concat_lines l2.
Proof.
  induction l1 as [|l l1 IH]; [done|]. cbn [app concat_lines].
  by rewrite IH, !string_app_assoc.
Qed.

Lemma file_text_set d p q t :
  file_text (set_file d p (Some t)) q = if decide (p = q) then t else file_text d q.
Proof.
  unfold file_text, set_file. cbn. case_decide as E.
  - subst q. by rewrite lookup_partial_alter_eq.
  - by rewrite lookup_partial_alter_ne.
Qed.

Definition log_ready (l : jsonlLog) : Prop :=
  jl_file l = None ∨ jl_file l = Some (datedJSONLPath (jl_basePath l) (jl_currentDate l)).

Lemma goodDisk_set files p t :
  ∃ files', set_file (goodDisk files) p t = goodDisk files'.
Proof. by eexists. Qed.

Lemma WriteJSONLine_good l data date files :
  log_ready l → good_line data = true →
  ∃ files', WriteJSONLine (Some l) data date (goodDisk files)
    = (Some (mkJsonlLog (jl_basePath l) date (Some (datedJSONLPath (jl_basePath l) date))),
       goodDisk files', Ok tt) ∧
  ∀ p, file_text (goodDisk files') p
       = if decide (datedJSONLPath (jl_basePath l) date = p)
         then file_text (goodDisk files) p +:+ data +:+ nl else file_text (goodDisk files) p.
Proof.
  intros Hl [H1%negb_true_iff H2%negb_true_iff]%andb_true_iff. unfold WriteJSONLine. rewrite H1, H2.
  set (path := datedJSONLPath (jl_basePath l) date).
  assert (∀ fs p, file_text (set_file (goodDisk fs) path
      (Some (default "" (fs !! path) +:+ data +:+ nl))) p
    = if decide (path = p) then file_text (goodDisk fs) p +:+ data +:+ nl
      else file_text (goodDisk fs) p) as Htext.
  { intros fs p. rewrite file_text_set. case_decide as E; [|done]. by subst p. }
  assert (∃ files', (let '(l', d, r) := rotateLocked l date (goodDisk files) in
     match r, jl_file l' with
     | Err e, _ => (Some l', d, Err e)
     | Ok _, None => (Some l', d, Ok tt)
     | Ok _, Some path => let '(d, r) := WriteOpen d path (data +:+ nl) in (Some l', d, r)
     end) = (Some (mkJsonlLog (jl_basePath l) date (Some path)), goodDisk files', Ok tt) ∧
     ∀ p, file_text (goodDisk files') p
       = if decide (path = p) then file_text (goodDisk files) p +:+ data +:+ nl
         else file_text (goodDisk files) p) as Hrot.
  { eexists. split; [reflexivity|]. intros p.
    etransitivity; [apply (Htext (partial_alter (λ _, Some (default "" (files !! path))) path files))|].
    change (goodDisk (partial_alter (λ _, Some (default "" (files !! path))) path files))
      with (set_file (goodDisk files) path (Some (default "" (files !! path)))).
    rewrite file_text_set. case_decide as E; [by subst p|done]. }
  destruct Hl as [E|E]; rewrite E; [exact Hrot|].
  destruct (String.eqb_spec (jl_currentDate l) date) as [Ed|Ed]; [|exact Hrot].
  rewrite E. rewrite Ed. fold path. eexists. split; [|apply Htext].
  destruct l as [b c f]. cbn in *. by subst.
Qed.

Lemma WriteJSONLine_bad l data date d :
  good_line data = false → (WriteJSONLine (Some l) data date d).1 = (Some l, d).
Proof.
  unfold good_line, WriteJSONLine. destruct (String.eqb data ""); [done|].
  by destruct (ContainsAny data _).
Qed.

Lemma write_lines_text base ws files :
  ∃ l files', write_lines (mkJsonlLog base "" None) ws (goodDisk files)
     = (Some l, goodDisk files') ∧ log_ready l ∧ jl_basePath l = base ∧
     ∀ path, file_text (goodDisk files') path
     = file_text (goodDisk files) path +:+
      concat_lines (filter (λ w, datedJSONLPath base w.2 = path ∧ good_line w.1 = true) ws).*1.
Proof.
  induction ws as [|[data date] ws IH] using rev_ind.
  - exists (mkJsonlLog base "" None), files. split_and!; [done|by left|done|].
    intros path. by rewrite string_app_nil_r.
  - destruct IH as (l & fs & E & Hl & Hb & Htext). unfold write_lines in *.
    rewrite foldl_snoc, E. cbn [fst snd].
    destruct (good_line data) eqn:Hg.
    + destruct (WriteJSONLine_good l data date fs Hl Hg) as (fs' & -> & Ht). cbn [fst].
      eexists _, fs'. split_and!; [done|by right|done|]. intros path.
      rewrite Ht, Htext, filter_app, fmap_app, concat_lines_app, filter_cons, Hb. cbn [fst snd].
      case_decide as Ep.
      * rewrite decide_True by done. cbn. rewrite string_app_nil_r. by rewrite !string_app_assoc.
      * rewrite decide_False by naive_solver. cbn. by rewrite string_app_nil_r.
    + rewrite WriteJSONLine_bad by done. exists l, fs. split_and!; [done..|]. intros path.
      rewrite Htext, filter_app, fmap_app, concat_lines_app, filter_cons. cbn [fst snd].
      rewrite decide_False by (intros [_ ?]; congruence). cbn. by rewrite string_app_nil_r.
Qed.

(** However the days change between writes, on a disk without errors each
    day's file ends up as its old text followed by exactly the entries written
    that day, one per line, in order; an entry that is empty or would break the
    line structure changes no file. *)
Theorem log_files_hold_lines base ws files :
  let '(_, d) := write_lines (mkJsonlLog base "" None) ws (goodDisk files) in
  ∀ path, file_text d path
    = file_text (goodDisk files) path +:+
      concat_lines (filter (λ w, datedJSONLPath base w.2 = path ∧ good_line w.1 = true) ws).*1.
Proof. by destruct (write_lines_text base ws files) as (l & files' & -> & _ & _ & H). Qed.
