(* ===== verification/ConfigData.v ===== *)
(** * The server configuration's data (src/server/tunnel/config.go)

    The structs the YAML file is decoded into, read by every server component. *)

From S2P Require Import Prelude.
From S2P Require Import GoStd.

#[local] Open Scope Z_scope.

Definition DirectionClientToServer : string := "client_to_server".
Definition DirectionServerToClient : string := "server_to_client".
Definition DefaultListenAddr : string := "0.0.0.0:3443".

Record RequiresConfig := mkRequiresConfig { rc_MinServerVersion : string }.

Record CompatibilityConfig := mkCompatibilityConfig {
  cc_MinClientVersion : string;
  cc_MaxClientVersion : string;
  cc_ProtocolVersion : Z
}.

Record TLSConfig := mkTLSConfig {
  tc_CertFile : string;
  tc_KeyFile : string;
  tc_MinVersion : string
}.

Record SecurityConfig := mkSecurityConfig {
  sec_HandshakeTimeoutSec : Z;
  sec_DialTimeoutSec : Z;
  sec_MaxHandshakeBytes : Z;
  sec_MaxConcurrentConnections : Z;
  sec_MaxConcurrentConnectionsPerIP : Z;
  sec_ConnectionRateWindowSec : Z;
  sec_MaxNewConnectionsPerIPWindow : Z;
  sec_MaxConnectionsPerIPPerWindow : Z;
  sec_MaxTrackedConnectionIPs : Z;
  sec_ConnectionLimiterCleanupSec : Z;
  sec_MaxTrackedFailureIPs : Z;
  sec_FailureTrackerCleanupSec : Z;
  sec_EntryTrafficLogQueueSize : Z;
  sec_MaxConcurrentStreamsPerUser : Z;
  sec_StreamRateLimitBytesPerSec : Z;
  sec_AuthFailWindowSec : Z;
  sec_AuthFailThreshold : Z;
  sec_AuthFailBlockSec : Z
}.

(** Go's zero value: every field absent from the file. *)
Definition zeroSecurity : SecurityConfig :=
  mkSecurityConfig 0 0 0 0 0 0 0 0 0 0 0 0 0 0 0 0 0 0.

Record CredentialSealKeyConfig := mkCredentialSealKeyConfig {
  ck_KeyID : string;
  ck_PrivateKeyFile : string;
  ck_PublicKeyFile : string;
  ck_ExpiresAt : string;
  ck_Active : bool
}.

Record RuntimeConfig := mkRuntimeConfig {
  rt_StateFile : string;
  rt_PermanentBlockFile : string;
  rt_RequestLogFile : string;
  rt_BusinessLogFile : string;
  rt_EntryTrafficLogFile : string;
  rt_FlowTrafficLogFile : string;
  rt_RecentEvents : Z
}.

Record ForwardConfig := mkForwardConfig {
  fw_Name : string;
  fw_Direction : string;
  fw_ListenPort : Z;
  fw_ListenAddr : string;
  fw_ServerTarget : string;
  fw_AllowedUsers : list string
}.

Record UserConfig := mkUserConfig {
  us_Username : string;
  us_PasswordHash : string;
  us_Disabled : bool
}.

Record Config := mkConfig {
  cfg_ConfigPath : string;
  cfg_ConfigVersion : Z;
  cfg_Requires : RequiresConfig;
  cfg_Compatibility : CompatibilityConfig;
  cfg_ListenAddr : string;
  cfg_MonitorAddr : string;
  cfg_LogLevel : string;
  cfg_TLS : TLSConfig;
  cfg_Users : list UserConfig;
  cfg_Forwards : list ForwardConfig;
  cfg_Security : SecurityConfig;
  cfg_CredentialSealKeys : list CredentialSealKeyConfig;
  cfg_Runtime : RuntimeConfig
}.

#[export] Instance SecurityConfig_eq_dec : EqDecision SecurityConfig.
Proof. solve_decision. Defined.
#[export] Instance ForwardConfig_eq_dec : EqDecision ForwardConfig.
Proof. solve_decision. Defined.
#[export] Instance RequiresConfig_eq_dec : EqDecision RequiresConfig.
Proof. solve_decision. Defined.
#[export] Instance CompatibilityConfig_eq_dec : EqDecision CompatibilityConfig.
Proof. solve_decision. Defined.
#[export] Instance TLSConfig_eq_dec : EqDecision TLSConfig.
Proof. solve_decision. Defined.
#[export] Instance CredentialSealKeyConfig_eq_dec : EqDecision CredentialSealKeyConfig.
Proof. solve_decision. Defined.
#[export] Instance RuntimeConfig_eq_dec : EqDecision RuntimeConfig.
Proof. solve_decision. Defined.
#[export] Instance UserConfig_eq_dec : EqDecision UserConfig.
Proof. solve_decision. Defined.
#[export] Instance Config_eq_dec : EqDecision Config.
Proof. solve_decision. Defined.
