(* ===== verification/EntrySecurity.v ===== *)
(** * Entry security (src/server/tunnel/entry_security.go,
    permanent_block_hit_logs.go, entry_traffic_writer.go, maintenance.go)

    What the server does with connections that never become requests: the
    class of a failed handshake, the bytes kept for it, the counters, the
    aggregation of hits by permanently blocked addresses, and the queue that
    keeps log writing off the rejection paths. *)

From S2P Require Import Prelude.
From S2P Require Import GoStd.
From S2P Require Import Protocol.
From S2P Require Import CertificateGate.
From S2P Require Import LogEntries.
From S2P Require Import ConfigData.
From stdpp Require Import sorting.

#[local] Open Scope Z_scope.

(** ** Classes of entry errors *)

Definition entryCodeHTTPProbe : string := "http_probe".
Definition entryCodeNonTLSProbe : string := "non_tls_probe".
Definition entryCodeUnsupportedTLS : string := "unsupported_tls_version".
Definition entryCodeSlowHandshake : string := "slow_handshake".
Definition entryCodeClosedHandshake : string := "handshake_closed".
Definition entryCodeOversizedHandshake : string := "oversized_tunnel_handshake".
Definition entryCodeUnsupportedRequest : string := "unsupported_tunnel_request".
Definition entryCodeInvalidHandshake : string := "invalid_tunnel_handshake".

Definition httpMethods : list string :=
  ["GET "; "POST"; "HEAD"; "PUT "; "DELE"; "OPTI"; "CONN"; "TRAC"; "PATC"; "PROP"].

Definition oversizedHandshakeHTTPMethod (text : string) : string :=
  match after_first (to_chars "handshake too large:") (to_chars text) with
  | None => ""
  | Some rest =>
      match Fields (TrimSpace (of_chars rest)) with
      | [] => ""
      | field :: _ =>
          match ParseUint32 field with
          | None => ""
          | Some value =>
              let token := ToUpper (of_chars (PutUint32 value)) in
              if bool_decide (token ∈ httpMethods) then TrimSpace token else ""
          end
      end
  end.

(** [None] is the nil error, [Some text] an error with that text. *)
Definition classifyEntryReadError (err : option string) : string :=
  match err with
  | None => entryCodeInvalidHandshake
  | Some text =>
      if Contains text "client sent an HTTP request to an HTTPS server" then entryCodeHTTPProbe
      else if Contains text "first record does not look like a TLS handshake" then entryCodeNonTLSProbe
      else if Contains text "client offered only unsupported versions" then entryCodeUnsupportedTLS
      else if Contains text "handshake too large:" then
        if negb (String.eqb (oversizedHandshakeHTTPMethod text) "") then entryCodeHTTPProbe
        else entryCodeOversizedHandshake
      else if Contains text "i/o timeout" then entryCodeSlowHandshake
      else if Contains text "forcibly closed" || Contains text "EOF" then entryCodeClosedHandshake
      else entryCodeInvalidHandshake
  end.

Fixpoint first_method (token : string) (methods : list string) : string :=
  match methods with
  | [] => ""
  | method :: methods =>
      if HasPrefix token method then TrimSpace method else first_method token methods
  end.

Definition entryHTTPMethodFromPrefix (prefix : chars) : string :=
  match prefix with
  | [] => ""
  | _ => first_method (ToUpper (of_chars prefix)) httpMethods
  end.

Definition entryLooksLikeTLSHandshake (prefix : chars) : bool :=
  match prefix with [] => false | c :: _ => code c =? 0x16 end.

Definition classifyEntryHandshakeError (err : option string) (prefix : chars) : string :=
  if negb (String.eqb (entryHTTPMethodFromPrefix prefix) "") then entryCodeHTTPProbe
  else match err with
  | None => entryCodeInvalidHandshake
  | Some text =>
      if Contains text "client sent an HTTP request to an HTTPS server" then entryCodeHTTPProbe
      else if Contains text "first record does not look like a TLS handshake" then entryCodeNonTLSProbe
      else if Contains text "client offered only unsupported versions" then entryCodeUnsupportedTLS
      else if Contains text "i/o timeout" then entryCodeSlowHandshake
      else if Contains text "forcibly closed" || Contains text "EOF" then entryCodeClosedHandshake
      else if (0 <? Z.of_nat (length prefix)) && negb (entryLooksLikeTLSHandshake prefix)
           then entryCodeNonTLSProbe else entryCodeInvalidHandshake
  end.

Definition classifyEntryCertificateGateError (err : option gateError) (prefix : chars) : string :=
  if negb (String.eqb (entryHTTPMethodFromPrefix prefix) "") then entryCodeHTTPProbe
  else match err with
  | Some (ErrCertificateGateProtocol _) | Some ErrCertificateGateProof => entryCodeInvalidHandshake
  | Some (gateFailure text) => classifyEntryHandshakeError (Some text) prefix
  | None => classifyEntryHandshakeError None prefix
  end.

(** ** The bytes kept from the start of a connection *)

(** The wrapped connection is what each of its [Read]s returns. *)
Definition peekRead (prefix p : chars) : chars :=
  let n := length p in
  if ((0 <? n) && (length prefix <? 16))%nat
  then
    let limit := (16 - length prefix)%nat in
    let limit := if (n <? limit)%nat then n else limit in
    prefix ++ take limit p
  else prefix.

(** [Prefix] copies, [ResetPrefix] empties. *)
Definition Prefix (c : option chars) : chars := default [] c.
Definition ResetPrefix (c : option chars) : option chars :=
  match c with None => None | Some _ => Some [] end.

(** ** Counters *)

Inductive counter :=
  | activeStreams | totalStreams | userStreamLimitRejected
  | entryProtocolRejected | entryHTTPProbeRejected | entryNonTLSRejected
  | entryUnsupportedTLSRejected | entrySlowHandshakeRejected | entryClosedHandshakeRejected
  | entryOversizedHandshakeRejected | entryUnsupportedRequestRejected
  | entryInvalidHandshakeRejected | entryPermanentBlocksCreated | entryPermanentBlockHits
  | connectionsRejected | connectionsRejectedGlobal | connectionsRejectedPerIPActive
  | connectionsRejectedPerIPNewRate | connectionsRejectedIPCapacity
  | authOK | authFailed | policyRejected | dialFailed | bytesUp | bytesDown.

#[export] Instance counter_eq_dec : EqDecision counter.
Proof. solve_decision. Defined.

Definition counters : Type := counter → Z.
Definition zeroCounters : counters := λ _, 0.

(** [atomic.Int64.Add]. *)
Definition Add (c : counter) (n : Z) (cs : counters) : counters :=
  λ c', if decide (c = c') then wrap_i64 (cs c + n) else cs c'.

Definition entryCounter (code : string) : counter :=
  if String.eqb code entryCodeHTTPProbe then entryHTTPProbeRejected
  else if String.eqb code entryCodeNonTLSProbe then entryNonTLSRejected
  else if String.eqb code entryCodeUnsupportedTLS then entryUnsupportedTLSRejected
  else if String.eqb code entryCodeSlowHandshake then entrySlowHandshakeRejected
  else if String.eqb code entryCodeClosedHandshake then entryClosedHandshakeRejected
  else if String.eqb code entryCodeOversizedHandshake then entryOversizedHandshakeRejected
  else if String.eqb code entryCodeUnsupportedRequest then entryUnsupportedRequestRejected
  else entryInvalidHandshakeRejected.

Definition countEntryProtocolRejected (code : string) (cs : counters) : counters :=
  Add (entryCounter code) 1 (Add entryProtocolRejected 1 cs).

Definition countEntryPermanentBlockCreated (cs : counters) : counters :=
  Add entryPermanentBlocksCreated 1 cs.
Definition countEntryPermanentBlockHit (cs : counters) : counters :=
  Add entryPermanentBlockHits 1 cs.

Definition recordConnectionRejected (reason : string) (cs : counters) : counters :=
  let cs := Add connectionsRejected 1 cs in
  if String.eqb reason "global_concurrent_connections" then Add connectionsRejectedGlobal 1 cs
  else if String.eqb reason "per_ip_concurrent_connections" then Add connectionsRejectedPerIPActive 1 cs
  else if String.eqb reason "per_ip_new_connection_rate" then Add connectionsRejectedPerIPNewRate 1 cs
  else if String.eqb reason "tracked_remote_ip_capacity" then Add connectionsRejectedIPCapacity 1 cs
  else cs.

Definition connectionRejectLimit (sec : SecurityConfig) (reason : string) : Z * Z :=
  if String.eqb reason "global_concurrent_connections" then (sec_MaxConcurrentConnections sec, 0)
  else if String.eqb reason "per_ip_concurrent_connections"
  then (sec_MaxConcurrentConnectionsPerIP sec, 0)
  else if String.eqb reason "per_ip_new_connection_rate"
  then (sec_MaxNewConnectionsPerIPWindow sec, sec_ConnectionRateWindowSec sec)
  else if String.eqb reason "tracked_remote_ip_capacity"
  then (sec_MaxTrackedConnectionIPs sec, 0)
  else (0, 0).

(** ** Hits by permanently blocked addresses *)

Definition defaultPermanentBlockHitLogInterval : Duration := 10 * nsecond.

Record permanentBlockHitAggregator := mkAggregator {
  ag_interval : Duration;
  ag_hits : gmap string Z
}.

Definition newPermanentBlockHitAggregator (interval : Duration) : permanentBlockHitAggregator :=
  mkAggregator (if interval <=? 0 then defaultPermanentBlockHitLogInterval else interval) ∅.

Definition Observe (a : option permanentBlockHitAggregator) (ip : string)
    : option permanentBlockHitAggregator :=
  match a with
  | None => None
  | Some a =>
      if String.eqb ip "" then Some a
      else Some (mkAggregator (ag_interval a)
                   (<[ip := wrap_i64 (default 0 (ag_hits a !! ip) + 1)]> (ag_hits a)))
  end.

Definition Flush (a : option permanentBlockHitAggregator)
    : gmap string Z * option permanentBlockHitAggregator :=
  match a with
  | None => (∅, None)
  | Some a => (ag_hits a, Some (mkAggregator (ag_interval a) ∅))
  end.

Definition permanentBlockedHitSummary (count interval : Z) : string :=
  if count <=? 1 then "permanently blocked ip hit 1 time"
  else
    let seconds := Z.quot interval nsecond in
    let seconds := if seconds <=? 0 then 1 else seconds in
    "permanently blocked ip hit " +:+ Itoa count +:+ " times in last " +:+ Itoa seconds +:+ "s".

Definition blockedHitEntry (ip : string) (count interval : Z) : EntryTrafficLogEntry :=
  mkEntryTrafficLogEntry "" "" "connection_rejected" "blocked" "" ip "" "ip_permanently_blocked"
    (permanentBlockedHitSummary count interval) true 0 0 0 false.

Definition flushPermanentBlockHitLogs (a : option permanentBlockHitAggregator)
    : list EntryTrafficLogEntry * option permanentBlockHitAggregator :=
  match a with
  | None => ([], None)
  | Some agg =>
      let '(hits, a) := Flush a in
      let ips := merge_sort string_le (map fst (map_to_list hits)) in
      (omap (λ ip, let count := default 0 (hits !! ip) in
                   if count <=? 0 then None else Some (blockedHitEntry ip count (ag_interval agg))) ips,
       a)
  end.

(** ** The queue of entry log records *)

Record entryTrafficWriterStats := mkWriterStats {
  ws_Capacity : Z; ws_Queued : Z; ws_Accepted : Z; ws_Written : Z; ws_Dropped : Z
}.

(** The writer goroutine receives until the stop channel is closed, then
    drains what is queued, then ends. *)
Inductive writerPhase := writerRunning | writerDraining | writerDone.

#[export] Instance writerPhase_eq_dec : EqDecision writerPhase.
Proof. solve_decision. Defined.

Record asyncEntryTrafficLog := mkAsyncLog {
  al_capacity : nat;
  al_queue : list EntryTrafficLogEntry;
  al_closed : bool;
  al_phase : writerPhase;
  al_accepted : Z;
  al_written : Z;
  al_dropped : Z
}.

Definition newAsyncEntryTrafficLog (capacity : Z) : asyncEntryTrafficLog :=
  let capacity := if capacity <=? 0 then 2048 else capacity in
  mkAsyncLog (Z.to_nat capacity) [] false writerRunning 0 0 0.

Definition Enqueue (w : asyncEntryTrafficLog) (entry : EntryTrafficLogEntry) : asyncEntryTrafficLog :=
  if al_closed w then w
  else if (length (al_queue w) <? al_capacity w)%nat
  then mkAsyncLog (al_capacity w) (al_queue w ++ [entry]) (al_closed w) (al_phase w)
         (wrap_u64 (al_accepted w + 1)) (al_written w) (al_dropped w)
  else mkAsyncLog (al_capacity w) (al_queue w) (al_closed w) (al_phase w)
         (al_accepted w) (al_written w) (wrap_u64 (al_dropped w + 1)).

(** The part of [Close] before it waits: the stop channel is closed with it. *)
Definition CloseQueue (w : asyncEntryTrafficLog) : asyncEntryTrafficLog :=
  mkAsyncLog (al_capacity w) (al_queue w) true (al_phase w)
    (al_accepted w) (al_written w) (al_dropped w).

Definition stats (w : asyncEntryTrafficLog) : entryTrafficWriterStats :=
  mkWriterStats (Z.of_nat (al_capacity w)) (Z.of_nat (length (al_queue w)))
    (al_accepted w) (al_written w) (al_dropped w).

Definition set_phase (w : asyncEntryTrafficLog) (p : writerPhase) : asyncEntryTrafficLog :=
  mkAsyncLog (al_capacity w) (al_queue w) (al_closed w) p
    (al_accepted w) (al_written w) (al_dropped w).

(** One step of the goroutine that may run in this state: taking an entry and
    writing it, seeing the stop channel closed, ending when nothing is left.
    While it runs, a [select] with both ready takes either. *)
Inductive writer_step : asyncEntryTrafficLog → list EntryTrafficLogEntry → asyncEntryTrafficLog → Prop :=
  | writer_takes w entry rest :
      al_queue w = entry :: rest → al_phase w ≠ writerDone →
      writer_step w [entry]
        (mkAsyncLog (al_capacity w) rest (al_closed w) (al_phase w)
           (al_accepted w) (wrap_u64 (al_written w + 1)) (al_dropped w))
  | writer_stops w :
      al_closed w = true → al_phase w = writerRunning →
      writer_step w [] (set_phase w writerDraining)
  | writer_ends w :
      al_queue w = [] → al_phase w = writerDraining →
      writer_step w [] (set_phase w writerDone).

(** A run of the queue: what was offered, and what the writer wrote, in order. *)
Inductive queue_run (capacity : Z) :
    list EntryTrafficLogEntry → list EntryTrafficLogEntry → asyncEntryTrafficLog → Prop :=
  | queue_new : queue_run capacity [] [] (newAsyncEntryTrafficLog capacity)
  | queue_enqueue offered out w entry :
      queue_run capacity offered out w → queue_run capacity (offered ++ [entry]) out (Enqueue w entry)
  | queue_close offered out w :
      queue_run capacity offered out w → queue_run capacity offered out (CloseQueue w)
  | queue_writer offered out w new w' :
      queue_run capacity offered out w → writer_step w new w' →
      queue_run capacity offered (out ++ new) w'.

Example classes :
  classifyEntryReadError (Some "handshake too large: 1195725856 bytes") = "http_probe" ∧
  classifyEntryReadError (Some "handshake too large: 70000 bytes") = "oversized_tunnel_handshake" ∧
  classifyEntryReadError (Some "read tcp: i/o timeout") = "slow_handshake" ∧
  classifyEntryHandshakeError (Some "EOF") (to_chars "get / HTTP") = "http_probe" ∧
  classifyEntryHandshakeError (Some "bad record") (to_chars "SSH-2.0") = "non_tls_probe" ∧
  permanentBlockedHitSummary 3 defaultPermanentBlockHitLogInterval
  = "permanently blocked ip hit 3 times in last 10s".
Proof. vm_compute. repeat split; reflexivity. Qed.

(** ** Lemmas *)

Lemma ascii_enum (P : Ascii.ascii → Prop) :
  Forall P (map Ascii.ascii_of_nat (seq 0 256)) → ∀ c, P c.
Proof.
  intros HP c. rewrite Forall_forall in HP. apply HP.
  rewrite <-(Ascii.ascii_nat_embedding c). apply list_elem_of_fmap_2, elem_of_seq.
  pose proof (Ascii.nat_ascii_bounded c). lia.
Qed.

(** The characters that fold to a given one. *)
Definition folding_to (u : Ascii.ascii) : list Ascii.ascii :=
  filter (λ c, upper_char c = u) (map Ascii.ascii_of_nat (seq 0 256)).

Lemma folding_to_spec c : c ∈ folding_to (upper_char c).
Proof.
  apply list_elem_of_filter. split; [done|].
  revert c. apply ascii_enum. apply Forall_forall. done.
Qed.

(** The words of four bytes that fold to an HTTP method. *)
Definition method_words : list chars :=
  concat (map (λ m, foldr (λ u words, flat_map (λ c, map (cons c) words) (folding_to u)) [[]]
                          (to_chars m)) httpMethods).

Lemma folding_words us l :
  map upper_char l = us →
  l ∈ foldr (λ u words, flat_map (λ c, map (cons c) words) (folding_to u)) [[]] us.
Proof.
  revert l. induction us as [|u us IH]; intros [|c l] E; try done; cbn [foldr].
  - by apply list_elem_of_singleton.
  - cbn [map] in E. pose proof (f_equal (hd u) E) as E1. pose proof (f_equal tail E) as E2.
    cbn [hd tail] in E1, E2. subst u. apply list_elem_of_In, in_flat_map. exists c. split.
    + apply list_elem_of_In, folding_to_spec.
    + apply in_map, list_elem_of_In, IH, E2.
Qed.

Lemma method_words_spec word : ToUpper (of_chars word) ∈ httpMethods → word ∈ method_words.
Proof.
  intros Hin. apply list_elem_of_In, in_concat.
  eexists. split; [apply in_map, list_elem_of_In, Hin|].
  apply list_elem_of_In, folding_words. unfold ToUpper. by rewrite !to_of_chars.
Qed.

Definition oversize_text (word : chars) : string :=
  "handshake too large: " +:+ Itoa (Uint32 word) +:+ " bytes".

Definition method_word_ok (word : chars) : bool :=
  (length word =? 4)%nat && (2 ^ 30 <? Uint32 word)
  && String.eqb (classifyEntryReadError (Some (oversize_text word))) entryCodeHTTPProbe.

Lemma method_words_ok word : word ∈ method_words → method_word_ok word = true.
Proof.
  intros Hw. apply list_elem_of_In in Hw. revert word Hw. apply forallb_forall.
  vm_compute. reflexivity.
Qed.

Lemma ToUpper_app l rest :
  ToUpper (of_chars (l ++ rest)) = ToUpper (of_chars l) +:+ ToUpper (of_chars rest).
Proof.
  unfold ToUpper. rewrite !to_of_chars, map_app. unfold of_chars.
  induction (map upper_char l) as [|c k IH]; [done|]. cbn. by rewrite IH.
Qed.

Lemma first_method_found (m : string) rest methods :
  m ∈ methods → Forall (λ m, TrimSpace m ≠ "") methods → first_method (m +:+ rest) methods ≠ "".
Proof.
  intros Hin HF. induction HF as [|m' methods Hm' HF IH]; [by inversion Hin|]. cbn [first_method].
  destruct (HasPrefix (m +:+ rest) m') eqn:E; [done|].
  apply IH. apply elem_of_cons in Hin as [<-|Hin]; [|done].
  by rewrite HasPrefix_app in E.
Qed.

Lemma methods_nonempty : Forall (λ m, TrimSpace m ≠ "") httpMethods.
Proof. repeat constructor; by vm_compute. Qed.

Lemma Contains_middle a sub b : Contains (a +:+ (sub +:+ b)) sub = true.
Proof.
  induction a as [|c a IH].
  - change ("" +:+ (sub +:+ b)) with (sub +:+ b). pose proof (HasPrefix_app sub b) as P. unfold HasPrefix in P.
    revert P. destruct (sub +:+ b); cbn [Contains]; by intros ->.
  - change (String c a +:+ (sub +:+ b)) with (String c (a +:+ (sub +:+ b))).
    cbn [Contains]. rewrite IH. apply orb_true_r.
Qed.

(** ** Properties *)

(** A client that speaks HTTP to the entry is counted as an HTTP probe
    however the failure shows: the four bytes of a method, in any case, are a
    frame the reader refuses with an error of that class; and when they are
    the first bytes kept from the connection, every handshake error is of that
    class. *)
Theorem http_probe_classified `{JSONCodec A} (v : A) word rest tail maxBytes err :
  ToUpper (of_chars word) ∈ httpMethods →
  maxBytes ≤ 2 ^ 30 →
  (∃ e, (ReadJSON (mkStream (word ++ rest) tail) v maxBytes).2 = Err e ∧
        classifyEntryReadError (Some e) = entryCodeHTTPProbe) ∧
  classifyEntryHandshakeError err (take 16 (word ++ rest)) = entryCodeHTTPProbe.
Proof.
  intros Hm Hmax. pose proof (method_words_ok word (method_words_spec word Hm)) as Hok.
  unfold method_word_ok in Hok. rewrite !andb_true_iff in Hok. destruct Hok as [[Hl Hbig] Hclass].
  apply Nat.eqb_eq in Hl. apply String.eqb_eq in Hclass. split.
  - exists (oversize_text word). split; [|done].
    unfold ReadJSON. rewrite <-Hl at 1. rewrite ReadFull_app.
    destruct (Z.eqb_spec (Uint32 word) 0); [lia|].
    destruct (Z.ltb_spec (if maxBytes <=? 0 then DefaultMaxHandshakeBytes else maxBytes) (Uint32 word))
      as [_|Hle]; [done|].
    exfalso. revert Hle. unfold DefaultMaxHandshakeBytes. destruct (maxBytes <=? 0); lia.
  - unfold classifyEntryHandshakeError.
    destruct (String.eqb (entryHTTPMethodFromPrefix _) "") eqn:E; [|done].
    apply String.eqb_eq in E. exfalso. revert E.
    rewrite take_app_ge by lia. unfold entryHTTPMethodFromPrefix.
    destruct (word ++ _) as [|c l] eqn:El; [by destruct word|]. rewrite <-El, ToUpper_app.
    apply first_method_found; [done|apply methods_nonempty].
Qed.

Lemma http_probe_classified_witness :
  ∃ e, (ReadJSON (H0 := countableCodec) (mkStream (to_chars "get / HTTP/1.1") "EOF") "" 32768).2 = Err e ∧
       classifyEntryReadError (Some e) = entryCodeHTTPProbe.
Proof.
  apply (http_probe_classified (H := countableCodec) "" (to_chars "get ") (to_chars "/ HTTP/1.1") "EOF" 32768 None);
    [apply (bool_decide_unpack _); vm_compute; exact I|done].
Defined.

(** What the queue holds of a run. *)
Definition queue_ok (capacity : Z) (offered out : list EntryTrafficLogEntry)
    (w : asyncEntryTrafficLog) : Prop :=
  (out ++ al_queue w) `sublist_of` offered ∧
  al_accepted w = wrap_u64 (Z.of_nat (length (out ++ al_queue w))) ∧
  al_written w = wrap_u64 (Z.of_nat (length out)) ∧
  (length (al_queue w) ≤ al_capacity w)%nat ∧
  al_capacity w = al_capacity (newAsyncEntryTrafficLog capacity) ∧
  (al_phase w ≠ writerRunning → al_closed w = true) ∧
  (al_phase w = writerDone → al_queue w = []) ∧
  (al_closed w = false →
   wrap_u64 (al_accepted w + al_dropped w) = wrap_u64 (Z.of_nat (length offered))).

Lemma wrap_u64_succ (z : Z) : wrap_u64 (wrap_u64 z + 1) = wrap_u64 (z + 1).
Proof. unfold wrap_u. apply Zplus_mod_idemp_l. Qed.

Lemma new_capacity_pos capacity : (0 < al_capacity (newAsyncEntryTrafficLog capacity))%nat.
Proof. cbn. destruct (Z.leb_spec capacity 0); lia. Qed.

Lemma Enqueue_ok capacity offered out w entry :
  queue_ok capacity offered out w → queue_ok capacity (offered ++ [entry]) out (Enqueue w entry).
Proof.
  intros (Hs & Ha & Hw & Hl & Hc & Hp & Hd & Hn). unfold Enqueue.
  destruct (al_closed w) eqn:Ec.
  { split_and!; try done; [by apply sublist_inserts_r|by intros; congruence]. }
  unfold queue_ok. rewrite (length_app offered). cbn [length].
  destruct (Nat.ltb_spec (length (al_queue w)) (al_capacity w)) as [Hlt|Hge];
    split_and!; cbn [al_queue al_accepted al_written al_capacity al_phase al_closed al_dropped]; try done.
  - rewrite (assoc_L (++)). by apply sublist_app.
  - rewrite Ha, wrap_u64_succ, (assoc_L (++)), (length_app _ [entry]). f_equal. cbn. lia.
  - rewrite length_app. cbn. lia.
  - intros E. exfalso. discriminate (Hp ltac:(congruence)).
  - intros _. specialize (Hn eq_refl). unfold wrap_u in *. rewrite Zplus_mod_idemp_l.
    replace (al_accepted w + 1 + al_dropped w) with (al_accepted w + al_dropped w + 1) by lia.
    rewrite <-Zplus_mod_idemp_l, Hn, Zplus_mod_idemp_l. f_equal. lia.
  - by apply sublist_inserts_r.
  - intros _. specialize (Hn eq_refl). unfold wrap_u in *. rewrite Zplus_mod_idemp_r.
    rewrite Z.add_assoc, <-Zplus_mod_idemp_l, Hn, Zplus_mod_idemp_l. f_equal. lia.
Qed.

Lemma writer_step_ok capacity offered out w new w' :
  queue_ok capacity offered out w → writer_step w new w' → queue_ok capacity offered (out ++ new) w'.
Proof.
  intros (Hs & Ha & Hw & Hl & Hc & Hp & Hd & Hn) Hstep.
  destruct Hstep as [w entry rest Hq Hph|w Hcl Hph|w Hq Hph]; unfold queue_ok, set_phase;
    cbn [al_queue al_accepted al_written al_capacity al_phase al_closed al_dropped];
    rewrite ?app_nil_r.
  - rewrite Hq in *. rewrite <-(assoc_L (++)). split_and!; try done.
    + rewrite Hw, wrap_u64_succ, length_app. f_equal. cbn. lia.
    + cbn in Hl. lia.
  - by split_and!.
  - split_and!; try done. intros _. apply Hp. congruence.
Qed.

Lemma queue_run_ok capacity offered out w :
  queue_run capacity offered out w → queue_ok capacity offered out w.
Proof.
  induction 1 as [|offered out w entry _ IH|offered out w _ IH|offered out w new w' _ IH Hstep].
  - split_and!; try done. cbn. lia.
  - by apply Enqueue_ok.
  - destruct IH as (Hs & Ha & Hw & Hl & Hc & Hp & Hd & Hn). by split_and!.
  - by eapply writer_step_ok.
Qed.

(** Whatever way records are offered, written and the queue closed, what
    was written and what is still queued, in this order, are the accepted
    records in the order they were offered; the queue never exceeds its
    capacity; the counters are the records accepted, written and dropped; and
    once the writer has ended everything accepted has been written. *)
Theorem entry_log_queue capacity offered out w :
  queue_run capacity offered out w →
  (out ++ al_queue w) `sublist_of` offered ∧
  al_accepted w = wrap_u64 (Z.of_nat (length (out ++ al_queue w))) ∧
  al_written w = wrap_u64 (Z.of_nat (length out)) ∧
  (al_closed w = false →
   wrap_u64 (al_accepted w + al_dropped w) = wrap_u64 (Z.of_nat (length offered))) ∧
  Z.of_nat (length (al_queue w)) ≤ (if capacity <=? 0 then 2048 else capacity) ∧
  (al_phase w = writerDone → al_queue w = [] ∧ al_accepted w = al_written w).
Proof.
  intros Hrun. destruct (queue_run_ok _ _ _ _ Hrun) as (Hs & Ha & Hw & Hl & Hc & Hp & Hd & Hn).
  split_and!; try done.
  - rewrite Hc in Hl. cbn in Hl. destruct (Z.leb_spec capacity 0); lia.
  - intros E. split; [by apply Hd|]. by rewrite Ha, Hw, (Hd E), app_nil_r.
Qed.

Lemma entry_log_queue_witness :
  let e := blockedHitEntry "1.1.1.1" 1 0 in
  let w := Enqueue (Enqueue (newAsyncEntryTrafficLog 1) e) e in
  al_accepted w = 1 ∧ wrap_u64 (al_accepted w + al_dropped w) = 2.
Proof.
  set (e := blockedHitEntry "1.1.1.1" 1 0).
  destruct (entry_log_queue 1 [e; e] [] (Enqueue (Enqueue (newAsyncEntryTrafficLog 1) e) e)
    (queue_enqueue 1 [e] [] _ e (queue_enqueue 1 [] [] _ e (queue_new 1)))) as (_ & H & _ & H' & _).
  split; [exact H|apply H'; reflexivity].
Defined.

(** The steps the writer can still take after the queue was closed. *)
Definition steps_left (w : asyncEntryTrafficLog) : nat :=
  length (al_queue w)
  + match al_phase w with writerRunning => 2 | writerDraining => 1 | writerDone => 0 end.

Inductive writer_steps : nat → asyncEntryTrafficLog → asyncEntryTrafficLog → Prop :=
  | writer_steps_refl w : writer_steps 0 w w
  | writer_steps_step n w new w' w'' :
      writer_step w new w' → writer_steps n w' w'' → writer_steps (S n) w w''.

Lemma writer_progress w :
  al_closed w = true → al_phase w ≠ writerDone → ∃ new w', writer_step w new w'.
Proof.
  intros Hc Hp. destruct (al_queue w) as [|entry rest] eqn:Hq.
  - destruct (al_phase w) eqn:Ep; [|..|done].
    + do 2 eexists. by apply writer_stops.
    + do 2 eexists. by apply writer_ends.
  - do 2 eexists. by eapply writer_takes.
Qed.

Lemma writer_step_measure w new w' :
  writer_step w new w' → steps_left w = S (steps_left w') ∧ al_closed w' = al_closed w.
Proof.
  intros [w0 entry rest Hq Hp|w0 Hc Hp|w0 Hq Hp]; unfold steps_left, set_phase; cbn;
    rewrite ?Hq, ?Hp; cbn; (split; [|done]); lia.
Qed.

(** After [Close] has closed the queue, the writer ends: every way it can
    run takes at most the queued records plus two steps, and where it stops it
    has ended, so the wait in [Close] is over. *)
Theorem close_ends_writer w :
  al_closed w = true →
  (∀ n w', writer_steps n w w' → (n ≤ steps_left w)%nat ∧
     ((¬ ∃ new w'', writer_step w' new w'') → al_phase w' = writerDone)) ∧
  ∃ n w', writer_steps n w w' ∧ al_phase w' = writerDone.
Proof.
  intros Hc. split.
  - intros n w' Hs. induction Hs as [w|n w new w' w'' Hstep Hs IH].
    + split; [lia|]. intros Hno. destruct (decide (al_phase w = writerDone)) as [|Hne]; [done|].
      destruct Hno. by apply writer_progress.
    + destruct (writer_step_measure _ _ _ Hstep) as [Hm Hc'].
      destruct (IH ltac:(congruence)). split; [lia|done].
  - remember (steps_left w) as k eqn:Ek. revert w Hc Ek. induction k as [|k IH]; intros w Hc Ek;
      (destruct (decide (al_phase w = writerDone)) as [|Hne]; [exists 0%nat, w; by split; [constructor|]|]);
      destruct (writer_progress w Hc Hne) as (new & w1 & Hstep);
      destruct (writer_step_measure _ _ _ Hstep) as [Hm Hc1]; [lia|].
    destruct (IH w1) as (n & w' & Hs & Hd); [congruence|lia|].
    exists (S n), w'. split; [by econstructor|done].
Qed.

Lemma close_ends_writer_witness :
  ∃ n w', writer_steps n (CloseQueue (Enqueue (newAsyncEntryTrafficLog 4) (blockedHitEntry "1.1.1.1" 1 0))) w'
          ∧ al_phase w' = writerDone.
Proof.
  exact (proj2 (close_ends_writer
    (CloseQueue (Enqueue (newAsyncEntryTrafficLog 4) (blockedHitEntry "1.1.1.1" 1 0))) eq_refl)).
Defined.

(** ** Counters that are totals of others *)

Definition entry_classes : list counter :=
  [entryHTTPProbeRejected; entryNonTLSRejected; entryUnsupportedTLSRejected;
   entrySlowHandshakeRejected; entryClosedHandshakeRejected; entryOversizedHandshakeRejected;
   entryUnsupportedRequestRejected; entryInvalidHandshakeRejected].
Definition rejection_classes : list counter :=
  [connectionsRejectedGlobal; connectionsRejectedPerIPActive; connectionsRejectedPerIPNewRate;
   connectionsRejectedIPCapacity].
Definition rejection_reasons : list string :=
  ["global_concurrent_connections"; "per_ip_concurrent_connections"; "per_ip_new_connection_rate";
   "tracked_remote_ip_capacity"].

Definition counter_sum (cs : counters) (l : list counter) : Z := foldr (λ c a, cs c + a) 0 l.

(** A total agrees with its classes up to the width of the counters. *)
Definition totals (cs : counters) : Prop :=
  wrap_u64 (cs entryProtocolRejected) = wrap_u64 (counter_sum cs entry_classes) ∧
  wrap_u64 (cs connectionsRejected) = wrap_u64 (counter_sum cs rejection_classes).

Lemma wrap_u64_wrap_i64 z : wrap_u64 (wrap_i64 z) = wrap_u64 z.
Proof.
  unfold wrap_u, wrap_s. cbv zeta. destruct (_ <? _); rewrite ?Z.mod_mod by done; [done|].
  rewrite <-(Z.mod_add _ 1) by done. rewrite Z.mul_1_l, Z.sub_add. by rewrite Z.mod_mod.
Qed.

Lemma Add_same c n cs : Add c n cs c = wrap_i64 (cs c + n).
Proof. unfold Add. by rewrite decide_True. Qed.
Lemma Add_other c n cs c' : c ≠ c' → Add c n cs c' = cs c'.
Proof. intros. unfold Add. by rewrite decide_False. Qed.

Lemma wrap_u64_add_l a b : wrap_u64 (wrap_u64 a + b) = wrap_u64 (a + b).
Proof. unfold wrap_u. apply Zplus_mod_idemp_l. Qed.

Lemma counter_sum_Add c n cs l :
  NoDup l →
  wrap_u64 (counter_sum (Add c n cs) l)
  = wrap_u64 (counter_sum cs l + if decide (c ∈ l) then n else 0).
Proof.
  induction 1 as [|c' l Hc' Hl IH]; [done|]. cbn [counter_sum foldr].
  fold (counter_sum (Add c n cs) l). fold (counter_sum cs l).
  rewrite Z.add_comm, <-wrap_u64_add_l, IH, wrap_u64_add_l.
  destruct (decide (c = c')) as [->|Hne].
  - rewrite Add_same. rewrite (decide_True (P := c' ∈ c' :: l)) by (by apply elem_of_cons; left).
    rewrite decide_False by done.
    rewrite Z.add_comm, <-wrap_u64_add_l, wrap_u64_wrap_i64, wrap_u64_add_l. f_equal. lia.
  - rewrite Add_other by done.
    destruct (decide (c ∈ l)) as [Hin|Hin].
    + rewrite decide_True by (by apply elem_of_cons; right). f_equal. lia.
    + rewrite decide_False by (rewrite elem_of_cons; naive_solver). f_equal. lia.
Qed.

Lemma entry_classes_nodup : NoDup entry_classes.
Proof. apply (bool_decide_unpack _). vm_compute. exact I. Qed.
Lemma rejection_classes_nodup : NoDup rejection_classes.
Proof. apply (bool_decide_unpack _). vm_compute. exact I. Qed.

(** Adding to any other counter leaves the totals alone. *)
Lemma Add_totals c n cs :
  c ∉ entryProtocolRejected :: connectionsRejected :: entry_classes ++ rejection_classes →
  totals cs → totals (Add c n cs).
Proof.
  intros Hc [T1 T2]. rewrite !elem_of_cons, elem_of_app in Hc. apply Decidable.not_or in Hc as [Hc1 Hc].
  apply Decidable.not_or in Hc as [Hc2 Hc]. apply Decidable.not_or in Hc as [Hc3 Hc4].
  split; rewrite Add_other by congruence.
  - rewrite counter_sum_Add by apply entry_classes_nodup. rewrite decide_False by done. by rewrite Z.add_0_r.
  - rewrite counter_sum_Add by apply rejection_classes_nodup. rewrite decide_False by done. by rewrite Z.add_0_r.
Qed.

Lemma Add_pair_totals total classes c cs :
  NoDup classes → total ∉ classes → c ∈ classes →
  wrap_u64 (cs total) = wrap_u64 (counter_sum cs classes) →
  wrap_u64 (Add c 1 (Add total 1 cs) total) = wrap_u64 (counter_sum (Add c 1 (Add total 1 cs)) classes).
Proof.
  intros Hnd Ht Hc E. rewrite Add_other by congruence. rewrite Add_same, wrap_u64_wrap_i64.
  rewrite counter_sum_Add by done. rewrite decide_True by done.
  rewrite <-(wrap_u64_add_l (counter_sum _ _)), counter_sum_Add by done. rewrite decide_False by done.
  by rewrite Z.add_0_r, <-E, wrap_u64_add_l.
Qed.

Lemma Add_pair_other total c cs total' classes :
  NoDup classes → total ≠ total' → c ≠ total' → total ∉ classes → c ∉ classes →
  wrap_u64 (cs total') = wrap_u64 (counter_sum cs classes) →
  wrap_u64 (Add c 1 (Add total 1 cs) total') = wrap_u64 (counter_sum (Add c 1 (Add total 1 cs)) classes).
Proof.
  intros Hnd H1 H2 H3 H4 E. rewrite !Add_other by congruence.
  rewrite counter_sum_Add by done. rewrite decide_False by done.
  rewrite Z.add_0_r, counter_sum_Add by done. rewrite decide_False by done. by rewrite Z.add_0_r.
Qed.

Lemma entryCounter_class code : entryCounter code ∈ entry_classes.
Proof.
  unfold entryCounter. repeat destruct (String.eqb _ _); apply (bool_decide_unpack _); vm_compute; exact I.
Qed.

Lemma entry_rejection_apart c : c ∈ entry_classes → (c ∉ rejection_classes) ∧ c ≠ connectionsRejected.
Proof.
  intros Hc. split.
  - intros Hc'. revert c Hc Hc'. apply (proj1 (Forall_forall (λ c, (c ∉ rejection_classes)) _)).
    apply (bool_decide_unpack _). vm_compute. exact I.
  - intros ->. revert Hc. apply (bool_decide_unpack _). vm_compute. exact I.
Qed.

Lemma rejection_entry_apart c : c ∈ rejection_classes → (c ∉ entry_classes) ∧ c ≠ entryProtocolRejected.
Proof.
  intros Hc. split.
  - intros Hc'. by apply (proj1 (entry_rejection_apart c Hc')).
  - intros ->. revert Hc. apply (bool_decide_unpack _). vm_compute. exact I.
Qed.

Lemma countEntryProtocolRejected_totals code cs : totals cs → totals (countEntryProtocolRejected code cs).
Proof.
  intros [T1 T2]. pose proof (entryCounter_class code) as Hc.
  destruct (entry_rejection_apart _ Hc) as [Ha Hb].
  split.
  - apply Add_pair_totals; [apply entry_classes_nodup| |done|done].
    apply (bool_decide_unpack _). vm_compute. exact I.
  - apply Add_pair_other; [apply rejection_classes_nodup|done|done| |done|done].
    apply (bool_decide_unpack _). vm_compute. exact I.
Qed.

Definition reasonCounter (reason : string) : counter :=
  if String.eqb reason "global_concurrent_connections" then connectionsRejectedGlobal
  else if String.eqb reason "per_ip_concurrent_connections" then connectionsRejectedPerIPActive
  else if String.eqb reason "per_ip_new_connection_rate" then connectionsRejectedPerIPNewRate
  else connectionsRejectedIPCapacity.

Lemma recordConnectionRejected_totals reason cs :
  reason ∈ rejection_reasons → totals cs → totals (recordConnectionRejected reason cs).
Proof.
  intros Hr [T1 T2].
  assert (recordConnectionRejected reason cs
          = Add (reasonCounter reason) 1 (Add connectionsRejected 1 cs)) as ->.
  { unfold rejection_reasons in Hr. rewrite !elem_of_cons in Hr.
    destruct Hr as [->|[->|[->|[->|Hr]]]]; [done..|by inversion Hr]. }
  assert (reasonCounter reason ∈ rejection_classes) as Hc.
  { unfold reasonCounter. repeat destruct (String.eqb _ _); apply (bool_decide_unpack _); vm_compute; exact I. }
  destruct (rejection_entry_apart _ Hc) as [Ha Hb]. split.
  - apply Add_pair_other; [apply entry_classes_nodup|done|done| |done|done].
    apply (bool_decide_unpack _). vm_compute. exact I.
  - apply Add_pair_totals; [apply rejection_classes_nodup| |done|done].
    apply (bool_decide_unpack _). vm_compute. exact I.
Qed.

Create HintDb tunnel.

#[export] Hint Resolve Add_totals countEntryProtocolRejected_totals recordConnectionRejected_totals : tunnel.

(** ** Kept prefixes and reported hits *)

(** Reading keeps the first sixteen bytes of all that was read. *)
Lemma peek_keeps_first_bytes reads :
  foldl peekRead [] reads = take 16 (concat reads).
Proof.
  induction reads as [|p reads IH] using rev_ind; [done|].
  rewrite foldl_snoc, IH, concat_app. cbn [concat]. rewrite app_nil_r, take_app.
  unfold peekRead. rewrite length_take.
  destruct (Nat.ltb_spec 0 (length p)); cbn [andb].
  2: { destruct p; [by rewrite take_nil, app_nil_r|cbn in *; lia]. }
  destruct (Nat.ltb_spec (16 `min` length (concat reads)) 16).
  - f_equal. destruct (Nat.ltb_spec (length p) (16 - 16 `min` length (concat reads)));
      [rewrite !take_ge by lia; done|]. f_equal. lia.
  - rewrite (take_ge p 0) || replace (16 - length (concat reads))%nat with 0%nat by lia.
    by rewrite app_nil_r.
Qed.

Inductive hit_event := HitObserve (ip : string) | HitFlush.

#[export] Instance hit_event_eq_dec : EqDecision hit_event.
Proof. solve_decision. Defined.

(** The aggregator and the entries its flushes gave. *)
Definition hit_step (s : permanentBlockHitAggregator * list EntryTrafficLogEntry) (ev : hit_event)
    : permanentBlockHitAggregator * list EntryTrafficLogEntry :=
  match ev with
  | HitObserve ip => (default s.1 (Observe (Some s.1) ip), s.2)
  | HitFlush =>
      let '(entries, a) := flushPermanentBlockHitLogs (Some s.1) in (default s.1 a, s.2 ++ entries)
  end.

Definition hit_run (interval : Duration) (evs : list hit_event)
    : permanentBlockHitAggregator * list EntryTrafficLogEntry :=
  foldl hit_step (newPermanentBlockHitAggregator interval, []) evs.

Definition hits_of (ip : string) (evs : list hit_event) : Z :=
  Z.of_nat (length (filter (λ ev : hit_event, ev = HitObserve ip) evs)).

(** Entries that report [counts], one per line. *)
Definition reports (interval : Duration) (counts : list (string * Z)) : list EntryTrafficLogEntry :=
  map (λ c, blockedHitEntry c.1 c.2 interval) counts.

Definition reported (ip : string) (counts : list (string * Z)) : Z :=
  foldr (λ c a, (if String.eqb c.1 ip then c.2 else 0) + a) 0 counts.

Definition flushed_hits (hits : gmap string Z) : list (string * Z) :=
  omap (λ ip, if default 0 (hits !! ip) <=? 0 then None else Some (ip, default 0 (hits !! ip)))
    (merge_sort string_le (map fst (map_to_list hits))).

Lemma flush_reports a :
  flushPermanentBlockHitLogs (Some a)
  = (reports (ag_interval a) (flushed_hits (ag_hits a)), Some (mkAggregator (ag_interval a) ∅)).
Proof.
  unfold flushPermanentBlockHitLogs, Flush, reports, flushed_hits. f_equal.
  induction (merge_sort _ _) as [|ip ips IH]; [done|]. cbn.
  destruct (_ <=? 0); cbn; by rewrite IH.
Qed.

Lemma reported_app ip l1 l2 : reported ip (l1 ++ l2) = reported ip l1 + reported ip l2.
Proof.
  induction l1 as [|c l1 IH]; [done|]. unfold reported in *. cbn [app foldr]. rewrite IH. lia.
Qed.

Lemma reported_omap (hits : gmap string Z) ip ips :
  NoDup ips →
  reported ip (omap (λ ip, if default 0 (hits !! ip) <=? 0 then None else Some (ip, default 0 (hits !! ip))) ips)
  = if decide (ip ∈ ips) then Z.max 0 (default 0 (hits !! ip)) else 0.
Proof.
  induction 1 as [|j ips Hj Hnd IH]; [done|]. csimpl.
  destruct (decide (ip = j)) as [->|Hne].
  - rewrite (decide_True (P := j ∈ j :: ips)) by (apply elem_of_cons; by left).
    rewrite decide_False in IH by done.
    destruct (Z.leb_spec (default 0 (hits !! j)) 0); [rewrite IH; lia|].
    unfold reported in *. cbn [foldr fst snd]. rewrite String.eqb_refl, IH. lia.
  - rewrite (decide_ext (ip ∈ j :: ips) (ip ∈ ips)) by (rewrite elem_of_cons; naive_solver).
    destruct (Z.leb_spec (default 0 (hits !! j)) 0); [done|].
    unfold reported in *. cbn [foldr fst snd].
    destruct (String.eqb_spec j ip); [congruence|]. by rewrite IH.
Qed.

Lemma reported_flushed (hits : gmap string Z) ip : 0 ≤ default 0 (hits !! ip) → reported ip (flushed_hits hits) = default 0 (hits !! ip).
Proof.
  intros Hnn. unfold flushed_hits. rewrite reported_omap.
  2: { rewrite merge_sort_Permutation. apply NoDup_fst_map_to_list. }
  destruct (decide _) as [Hin|Hin]; [lia|].
  destruct (hits !! ip) as [n|] eqn:E; [|done]. destruct Hin. rewrite merge_sort_Permutation.
  apply list_elem_of_fmap. exists (ip, n). split; [done|]. by apply elem_of_map_to_list.
Qed.

Lemma flushed_hits_lookup (hits : gmap string Z) ip n :
  (∀ k m, hits !! k = Some m → 0 < m) → (ip, n) ∈ flushed_hits hits ↔ hits !! ip = Some n.
Proof.
  intros Hpos. unfold flushed_hits. rewrite list_elem_of_omap. split.
  - intros (j & Hj & E). destruct (Z.leb_spec (default 0 (hits !! j)) 0); [done|].
    injection E as <- <-. destruct (hits !! j) as [m|] eqn:Em; [done|]. cbn in *. lia.
  - intros E. exists ip. rewrite E. cbn. split.
    + rewrite merge_sort_Permutation. apply list_elem_of_fmap. exists (ip, n).
      split; [done|]. by apply elem_of_map_to_list.
    + pose proof (Hpos _ _ E). by destruct (Z.leb_spec n 0); [lia|].
Qed.

Lemma flushed_hits_keys (hits : gmap string Z) :
  (∀ k m, hits !! k = Some m → 0 < m) →
  map fst (flushed_hits hits) = merge_sort string_le (map fst (map_to_list hits)).
Proof.
  intros Hpos. unfold flushed_hits.
  assert (∀ ip, ip ∈ merge_sort string_le (map fst (map_to_list hits)) → 0 < default 0 (hits !! ip)) as Hin.
  { intros ip. rewrite merge_sort_Permutation, list_elem_of_fmap. intros ([j m] & -> & Hj).
    apply elem_of_map_to_list in Hj. cbn. rewrite Hj. cbn. by eapply Hpos. }
  induction (merge_sort _ _) as [|ip ips IH]; [done|]. csimpl.
  pose proof (Hin ip ltac:(by apply elem_of_cons; left)).
  destruct (Z.leb_spec (default 0 (hits !! ip)) 0); [lia|]. cbn [map fst]. f_equal.
  apply IH. intros j Hj. apply Hin. apply elem_of_cons. by right.
Qed.

Lemma flushed_hits_spec (hits : gmap string Z) ip :
  (∀ k m, hits !! k = Some m → 0 < m) →
  Sorted string_le (map fst (flushed_hits hits)) ∧ NoDup (map fst (flushed_hits hits)) ∧
  ∀ n, (ip, n) ∈ flushed_hits hits ↔ hits !! ip = Some n.
Proof.
  intros Hpos. rewrite flushed_hits_keys by done. split_and!.
  - apply Sorted_merge_sort. intros s t. apply string_le_total.
  - rewrite merge_sort_Permutation. apply NoDup_fst_map_to_list.
  - intros n. by apply flushed_hits_lookup.
Qed.

Lemma hits_of_snoc ip evs ev :
  hits_of ip (evs ++ [ev]) = hits_of ip evs + if decide (ev = HitObserve ip) then 1 else 0.
Proof.
  unfold hits_of. rewrite filter_app, length_app, filter_cons. case_decide; cbn; lia.
Qed.

Lemma hit_run_inv interval evs :
  Z.of_nat (length evs) ≤ max_i64 →
  let s := hit_run interval evs in
  (∀ k m, ag_hits s.1 !! k = Some m → 0 < m ≤ Z.of_nat (length evs)) ∧
  ∃ counts, s.2 = reports (ag_interval s.1) counts ∧
    ∀ ip, ip ≠ "" → hits_of ip evs = reported ip counts + default 0 (ag_hits s.1 !! ip).
Proof.
  cbv zeta. unfold hit_run. induction evs as [|ev evs IH] using rev_ind; intros Hlen.
  { split; [intros k m; cbn; by rewrite lookup_empty|]. exists []. split; [done|].
    intros ip _. cbn. by rewrite lookup_empty. }
  rewrite length_app in *. cbn [length] in *. rewrite foldl_snoc.
  destruct (IH ltac:(lia)) as [Hpos (counts & Hrep & Hc)].
  destruct (foldl _ _ _) as [a entries]. cbn [fst snd] in *. subst entries.
  destruct ev as [j|]; cbn [hit_step fst snd].
  - cbn [Observe]. destruct (String.eqb_spec j "") as [->|Hj]; cbn [default from_option id].
    + split; [intros k m Hk; specialize (Hpos k m Hk); lia|]. exists counts. split; [done|].
      intros ip Hip. rewrite hits_of_snoc, decide_False by congruence. rewrite Hc by done. lia.
    + cbn [ag_hits ag_interval id].
      assert (0 ≤ default 0 (ag_hits a !! j) ≤ Z.of_nat (length evs)) as Hr.
      { destruct (ag_hits a !! j) as [m|] eqn:Em; cbn; [specialize (Hpos _ _ Em)|]; lia. }
      rewrite wrap_s_id by (unfold max_i64 in Hlen; cbn in *; lia). split.
      * intros k m. rewrite lookup_insert. case_decide as Ek; [intros [= <-]; lia|].
        intros Hk. specialize (Hpos k m Hk). lia.
      * exists counts. split; [done|]. intros ip Hip. rewrite hits_of_snoc, Hc by done.
        rewrite lookup_insert. case_decide as Ek; case_decide as Ej; try congruence; subst; cbn; lia.
  - rewrite flush_reports. cbn. split; [intros k m; by rewrite lookup_empty|].
    exists (counts ++ flushed_hits (ag_hits a)). split; [unfold reports; by rewrite map_app|].
    intros ip Hip. rewrite hits_of_snoc, decide_False by done. rewrite reported_app, lookup_empty.
    rewrite reported_flushed.
    2: { destruct (ag_hits a !! ip) as [m|] eqn:Em; cbn; [specialize (Hpos _ _ Em)|]; lia. }
    rewrite Hc by done. cbn. lia.
Qed.

(** No hit by a permanently blocked address is lost or counted twice: at
    any moment the hits observed are those in the records already written plus
    those waiting for the next flush, and each flush reports every waiting
    address once, in order. *)
Theorem hits_conserved interval evs ip :
  Z.of_nat (length evs) ≤ max_i64 →
  ip ≠ "" →
  let '(a, entries) := hit_run interval evs in
  (∃ counts, entries = reports (ag_interval a) counts ∧
             hits_of ip evs = reported ip counts + default 0 (ag_hits a !! ip)) ∧
  (∃ counts, (flushPermanentBlockHitLogs (Some a)).1 = reports (ag_interval a) counts ∧
             Sorted string_le (map fst counts) ∧ NoDup (map fst counts) ∧
             ∀ n, (ip, n) ∈ counts ↔ ag_hits a !! ip = Some n).
Proof.
  intros Hlen Hip. destruct (hit_run interval evs) as [a entries] eqn:E.
  destruct (hit_run_inv interval evs Hlen) as [Hpos Hcount]. rewrite E in Hpos, Hcount. cbn [fst snd] in Hpos, Hcount.
  split.
  - destruct Hcount as (counts & -> & Hc). exists counts. split; [done|]. by apply Hc.
  - rewrite flush_reports. eexists. split; [done|]. apply flushed_hits_spec.
    intros k m Hk. exact (proj1 (Hpos k m Hk)).
Qed.

Lemma hits_conserved_witness :
  let '(a, entries) := hit_run 0 [HitObserve "1.1.1.1"; HitFlush; HitObserve "1.1.1.1"] in
  ∃ counts, entries = reports (ag_interval a) counts ∧
    hits_of "1.1.1.1" [HitObserve "1.1.1.1"; HitFlush; HitObserve "1.1.1.1"]
    = reported "1.1.1.1" counts + default 0 (ag_hits a !! "1.1.1.1").
Proof.
  pose proof (hits_conserved 0 [HitObserve "1.1.1.1"; HitFlush; HitObserve "1.1.1.1"] "1.1.1.1"
    ltac:(by vm_compute) ltac:(done)) as H.
  destruct (hit_run _ _) as [a entries]. apply H.
Defined.
