(* ===== verification/StreamLimiter.v ===== *)
(** * Concurrent streams per account (src/server/tunnel/user_stream_limiter.go)

    A counter per user with a release closure per granted stream. The state of
    a run is the limiter and the closures it has handed out; a run is any
    sequence of acquires and closure calls, a closure being callable many
    times. Theorem: the counters are exactly the streams granted and not yet
    released, so no account exceeds its limit and none is refused below it. *)

From S2P Require Import Prelude.
From S2P Require Import GoStd.
From S2P Require Import ConfigData.

#[local] Open Scope Z_scope.

Record userStreamLimiter := mkUserStreamLimiter {
  ul_maxPerUser : Z;
  ul_active : gmap string Z
}.

Definition newUserStreamLimiter (cfg : SecurityConfig) : userStreamLimiter :=
  mkUserStreamLimiter (sec_MaxConcurrentStreamsPerUser cfg) ∅.

Definition streamUser (username : string) : string :=
  if String.eqb username "" then "unknown" else username.

Definition user_active (l : userStreamLimiter) (username : string) : Z :=
  default 0 (ul_active l !! username).

(** The release closure, whether the stream is granted, the limiter after. *)
Definition acquire (l : option userStreamLimiter) (username : string)
    : onceToken string * bool * option userStreamLimiter :=
  match l with
  | None => (tokenNoop, true, None)
  | Some l =>
      if ul_maxPerUser l <=? 0 then (tokenNoop, true, Some l)
      else
        let username := streamUser username in
        if ul_maxPerUser l <=? user_active l username then (tokenNoop, false, Some l)
        else (token username false, true,
              Some (mkUserStreamLimiter (ul_maxPerUser l)
                      (<[username := user_active l username + 1]> (ul_active l))))
  end.

Definition release (l : option userStreamLimiter) (username : string) : option userStreamLimiter :=
  match l with
  | None => None
  | Some l =>
      if ul_maxPerUser l <=? 0 then Some l
      else
        let username := streamUser username in
        if user_active l username <=? 1
        then Some (mkUserStreamLimiter (ul_maxPerUser l) (delete username (ul_active l)))
        else Some (mkUserStreamLimiter (ul_maxPerUser l)
                     (<[username := user_active l username - 1]> (ul_active l)))
  end.

Record userStreamLimitSnapshot := mkUserStreamLimitSnapshot {
  us_Active : Z;
  us_TrackedUsers : Z;
  us_MaxPerUser : Z;
  us_ActiveByUser : gmap string Z
}.

Definition snapshot (rg : MapRange Z) (l : option userStreamLimiter) : userStreamLimitSnapshot :=
  match l with
  | None => mkUserStreamLimitSnapshot 0 0 0 ∅
  | Some l =>
      let '(activeByUser, total) :=
        foldl (λ '(activeByUser, total) '(username, active),
          if active <=? 0 then (activeByUser, total)
          else (<[username := active]> activeByUser, total + active))
          (∅, 0) (range_entries rg (ul_active l)) in
      mkUserStreamLimitSnapshot total (Z.of_nat (size activeByUser)) (ul_maxPerUser l) activeByUser
  end.

(** ** Runs *)

Inductive stream_event :=
| EAcquire (username : string)
| ECallRelease (i : nat).

(** The limiter and the closures handed out so far, in order. *)
Record stream_state := mkStreamState {
  ss_limiter : userStreamLimiter;
  ss_tokens : list (onceToken string)
}.

Definition stream_step (s : stream_state) (ev : stream_event) : stream_state :=
  match ev with
  | EAcquire u =>
      match acquire (Some (ss_limiter s)) u with
      | (tok, _, Some l) => mkStreamState l (ss_tokens s ++ [tok])
      | (tok, _, None) => s
      end
  | ECallRelease i =>
      match ss_tokens s !! i with
      | None => s
      | Some t =>
          let tokens := <[i := token_call t]> (ss_tokens s) in
          match token_fires t with
          | None => mkStreamState (ss_limiter s) tokens
          | Some u => match release (Some (ss_limiter s)) u with
                      | Some l => mkStreamState l tokens
                      | None => s
                      end
          end
      end
  end.

Definition stream_run (cfg : SecurityConfig) (evs : list stream_event) : stream_state :=
  foldl stream_step (mkStreamState (newUserStreamLimiter cfg) []) evs.

(** ** Invariant *)

Definition stream_inv (s : stream_state) : Prop :=
  let l := ss_limiter s in
  (∀ u, user_active l u = pending u (ss_tokens s)) ∧
  (∀ u n, ul_active l !! u = Some n → 0 < n) ∧
  (∀ u, 0 < ul_maxPerUser l → user_active l u ≤ ul_maxPerUser l) ∧
  (∀ u, ul_maxPerUser l ≤ 0 → pending u (ss_tokens s) = 0) ∧
  (∀ t u, t ∈ ss_tokens s → token_fires t = Some u → streamUser u = u).

Lemma streamUser_idemp u : streamUser (streamUser u) = streamUser u.
Proof.
  unfold streamUser. destruct (String.eqb u "") eqn:E; [done|]. by rewrite E.
Qed.

Lemma user_active_insert l u n v :
  user_active (mkUserStreamLimiter (ul_maxPerUser l) (<[u := n]> (ul_active l))) v
  = if decide (u = v) then n else user_active l v.
Proof.
  unfold user_active. cbn. destruct (decide (u = v)) as [->|].
  - by rewrite lookup_insert_eq.
  - by rewrite lookup_insert_ne.
Qed.

Lemma user_active_delete l u v :
  user_active (mkUserStreamLimiter (ul_maxPerUser l) (delete u (ul_active l))) v
  = if decide (u = v) then 0 else user_active l v.
Proof.
  unfold user_active. cbn. destruct (decide (u = v)) as [->|].
  - by rewrite lookup_delete_eq.
  - by rewrite lookup_delete_ne.
Qed.

Lemma stream_acquire_inv s u : stream_inv s → stream_inv (stream_step s (EAcquire u)).
Proof.
  destruct s as [l ts]. intros (H1 & H2 & H3 & H4 & H5). cbn in *.
  assert (∀ t, token_fires t = None → stream_inv (mkStreamState l (ts ++ [t]))) as Hnoop.
  { intros t Ht. unfold stream_inv. cbn. split_and!; try done.
    - intros v. rewrite H1, pending_snoc, Ht. case_decide; [done|lia].
    - intros v Hv. rewrite pending_snoc, Ht, H4 by done. case_decide; [done|lia].
    - intros t' v [?|E%list_elem_of_singleton]%elem_of_app; [by apply H5|congruence]. }
  unfold acquire. destruct (Z.leb_spec (ul_maxPerUser l) 0); [by apply Hnoop|].
  destruct (Z.leb_spec (ul_maxPerUser l) (user_active l (streamUser u))); [by apply Hnoop|].
  unfold stream_inv. cbn [ss_limiter ss_tokens ul_maxPerUser ul_active]. split_and!.
  - intros v. rewrite user_active_insert, pending_snoc, <-!H1. cbn [token_fires].
    repeat case_decide; simplify_eq; lia.
  - intros v n. rewrite lookup_insert_Some. intros [[<- <-]|[_ ?]]; [|by eapply H2].
    pose proof (pending_nonneg (streamUser u) ts). rewrite H1. lia.
  - intros v Hv. rewrite user_active_insert. case_decide; [lia|]. by apply H3.
  - lia.
  - intros t' v [?|E%list_elem_of_singleton]%elem_of_app; [by apply H5|].
    subst t'. intros [= <-]. apply streamUser_idemp.
Qed.

Lemma stream_release_inv s i : stream_inv s → stream_inv (stream_step s (ECallRelease i)).
Proof.
  destruct s as [l ts]. intros (H1 & H2 & H3 & H4 & H5). cbn in *.
  destruct (ts !! i) as [t|] eqn:Ei; [|done].
  assert (∀ t' v, t' ∈ <[i := token_call t]> ts → token_fires t' = Some v → streamUser v = v) as H5'.
  { intros t' v [j Hj]%list_elem_of_lookup Hv.
    apply list_lookup_insert_Some in Hj as [(<- & <- & _)|[_ Hj]]; [by destruct t|].
    eapply H5; [by eapply list_elem_of_lookup_2|done]. }
  destruct (token_fires t) as [u|] eqn:Et.
  2: { unfold stream_inv. cbn. split_and!; try done.
       - intros v. rewrite (pending_call v ts i t) by done. rewrite Et, H1. case_decide; [done|lia].
       - intros v Hv. rewrite (pending_call v ts i t) by done. rewrite Et, H4 by done.
         case_decide; [done|lia]. }
  assert (streamUser u = u) as Hu by (eapply H5; [by eapply list_elem_of_lookup_2|done]).
  assert (1 ≤ pending u ts) as Hp.
  { pose proof (pending_call u ts i t Ei) as E. rewrite Et in E.
    pose proof (pending_nonneg u (<[i := token_call t]> ts)). case_decide; [lia|done]. }
  unfold release. rewrite Hu.
  destruct (Z.leb_spec (ul_maxPerUser l) 0) as [Hm|Hm]; [rewrite H4 in Hp by done; lia|].
  destruct (Z.leb_spec (user_active l u) 1) as [H01|H01];
    unfold stream_inv; cbn [ss_limiter ss_tokens ul_maxPerUser ul_active]; split_and!; try done; try lia.
  - intros v. rewrite user_active_delete, (pending_call v ts i t), Et, <-!H1 by done.
    rewrite <-H1 in Hp. repeat case_decide; simplify_eq; lia.
  - intros v n [_ ?]%lookup_delete_Some. by eapply H2.
  - intros v Hv. rewrite user_active_delete. case_decide; [lia|]. by apply H3.
  - intros v. rewrite user_active_insert, (pending_call v ts i t), Et, <-!H1 by done.
    repeat case_decide; simplify_eq; lia.
  - intros v n. rewrite lookup_insert_Some. intros [[<- <-]|[_ ?]]; [lia|by eapply H2].
  - intros v Hv. rewrite user_active_insert. specialize (H3 v Hv).
    case_decide; subst; lia.
Qed.

Lemma stream_run_inv cfg evs : stream_inv (stream_run cfg evs).
Proof.
  unfold stream_run. induction evs as [|ev evs IH] using rev_ind.
  - unfold stream_inv, user_active. cbn. split_and!; intros *; rewrite ?lookup_empty; cbn;
      try done; try lia. by intros []%not_elem_of_nil.
  - rewrite foldl_snoc. destruct ev; [by apply stream_acquire_inv|by apply stream_release_inv].
Qed.

Lemma stream_run_max cfg evs :
  ul_maxPerUser (ss_limiter (stream_run cfg evs)) = sec_MaxConcurrentStreamsPerUser cfg.
Proof.
  unfold stream_run. induction evs as [|ev evs IH] using rev_ind; [done|].
  rewrite foldl_snoc. set (s := foldl _ _ _) in *. destruct ev; cbn.
  - by repeat case_match; simplify_eq/=.
  - destruct (ss_tokens s !! i) as [t|]; [|done]. destruct (token_fires t); [|done].
    unfold release. by repeat case_match; simplify_eq/=.
Qed.

(** ** Property *)

(** In every run of a limiter with a positive limit, each account's counter is
    the number of its granted streams whose release closure has not run, which
    never exceeds the limit; and the next acquire of an account is granted if
    and only if it holds fewer streams than the limit. *)
Theorem stream_limit_exact cfg evs u :
  let max := sec_MaxConcurrentStreamsPerUser cfg in
  0 < max →
  let s := stream_run cfg evs in
  user_active (ss_limiter s) u = pending u (ss_tokens s) ∧
  pending u (ss_tokens s) ≤ max ∧
  ((acquire (Some (ss_limiter s)) u).1.2 = true ↔ pending (streamUser u) (ss_tokens s) < max).
Proof.
  intros max Hmax s. destruct (stream_run_inv cfg evs) as (H1 & _ & H3 & _). fold s in H1, H3.
  pose proof (stream_run_max cfg evs) as Hm. fold s max in Hm. rewrite Hm in H3.
  split_and!; [apply H1|rewrite <-H1; by apply H3|].
  unfold acquire. rewrite Hm, H1. destruct (Z.leb_spec max 0); [lia|].
  destruct (Z.leb_spec max (pending (streamUser u) (ss_tokens s))); cbn; naive_solver lia.
Qed.

Definition two_streams : SecurityConfig :=
  mkSecurityConfig 0 0 0 0 0 0 0 0 0 0 0 0 0 2 0 0 0 0.

Lemma stream_limit_exact_witness :
  let s := stream_run two_streams [EAcquire "ana"; EAcquire "ana"; EAcquire "ana"; ECallRelease 0; ECallRelease 0] in
  pending "ana" (ss_tokens s) = 1 ∧ user_active (ss_limiter s) "ana" = 1 ∧
  (acquire (Some (ss_limiter s)) "ana").1.2 = true.
Proof.
  intros s.
  destruct (stream_limit_exact two_streams [EAcquire "ana"; EAcquire "ana"; EAcquire "ana";
    ECallRelease 0; ECallRelease 0] "ana") as (H1 & _ & H3); [done|].
  split_and!; [reflexivity|exact (eq_trans H1 eq_refl)|apply H3; reflexivity].
Defined.

(** The snapshot counts the same streams: its total is the sum of the
    counters, its table is the counters. *)
Lemma snapshot_counts rg cfg evs :
  let l := ss_limiter (stream_run cfg evs) in
  let v := snapshot rg (Some l) in
  us_ActiveByUser v = ul_active l ∧ us_Active v = map_sum id (ul_active l) ∧
  us_TrackedUsers v = Z.of_nat (size (ul_active l)).
Proof.
  intros l. destruct (stream_run_inv cfg evs) as (_ & H2 & _). fold l in H2.
  assert (∀ (es : list (string * Z)) m t,
    Forall (λ ka, 0 < ka.2) es →
    foldl (λ '(m, total) '(u, n), if n <=? 0 then (m, total) else (<[u := n]> m, total + n)) (m, t) es
    = (foldl (λ (m : gmap string Z) ka, <[ka.1 := ka.2]> m) m es, foldl (λ t ka, t + ka.2) t es)) as Hf.
  { induction es as [|[k n] es IH]; intros m t; [done|].
    intros [Hn HF]%Forall_cons. cbn in Hn |- *. destruct (Z.leb_spec n 0); [lia|]. by apply IH. }
  unfold snapshot. rewrite Hf.
  2: { apply Forall_forall. intros [k n] Hk%range_elem. cbn. by eapply H2. }
  cbn. rewrite (range_sum rg id). cbn.
  by rewrite (range_rebuild rg).
Qed.
