(* ===== verification/ConnLimiter.v ===== *)
(** * Admission of entry connections (src/server/tunnel/connection_limiter.go)

    Per source address: active connections and the times of recent grants;
    over all addresses: the number of active connections and a bound on the
    addresses tracked. A run is any sequence of acquires, calls of the release
    closures handed out and periodic cleanups, with the loops over the map in
    any order. Theorems: every bound of the configuration holds in every
    reachable state, the counters are exactly the granted connections whose
    closure has not run, each refusal happens for the reason it names, and
    while no address was evicted an address is granted at most the configured
    number of connections in any rate window. *)

From S2P Require Import Prelude.
From S2P Require Import GoStd.
From S2P Require Import ConfigData.
From stdpp Require Import sorting.

#[local] Open Scope Z_scope.

Record connectionLimitState := mkLimitState {
  ls_active : Z;
  ls_attempts : list Time;
  ls_lastSeen : Time
}.

Record connectionLimiter := mkConnectionLimiter {
  cl_maxActive : Z;
  cl_maxPerIP : Z;
  cl_maxRate : Z;
  cl_rateWindow : Duration;
  cl_maxItems : Z;
  cl_cleanupEvery : Duration;
  cl_activeTotal : Z;
  cl_items : gmap string connectionLimitState;
  cl_evictedIPs : Z;
  cl_capacityRejected : Z
}.

Definition newConnectionLimiter (cfg : SecurityConfig) : connectionLimiter :=
  let window := seconds (sec_ConnectionRateWindowSec cfg) in
  let window := if window <=? 0 then nsecond else window in
  let maxItems := sec_MaxTrackedConnectionIPs cfg in
  let maxItems := if maxItems <=? 0 then 8192 else maxItems in
  let cleanupEvery := seconds (sec_ConnectionLimiterCleanupSec cfg) in
  let cleanupEvery := if cleanupEvery <=? 0 then nminute else cleanupEvery in
  mkConnectionLimiter (sec_MaxConcurrentConnections cfg)
    (sec_MaxConcurrentConnectionsPerIP cfg) (sec_MaxNewConnectionsPerIPWindow cfg)
    window maxItems cleanupEvery 0 ∅ 0 0.

Definition set_items (l : connectionLimiter) (items : gmap string connectionLimitState) :=
  mkConnectionLimiter (cl_maxActive l) (cl_maxPerIP l) (cl_maxRate l) (cl_rateWindow l)
    (cl_maxItems l) (cl_cleanupEvery l) (cl_activeTotal l) items
    (cl_evictedIPs l) (cl_capacityRejected l).
Definition set_total (l : connectionLimiter) (total : Z) :=
  mkConnectionLimiter (cl_maxActive l) (cl_maxPerIP l) (cl_maxRate l) (cl_rateWindow l)
    (cl_maxItems l) (cl_cleanupEvery l) total (cl_items l)
    (cl_evictedIPs l) (cl_capacityRejected l).
Definition count_evicted (l : connectionLimiter) :=
  mkConnectionLimiter (cl_maxActive l) (cl_maxPerIP l) (cl_maxRate l) (cl_rateWindow l)
    (cl_maxItems l) (cl_cleanupEvery l) (cl_activeTotal l) (cl_items l)
    (wrap_u64 (cl_evictedIPs l + 1)) (cl_capacityRejected l).
Definition count_capacity_rejected (l : connectionLimiter) :=
  mkConnectionLimiter (cl_maxActive l) (cl_maxPerIP l) (cl_maxRate l) (cl_rateWindow l)
    (cl_maxItems l) (cl_cleanupEvery l) (cl_activeTotal l) (cl_items l)
    (cl_evictedIPs l) (wrap_u64 (cl_capacityRejected l + 1)).

Definition set_lastSeen (st : connectionLimitState) (now : Time) : connectionLimitState :=
  mkLimitState (ls_active st) (ls_attempts st) now.

Definition pruneLocked (l : connectionLimiter) (st : connectionLimitState) (now : Time)
    : connectionLimitState :=
  if (cl_maxRate l <=? 0) || (length (ls_attempts st) =? 0)%nat
  then mkLimitState (ls_active st) [] (ls_lastSeen st)
  else
    let cutoff := now - cl_rateWindow l in
    mkLimitState (ls_active st) (filter (λ ts, After ts cutoff = true) (ls_attempts st))
      (ls_lastSeen st).

(** [st] is the entry [items] has at [ip]: the map is updated with it, or
    loses it when nothing is left to remember. *)
Definition cleanupLocked (items : gmap string connectionLimitState) (ip : string)
    (st : connectionLimitState) : gmap string connectionLimitState :=
  if (ls_active st =? 0) && (length (ls_attempts st) =? 0)%nat
  then delete ip items else <[ip := st]> items.

Definition cleanupAllLocked (rg : MapRange connectionLimitState) (l : connectionLimiter)
    (now : Time) : connectionLimiter :=
  set_items l (range_update rg (λ items ip st, cleanupLocked items ip (pruneLocked l st now))
                 (cl_items l)).

Definition trackStateLocked (rg : MapRange connectionLimitState) (l : connectionLimiter)
    (ip : string) (now : Time) : option connectionLimitState * connectionLimiter :=
  match cl_items l !! ip with
  | Some st => (Some st, l)
  | None =>
      let l := if cl_maxItems l <=? Z.of_nat (size (cl_items l))
               then cleanupAllLocked rg l now else l in
      let fresh := mkLimitState 0 [] now in
      if cl_maxItems l <=? Z.of_nat (size (cl_items l)) then
        let oldestIP := (pick_oldest (λ st, 0 <? ls_active st) ls_lastSeen
                           (range_entries rg (cl_items l))).1 in
        if String.eqb oldestIP "" then (None, count_capacity_rejected l)
        else
          let l := count_evicted (set_items l (delete oldestIP (cl_items l))) in
          (Some fresh, set_items l (<[ip := fresh]> (cl_items l)))
      else (Some fresh, set_items l (<[ip := fresh]> (cl_items l)))
  end.

Definition connIP (ip : string) : string := if String.eqb ip "" then "unknown" else ip.

(** What [acquire] returns: the release closure, whether it is granted, and
    the reason when it is not. *)
Record acquired := mkAcquired { aq_release : onceToken string; aq_ok : bool; aq_reason : string }.

Definition refused (reason : string) : acquired := mkAcquired tokenNoop false reason.

(** The part of [acquire] before the limits are tested: the entry of [ip],
    pruned, if it is still there. *)
Definition lookup_pruned (l : connectionLimiter) (ip : string) (now : Time) : connectionLimiter :=
  match cl_items l !! ip with
  | Some st => set_items l (cleanupLocked (cl_items l) ip (pruneLocked l st now))
  | None => l
  end.

Definition acquire (rg : MapRange connectionLimitState) (l : option connectionLimiter)
    (ip : string) (now : Time) : acquired * option connectionLimiter :=
  match l with
  | None => (mkAcquired tokenNoop true "", None)
  | Some l =>
      let ip := connIP ip in
      let l := lookup_pruned l ip now in
      if (0 <? cl_maxActive l) && (cl_maxActive l <=? cl_activeTotal l)
      then (refused "global_concurrent_connections", Some l)
      else match trackStateLocked rg l ip now with
      | (None, l) => (refused "tracked_remote_ip_capacity", Some l)
      | (Some st, l) =>
          let st := set_lastSeen st now in
          if (0 <? cl_maxPerIP l) && (cl_maxPerIP l <=? ls_active st)
          then (refused "per_ip_concurrent_connections",
                Some (set_items l (cleanupLocked (cl_items l) ip st)))
          else if (0 <? cl_maxRate l) && (cl_maxRate l <=? Z.of_nat (length (ls_attempts st)))
          then (refused "per_ip_new_connection_rate",
                Some (set_items l (cleanupLocked (cl_items l) ip st)))
          else
            let attempts := if 0 <? cl_maxRate l then ls_attempts st ++ [now] else ls_attempts st in
            let st := mkLimitState (ls_active st + 1) attempts (ls_lastSeen st) in
            (mkAcquired (token ip false) true "",
             Some (set_total (set_items l (<[ip := st]> (cl_items l))) (cl_activeTotal l + 1)))
      end
  end.

Definition release (l : option connectionLimiter) (ip : string) (now : Time)
    : option connectionLimiter :=
  match l with
  | None => None
  | Some l =>
      let ip := connIP ip in
      match cl_items l !! ip with
      | None => Some l
      | Some st =>
          let st := if 0 <? ls_active st
                    then mkLimitState (ls_active st - 1) (ls_attempts st) (ls_lastSeen st) else st in
          let l := if 0 <? cl_activeTotal l then set_total l (cl_activeTotal l - 1) else l in
          let st := set_lastSeen (pruneLocked l st now) now in
          Some (set_items l (cleanupLocked (cl_items l) ip st))
      end
  end.

Definition cleanup (rg : MapRange connectionLimitState) (l : option connectionLimiter) (now : Time)
    : option connectionLimiter :=
  match l with None => None | Some l => Some (cleanupAllLocked rg l now) end.

(** The map of counters the monitor shows. *)
Definition snapshot (l : option connectionLimiter) : gmap string Z :=
  match l with
  | None => list_to_map [("active", 0); ("tracked_ips", 0); ("max_tracked_ips", 0);
                         ("evicted_ips", 0); ("capacity_rejected", 0)]
  | Some l => list_to_map [("active", cl_activeTotal l);
                           ("tracked_ips", Z.of_nat (size (cl_items l)));
                           ("max_tracked_ips", cl_maxItems l);
                           ("evicted_ips", wrap_i64 (cl_evictedIPs l));
                           ("capacity_rejected", wrap_i64 (cl_capacityRejected l))]
  end.

(** ** Runs *)

Inductive conn_event :=
| CAcquire (rg : MapRange connectionLimitState) (ip : string) (now : Time)
| CRelease (i : nat) (now : Time)
| CCleanup (rg : MapRange connectionLimitState) (now : Time).

Definition event_time (ev : conn_event) : Time :=
  match ev with CAcquire _ _ now | CRelease _ now | CCleanup _ now => now end.

(** The limiter, the closures handed out, and for the rate property: every
    grant made with its time, and whether an address was ever evicted. *)
Record conn_state := mkConnState {
  cs_limiter : connectionLimiter;
  cs_tokens : list (onceToken string);
  cs_grants : list (string * Time);
  cs_evicted : bool
}.

Definition conn_step (s : conn_state) (ev : conn_event) : conn_state :=
  match ev with
  | CAcquire rg ip now =>
      match acquire rg (Some (cs_limiter s)) ip now with
      | (a, Some l) =>
          mkConnState l (cs_tokens s ++ [aq_release a])
            (cs_grants s ++ if aq_ok a then [(connIP ip, now)] else [])
            (cs_evicted s || negb (cl_evictedIPs l =? cl_evictedIPs (cs_limiter s)))
      | (_, None) => s
      end
  | CRelease i now =>
      match cs_tokens s !! i with
      | None => s
      | Some t =>
          let tokens := <[i := token_call t]> (cs_tokens s) in
          match token_fires t with
          | None => mkConnState (cs_limiter s) tokens (cs_grants s) (cs_evicted s)
          | Some ip => match release (Some (cs_limiter s)) ip now with
                       | Some l => mkConnState l tokens (cs_grants s) (cs_evicted s)
                       | None => s
                       end
          end
      end
  | CCleanup rg now =>
      match cleanup rg (Some (cs_limiter s)) now with
      | Some l => mkConnState l (cs_tokens s) (cs_grants s) (cs_evicted s)
      | None => s
      end
  end.

Definition conn_start (cfg : SecurityConfig) : conn_state :=
  mkConnState (newConnectionLimiter cfg) [] [] false.

Definition conn_run (cfg : SecurityConfig) (evs : list conn_event) : conn_state :=
  foldl conn_step (conn_start cfg) evs.

Example burst : let s := conn_run (mkSecurityConfig 0 0 0 3 2 1 2 0 2 0 0 0 0 0 0 0 0 0)
  [CAcquire canonicalRange "a" 0; CAcquire canonicalRange "a" 1; CAcquire canonicalRange "a" 2;
   CRelease 0 3; CAcquire canonicalRange "a" 4; CAcquire canonicalRange "" 5;
   CAcquire canonicalRange "b" 6] in
  map aq_reason [(acquire canonicalRange (Some (cs_limiter s)) "a" 7).1;
                 (acquire canonicalRange (Some (cs_limiter s)) "c" 2000000007).1]
  = ["per_ip_new_connection_rate"; "tracked_remote_ip_capacity"] ∧
  cs_grants s = [("a", 0); ("a", 1); ("unknown", 5)].
Proof. vm_compute. split; reflexivity. Qed.

(** ** The invariant *)

Definition ip_active (l : connectionLimiter) (ip : string) : Z :=
  match cl_items l !! ip with Some st => ls_active st | None => 0 end.

Definition entry_ok (l : connectionLimiter) (st : connectionLimitState) : Prop :=
  0 ≤ ls_active st ∧
  (0 < cl_maxPerIP l → ls_active st ≤ cl_maxPerIP l) ∧
  (0 < cl_maxRate l → Z.of_nat (length (ls_attempts st)) ≤ cl_maxRate l).

Record conn_inv (l : connectionLimiter) (ts : list (onceToken string)) : Prop := {
  ci_active : ∀ ip, ip_active l ip = pending ip ts;
  ci_total : cl_activeTotal l = map_sum ls_active (cl_items l);
  ci_entries : ∀ ip st, cl_items l !! ip = Some st → ip ≠ "" ∧ entry_ok l st;
  ci_max : 0 < cl_maxActive l → cl_activeTotal l ≤ cl_maxActive l;
  ci_size : Z.of_nat (size (cl_items l)) ≤ cl_maxItems l;
  ci_pos : 0 < cl_maxItems l;
  ci_tokens : ∀ t ip, t ∈ ts → token_fires t = Some ip → connIP ip = ip
}.

Lemma connIP_idemp ip : connIP (connIP ip) = connIP ip.
Proof. unfold connIP. destruct (String.eqb ip "") eqn:E; [done|]. by rewrite E. Qed.
Lemma connIP_ne ip : connIP ip ≠ "".
Proof. unfold connIP. by destruct (String.eqb_spec ip ""). Qed.

Lemma ci_total_nonneg l ts : conn_inv l ts → 0 ≤ cl_activeTotal l.
Proof.
  intros H. rewrite (ci_total _ _ H). apply map_sum_nonneg.
  intros k st Hk. apply (ci_entries _ _ H k st Hk).
Qed.

Lemma ip_active_le_total l ts ip : conn_inv l ts → ip_active l ip ≤ cl_activeTotal l.
Proof.
  intros H. unfold ip_active. destruct (cl_items l !! ip) as [st|] eqn:E.
  - rewrite (ci_total _ _ H). apply (map_sum_lookup ls_active _ ip); [|done].
    intros k a Hk. apply (ci_entries _ _ H k a Hk).
  - by eapply ci_total_nonneg.
Qed.

(** Replacing an entry by one with the same active count and no more attempts. *)
Lemma touch_inv l ts ip st st' :
  conn_inv l ts → cl_items l !! ip = Some st →
  ls_active st' = ls_active st → (length (ls_attempts st') ≤ length (ls_attempts st))%nat →
  conn_inv (set_items l (<[ip := st']> (cl_items l))) ts.
Proof.
  intros H Hip Ha Hl. destruct (ci_entries _ _ H ip st Hip) as [Hne (E1 & E2 & E3)].
  split; cbn; try apply H.
  - intros ip'. rewrite <-(ci_active _ _ H ip'). unfold ip_active. cbn.
    destruct (decide (ip = ip')) as [->|].
    + by rewrite lookup_insert_eq, Hip.
    + by rewrite lookup_insert_ne.
  - rewrite (map_sum_update ls_active _ ip st) by done. rewrite (ci_total _ _ H). lia.
  - intros ip' s. rewrite lookup_insert_Some. intros [[<- <-]|[_ Hs]].
    + split; [done|]. unfold entry_ok. cbn. rewrite Ha. split_and!; [done..|]. intros. lia.
    + by apply (ci_entries _ _ H ip').
  - rewrite map_size_insert_Some; [apply H|by eexists].
Qed.

(** Dropping an entry without active connections. *)
Lemma drop_inv l ts ip st :
  conn_inv l ts → cl_items l !! ip = Some st → ls_active st = 0 →
  conn_inv (set_items l (delete ip (cl_items l))) ts.
Proof.
  intros H Hip Ha. split; cbn; try apply H.
  - intros ip'. rewrite <-(ci_active _ _ H ip'). unfold ip_active. cbn.
    destruct (decide (ip = ip')) as [->|].
    + by rewrite lookup_delete_eq, Hip.
    + by rewrite lookup_delete_ne.
  - rewrite (map_sum_delete ls_active _ ip st) by done. rewrite (ci_total _ _ H). lia.
  - intros ip' s [_ Hs]%lookup_delete_Some. by apply (ci_entries _ _ H ip').
  - pose proof (ci_size _ _ H). rewrite map_size_delete_Some by by eexists. lia.
Qed.

Lemma cleanup_touch_inv l ts ip st st' :
  conn_inv l ts → cl_items l !! ip = Some st →
  ls_active st' = ls_active st → (length (ls_attempts st') ≤ length (ls_attempts st))%nat →
  conn_inv (set_items l (cleanupLocked (cl_items l) ip st')) ts.
Proof.
  intros H Hip Ha Hl. unfold cleanupLocked.
  destruct ((ls_active st' =? 0) && (length (ls_attempts st') =? 0)%nat) eqn:E.
  - eapply drop_inv; [done..|]. apply andb_true_iff in E as [E _]. bool_lia.
  - by eapply touch_inv.
Qed.

Lemma prune_active l st now : ls_active (pruneLocked l st now) = ls_active st.
Proof. unfold pruneLocked. by case_match. Qed.

Lemma prune_length l st now :
  (length (ls_attempts (pruneLocked l st now)) ≤ length (ls_attempts st))%nat.
Proof. unfold pruneLocked. case_match; cbn; [lia|apply length_filter_le]. Qed.

Lemma lookup_pruned_inv l ts ip now : conn_inv l ts → conn_inv (lookup_pruned l ip now) ts.
Proof.
  intros H. unfold lookup_pruned. destruct (cl_items l !! ip) as [st|] eqn:E; [|done].
  eapply cleanup_touch_inv; [done..|apply prune_active|apply prune_length].
Qed.

Lemma cleanupLocked_other items ip st j :
  j ≠ ip → cleanupLocked items ip st !! j = items !! j.
Proof.
  intros Hj. unfold cleanupLocked. case_match; [by rewrite lookup_delete_ne|by rewrite lookup_insert_ne].
Qed.

Lemma cleanupAll_inv rg l ts now : conn_inv l ts → conn_inv (cleanupAllLocked rg l now) ts.
Proof.
  intros H. unfold cleanupAllLocked.
  apply (range_update_ind (λ items, conn_inv (set_items l items) ts)).
  - by destruct l.
  - intros items ip st Hi Hip. split; [|intros j; apply cleanupLocked_other].
    apply (cleanup_touch_inv (set_items l items) ts ip st); cbn;
      [done..|apply prune_active|apply prune_length].
Qed.

(** Tracking a new address keeps everything but the map, and finds or makes
    its entry; it fails only when every tracked address has an active
    connection. *)
Definition same_limits (l l' : connectionLimiter) : Prop :=
  cl_maxActive l' = cl_maxActive l ∧ cl_maxPerIP l' = cl_maxPerIP l ∧
  cl_maxRate l' = cl_maxRate l ∧ cl_rateWindow l' = cl_rateWindow l ∧
  cl_maxItems l' = cl_maxItems l ∧ cl_activeTotal l' = cl_activeTotal l.

Lemma fresh_inv l ts ip now :
  conn_inv l ts → ip ≠ "" → cl_items l !! ip = None →
  Z.of_nat (size (cl_items l)) < cl_maxItems l →
  conn_inv (set_items l (<[ip := mkLimitState 0 [] now]> (cl_items l))) ts.
Proof.
  intros H Hne Hip Hsz. split; cbn; try apply H.
  - intros ip'. rewrite <-(ci_active _ _ H ip'). unfold ip_active. cbn.
    destruct (decide (ip = ip')) as [->|].
    + by rewrite lookup_insert_eq, Hip.
    + by rewrite lookup_insert_ne.
  - rewrite map_sum_insert by done. cbn. apply H.
  - intros ip' s. rewrite lookup_insert_Some. intros [[<- <-]|[_ Hs]].
    + split; [done|]. unfold entry_ok. cbn. lia.
    + by apply (ci_entries _ _ H ip').
  - rewrite map_size_insert_None by done. lia.
Qed.

Lemma count_evicted_inv l ts : conn_inv l ts → conn_inv (count_evicted l) ts.
Proof. intros H. split; cbn; apply H. Qed.

Lemma trackState_spec rg l ts ip now ost l' :
  conn_inv l ts → ip ≠ "" → trackStateLocked rg l ip now = (ost, l') →
  conn_inv l' ts ∧ same_limits l l' ∧
  match ost with
  | Some st => cl_items l' !! ip = Some st ∧
               (cl_items l !! ip = Some st ∨ cl_items l !! ip = None ∧ st = mkLimitState 0 [] now)
  | None => cl_maxItems l ≤ Z.of_nat (size (cl_items l')) ∧
            ∀ j st, cl_items l' !! j = Some st → 0 < ls_active st
  end.
Proof.
  intros H Hne. unfold trackStateLocked.
  destruct (cl_items l !! ip) as [st|] eqn:Hip; [intros [= <- <-]; split_and!; by auto|].
  set (l1 := if cl_maxItems l <=? _ then _ else l).
  assert (conn_inv l1 ts ∧ same_limits l l1 ∧ cl_items l1 !! ip = None) as (H1 & S1 & N1).
  { subst l1. case_match; [|by split_and!]. split_and!; [by apply cleanupAll_inv|done|].
    cbn. rewrite (range_update_lookup rg _ (λ st, let st' := pruneLocked l st now in
      if (ls_active st' =? 0) && (length (ls_attempts st') =? 0)%nat then None else Some st')).
    - by rewrite Hip.
    - intros m k a. unfold cleanupLocked. by case_match. }
  destruct S1 as (S1 & S2 & S3 & S4 & S5 & S6).
  destruct (Z.leb_spec (cl_maxItems l1) (Z.of_nat (size (cl_items l1)))) as [Hfull|Hroom].
  - pose proof (pick_oldest_spec (λ st, 0 <? ls_active st) ls_lastSeen rg (cl_items l1)) as [P1 P2].
    { intros k a Hk. apply (ci_entries _ _ H1 k a Hk). }
    set (oldest := (pick_oldest _ _ _).1) in *.
    destruct (String.eqb_spec oldest "") as [E|E]; intros [= <- <-].
    + split_and!; [split; cbn; apply H1|done|cbn; lia|]. cbn. intros j st Hj.
      apply P1 in Hj; [|done]. by apply Z.ltb_lt.
    + destruct (P2 E) as (st & Hst & Hs & _). apply Z.ltb_ge in Hs.
      pose proof (ci_entries _ _ H1 _ _ Hst) as [_ (E1 & _)].
      assert (oldest ≠ ip) by congruence.
      split_and!; [|done..|cbn; apply lookup_insert_eq|by right].
      refine (fresh_inv (count_evicted (set_items l1 (delete oldest (cl_items l1)))) ts ip now
                _ Hne _ _); cbn.
      * apply count_evicted_inv. eapply drop_inv; [done..|lia].
      * by rewrite lookup_delete_ne.
      * pose proof (ci_size _ _ H1). pose proof (ci_pos _ _ H1).
        rewrite map_size_delete_Some by by eexists. lia.
  - intros [= <- <-]. split_and!; [by apply fresh_inv|done..|cbn; apply lookup_insert_eq|by right].
Qed.

(** A granted connection: one more active, one more pending closure. *)
Lemma grant_inv l ts ip st st' :
  conn_inv l ts → connIP ip = ip → cl_items l !! ip = Some st →
  ls_active st' = ls_active st + 1 →
  (0 < cl_maxActive l → cl_activeTotal l < cl_maxActive l) →
  (0 < cl_maxPerIP l → ls_active st < cl_maxPerIP l) →
  (0 < cl_maxRate l → Z.of_nat (length (ls_attempts st')) ≤ cl_maxRate l) →
  conn_inv (set_total (set_items l (<[ip := st']> (cl_items l))) (cl_activeTotal l + 1))
    (ts ++ [token ip false]).
Proof.
  intros H Hc Hip Ha Hg Hp Hr. destruct (ci_entries _ _ H ip st Hip) as [Hne (E1 & E2 & E3)].
  split; cbn; try apply H.
  - intros j. rewrite pending_snoc, <-(ci_active _ _ H j). unfold ip_active. cbn.
    destruct (decide (ip = j)) as [->|].
    + rewrite lookup_insert_eq, Hip, decide_True by done. lia.
    + rewrite lookup_insert_ne by done. rewrite decide_False by congruence. lia.
  - rewrite (map_sum_update ls_active _ ip st) by done. rewrite (ci_total _ _ H). lia.
  - intros j s. rewrite lookup_insert_Some. intros [[<- <-]|[_ Hs]].
    + split; [done|]. unfold entry_ok. cbn. rewrite Ha. split_and!; [lia|lia|done].
    + by apply (ci_entries _ _ H j).
  - lia.
  - rewrite map_size_insert_Some; [apply H|by eexists].
  - intros t j [Ht|Ht%list_elem_of_singleton]%elem_of_app Hf.
    + by eapply (ci_tokens _ _ H).
    + subst t. cbn in Hf. by simplify_eq.
Qed.

Lemma noop_inv l ts : conn_inv l ts → conn_inv l (ts ++ [tokenNoop]).
Proof.
  intros H. split; try apply H.
  - intros ip. rewrite pending_snoc, (ci_active _ _ H), decide_False by done. lia.
  - intros t ip [?|E%list_elem_of_singleton]%elem_of_app; [by eapply (ci_tokens _ _ H)|by subst].
Qed.

Lemma pruned_limits l ip now : same_limits l (lookup_pruned l ip now).
Proof. unfold lookup_pruned. by case_match. Qed.

Lemma conn_acquire_inv rg l ts ip now a l' :
  conn_inv l ts → acquire rg (Some l) ip now = (a, Some l') →
  conn_inv l' (ts ++ [aq_release a]).
Proof.
  intros H. unfold acquire. apply (lookup_pruned_inv _ _ (connIP ip) now) in H.
  set (l1 := lookup_pruned l (connIP ip) now) in *. clearbody l1.
  destruct ((0 <? cl_maxActive l1) && _) eqn:Eg; [intros [= <- <-]; by apply noop_inv|].
  destruct (trackStateLocked rg l1 (connIP ip) now) as [ost l2] eqn:Et.
  apply trackState_spec with (ts := ts) in Et as (H2 & (S1 & S2 & S3 & S4 & S5 & S6) & Hst);
    [|done|apply connIP_ne].
  destruct ost as [st|]; [|intros [= <- <-]; by apply noop_inv].
  destruct Hst as [Hst _]. cbn zeta.
  destruct ((0 <? cl_maxPerIP l2) && _) eqn:Ep; [intros [= <- <-]; by apply noop_inv, cleanup_touch_inv with st|].
  destruct ((0 <? cl_maxRate l2) && _) eqn:Er;
    [intros [= <- <-]; by apply noop_inv, cleanup_touch_inv with st|].
  intros [= <- <-]. cbn [aq_release]. eapply grant_inv; cbn; [done|apply connIP_idemp|done|done|..].
  - bool_lia.
  - cbn in Ep. bool_lia.
  - intros Hpos. destruct (Z.ltb_spec 0 (cl_maxRate l2)); [|lia]. rewrite length_app. cbn in *.
    bool_lia.
Qed.

Lemma conn_release_inv l ts i t ip now l' :
  conn_inv l ts → ts !! i = Some t → token_fires t = Some ip →
  release (Some l) ip now = Some l' → conn_inv l' (<[i := token_call t]> ts).
Proof.
  intros H Hi Hf Hrel.
  assert (connIP ip = ip) as Hc by (eapply (ci_tokens _ _ H); [by eapply list_elem_of_lookup_2|done]).
  assert (pending ip (<[i := token_call t]> ts) = pending ip ts - 1) as Hp.
  { rewrite pending_call by done. by rewrite decide_True. }
  assert (0 < ip_active l ip) as Hpos.
  { rewrite (ci_active _ _ H). pose proof (pending_nonneg ip (<[i := token_call t]> ts)). lia. }
  assert (∀ j, j ≠ ip → pending j (<[i := token_call t]> ts) = pending j ts) as Hother.
  { intros j Hj. rewrite pending_call by done. rewrite decide_False by congruence. lia. }
  pose proof (ip_active_le_total _ _ ip H) as Htot.
  unfold ip_active in Hpos. unfold release in Hrel. cbn zeta in Hrel. rewrite Hc in Hrel.
  destruct (cl_items l !! ip) as [st|] eqn:Hip; [|lia].
  unfold ip_active in Htot. rewrite Hip in Htot.
  rewrite (proj2 (Z.ltb_lt 0 (ls_active st))), (proj2 (Z.ltb_lt 0 (cl_activeTotal l))) in Hrel by lia.
  set (st1 := mkLimitState (ls_active st - 1) (ls_attempts st) (ls_lastSeen st)) in Hrel.
  set (l1 := set_total l (cl_activeTotal l - 1)) in Hrel.
  assert (conn_inv (set_items l1 (<[ip := st1]> (cl_items l1))) (<[i := token_call t]> ts)) as H1.
  { destruct (ci_entries _ _ H ip st Hip) as [Hne (E1 & E2 & E3)].
    split; cbn; try apply H.
    - intros j. unfold ip_active. cbn. destruct (decide (ip = j)) as [<-|Hj].
      + rewrite lookup_insert_eq, Hp, <-(ci_active _ _ H). unfold ip_active. by rewrite Hip.
      + rewrite lookup_insert_ne, Hother by done. apply H.
    - rewrite (map_sum_update ls_active _ ip st) by done. rewrite (ci_total _ _ H). cbn. lia.
    - intros j s. rewrite lookup_insert_Some. intros [[<- <-]|[_ Hs]].
      + split; [done|]. unfold entry_ok. cbn. split_and!; [lia|lia|done].
      + by apply (ci_entries _ _ H j).
    - pose proof (ci_max _ _ H). lia.
    - rewrite map_size_insert_Some; [apply H|by eexists].
    - intros u j [->|Hu]%elem_of_insert Hj; [by destruct t|by eapply (ci_tokens _ _ H)]. }
  injection Hrel as <-.
  pose proof (cleanup_touch_inv _ _ ip st1 (set_lastSeen (pruneLocked l1 st1 now) now) H1) as H2.
  cbn in H2. rewrite lookup_insert_eq in H2.
  assert (∀ s, cleanupLocked (<[ip := st1]> (cl_items l)) ip s = cleanupLocked (cl_items l) ip s) as Ecl.
  { intros s. unfold cleanupLocked. case_match; [by rewrite delete_insert_eq|by rewrite insert_insert_eq]. }
  rewrite Ecl in H2. apply H2; [done|apply (prune_active l1 st1)|apply (prune_length l1 st1)].
Qed.

Lemma silent_call_inv l ts i t :
  conn_inv l ts → ts !! i = Some t → token_fires t = None →
  conn_inv l (<[i := token_call t]> ts).
Proof.
  intros H Hi Hf. split; try apply H.
  - intros ip. rewrite pending_call by done. rewrite Hf, (ci_active _ _ H), decide_False by done. lia.
  - intros u j [->|Hu]%elem_of_insert Hj; [by destruct t|by eapply (ci_tokens _ _ H)].
Qed.

Lemma conn_step_inv s ev :
  conn_inv (cs_limiter s) (cs_tokens s) →
  conn_inv (cs_limiter (conn_step s ev)) (cs_tokens (conn_step s ev)).
Proof.
  intros H. destruct ev as [rg ip now|i now|rg now]; unfold conn_step.
  - destruct (acquire rg (Some (cs_limiter s)) ip now) as [a [l|]] eqn:E; [|done].
    by eapply conn_acquire_inv.
  - destruct (cs_tokens s !! i) as [t|] eqn:Hi; [|done]. cbn zeta.
    destruct (token_fires t) as [ip|] eqn:Hf; [|by apply silent_call_inv].
    destruct (release (Some (cs_limiter s)) ip now) as [l|] eqn:E; [|done].
    by eapply conn_release_inv.
  - by apply cleanupAll_inv.
Qed.

Lemma new_maxItems_pos cfg : 0 < cl_maxItems (newConnectionLimiter cfg).
Proof. cbn. destruct (Z.leb_spec (sec_MaxTrackedConnectionIPs cfg) 0); lia. Qed.

Lemma conn_start_inv cfg : conn_inv (cs_limiter (conn_start cfg)) [].
Proof.
  pose proof (new_maxItems_pos cfg). split; try done.
  - intros Hm. by apply Z.lt_le_incl.
  - by apply Z.lt_le_incl.
  - by intros t ip ?%not_elem_of_nil.
Qed.

Lemma conn_run_inv cfg evs :
  conn_inv (cs_limiter (conn_run cfg evs)) (cs_tokens (conn_run cfg evs)).
Proof.
  unfold conn_run. induction evs as [|ev evs IH] using rev_ind; [apply conn_start_inv|].
  rewrite foldl_snoc. by apply conn_step_inv.
Qed.

(** The limits a run works with are those of its configuration. *)
Lemma acquire_limits rg l ip now a l' ts :
  conn_inv l ts → acquire rg (Some l) ip now = (a, Some l') →
  cl_maxActive l' = cl_maxActive l ∧ cl_maxPerIP l' = cl_maxPerIP l ∧
  cl_maxRate l' = cl_maxRate l ∧ cl_rateWindow l' = cl_rateWindow l ∧
  cl_maxItems l' = cl_maxItems l.
Proof.
  intros H. unfold acquire. destruct (pruned_limits l (connIP ip) now) as (P1&P2&P3&P4&P5&_).
  apply (lookup_pruned_inv _ _ (connIP ip) now) in H.
  set (l1 := lookup_pruned l (connIP ip) now) in *. clearbody l1.
  rewrite <-P1, <-P2, <-P3, <-P4, <-P5.
  case_match; [by intros [= <- <-]|].
  destruct (trackStateLocked rg l1 (connIP ip) now) as [ost l2] eqn:Et.
  apply trackState_spec with (ts := ts) in Et as (_ & (S1 & S2 & S3 & S4 & S5 & S6) & _);
    [|done|apply connIP_ne].
  destruct ost as [st|]; [|by intros [= <- <-]]. cbn zeta.
  case_match; [by intros [= <- <-]|]. case_match; by intros [= <- <-].
Qed.

Lemma release_limits l ip now l' :
  release (Some l) ip now = Some l' →
  cl_maxActive l' = cl_maxActive l ∧ cl_maxPerIP l' = cl_maxPerIP l ∧
  cl_maxRate l' = cl_maxRate l ∧ cl_rateWindow l' = cl_rateWindow l ∧
  cl_maxItems l' = cl_maxItems l.
Proof.
  unfold release. destruct (cl_items l !! connIP ip); [|by intros [= <-]].
  intros [= <-]. cbn. by case_match.
Qed.

Lemma conn_run_limits cfg evs :
  let l := cs_limiter (conn_run cfg evs) in let l0 := newConnectionLimiter cfg in
  cl_maxActive l = cl_maxActive l0 ∧ cl_maxPerIP l = cl_maxPerIP l0 ∧
  cl_maxRate l = cl_maxRate l0 ∧ cl_rateWindow l = cl_rateWindow l0 ∧
  cl_maxItems l = cl_maxItems l0.
Proof.
  cbn zeta. induction evs as [|ev evs IH] using rev_ind; [done|].
  pose proof (conn_run_inv cfg evs) as Hinv.
  unfold conn_run in *. rewrite foldl_snoc. set (s := foldl _ _ _) in *. clearbody s.
  destruct IH as (E1&E2&E3&E4&E5). rewrite <-E1, <-E2, <-E3, <-E4, <-E5.
  destruct ev as [rg ip now|i now|rg now]; unfold conn_step.
  - destruct (acquire rg (Some (cs_limiter s)) ip now) as [a [l|]] eqn:E; [|done].
    by eapply acquire_limits.
  - destruct (cs_tokens s !! i) as [t|]; [|done]. cbn zeta.
    destruct (token_fires t) as [ip|]; [|done].
    destruct (release (Some (cs_limiter s)) ip now) as [l|] eqn:E; [|done].
    by eapply release_limits.
  - done.
Qed.

(** ** Recent grants *)

Definition attempts_of (l : connectionLimiter) (ip : string) : list Time :=
  match cl_items l !! ip with Some st => ls_attempts st | None => [] end.

(** The grants of [ip] the limiter remembers, inside the window ending at [t]. *)
Definition recent (l : connectionLimiter) (ip : string) (t : Time) : list Time :=
  filter (λ ts, After ts (t - cl_rateWindow l) = true) (attempts_of l ip).

Lemma prune_attempts l st now :
  0 < cl_maxRate l →
  ls_attempts (pruneLocked l st now)
  = filter (λ ts, After ts (now - cl_rateWindow l) = true) (ls_attempts st).
Proof.
  intros H. unfold pruneLocked. destruct (Z.leb_spec (cl_maxRate l) 0); [lia|]. cbn [orb].
  destruct (ls_attempts st) eqn:E; cbn; done.
Qed.

Lemma cleanup_attempts items ip st :
  match cleanupLocked items ip st !! ip with Some s => ls_attempts s | None => [] end
  = ls_attempts st.
Proof.
  unfold cleanupLocked.
  destruct ((ls_active st =? 0) && _) eqn:B; [|by rewrite lookup_insert_eq].
  rewrite lookup_delete_eq. apply andb_true_iff in B as [_ B]. apply Nat.eqb_eq in B.
  by destruct (ls_attempts st).
Qed.

Lemma pruned_attempts l ip now :
  0 < cl_maxRate l → attempts_of (lookup_pruned l ip now) ip = recent l ip now.
Proof.
  intros H. unfold recent, attempts_of at 2, lookup_pruned.
  destruct (cl_items l !! ip) as [st|] eqn:E; [|unfold attempts_of; by rewrite E].
  rewrite <-prune_attempts by done. unfold attempts_of. cbn. apply cleanup_attempts.
Qed.

Lemma trackState_fields rg l ts ip now st l' :
  conn_inv l ts → ip ≠ "" → trackStateLocked rg l ip now = (Some st, l') →
  ls_active st = ip_active l ip ∧ ls_attempts st = attempts_of l ip.
Proof.
  intros H Hne E. eapply trackState_spec in E as (_ & _ & _ & [Hs|[Hs ->]]); [| |done..|done].
  - unfold ip_active, attempts_of. by rewrite Hs.
  - unfold ip_active, attempts_of. by rewrite Hs.
Qed.

(** [l'] remembers of every address what [l] does, for windows ending at [now]
    or later. *)
Definition same_recent (now : Time) (l l' : connectionLimiter) : Prop :=
  ∀ ip t, now ≤ t → recent l' ip t = recent l ip t.

Lemma recent_prune W now t (ts : list Time) :
  now ≤ t →
  filter (λ u, After u (t - W) = true) (filter (λ u, After u (now - W) = true) ts)
  = filter (λ u, After u (t - W) = true) ts.
Proof.
  intros Ht. rewrite list_filter_filter. apply list_filter_iff. intros u.
  unfold After. rewrite !Z.ltb_lt. lia.
Qed.

(** An entry replaced by one with the pruned attempts, or dropped when none
    are left, is remembered alike. *)
Lemma recent_cleanup l items ip st st' now :
  0 < cl_maxRate l → items !! ip = Some st →
  ls_attempts st' = ls_attempts (pruneLocked l st now) →
  same_recent now (set_items l items) (set_items l (cleanupLocked items ip st')).
Proof.
  intros Hr Hip Ha j t Ht. unfold recent, attempts_of. cbn.
  rewrite prune_attempts in Ha by done.
  destruct (decide (ip = j)) as [<-|Hj].
  - by rewrite Hip, <-(recent_prune _ now t (ls_attempts st)), <-Ha, cleanup_attempts by done.
  - by rewrite cleanupLocked_other.
Qed.

Lemma set_items_id l : set_items l (cl_items l) = l.
Proof. by destruct l. Qed.

Lemma same_recent_trans now l1 l2 l3 :
  same_recent now l1 l2 → same_recent now l2 l3 → same_recent now l1 l3.
Proof. intros H1 H2 ip t Ht. by rewrite H2, H1. Qed.

Lemma recent_lookup_pruned l ip now :
  0 < cl_maxRate l → same_recent now l (lookup_pruned l ip now).
Proof.
  intros Hr. unfold lookup_pruned. destruct (cl_items l !! ip) as [st|] eqn:E; [|done].
  rewrite <-(set_items_id l) at 1. by eapply recent_cleanup.
Qed.

Lemma recent_cleanupAll rg l now :
  0 < cl_maxRate l → same_recent now l (cleanupAllLocked rg l now).
Proof.
  intros Hr. unfold cleanupAllLocked.
  apply (range_update_ind (λ items, same_recent now l (set_items l items))).
  - by rewrite set_items_id.
  - intros items ip st Hi Hip. split; [|intros j; apply cleanupLocked_other].
    eapply same_recent_trans; [done|]. by eapply recent_cleanup.
Qed.

Lemma recent_fresh l ip now t0 :
  cl_items l !! ip = None →
  same_recent now l (set_items l (<[ip := mkLimitState 0 [] t0]> (cl_items l))).
Proof.
  intros Hip j t _. unfold recent, attempts_of. cbn.
  destruct (decide (ip = j)) as [<-|Hj]; [by rewrite lookup_insert_eq, Hip|by rewrite lookup_insert_ne].
Qed.

Lemma recent_track rg l ip now ost l' :
  0 < cl_maxRate l → trackStateLocked rg l ip now = (ost, l') →
  cl_evictedIPs l' = cl_evictedIPs l → same_recent now l l'.
Proof.
  intros Hr. unfold trackStateLocked.
  destruct (cl_items l !! ip) as [st|] eqn:Hip; [by intros [= <- <-]|].
  set (l1 := if cl_maxItems l <=? _ then _ else l).
  assert (same_recent now l l1 ∧ cl_evictedIPs l1 = cl_evictedIPs l ∧ cl_items l1 !! ip = None)
    as (H1 & E1 & N1).
  { subst l1. case_match; [|done]. split_and!; [by apply recent_cleanupAll|done|].
    cbn. rewrite (range_update_lookup rg _ (λ st, let st' := pruneLocked l st now in
      if (ls_active st' =? 0) && (length (ls_attempts st') =? 0)%nat then None else Some st')).
    - by rewrite Hip.
    - intros m k a. unfold cleanupLocked. by case_match. }
  clearbody l1. case_match; [case_match|]; intros [= <- <-]; cbn.
  - done.
  - intros E. rewrite E1 in E. by apply wrap_succ_ne in E.
  - intros _. eapply same_recent_trans; [done|]. by apply recent_fresh.
Qed.

Lemma trackState_rate rg l ip now ost l' :
  trackStateLocked rg l ip now = (ost, l') →
  cl_maxRate l' = cl_maxRate l ∧ cl_rateWindow l' = cl_rateWindow l.
Proof.
  unfold trackStateLocked. case_match; [by intros [= <- <-]|].
  set (l1 := if cl_maxItems l <=? _ then _ else l).
  assert (cl_maxRate l1 = cl_maxRate l ∧ cl_rateWindow l1 = cl_rateWindow l) as [E1 E2]
    by (subst l1; by case_match).
  clearbody l1. case_match; [case_match|]; by intros [= <- <-].
Qed.

Lemma lookup_pruned_evicted l ip now : cl_evictedIPs (lookup_pruned l ip now) = cl_evictedIPs l.
Proof. unfold lookup_pruned. by case_match. Qed.

(** What an acquire adds to the memory of the limiter: its own grant. *)
Lemma recent_acquire rg l ts ip now a l' :
  conn_inv l ts → 0 < cl_maxRate l → acquire rg (Some l) ip now = (a, Some l') →
  cl_evictedIPs l' = cl_evictedIPs l → ∀ j t, now ≤ t →
  recent l' j t = recent l j t ++
    filter (λ u, After u (t - cl_rateWindow l) = true)
      (if aq_ok a then if decide (connIP ip = j) then [now] else [] else []).
Proof.
  intros H Hr. unfold acquire.
  apply (lookup_pruned_inv _ _ (connIP ip) now) in H.
  pose proof (recent_lookup_pruned l (connIP ip) now Hr) as R1.
  destruct (pruned_limits l (connIP ip) now) as (_&_&P3&P4&_&_).
  rewrite <-(lookup_pruned_evicted l (connIP ip) now), <-P4. rewrite <-P3 in Hr.
  set (l1 := lookup_pruned l (connIP ip) now) in *. clearbody l1.
  case_match; [intros [= <- <-] _ j t Ht; by rewrite app_nil_r, R1|].
  destruct (trackStateLocked rg l1 (connIP ip) now) as [ost l2] eqn:Et.
  pose proof (trackState_rate _ _ _ _ _ _ Et) as [S3 S4].
  pose proof (recent_track _ _ _ _ _ _ Hr Et) as R2.
  apply trackState_spec with (ts := ts) in Et as (_ & _ & Hst); [|done|apply connIP_ne].
  destruct ost as [st|].
  2:{ intros [= <- <-] E j t Ht. rewrite app_nil_r, R2, R1; done. }
  destruct Hst as [Hst _]. cbn zeta.
  assert (∀ lx, cl_evictedIPs l2 = cl_evictedIPs l1 →
    lx = set_items l2 (cleanupLocked (cl_items l2) (connIP ip) (set_lastSeen st now)) →
    ∀ j t, now ≤ t → recent lx j t = recent l j t) as Hrej.
  { intros lx E -> j t Ht. rewrite <-R1, <-(R2 E) by done. unfold recent, attempts_of. cbn.
    destruct (decide (connIP ip = j)) as [<-|Hj].
    - by rewrite Hst, cleanup_attempts.
    - by rewrite cleanupLocked_other. }
  case_match; [intros [= <- <-] E j t Ht; rewrite app_nil_r; by eapply Hrej|].
  case_match; [intros [= <- <-] E j t Ht; rewrite app_nil_r; by eapply Hrej|].
  intros [= <- <-] E j t Ht. cbn in E. cbn [aq_ok].
  rewrite <-R1, <-(R2 E) by done. unfold recent, attempts_of. cbn. rewrite S4.
  destruct (Z.ltb_spec 0 (cl_maxRate l2)); [|lia].
  destruct (decide (connIP ip = j)) as [<-|Hj].
  - rewrite lookup_insert_eq, Hst. cbn [ls_attempts]. by rewrite filter_app.
  - by rewrite lookup_insert_ne, app_nil_r.
Qed.

Lemma recent_release l ip now l' :
  0 < cl_maxRate l → release (Some l) ip now = Some l' → same_recent now l l'.
Proof.
  intros Hr. unfold release. cbn zeta.
  destruct (cl_items l !! connIP ip) as [st|] eqn:E; [|by intros [= <-]].
  set (l1 := if 0 <? cl_activeTotal l then _ else l). set (st1 := if 0 <? ls_active st then _ else st).
  assert (cl_items l1 = cl_items l ∧ cl_maxRate l1 = cl_maxRate l ∧ cl_rateWindow l1 = cl_rateWindow l)
    as (I1 & M1 & W1) by (subst l1; by case_match).
  assert (same_recent now l l1) as R1.
  { intros j t _. unfold recent, attempts_of. by rewrite I1, W1. }
  intros [= <-]. eapply same_recent_trans; [done|].
  rewrite <-(set_items_id l1) at 1. eapply recent_cleanup; [lia|by rewrite I1|].
  cbn. rewrite !prune_attempts by lia. subst st1. by case_match.
Qed.

Definition grants_of (s : conn_state) (ip : string) : list Time :=
  (filter (λ g, g.1 = ip) (cs_grants s)).*2.

Lemma grants_of_snoc s l ts ev ip a now j :
  grants_of (mkConnState l ts (cs_grants s ++ if aq_ok a then [(connIP ip, now)] else []) ev) j
  = grants_of s j ++ (if aq_ok a then if decide (connIP ip = j) then [now] else [] else []).
Proof.
  unfold grants_of. cbn. rewrite filter_app, fmap_app.
  f_equal. destruct (aq_ok a); [|done]. rewrite filter_cons, filter_nil. cbn. by case_decide.
Qed.

(** Without evictions the limiter remembers, inside any window ending now or
    later, exactly the grants it made. *)
Lemma conn_run_recent cfg evs t :
  StronglySorted Z.le (map event_time evs) → Forall (λ ev, event_time ev ≤ t) evs →
  0 < sec_MaxNewConnectionsPerIPWindow cfg → cs_evicted (conn_run cfg evs) = false →
  ∀ j, recent (cs_limiter (conn_run cfg evs)) j t
       = filter (λ u, After u (t - cl_rateWindow (newConnectionLimiter cfg)) = true)
           (grants_of (conn_run cfg evs) j).
Proof.
  intros Hs Ht Hr. induction evs as [|ev evs IH] using rev_ind; [done|]. intros Hev j.
  rewrite map_app in Hs. apply StronglySorted_app in Hs as (_ & Hs & _).
  apply Forall_app in Ht as [Ht Hnow]. rewrite Forall_singleton in Hnow.
  pose proof (conn_run_inv cfg evs) as Hinv.
  destruct (conn_run_limits cfg evs) as (_ & _ & E3 & E4 & _).
  unfold conn_run in *. rewrite foldl_snoc in *. set (s := foldl _ _ _) in *. clearbody s.
  assert (0 < cl_maxRate (cs_limiter s)) as Hr' by (rewrite E3; done).
  specialize (IH Hs Ht).
  destruct ev as [rg ip now|i now|rg now]; unfold conn_step in *; cbn [event_time] in Hnow.
  - destruct (acquire rg (Some (cs_limiter s)) ip now) as [a [l|]] eqn:E; [|by apply IH].
    cbn [cs_limiter cs_evicted] in *. apply orb_false_iff in Hev as [Hev1 Hev2].
    apply negb_false_iff, Z.eqb_eq in Hev2.
    rewrite (recent_acquire _ _ _ _ _ _ _ Hinv Hr' E Hev2 j t Hnow), IH by done.
    by rewrite grants_of_snoc, filter_app, <-E4.
  - destruct (cs_tokens s !! i) as [tk|]; [|by apply IH]. cbn zeta in *.
    destruct (token_fires tk) as [ip|]; [|by apply IH].
    destruct (release (Some (cs_limiter s)) ip now) as [l|] eqn:E; [|by apply IH].
    cbn [cs_limiter] in *. rewrite (recent_release _ _ _ _ Hr' E j t Hnow). by apply IH.
  - unfold cleanup in *. cbn [cs_limiter] in *. rewrite (recent_cleanupAll rg _ now Hr' j t Hnow). by apply IH.
Qed.

Lemma conn_step_grants s ev :
  ∃ gs, cs_grants (conn_step s ev) = cs_grants s ++ gs ∧ Forall (λ g, g.2 = event_time ev) gs.
Proof.
  destruct ev as [rg ip now|i now|rg now]; unfold conn_step.
  - destruct (acquire rg (Some (cs_limiter s)) ip now) as [a [l|]].
    + eexists. split; [done|]. case_match; by repeat constructor.
    + exists []. by rewrite app_nil_r.
  - exists []. rewrite app_nil_r. split; [|done]. repeat case_match; done.
  - exists []. rewrite app_nil_r. by split.
Qed.

Lemma conn_step_evicted s ev : cs_evicted (conn_step s ev) = false → cs_evicted s = false.
Proof.
  destruct ev as [rg ip now|i now|rg now]; unfold conn_step.
  - destruct (acquire rg (Some (cs_limiter s)) ip now) as [a [l|]]; cbn; [|done].
    by intros [? _]%orb_false_iff.
  - repeat case_match; done.
  - done.
Qed.

Lemma recent_length_le l ts ip t :
  conn_inv l ts → 0 < cl_maxRate l → Z.of_nat (length (recent l ip t)) ≤ cl_maxRate l.
Proof.
  intros H Hr. unfold recent, attempts_of. destruct (cl_items l !! ip) as [st|] eqn:E; [|cbn; lia].
  pose proof (ci_entries _ _ H ip st E) as [_ (_ & _ & Hb)]. specialize (Hb Hr).
  pose proof (length_filter_le (λ u, After u (t - cl_rateWindow l) = true) (ls_attempts st)).
  etransitivity; [|exact Hb]. lia.
Qed.

(** ** The properties *)

(** C3: in every state the server can reach, whatever the order of connections,
    releases (each closure possibly called several times) and cleanups, an
    address's active count is the number of its granted connections not yet
    released, the total is the number of all of them, and the configured bounds
    on connections, connections per address and tracked addresses hold. *)
Theorem connection_limits_hold cfg evs :
  let s := conn_run cfg evs in let l := cs_limiter s in
  (∀ ip, ip_active l ip = pending ip (cs_tokens s)) ∧
  cl_activeTotal l = pending_any (cs_tokens s) ∧
  (0 < sec_MaxConcurrentConnections cfg → cl_activeTotal l ≤ sec_MaxConcurrentConnections cfg) ∧
  (0 < sec_MaxConcurrentConnectionsPerIP cfg →
   ∀ ip, ip_active l ip ≤ sec_MaxConcurrentConnectionsPerIP cfg) ∧
  Z.of_nat (size (cl_items l)) ≤ cl_maxItems (newConnectionLimiter cfg).
Proof.
  cbn zeta. pose proof (conn_run_inv cfg evs) as H.
  destruct (conn_run_limits cfg evs) as (E1 & E2 & _ & _ & E5).
  split_and!.
  - apply H.
  - rewrite (ci_total _ _ H), <-(counters_sum _ (ls_active <$> cl_items (cs_limiter (conn_run cfg evs)))).
    + by rewrite map_sum_fmap.
    + intros k. rewrite lookup_fmap, <-(ci_active _ _ H). unfold ip_active.
      by destruct (_ !! k).
  - cbn in E1. rewrite <-E1. apply H.
  - cbn in E2. rewrite <-E2. intros Hp ip. unfold ip_active.
    destruct (_ !! ip) as [st|] eqn:Hst; [|lia].
    by apply (ci_entries _ _ H ip st Hst).
  - rewrite <-E5. apply H.
Qed.

(** [acquire] refuses exactly for the reason it gives, on every state a
    server can reach: the total is at its bound, or the address's connections
    are, or the grants remembered for it inside the window ending now are, or
    the address is new and the table holds only addresses with a connection;
    and it grants only below every bound. *)
Theorem acquire_decides cfg evs rg ip now a l' :
  let s := conn_run cfg evs in let l := cs_limiter s in let n := connIP ip in
  acquire rg (Some l) ip now = (a, Some l') →
  if aq_ok a then
    aq_reason a = "" ∧
    (0 < cl_maxActive l → cl_activeTotal l < cl_maxActive l) ∧
    (0 < cl_maxPerIP l → ip_active l n < cl_maxPerIP l) ∧
    (0 < cl_maxRate l → Z.of_nat (length (recent l n now)) < cl_maxRate l)
  else
    (aq_reason a = "global_concurrent_connections" ∧
     0 < cl_maxActive l ∧ cl_activeTotal l = cl_maxActive l) ∨
    (aq_reason a = "per_ip_concurrent_connections" ∧
     0 < cl_maxPerIP l ∧ ip_active l n = cl_maxPerIP l) ∨
    (aq_reason a = "per_ip_new_connection_rate" ∧
     0 < cl_maxRate l ∧ cl_maxRate l ≤ Z.of_nat (length (recent l n now))) ∨
    (aq_reason a = "tracked_remote_ip_capacity" ∧ ip_active l n = 0 ∧
     Z.of_nat (size (cl_items l')) = cl_maxItems l ∧
     ∀ j st, cl_items l' !! j = Some st → 0 < ls_active st).
Proof.
  cbn zeta. pose proof (conn_run_inv cfg evs) as H.
  set (l := cs_limiter (conn_run cfg evs)) in *. set (ts := cs_tokens _) in *.
  clearbody l ts. unfold acquire.
  destruct (pruned_limits l (connIP ip) now) as (P1&P2&P3&P4&P5&P6).
  pose proof (pruned_attempts l (connIP ip) now) as Hrec.
  apply (lookup_pruned_inv _ _ (connIP ip) now) in H as H1.
  assert (ip_active (lookup_pruned l (connIP ip) now) (connIP ip) = ip_active l (connIP ip)) as Hact.
  { by rewrite (ci_active _ _ H), (ci_active _ _ H1). }
  set (l1 := lookup_pruned l (connIP ip) now) in *. clearbody l1.
  rewrite <-Hact, <-P1, <-P2, <-P3, <-P5, <-P6.
  destruct ((0 <? cl_maxActive l1) && _) eqn:Eg.
  { intros [= <- <-]. cbn. left. pose proof (ci_max _ _ H1). split_and!; [done|bool_lia..]. }
  destruct (trackStateLocked rg l1 (connIP ip) now) as [ost l2] eqn:Et.
  pose proof Et as Et'. apply trackState_spec with (ts := ts) in Et' as (H2 & (S1&S2&S3&S4&S5&S6) & Hst);
    [|done|apply connIP_ne].
  destruct ost as [st|].
  - apply trackState_fields with (ts := ts) in Et as [Fa Ft]; [|done|apply connIP_ne].
    pose proof (ci_entries _ _ H2 _ st (proj1 Hst)) as [_ (_ & Eb & _)].
    rewrite S2, Fa in Eb. cbn zeta. cbn [ls_active ls_attempts set_lastSeen].
    rewrite S2, S3, P3, Ft, Fa.
    destruct ((0 <? cl_maxPerIP l1) && _) eqn:Ep.
    { intros [= <- <-]. cbn. right; left. split_and!; [done|bool_lia..]. }
    destruct ((0 <? cl_maxRate l) && _) eqn:Er.
    { intros [= <- <-]. cbn. right; right; left. rewrite <-Hrec by bool_lia.
      split_and!; [done|bool_lia..]. }
    intros [= <- <-]. cbn. split_and!; [done|bool_lia|bool_lia|].
    intros Hp. rewrite <-Hrec by done. bool_lia.
  - intros [= <- <-]. cbn. right; right; right. destruct Hst as [Hs1 Hs2].
    pose proof (ci_size _ _ H2). split_and!; [done| |lia|done].
    unfold trackStateLocked in Et. unfold ip_active.
    by destruct (cl_items l1 !! connIP ip).
Qed.

(** While the clock does not go back and no address had to be evicted from
    the table, no address is granted more than the configured number of
    connections within any time window of the configured length, in any
    interleaving of connections, releases and cleanups. *)
Theorem connection_rate_bounded cfg evs ip t :
  StronglySorted Z.le (map event_time evs) →
  0 < sec_MaxNewConnectionsPerIPWindow cfg →
  cs_evicted (conn_run cfg evs) = false →
  let window := cl_rateWindow (newConnectionLimiter cfg) in
  Z.of_nat (length (filter (λ u, t - window < u ≤ t) (grants_of (conn_run cfg evs) ip)))
  ≤ sec_MaxNewConnectionsPerIPWindow cfg.
Proof.
  cbn zeta. intros Hs Hr. induction evs as [|ev evs IH] using rev_ind; [cbn; lia|]. intros Hev.
  destruct (Z.le_gt_cases (event_time ev) t) as [Hle|Hgt].
  - assert (Forall (λ ev, event_time ev ≤ t) (evs ++ [ev])) as Ht.
    { apply Forall_app. split; [|by constructor]. rewrite map_app in Hs.
      apply StronglySorted_app in Hs as (Hb & _ & _). apply Forall_forall. intros x Hx.
      transitivity (event_time ev); [|done]. apply Hb; [by apply list_elem_of_fmap_2|set_solver]. }
    pose proof (conn_run_recent cfg _ t Hs Ht Hr Hev ip) as E.
    pose proof (recent_length_le _ _ ip t (conn_run_inv cfg (evs ++ [ev]))) as B.
    destruct (conn_run_limits cfg (evs ++ [ev])) as (_ & _ & E3 & _ & _).
    rewrite E3, E in B. specialize (B Hr). etransitivity; [|exact B].
    apply inj_le. set (gs := grants_of _ ip).
    rewrite <-(list_filter_filter_l (λ u, t - cl_rateWindow (newConnectionLimiter cfg) < u ≤ t)
                (λ u, After u (t - cl_rateWindow (newConnectionLimiter cfg)) = true) gs).
    + apply length_filter_le.
    + intros u [? _]. by apply Z.ltb_lt.
  - rewrite map_app in Hs. apply StronglySorted_app in Hs as (_ & Hs & _).
    specialize (IH Hs). unfold conn_run in *. rewrite foldl_snoc in *.
    set (s := foldl _ _ _) in *. destruct (conn_step_grants s ev) as (gs & Eg & Hg).
    unfold grants_of. rewrite Eg, filter_app, fmap_app, filter_app, length_app.
    rewrite (filter_none _ ((filter (λ g, g.1 = ip) gs).*2)).
    + cbn [length]. rewrite Nat.add_0_r. apply IH. by eapply conn_step_evicted.
    + rewrite Forall_forall in Hg. apply Forall_forall.
      intros u (g & -> & [_ Hin]%list_elem_of_filter)%list_elem_of_fmap. rewrite (Hg g Hin). lia.
Qed.

Definition small_security : SecurityConfig :=
  mkSecurityConfig 0 0 0 3 2 1 2 0 2 0 0 0 0 0 0 0 0 0.
Definition small_events : list conn_event :=
  [CAcquire canonicalRange "a" 0; CAcquire canonicalRange "a" 1; CRelease 0 3;
   CAcquire canonicalRange "" 5; CCleanup canonicalRange 6].

Lemma acquire_decides_witness :
  let l := cs_limiter (conn_run small_security small_events) in
  match acquire canonicalRange (Some l) "a" 7 with
  | (a, Some _) => aq_reason a = "per_ip_new_connection_rate" ∧
                   cl_maxRate l ≤ Z.of_nat (length (recent l "a" 7))
  | _ => False
  end.
Proof.
  cbn zeta. destruct (acquire _ _ "a" 7) as [a [l'|]] eqn:E; [|vm_compute in E; discriminate E].
  pose proof (acquire_decides small_security small_events canonicalRange "a" 7 a l' E) as D.
  assert (a = refused "per_ip_new_connection_rate") as ->.
  { apply (f_equal fst) in E. vm_compute in E. symmetry. exact E. }
  destruct D as [[D _]|[[D _]|[(D & _ & H)|[D _]]]]; [discriminate D|discriminate D| |discriminate D].
  split; [reflexivity|exact H].
Defined.

Lemma connection_rate_bounded_witness :
  Z.of_nat (length (filter (λ u, 1000000005 - nsecond < u ≤ 1000000005)
    (grants_of (conn_run small_security small_events) "unknown"))) ≤ 2.
Proof.
  apply (connection_rate_bounded small_security small_events "unknown" 1000000005).
  - vm_compute. repeat constructor; discriminate.
  - vm_compute. reflexivity.
  - vm_compute. reflexivity.
Defined.
