(* ===== verification/PermanentBlocks.v ===== *)
(** * The permanent block list (src/server/tunnel/permanent_blocks.go)

    A text file with one address per line, comments and blank lines allowed:
    reading it, appending an address, removing addresses while keeping every
    other line. Theorems: appending to a file that ends with a line break adds
    exactly that address to what a restart will read, removing takes away
    exactly the addresses named, in whatever spelling the file has them; and,
    as a finding, appending to a file without a final line break loses both
    the last address and the new one. *)

From S2P Require Import Prelude.
From S2P Require Import GoStd.
From S2P Require Import Disk.

#[local] Open Scope Z_scope.

Definition permanentBlockIPKey (value : string) : string :=
  let value := TrimSpace value in
  if String.eqb value "" then ""
  else match ParseIP value with Some ip => IPString ip | None => value end.

(** The loop over the lines of the file. *)
Definition add_blocked_line (blocked : gset string) (line : string) : gset string :=
  let ip := TrimSpace line in
  if String.eqb ip "" || HasPrefix ip "#" then blocked else {[ ip ]} ∪ blocked.

Definition loadPermanentBlockedIPs (d : Disk) (path : string) : result (gset string) :=
  let path := TrimSpace path in
  if String.eqb path "" then Ok ∅
  else match ReadFile d (Clean path) with
  | ReadNotExist => Ok ∅
  | ReadErr e => Err e
  | ReadData text =>
      let '(lines, e) := ScanLines MaxScanTokenSize text in
      let blocked := foldl add_blocked_line ∅ lines in
      match e with Err e => Err e | Ok _ => Ok blocked end
  end.

Definition appendPermanentBlockedIP (d : Disk) (path ip : string) : Disk * result unit :=
  let path := TrimSpace path in
  let ip := TrimSpace ip in
  if String.eqb path "" || String.eqb ip "" then (d, Ok tt)
  else
    let path := Clean path in
    match MkdirAll d (Dir path) with
    | Err e => (d, Err e)
    | Ok _ =>
        match OpenAppend d path with
        | (d, Err e) => (d, Err e)
        | (d, Ok _) => WriteOpen d path (ip +:+ nl)
        end
    end.

(** The addresses to remove, as keys. *)
Definition removal_targets (rg : SetRange) (ips : gset string) : gset string :=
  foldl (λ targets ip, let key := permanentBlockIPKey ip in
           if String.eqb key "" then targets else {[ key ]} ∪ targets) ∅ (set_entries rg ips).

(** The lines of the file, without the empty one after a final line break. *)
Definition file_lines (text : string) : bool * list string :=
  let text := ReplaceAll text (cr +:+ nl) nl in
  let text := ReplaceAll text cr nl in
  let hasTrailingNewline := HasSuffix text nl in
  let lines := Split text newline in
  (hasTrailingNewline,
   if hasTrailingNewline && (0 <? length lines)%nat then removelast lines else lines).

Definition keep_line (targets : gset string) (s : gset string * list string) (line : string) :=
  let key := permanentBlockIPKey line in
  if bool_decide (key ∈ targets) then ({[ key ]} ∪ s.1, s.2) else (s.1, s.2 ++ [line]).

Definition removePermanentBlockedIPs (rg : SetRange) (d : Disk) (path : string) (ips : gset string)
    : Disk * result (gset string) :=
  let path := TrimSpace path in
  if String.eqb path "" || (size ips =? 0)%nat then (d, Ok ∅)
  else
    let path := Clean path in
    let targets := removal_targets rg ips in
    if (size targets =? 0)%nat then (d, Ok ∅)
    else match ReadFile d path with
    | ReadNotExist => (d, Ok ∅)
    | ReadErr e => (d, Err e)
    | ReadData data =>
        let '(hasTrailingNewline, lines) := file_lines data in
        let '(removed, kept) := foldl (keep_line targets) (∅, []) lines in
        if (size removed =? 0)%nat then (d, Ok removed)
        else
          let out := Join kept nl in
          let out := if hasTrailingNewline && (0 <? length kept)%nat then out +:+ nl else out in
          match WriteFile d path out with
          | (d, Err e) => (d, Err e)
          | (d, Ok _) => (d, Ok removed)
          end
    end.

Definition RemovePermanentBlockedIP (rg : SetRange) (d : Disk) (path ip : string)
    : Disk * result bool :=
  let key := permanentBlockIPKey ip in
  if String.eqb key "" then (d, Ok false)
  else match removePermanentBlockedIPs rg d path {[ key ]} with
  | (d, Err e) => (d, Err e)
  | (d, Ok removed) => (d, Ok (bool_decide (key ∈ removed)))
  end.

Definition sample_file : string :=
  "# kept" +:+ nl +:+ "10.0.0.1" +:+ nl +:+ " ::FFFF:10.0.0.2 " +:+ nl +:+ "10.0.0.3" +:+ nl.

Example sample :
  let d := goodDisk {[ "b.txt" := sample_file ]} in
  loadPermanentBlockedIPs d "b.txt"
  = Ok {[ "10.0.0.1"; "::FFFF:10.0.0.2"; "10.0.0.3" ]} ∧
  (let '(d', r) := removePermanentBlockedIPs canonicalSetRange d "b.txt" {[ "10.0.0.2" ]} in
   r = Ok {[ "10.0.0.2" ]} ∧
   dk_files d' !! "b.txt" = Some ("# kept" +:+ nl +:+ "10.0.0.1" +:+ nl +:+ "10.0.0.3" +:+ nl)).
Proof. vm_compute. repeat split; reflexivity. Qed.

(** ** What a restart reads *)

(** Line [l] makes [x] blocked. *)
Definition listed (l x : string) : Prop := TrimSpace l = x ∧ x ≠ "" ∧ HasPrefix x "#" = false.

Lemma listed_blank x : ¬ listed "" x.
Proof. intros (<- & H & _). by apply H. Qed.

Lemma elem_of_blocked_lines ls s x :
  x ∈ foldl add_blocked_line s ls ↔ x ∈ s ∨ ∃ l, l ∈ ls ∧ listed l x.
Proof.
  revert s. induction ls as [|l ls IH]; intros s; cbn [foldl].
  { split; [by left|]. intros [?|(l & []%not_elem_of_nil & _)]; done. }
  rewrite IH. assert (x ∈ add_blocked_line s l ↔ x ∈ s ∨ listed l x) as ->.
  { unfold add_blocked_line, listed. destruct (String.eqb_spec (TrimSpace l) "") as [E|E]; cbn [orb].
    - naive_solver.
    - destruct (HasPrefix (TrimSpace l) "#") eqn:Eh; [naive_solver congruence|].
      rewrite elem_of_union, elem_of_singleton. naive_solver. }
  setoid_rewrite elem_of_cons. naive_solver.
Qed.

Definition short (max : Z) (l : chars) : Prop := Z.of_nat (length l) < max.

Lemma cut_lines_spec max ls :
  0 < max → Forall (λ l, has_char carriage l = false) ls →
  let '(out, e) := cut_lines max ls in
  (e = Ok tt ↔ Forall (short max) ls) ∧
  (e = Ok tt → ∀ x, (∃ l, l ∈ out ∧ listed l x) ↔ ∃ l, l ∈ map of_chars ls ∧ listed l x).
Proof.
  intros Hmax. induction ls as [|l ls IH]; intros H.
  { cbn. split; [done|]. intros _ x. split; intros (l & []%not_elem_of_nil & _). }
  apply Forall_cons in H as [Hl H]. specialize (IH H).
  assert (cut_lines max (l :: ls) = match l, ls with [], [] => ([], Ok tt) | _, _ =>
    if max <=? Z.of_nat (length l) then ([], Err "bufio.Scanner: token too long")
    else let '(out, e) := cut_lines max ls in (of_chars (drop_cr l) :: out, e) end) as ->
    by (by destruct l, ls).
  destruct (decide (l = [] ∧ ls = [])) as [[-> ->]|Hne].
  { split.
    - split; [intros _; by repeat constructor|done].
    - intros _ x. split; intros (l & Hin & Hx); [by apply not_elem_of_nil in Hin|].
      apply list_elem_of_singleton in Hin. subst l. by apply listed_blank in Hx. }
  assert (match l, ls with [], [] => ([], Ok tt) | _, _ =>
    if max <=? Z.of_nat (length l) then ([], Err "bufio.Scanner: token too long")
    else let '(out, e) := cut_lines max ls in (of_chars (drop_cr l) :: out, e) end
    = if max <=? Z.of_nat (length l) then ([], Err "bufio.Scanner: token too long")
    else let '(out, e) := cut_lines max ls in (of_chars (drop_cr l) :: out, e)) as ->.
  { destruct l, ls; naive_solver. }
  destruct (Z.leb_spec max (Z.of_nat (length l))) as [Hlong|Hshort].
  - split; [|done]. split; [done|]. intros [Hs _]%Forall_cons. unfold short in Hs. lia.
  - destruct (cut_lines max ls) as [out e]. destruct IH as [IH1 IH2]. split.
    + rewrite Forall_cons, <-IH1. unfold short. naive_solver.
    + intros He x. cbn [map]. setoid_rewrite elem_of_cons. rewrite drop_cr_id by done.
      specialize (IH2 He x). split.
      * intros (m & [->|Hm] & Hx); [by exists (of_chars l); auto|].
        destruct (proj1 IH2) as (m' & ? & ?); [by exists m|]. exists m'. auto.
      * intros (m & [->|Hm] & Hx); [by exists (of_chars l); auto|].
        destruct (proj2 IH2) as (m' & ? & ?); [by exists m|]. exists m'. auto.
Qed.

Lemma max_token_pos : 0 < MaxScanTokenSize.
Proof. done. Qed.

Lemma split_no_char c sep l :
  has_char c l = false → Forall (λ x, has_char c x = false) (split_on sep l).
Proof.
  intros H. induction l as [|d l IH]; cbn [split_on]; [by repeat constructor|].
  cbn [has_char existsb] in H. apply orb_false_iff in H as [Hd H]. specialize (IH H).
  destruct (split_on sep l) as [|h r]; [repeat constructor; cbn [has_char existsb]; by rewrite Hd|].
  apply Forall_cons in IH as [Hh Hr].
  destruct (Ascii.eqb d sep); repeat constructor; cbn [has_char existsb]; try done. by rewrite Hd.
Qed.

(** The addresses a restart reads are those listed by a line, provided no
    line is too long. *)
Lemma load_spec d path text :
  TrimSpace path ≠ "" → dk_readErr d (Clean (TrimSpace path)) = None →
  dk_files d !! Clean (TrimSpace path) = Some text →
  has_char carriage (to_chars text) = false →
  match loadPermanentBlockedIPs d path with
  | Ok s => Forall (short MaxScanTokenSize) (split_on newline (to_chars text)) ∧
            ∀ x, x ∈ s ↔ ∃ l, l ∈ Split text newline ∧ listed l x
  | Err _ => ¬ Forall (short MaxScanTokenSize) (split_on newline (to_chars text))
  end.
Proof.
  intros Hp Hr Hf Hcr. unfold loadPermanentBlockedIPs, ReadFile. rewrite Hr, Hf.
  destruct (String.eqb_spec (TrimSpace path) "") as [?|_]; [done|].
  pose proof (cut_lines_spec MaxScanTokenSize (split_on newline (to_chars text)) max_token_pos
                (split_no_char _ _ _ Hcr)) as Hcut.
  unfold ScanLines. destruct (cut_lines _ _) as [lines e]. destruct Hcut as [H1 H2].
  destruct e as [[]|e].
  - split; [by apply H1|]. intros x. rewrite elem_of_blocked_lines.
    rewrite <-(H2 eq_refl x). set_solver.
  - intros H. by apply H1 in H.
Qed.

Lemma elem_of_targets rg ips k :
  k ∈ removal_targets rg ips ↔ k ≠ "" ∧ ∃ ip, ip ∈ ips ∧ permanentBlockIPKey ip = k.
Proof.
  unfold removal_targets.
  assert (∀ (es : list string) (s : gset string), k ∈ foldl (λ targets ip, let key := permanentBlockIPKey ip in
    if String.eqb key "" then targets else {[ key ]} ∪ targets) s es
    ↔ k ∈ s ∨ k ≠ "" ∧ ∃ ip, ip ∈ es ∧ permanentBlockIPKey ip = k) as ->; [|pose proof (set_elem rg ips); set_solver].
  induction es as [|e es IH]; intros s; cbn [foldl].
  { split; [by left|]. intros [?|(_ & l & []%not_elem_of_nil & _)]; done. }
  rewrite IH. cbn zeta. setoid_rewrite elem_of_cons.
  destruct (String.eqb_spec (permanentBlockIPKey e) ""); set_solver.
Qed.

Lemma keep_line_spec (targets : gset string) ls s kept :
  foldl (keep_line targets) (s, kept) ls
  = (s ∪ list_to_set (filter (λ k, k ∈ targets) (map permanentBlockIPKey ls)),
     kept ++ filter (λ l, permanentBlockIPKey l ∉ targets) ls).
Proof.
  revert s kept. induction ls as [|l ls IH]; intros s kept; cbn [foldl map].
  - rewrite !filter_nil, app_nil_r. cbn. f_equal. set_solver.
  - unfold keep_line at 2. cbn zeta. cbn [fst snd]. rewrite !filter_cons.
    case_bool_decide as E.
    + rewrite IH. rewrite decide_True by done. rewrite decide_False by naive_solver.
      f_equal. cbn. set_solver.
    + rewrite IH. rewrite decide_False by done. rewrite decide_True by done.
      by rewrite <-app_assoc.
Qed.

Definition nonblank (ls : list string) : list string := filter (λ l, l ≠ "") ls.

Lemma nonblank_filter (P : string → Prop) `{∀ x, Decision (P x)} ls :
  nonblank (filter P ls) = filter P (nonblank ls).
Proof. unfold nonblank. rewrite !list_filter_filter. apply list_filter_iff. tauto. Qed.

Lemma nonblank_app l1 l2 : nonblank (l1 ++ l2) = nonblank l1 ++ nonblank l2.
Proof. apply filter_app. Qed.

Lemma Split_snoc_nl t : Split (t +:+ nl) newline = Split t newline ++ [""].
Proof.
  unfold Split, nl. rewrite to_chars_app. change (to_chars (String newline "")) with [newline].
  by rewrite split_on_snoc, map_app.
Qed.

Lemma Split_no_nl t : Forall (λ l, has_char newline (to_chars l) = false) (Split t newline).
Proof.
  unfold Split. apply Forall_fmap, Forall_impl with (1 := split_on_no_sep newline (to_chars t)).
  intros l Hl. cbn. by rewrite to_of_chars.
Qed.

Lemma Split_ne t : Split t newline ≠ [].
Proof.
  unfold Split. intros E. apply fmap_nil_inv in E. by apply split_on_ne in E.
Qed.

Lemma file_lines_spec text :
  has_char carriage (to_chars text) = false →
  let '(_, lines) := file_lines text in
  nonblank lines = nonblank (Split text newline) ∧
  Forall (λ l, has_char newline (to_chars l) = false) lines.
Proof.
  intros Hcr. unfold file_lines.
  assert (ReplaceAll (ReplaceAll text (cr +:+ nl) nl) cr nl = text) as ->.
  { change (cr +:+ nl) with (String carriage nl). rewrite (ReplaceAll_none text) by done.
    by apply ReplaceAll_none. }
  destruct (HasSuffix text nl) eqn:Hs; cbn [andb].
  - apply HasSuffix_char in Hs as [t ->]. fold nl. rewrite Split_snoc_nl.
    rewrite length_app, Nat.add_1_r. cbn [Nat.ltb Nat.leb].
    rewrite removelast_last, nonblank_app. cbn. rewrite app_nil_r.
    split; [done|apply Split_no_nl].
  - split; [done|apply Split_no_nl].
Qed.

(** What the removal leaves of the lines: those that are not targets. *)
Lemma removal_lines text (targets : gset string) :
  has_char carriage (to_chars text) = false →
  let '(hasTrailingNewline, lines) := file_lines text in
  let kept := filter (λ l, permanentBlockIPKey l ∉ targets) lines in
  let out := Join kept nl in
  let out := if hasTrailingNewline && (0 <? length kept)%nat then out +:+ nl else out in
  nonblank (Split out newline)
  = filter (λ l, permanentBlockIPKey l ∉ targets) (nonblank (Split text newline)).
Proof.
  intros Hcr. pose proof (file_lines_spec text Hcr) as H.
  destruct (file_lines text) as [b lines]. destruct H as [Hl Hn]. cbn zeta.
  rewrite <-Hl, <-nonblank_filter.
  set (kept := filter (λ l, permanentBlockIPKey l ∉ targets) lines).
  assert (Forall (λ l, has_char newline (to_chars l) = false) kept) as Hk by by apply Forall_filter.
  destruct (decide (kept = [])) as [->|Hne].
  { cbn. by rewrite andb_false_r. }
  destruct (b && _).
  - rewrite Split_snoc_nl. unfold nl. rewrite Split_Join by done.
    rewrite nonblank_app. cbn. by rewrite app_nil_r.
  - unfold nl. by rewrite Split_Join.
Qed.

Lemma permanentBlockIPKey_trim l : permanentBlockIPKey (TrimSpace l) = permanentBlockIPKey l.
Proof. unfold permanentBlockIPKey. by rewrite TrimSpace_idemp. Qed.

Lemma removal_file rg d path ips d' removed text :
  TrimSpace path ≠ "" → dk_readErr d (Clean (TrimSpace path)) = None →
  dk_files d !! Clean (TrimSpace path) = Some text →
  has_char carriage (to_chars text) = false →
  removePermanentBlockedIPs rg d path ips = (d', Ok removed) →
  let targets := removal_targets rg ips in
  ∃ text', dk_files d' !! Clean (TrimSpace path) = Some text' ∧
    nonblank (Split text' newline)
      = filter (λ l, permanentBlockIPKey l ∉ targets) (nonblank (Split text newline)) ∧
    (∀ k, k ∈ removed → k ∈ targets).
Proof.
  intros Hp Hr Hf Hcr Hrem. cbn zeta. set (targets := removal_targets rg ips) in *.
  unfold removePermanentBlockedIPs in Hrem. fold targets in Hrem.
  assert (targets = ∅ → filter (λ l, permanentBlockIPKey l ∉ targets) (nonblank (Split text newline))
          = nonblank (Split text newline)) as Hnone.
  { intros ->. apply filter_all. intros l _. set_solver. }
  destruct (String.eqb_spec (TrimSpace path) "") as [|_]; [done|]. cbn [orb] in Hrem.
  destruct (Nat.eqb_spec (size ips) 0) as [Hi|Hi].
  { injection Hrem as <- <-. exists text. split_and!; [done| |set_solver].
    symmetry. apply Hnone. apply size_empty_inv in Hi. subst targets.
    apply set_eq. intros k. rewrite elem_of_targets. set_solver. }
  destruct (Nat.eqb_spec (size targets) 0) as [Ht|Ht].
  { injection Hrem as <- <-. exists text. split_and!; [done| |set_solver].
    symmetry. apply Hnone. apply size_empty_inv in Ht. by apply leibniz_equiv. }
  unfold ReadFile in Hrem. rewrite Hr, Hf in Hrem.
  pose proof (removal_lines text targets Hcr) as Hlines.
  pose proof (file_lines_spec text Hcr) as Hfl.
  destruct (file_lines text) as [b lines]. destruct Hfl as [Hfl _].
  rewrite keep_line_spec in Hrem. cbn [app] in Hrem.
  set (rm := ∅ ∪ _ : gset string) in Hrem.
  assert (∀ k, k ∈ rm → k ∈ targets) as Hsub.
  { intros k. unfold rm. rewrite elem_of_union, elem_of_list_to_set, list_elem_of_filter. set_solver. }
  destruct (Nat.eqb_spec (size rm) 0) as [H0|H0].
  { injection Hrem as <- <-. exists text. split_and!; [done| |done].
    rewrite <-Hfl. symmetry. apply filter_all. intros l [_ Hin]%list_elem_of_filter Hk.
    apply size_empty_inv in H0. assert (permanentBlockIPKey l ∈ rm) as Hx; [|set_solver].
    unfold rm. rewrite elem_of_union, elem_of_list_to_set, list_elem_of_filter. right. split; [done|].
    apply list_elem_of_fmap. by exists l. }
  unfold WriteFile in Hrem. destruct (dk_writeErr d _) as [[e lf]|]; [done|].
  injection Hrem as <- <-. eexists. split_and!; [cbn; by rewrite lookup_partial_alter_eq|exact Hlines|done].
Qed.

(** Removing addresses from the permanent list keeps every other line of
    the file, comments and unusual spellings included and in order, and a
    restart then reads exactly the addresses it read before less those whose
    canonical form was named; the result names the canonical forms that were
    found. (For a file without carriage returns.) *)
Theorem removal_exact rg d path ips d' removed before text :
  TrimSpace path ≠ "" → dk_readErr d (Clean (TrimSpace path)) = None →
  dk_files d !! Clean (TrimSpace path) = Some text →
  has_char carriage (to_chars text) = false →
  loadPermanentBlockedIPs d path = Ok before →
  removePermanentBlockedIPs rg d path ips = (d', Ok removed) →
  let targets := removal_targets rg ips in
  ∃ text', dk_files d' !! Clean (TrimSpace path) = Some text' ∧
    nonblank (Split text' newline)
      = filter (λ l, permanentBlockIPKey l ∉ targets) (nonblank (Split text newline)) ∧
    (∀ x, (∃ l, l ∈ Split text' newline ∧ listed l x)
          ↔ x ∈ before ∧ permanentBlockIPKey x ∉ targets) ∧
    (∀ k, k ∈ removed → k ∈ targets).
Proof.
  intros Hp Hr Hf Hcr Hload Hrem. cbn zeta. set (targets := removal_targets rg ips) in *.
  pose proof (load_spec d path text Hp Hr Hf Hcr) as Hs. rewrite Hload in Hs. destruct Hs as [_ Hs].
  destruct (removal_file rg d path ips d' removed text Hp Hr Hf Hcr Hrem) as (text' & Hf' & Hl & Hrm).
  fold targets in Hl, Hrm.
  exists text'. split_and!; [done..| |done].
  intros x. rewrite Hs. split.
  - intros (l & Hin & Hx). assert (l ∈ nonblank (Split text' newline)) as Hb.
    { apply list_elem_of_filter. split; [|done]. intros ->. by eapply listed_blank. }
    rewrite Hl in Hb. apply list_elem_of_filter in Hb as [Hk [Hne Hb]%list_elem_of_filter].
    split; [by exists l|]. destruct Hx as (<- & _).
    by rewrite permanentBlockIPKey_trim.
  - intros [(l & Hin & Hx) Hk]. exists l. split; [|done].
    assert (l ∈ nonblank (Split text' newline)) as [_ ?]%list_elem_of_filter; [|done].
    rewrite Hl. apply list_elem_of_filter. split.
    + destruct Hx as (<- & _). by rewrite <-permanentBlockIPKey_trim.
    + apply list_elem_of_filter. split; [|done]. intros ->. by eapply listed_blank.
Qed.

Lemma removal_exact_witness :
  let d := goodDisk {[ "b.txt" := sample_file ]} in
  ∃ text', dk_files (removePermanentBlockedIPs canonicalSetRange d "b.txt" {[ "10.0.0.2" ]}).1
             !! "b.txt" = Some text' ∧
  (∃ l, l ∈ Split text' newline ∧ listed l "10.0.0.3") ∧
  ¬ (∃ l, l ∈ Split text' newline ∧ listed l "::FFFF:10.0.0.2").
Proof.
  cbn zeta. set (d := goodDisk {[ "b.txt" := sample_file ]}).
  set (r := removePermanentBlockedIPs canonicalSetRange d "b.txt" {[ "10.0.0.2" ]}).
  destruct (removal_exact canonicalSetRange d "b.txt" {[ "10.0.0.2" ]} r.1 {[ "10.0.0.2" ]}
    {[ "10.0.0.1"; "::FFFF:10.0.0.2"; "10.0.0.3" ]} sample_file) as (text' & Hf & _ & Hx & _).
  - vm_compute. discriminate.
  - vm_compute. reflexivity.
  - vm_compute. reflexivity.
  - vm_compute. reflexivity.
  - vm_compute. reflexivity.
  - vm_compute. reflexivity.
  - exists text'. split; [exact Hf|]. rewrite !Hx. split.
    + split; [set_solver|]. apply (bool_decide_unpack _). vm_compute. exact I.
    + intros [_ H]. apply H. apply (bool_decide_unpack _). vm_compute. exact I.
Defined.

(** ** Appending *)

Lemma Split_append t l :
  Split (t +:+ nl +:+ l) newline = Split t newline ++ Split l newline.
Proof.
  unfold Split. rewrite <-map_app. f_equal. rewrite !to_chars_app. unfold nl.
  change (to_chars (String newline "")) with [newline]. cbn [app].
  induction (to_chars t) as [|c u IH].
  - cbn [app split_on]. rewrite Ascii.eqb_refl.
    destruct (split_on newline (to_chars l)) eqn:E; [by apply split_on_ne in E|done].
  - cbn [app split_on]. rewrite IH. destruct (split_on newline u) eqn:E; [by apply split_on_ne in E|].
    cbn. by case_match.
Qed.

Lemma appended_lines text ip :
  text = "" ∨ (∃ t, text = t +:+ nl) → has_char newline (to_chars ip) = false →
  ∃ ls, Split (text +:+ ip +:+ nl) newline = ls ++ [ip; ""] ∧ Split text newline = ls ++ [""].
Proof.
  intros Ht Hip. assert (Split ip newline = [ip]) as Eip.
  { unfold Split. rewrite split_on_none by done. cbn. by rewrite of_to_chars. }
  destruct Ht as [->|[t ->]].
  - exists []. split; [|done]. change ("" +:+ ip +:+ nl) with (ip +:+ nl).
    by rewrite Split_snoc_nl, Eip.
  - exists (Split t newline). rewrite Split_snoc_nl. split; [|done].
    rewrite <-string_app_assoc, Split_append, Split_snoc_nl, Eip. done.
Qed.

Lemma short_lines max t :
  Forall (short max) (split_on newline (to_chars t))
  ↔ Forall (λ l, short max (to_chars l)) (Split t newline).
Proof.
  unfold Split. rewrite Forall_fmap. split; intros H; eapply Forall_impl; [exact H| |exact H|];
    intros l Hl; cbn in *; by rewrite to_of_chars in *.
Qed.

(** When the list's file is empty or ends with a line break, appending an
    address makes a restart read exactly the addresses it read before and that
    one. (For a file without carriage returns.) *)
Theorem append_survives_restart d path ip text before :
  TrimSpace path ≠ "" → dk_readErr d (Clean (TrimSpace path)) = None →
  dk_files d !! Clean (TrimSpace path) = Some text →
  text = "" ∨ (∃ t, text = t +:+ nl) →
  has_char carriage (to_chars text) = false →
  TrimSpace ip = ip → ip ≠ "" → HasPrefix ip "#" = false →
  has_char carriage (to_chars ip) = false → has_char newline (to_chars ip) = false →
  slen ip < MaxScanTokenSize →
  loadPermanentBlockedIPs d path = Ok before →
  ∀ d', appendPermanentBlockedIP d path ip = (d', Ok tt) → dk_readErr d' = dk_readErr d →
  ∃ after, loadPermanentBlockedIPs d' path = Ok after ∧ after ≡ before ∪ {[ ip ]}.
Proof.
  intros Hp Hr Hf Ht Hcr Htrim Hne Hc Hipcr Hipnl Hlen Hload d' Happ Hsame.
  pose proof (load_spec d path text Hp Hr Hf Hcr) as Hs. rewrite Hload in Hs. destruct Hs as [Hshort Hs].
  assert (dk_files d' !! Clean (TrimSpace path) = Some (text +:+ ip +:+ nl)) as Hf'.
  { unfold appendPermanentBlockedIP, MkdirAll, OpenAppend, WriteOpen, WriteFile in Happ.
    rewrite Htrim in Happ. destruct (String.eqb_spec (TrimSpace path) "") as [|_]; [done|].
    destruct (String.eqb_spec ip "") as [|_]; [done|]. cbn [orb] in Happ. cbn zeta in Happ.
    destruct (dk_mkdirErr d _) as [e|]; [done|]. destruct (dk_openErr d _) as [e|]; [done|].
    cbn in Happ. destruct (dk_writeErr d _) as [[e lf]|]; [done|]. injection Happ as <-.
    cbn. by rewrite !lookup_partial_alter_eq, Hf. }
  destruct (appended_lines text ip Ht Hipnl) as (ls & E1 & E2).
  assert (has_char carriage (to_chars (text +:+ ip +:+ nl)) = false) as Hcr'.
  { by rewrite !to_chars_app, !has_char_app, Hcr, Hipcr. }
  pose proof (load_spec d' path _ Hp (eq_trans (f_equal (λ f, f _) Hsame) Hr) Hf' Hcr') as Hs'.
  assert (∀ x, (∃ l, l ∈ Split (text +:+ ip +:+ nl) newline ∧ listed l x) ↔ x ∈ before ∪ {[ ip ]}) as Hx.
  { intros x. rewrite elem_of_union, elem_of_singleton, Hs, E1, E2.
    assert (listed ip x ↔ x = ip) as Hip by (unfold listed; rewrite Htrim; naive_solver).
    pose proof (listed_blank x). setoid_rewrite elem_of_app. set_solver. }
  destruct (loadPermanentBlockedIPs d' path) as [after|e].
  - exists after. split; [done|]. destruct Hs' as [_ Hs']. intros x. by rewrite Hs', Hx.
  - exfalso. apply Hs'. apply short_lines. apply short_lines in Hshort. rewrite E2 in Hshort. rewrite E1.
    apply Forall_app in Hshort as [Hsh _]. apply Forall_app. split; [done|].
    apply Forall_cons_2; [|apply Forall_cons_2; [done|apply Forall_nil_2]].
    unfold short. rewrite length_to_chars. done.
Qed.

(** On a disk without errors, at the end of a comment file. *)
Lemma append_survives_restart_witness :
  let d := goodDisk {[ "b.txt" := sample_file ]} in
  ∃ after, loadPermanentBlockedIPs (appendPermanentBlockedIP d "b.txt" "10.0.0.9").1 "b.txt" = Ok after ∧
    after ≡ {[ "10.0.0.1"; "::FFFF:10.0.0.2"; "10.0.0.3" ]} ∪ {[ "10.0.0.9" ]}.
Proof.
  cbn zeta. set (d := goodDisk {[ "b.txt" := sample_file ]}).
  apply (append_survives_restart d "b.txt" "10.0.0.9" sample_file);
    try (vm_compute; reflexivity); try (vm_compute; discriminate).
  right. exists ("# kept" +:+ nl +:+ "10.0.0.1" +:+ nl +:+ " ::FFFF:10.0.0.2 " +:+ nl +:+ "10.0.0.3").
  vm_compute. reflexivity.
Defined.

(** When the file does not end with a line break (a file edited by hand, say),
    appending merges the last address with the new one: after a restart
    neither is blocked. *)
Lemma append_without_line_break :
  let d := goodDisk {[ "b.txt" := "10.0.0.1" ]} in
  let d' := (appendPermanentBlockedIP d "b.txt" "10.0.0.2").1 in
  loadPermanentBlockedIPs d "b.txt" = Ok {[ "10.0.0.1" ]} ∧
  loadPermanentBlockedIPs d' "b.txt" = Ok {[ "10.0.0.110.0.0.2" ]}.
Proof. vm_compute. split; reflexivity. Qed.

(** ** What the file operations leave alone *)

Lemma append_errors d path ip : same_errors d (appendPermanentBlockedIP d path ip).1.
Proof.
  unfold appendPermanentBlockedIP. cbn zeta. destruct (_ || _); [done|].
  destruct (MkdirAll _ _); [|done].
  pose proof (OpenAppend_errors d (Clean (TrimSpace path))) as Ho.
  destruct (OpenAppend _ _) as [d1 [?|?]]; [|done]. cbn in Ho.
  etransitivity; [exact Ho|]. apply WriteFile_errors.
Qed.

Lemma append_ok d path ip : no_errors d → (appendPermanentBlockedIP d path ip).2 = Ok tt.
Proof.
  intros H. unfold appendPermanentBlockedIP, MkdirAll, OpenAppend, WriteOpen, WriteFile. cbn zeta.
  destruct (_ || _); [done|].
  destruct (H (Dir (Clean (TrimSpace path)))) as (_ & _ & -> & _).
  destruct (H (Clean (TrimSpace path))) as (_ & -> & _ & Hw). cbn. by rewrite Hw.
Qed.

Lemma remove_errors rg d path ips : same_errors d (removePermanentBlockedIPs rg d path ips).1.
Proof.
  unfold removePermanentBlockedIPs. cbn zeta. destruct (_ || _); [done|].
  destruct (_ =? 0)%nat; [done|]. destruct (ReadFile _ _) as [| |data]; [done..|].
  destruct (file_lines data) as [b lines]. destruct (foldl _ _ _) as [removed kept].
  destruct (_ =? 0)%nat; [done|].
  set (out := if b && _ then _ else _). clearbody out.
  pose proof (WriteFile_errors d (Clean (TrimSpace path)) out) as Hw.
  by destruct (WriteFile _ _ _) as [d' [?|?]].
Qed.

Lemma removed_sub rg d path ips d' removed :
  removePermanentBlockedIPs rg d path ips = (d', Ok removed) → removed ⊆ removal_targets rg ips.
Proof.
  unfold removePermanentBlockedIPs. cbn zeta. destruct (_ || _); [intros [= <- <-]; set_solver|].
  destruct (_ =? 0)%nat; [intros [= <- <-]; set_solver|].
  destruct (ReadFile _ _) as [| |data]; [intros [= <- <-]; set_solver|done|].
  destruct (file_lines data) as [b lines]. rewrite keep_line_spec.
  set (rm := ∅ ∪ _ : gset string).
  assert (rm ⊆ removal_targets rg ips) as Hsub.
  { intros k. unfold rm. rewrite elem_of_union, elem_of_list_to_set, list_elem_of_filter. set_solver. }
  clearbody rm. destruct (_ =? 0)%nat; [by intros [= <- <-]|].
  destruct (WriteFile _ _ _) as [d1 [?|?]]; [by intros [= <- <-]|done].
Qed.
