(* ===== verification/FailTracker.v ===== *)
(** * Failures, blocks and their persistence (src/server/tunnel/fail_tracker.go,
    fail_persistence.go, successful_ip_history.go)

    Per address: recent authentication failures, recent protocol failures and
    the time until which it is blocked; the addresses blocked for good; the
    addresses with a successful request today. The tracker is never nil in the
    server, and its map holds no nil entry, so the nil guards are left out.
    Each operation takes the clock readings it makes: [now], and [saved] for
    the one [saveLocked] makes. *)

From S2P Require Import Prelude.
From S2P Require Import GoStd.
From S2P Require Import Disk.
From S2P Require Import Protocol.
From S2P Require Import Netaddr.
From S2P Require Import LogEntries.
From S2P Require Import ConfigData.
From S2P Require Import PermanentBlocks.

#[local] Open Scope Z_scope.

Inductive blockKindT := blockedNone | blockedTemporary | blockedPermanent.

#[export] Instance blockKind_eq_dec : EqDecision blockKindT.
Proof. solve_decision. Defined.

Record failState := mkFailState {
  fs_authFailures : list Time;
  fs_protocolFailures : list Time;
  fs_blockedUntil : Time;
  fs_lastSeen : Time
}.

Record failTracker := mkFailTracker {
  ft_window : Duration;
  ft_limit : Z;
  ft_blockFor : Duration;
  ft_maxItems : Z;
  ft_cleanupEvery : Duration;
  ft_successfulDate : string;
  ft_successfulIPs : gset string;
  ft_items : gmap string failState;
  ft_permanent : gset string;
  ft_stateFile : string;
  ft_permanentFile : string;
  ft_evicted : Z;
  ft_capacityDrop : Z
}.

Definition newFailTracker (cfg : SecurityConfig) (stateFile permanentFile : string) : failTracker :=
  let maxItems := sec_MaxTrackedFailureIPs cfg in
  let maxItems := if maxItems <=? 0 then 8192 else maxItems in
  let cleanupEvery := seconds (sec_FailureTrackerCleanupSec cfg) in
  let cleanupEvery := if cleanupEvery <=? 0 then nminute else cleanupEvery in
  mkFailTracker (seconds (sec_AuthFailWindowSec cfg)) (sec_AuthFailThreshold cfg)
    (seconds (sec_AuthFailBlockSec cfg)) maxItems cleanupEvery "" ∅ ∅ ∅
    (TrimSpace stateFile) (TrimSpace permanentFile) 0 0.

Definition set_items (f : failTracker) (items : gmap string failState) : failTracker :=
  mkFailTracker (ft_window f) (ft_limit f) (ft_blockFor f) (ft_maxItems f) (ft_cleanupEvery f)
    (ft_successfulDate f) (ft_successfulIPs f) items (ft_permanent f)
    (ft_stateFile f) (ft_permanentFile f) (ft_evicted f) (ft_capacityDrop f).
Definition set_permanent (f : failTracker) (permanent : gset string) : failTracker :=
  mkFailTracker (ft_window f) (ft_limit f) (ft_blockFor f) (ft_maxItems f) (ft_cleanupEvery f)
    (ft_successfulDate f) (ft_successfulIPs f) (ft_items f) permanent
    (ft_stateFile f) (ft_permanentFile f) (ft_evicted f) (ft_capacityDrop f).
Definition set_successful (f : failTracker) (date : string) (ips : gset string) : failTracker :=
  mkFailTracker (ft_window f) (ft_limit f) (ft_blockFor f) (ft_maxItems f) (ft_cleanupEvery f)
    date ips (ft_items f) (ft_permanent f)
    (ft_stateFile f) (ft_permanentFile f) (ft_evicted f) (ft_capacityDrop f).
Definition set_counts (f : failTracker) (evicted capacityDrop : Z) : failTracker :=
  mkFailTracker (ft_window f) (ft_limit f) (ft_blockFor f) (ft_maxItems f) (ft_cleanupEvery f)
    (ft_successfulDate f) (ft_successfulIPs f) (ft_items f) (ft_permanent f)
    (ft_stateFile f) (ft_permanentFile f) evicted capacityDrop.

Definition hasPermanent (f : failTracker) (key : string) : bool :=
  bool_decide (key ∈ ft_permanent f).

(** ** The state file *)

Record persistedBlockedIP := mkPersistedBlockedIP { pb_IP : string; pb_BlockedUntil : Time }.

Record BlockedIPState := mkBlockedIPState {
  bs_IP : string; bs_BlockedUntil : string; bs_RemainingSec : Z
}.

Section Persistence.
Context `{StateCodec : JSONCodec (list persistedBlockedIP)} `{LocalTime}.

Definition saved_blocks (rg : MapRange failState) (f : failTracker) (now : Time)
    : list persistedBlockedIP :=
  omap (λ ka, if After (fs_blockedUntil ka.2) now
              then Some (mkPersistedBlockedIP ka.1 (fs_blockedUntil ka.2)) else None)
    (range_entries rg (ft_items f)).

Definition saveLocked (rg : MapRange failState) (f : failTracker) (now : Time) (d : Disk)
    : Disk * result unit :=
  if String.eqb (ft_stateFile f) "" then (d, Ok tt)
  else match MkdirAll d (Dir (ft_stateFile f)) with
  | Err e => (d, Err e)
  | Ok _ =>
      match marshal (saved_blocks rg f now) with
      | Err e => (d, Err e)
      | Ok data => WriteFile d (Clean (ft_stateFile f)) (of_chars data)
      end
  end.

(** [int64(d.Seconds())]; the conversion through a float is exact below 2^23
    seconds. *)
Definition RemainingSec (until now : Time) : Z := Z.quot (until - now) nsecond.

Definition blockedIPStates (items : list persistedBlockedIP) (now : Time) : list BlockedIPState :=
  omap (λ item,
    if String.eqb (pb_IP item) "" || IsZero (pb_BlockedUntil item)
       || negb (After (pb_BlockedUntil item) now)
    then None
    else Some (mkBlockedIPState (pb_IP item) (FormatRFC3339 (pb_BlockedUntil item))
                (RemainingSec (pb_BlockedUntil item) now))) items.

Definition LoadBlockedIPs (d : Disk) (stateFile : string) (now : Time)
    : result (list BlockedIPState) :=
  let stateFile := TrimSpace stateFile in
  if String.eqb stateFile "" then Ok []
  else
    let stateFile := Clean stateFile in
    if String.eqb stateFile "." then Ok []
    else match ReadFile d stateFile with
    | ReadNotExist => Ok []
    | ReadErr e => Err e
    | ReadData data =>
        match unmarshal (to_chars data) [] with
        | Err e => Err e
        | Ok items => Ok (blockedIPStates items now)
        end
    end.

(** The loop over the persisted blocks: whether the address was there, and
    what is kept. *)
Definition unblock_item (ip : string) (now : Time) (s : bool * list persistedBlockedIP)
    (item : persistedBlockedIP) : bool * list persistedBlockedIP :=
  if String.eqb (pb_IP item) ip then (true, s.2)
  else if String.eqb (pb_IP item) "" || IsZero (pb_BlockedUntil item)
          || negb (After (pb_BlockedUntil item) now) then s
  else (s.1, s.2 ++ [item]).

Definition UnblockBlockedIP (d : Disk) (stateFile ip : string) (now : Time)
    : Disk * bool * result unit :=
  let stateFile := TrimSpace stateFile in
  let ip := TrimSpace ip in
  if String.eqb stateFile "" || String.eqb ip "" then (d, false, Ok tt)
  else
    let stateFile := Clean stateFile in
    if String.eqb stateFile "." then (d, false, Ok tt)
    else match ReadFile d stateFile with
    | ReadNotExist => (d, false, Ok tt)
    | ReadErr e => (d, false, Err e)
    | ReadData data =>
        match unmarshal (to_chars data) [] with
        | Err e => (d, false, Err e)
        | Ok items =>
            let '(removed, kept) := foldl (unblock_item ip now) (false, []) items in
            if negb removed then (d, false, Ok tt)
            else match MkdirAll d (Dir stateFile) with
            | Err e => (d, false, Err e)
            | Ok _ =>
                match marshal kept with
                | Err e => (d, false, Err e)
                | Ok data => let '(d, r) := WriteFile d stateFile (of_chars data) in (d, true, r)
                end
            end
        end
    end.

(** ** Tracking *)

Definition appendRecentFailures (items : list Time) (cutoff : Time) : list Time :=
  filter (λ item, After item cutoff = true) items.

(** The body of the cleanup loop: what becomes of an entry, and whether
    anything changed. *)
Definition clean_state (f : failTracker) (now : Time) (st : failState) : option failState * bool :=
  let cutoff := now - ft_window f in
  let auth := appendRecentFailures (fs_authFailures st) cutoff in
  let protocol := appendRecentFailures (fs_protocolFailures st) cutoff in
  let changed := negb (length auth =? length (fs_authFailures st))%nat
                 || negb (length protocol =? length (fs_protocolFailures st))%nat in
  let expired := negb (IsZero (fs_blockedUntil st)) && negb (After (fs_blockedUntil st) now) in
  let until := if expired then zeroTime else fs_blockedUntil st in
  let changed := changed || expired in
  if IsZero until && (length auth =? 0)%nat && (length protocol =? 0)%nat
  then (None, true)
  else (Some (mkFailState auth protocol until (fs_lastSeen st)), changed).

Definition cleanupLocked (rg : MapRange failState) (f : failTracker) (now : Time)
    : failTracker * bool :=
  let '(items, changed) :=
    foldl (λ s ka,
      let '(st, c) := clean_state f now ka.2 in
      (match st with Some st => <[ka.1 := st]> s.1 | None => delete ka.1 s.1 end, s.2 || c))
      (ft_items f, false) (range_entries rg (ft_items f)) in
  (set_items f items, changed).

Definition active_block (now : Time) (st : failState) : bool :=
  negb (IsZero (fs_blockedUntil st)) && After (fs_blockedUntil st) now.

Definition trackStateLocked (rg : MapRange failState) (f : failTracker) (key : string) (now : Time)
    : option failState * failTracker :=
  let key := TrimSpace key in
  if String.eqb key "" || hasPermanent f key then (None, f)
  else match ft_items f !! key with
  | Some st =>
      let st := mkFailState (fs_authFailures st) (fs_protocolFailures st) (fs_blockedUntil st) now in
      (Some st, set_items f (<[key := st]> (ft_items f)))
  | None =>
      let f := if ft_maxItems f <=? Z.of_nat (size (ft_items f)) then (cleanupLocked rg f now).1 else f in
      let fresh := mkFailState [] [] zeroTime now in
      if ft_maxItems f <=? Z.of_nat (size (ft_items f)) then
        let oldestKey := (pick_oldest (active_block now) fs_lastSeen
                            (range_entries rg (ft_items f))).1 in
        if String.eqb oldestKey ""
        then (None, set_counts f (ft_evicted f) (wrap_u64 (ft_capacityDrop f + 1)))
        else
          let f := set_counts (set_items f (delete oldestKey (ft_items f)))
                     (wrap_u64 (ft_evicted f + 1)) (ft_capacityDrop f) in
          (Some fresh, set_items f (<[key := fresh]> (ft_items f)))
      else (Some fresh, set_items f (<[key := fresh]> (ft_items f)))
  end.

(** ** Blocks *)

(** The read section of [blockKind]; [None] when the block it saw has expired
    and the write section has to look again. *)
Definition blockKindRead (f : failTracker) (key : string) (now : Time) : option blockKindT :=
  if hasPermanent f key then Some blockedPermanent
  else match ft_items f !! key with
  | None => Some blockedNone
  | Some st =>
      if IsZero (fs_blockedUntil st) then Some blockedNone
      else if Before now (fs_blockedUntil st) then Some blockedTemporary
      else None
  end.

Definition blockKindExpire (rg : MapRange failState) (f : failTracker) (key : string)
    (now saved : Time) (d : Disk) : blockKindT * failTracker * Disk :=
  match ft_items f !! key with
  | None => (blockedNone, f, d)
  | Some st =>
      if hasPermanent f key then (blockedPermanent, f, d)
      else if IsZero (fs_blockedUntil st) || Before now (fs_blockedUntil st)
      then (if IsZero (fs_blockedUntil st) then blockedNone else blockedTemporary, f, d)
      else
        let st := mkFailState (fs_authFailures st) (fs_protocolFailures st) zeroTime (fs_lastSeen st) in
        let items :=
          if (length (fs_authFailures st) =? 0)%nat && (length (fs_protocolFailures st) =? 0)%nat
          then delete key (ft_items f) else <[key := st]> (ft_items f) in
        let f := set_items f items in
        (blockedNone, f, (saveLocked rg f saved d).1)
  end.

Definition blockKind (rg : MapRange failState) (f : failTracker) (key : string)
    (now saved : Time) (d : Disk) : blockKindT * failTracker * Disk :=
  match blockKindRead f key now with
  | Some k => (k, f, d)
  | None => blockKindExpire rg f key now saved d
  end.

Definition isBlocked (rg : MapRange failState) (f : failTracker) (key : string)
    (now saved : Time) (d : Disk) : bool * failTracker * Disk :=
  let '(k, f, d) := blockKind rg f key now saved d in
  (negb (bool_decide (k = blockedNone)), f, d).

Definition addFailure (rg : MapRange failState) (f : failTracker) (key : string)
    (now saved : Time) (d : Disk) : failTracker * Disk :=
  match trackStateLocked rg f key now with
  | (None, f) => (f, d)
  | (Some st, f) =>
      if hasPermanent f key then (f, d)
      else
        let auth := appendRecentFailures (fs_authFailures st) (now - ft_window f) ++ [now] in
        if ft_limit f <=? Z.of_nat (length auth) then
          let st := mkFailState [] (fs_protocolFailures st) (now + ft_blockFor f) now in
          let f := set_items f (<[TrimSpace key := st]> (ft_items f)) in
          (f, (saveLocked rg f saved d).1)
        else
          let st := mkFailState auth (fs_protocolFailures st) (fs_blockedUntil st) now in
          (set_items f (<[TrimSpace key := st]> (ft_items f)), d)
  end.

Definition canonicalSuccessfulIP (value : string) : option string :=
  IPString <$> ParseIP (TrimSpace value).

Definition rotateSuccessfulIPsLocked (f : failTracker) (now : Time) : failTracker :=
  let date := FormatDate now in
  if String.eqb (ft_successfulDate f) date then f else set_successful f date ∅.

Definition successfulTodayLocked (f : failTracker) (key : string) (now : Time)
    : bool * failTracker :=
  let f := rotateSuccessfulIPsLocked f now in
  (bool_decide (key ∈ ft_successfulIPs f), f).

Definition blockPermanentLocked (rg : MapRange failState) (f : failTracker) (key : string)
    (saved : Time) (d : Disk) : bool * failTracker * Disk :=
  let key := TrimSpace key in
  if String.eqb key "" || hasPermanent f key then (false, f, d)
  else match appendPermanentBlockedIP d (ft_permanentFile f) key with
  | (d, Err _) => (false, f, d)
  | (d, Ok _) =>
      let f := set_permanent f ({[ key ]} ∪ ft_permanent f) in
      let f := set_items f (delete key (ft_items f)) in
      (true, f, (saveLocked rg f saved d).1)
  end.

Definition addProtocolFailure (rg : MapRange failState) (f : failTracker) (key : string)
    (now saved : Time) (d : Disk) : bool * failTracker * Disk :=
  let key := default key (canonicalSuccessfulIP key) in
  let '(successful, f) := successfulTodayLocked f key now in
  if successful then (false, f, d)
  else match trackStateLocked rg f key now with
  | (None, f) => (false, f, d)
  | (Some st, f) =>
      if hasPermanent f key then (false, f, d)
      else
        let protocol := appendRecentFailures (fs_protocolFailures st) (now - ft_window f) ++ [now] in
        if ft_limit f <=? Z.of_nat (length protocol) then
          let st := mkFailState [] [] zeroTime now in
          blockPermanentLocked rg (set_items f (<[TrimSpace key := st]> (ft_items f))) key saved d
        else
          let st := mkFailState (fs_authFailures st) protocol (fs_blockedUntil st) now in
          (false, set_items f (<[TrimSpace key := st]> (ft_items f)), d)
  end.

Definition cleanup (rg : MapRange failState) (f : failTracker) (now saved : Time) (d : Disk)
    : failTracker * Disk * result unit :=
  let '(f, changed) := cleanupLocked rg f now in
  if negb changed then (f, d, Ok tt)
  else let '(d, r) := saveLocked rg f saved d in (f, d, r).

Record failTrackerStats := mkFailTrackerStats {
  TrackedIPs : Z; MaxTrackedIPs : Z; EvictedIPs : Z; CapacityDrops : Z
}.
Definition stats (f : failTracker) : failTrackerStats :=
  mkFailTrackerStats (Z.of_nat (size (ft_items f))) (ft_maxItems f)
    (ft_evicted f) (ft_capacityDrop f).

Definition snapshotBlocked (rg : MapRange failState) (f : failTracker) (now : Time)
    : list BlockedIPState :=
  omap (λ ka,
    if IsZero (fs_blockedUntil ka.2) || negb (After (fs_blockedUntil ka.2) now) then None
    else Some (mkBlockedIPState ka.1 (FormatRFC3339 (fs_blockedUntil ka.2))
                (RemainingSec (fs_blockedUntil ka.2) now)))
    (range_entries rg (ft_items f)).

Definition unblock (rg : MapRange failState) (f : failTracker) (key : string) (saved : Time)
    (d : Disk) : bool * failTracker * Disk * result unit :=
  let key := TrimSpace key in
  if String.eqb key "" then (false, f, d, Ok tt)
  else
    let removed := bool_decide (is_Some (ft_items f !! key)) in
    let f := set_items f (delete key (ft_items f)) in
    let '(d, r) := saveLocked rg f saved d in (removed, f, d, r).

Definition unblockPermanent (srg : SetRange) (f : failTracker) (key : string) (d : Disk)
    : failTracker * Disk * result bool :=
  let key := TrimSpace key in
  if String.eqb key "" then (f, d, Ok false)
  else
    let memoryKey := permanentBlockIPKey key in
    let inMemory := hasPermanent f memoryKey in
    match RemovePermanentBlockedIP srg d (ft_permanentFile f) key with
    | (d, Err e) => (f, d, Err e)
    | (d, Ok removed) =>
        if removed || inMemory
        then (set_permanent f (ft_permanent f ∖ {[ memoryKey ]}), d, Ok true)
        else (f, d, Ok false)
    end.

(** ** Loading at the start *)

(** The loop over the addresses of the permanent file: loopback names are
    removed from the file, the others are kept in canonical form. *)
Definition load_permanent_ip (srg : SetRange) (path : string)
    (s : gset string * Disk * result unit) (ip : string) : gset string * Disk * result unit :=
  let '(normalized, d, cleanupErr) := s in
  if negb (isLoopbackName ip) then
    let key := permanentBlockIPKey ip in
    (if String.eqb key "" then normalized else {[ key ]} ∪ normalized, d, cleanupErr)
  else match RemovePermanentBlockedIP srg d path ip with
  | (d, Err e) => (normalized, d, if is_ok cleanupErr then Err e else cleanupErr)
  | (d, Ok _) => (normalized, d, cleanupErr)
  end.

Definition load_item (now : Time) (items : gmap string failState) (item : persistedBlockedIP)
    : gmap string failState :=
  if String.eqb (pb_IP item) "" || negb (After (pb_BlockedUntil item) now) then items
  else <[pb_IP item := mkFailState [] [] (pb_BlockedUntil item) now]> items.

(** The blocks of the state file. *)
Definition load_state (f : failTracker) (now : Time) (d : Disk) : failTracker * result unit :=
  if String.eqb (ft_stateFile f) "" then (f, Ok tt)
  else match ReadFile d (Clean (ft_stateFile f)) with
  | ReadNotExist => (f, Ok tt)
  | ReadErr e => (f, Err e)
  | ReadData data =>
      match unmarshal (to_chars data) [] with
      | Err e => (f, Err e)
      | Ok blocks => (set_items f (foldl (load_item now) (ft_items f) blocks), Ok tt)
      end
  end.

Definition load (srg : SetRange) (f : failTracker) (now : Time) (d : Disk)
    : failTracker * Disk * result unit :=
  match load_state f now d with
  | (f, Err e) => (f, d, Err e)
  | (f, Ok _) =>
      match loadPermanentBlockedIPs d (ft_permanentFile f) with
      | Err e => (f, d, Err e)
      | Ok permanent =>
          let '(normalized, d, cleanupErr) :=
            foldl (load_permanent_ip srg (ft_permanentFile f)) (∅, d, Ok tt)
              (set_entries srg permanent) in
          let f := set_permanent f (filter (λ ip, isLoopbackName ip = false) (ft_permanent f)) in
          let f := foldl (λ f ip,
                     set_items (set_permanent f ({[ ip ]} ∪ ft_permanent f)) (delete ip (ft_items f)))
                     f (set_entries srg normalized) in
          (f, d, cleanupErr)
      end
  end.

End Persistence.

(** ** Addresses with a successful request (successful_ip_history.go) *)

Definition successfulIPHistoryDays : Z := 7.
Definition successfulIPHistoryMaxLineBytes : Z := 1024 * 1024.

Definition isSuccessfulRequestForBlockProtection (entry : RequestLogEntry) : bool :=
  if negb (String.eqb (rl_Result entry) "ok") || negb (String.eqb (rl_AuthResult entry) "ok")
     || negb (rs_OK (rl_Response entry)) then false
  else match canonicalSuccessfulIP (rl_RemoteIP entry) with
  | None => false
  | Some _ => bool_decide (rq_Type (rl_Request entry) ∈
      ["login"; "health"; "open"; "forward_check"; "reverse"; "reverse_listen"; "reverse_stream"])
  end.

Section History.
Context `{LogCodec : JSONCodec RequestLogEntry} `{LocalTime}.
Variable emptyEntry : RequestLogEntry.

Definition localMidnight (value : Time) : Time :=
  let '(y, m, d) := CivilDate value in MakeDate y m d.

Definition markSuccessful (f : failTracker) (key : string) (now : Time) : bool * failTracker :=
  match canonicalSuccessfulIP key with
  | None => (false, f)
  | Some key =>
      let f := rotateSuccessfulIPsLocked f now in
      let known := bool_decide (key ∈ ft_successfulIPs f) in
      if negb known && (ft_maxItems f <=? Z.of_nat (size (ft_successfulIPs f))) then (false, f)
      else
        let f := set_successful f (ft_successfulDate f) ({[ key ]} ∪ ft_successfulIPs f) in
        (true, match ft_items f !! key with
               | Some st => set_items f (<[key := mkFailState (fs_authFailures st) []
                                            (fs_blockedUntil st) (fs_lastSeen st)]> (ft_items f))
               | None => f
               end)
  end.

(** What a line of a request log makes the scan visit. *)
Definition scan_line (start stop : Time) (line : string) : option (string * Time) :=
  let line := TrimSpace line in
  if String.eqb line "" then None
  else match unmarshal (to_chars line) emptyEntry with
  | Err _ => None
  | Ok entry =>
      if negb (isSuccessfulRequestForBlockProtection entry) then None
      else match ParseRFC3339 (rl_Time entry) with
      | None => None
      | Some occurredAt =>
          if Before occurredAt start || negb (Before occurredAt stop) then None
          else Some (default "" (canonicalSuccessfulIP (rl_RemoteIP entry)), occurredAt)
      end
  end.

(** The visits of a file, in order, and the error of the scan. *)
Definition scanSuccessfulRequestFile (d : Disk) (path : string) (start stop : Time)
    : list (string * Time) * result unit :=
  match ReadFile d path with
  | ReadNotExist => ([], Ok tt)
  | ReadErr e => ([], Err e)
  | ReadData text =>
      let '(lines, e) := ScanLines successfulIPHistoryMaxLineBytes text in
      (omap (scan_line start stop) lines, e)
  end.

(** [errors.Join]: the texts of the errors, one per line. *)
Definition join_errors (a b : result unit) : result unit :=
  match a, b with
  | Ok _, b => b
  | a, Ok _ => a
  | Err e1, Err e2 => Err (e1 +:+ nl +:+ e2)
  end.

Definition scan_candidate (d : Disk) (start stop : Time)
    (s : gset string * list (string * Time) * result unit) (candidate : string)
    : gset string * list (string * Time) * result unit :=
  let '(seen, visits, scanErr) := s in
  let candidate := Clean candidate in
  if bool_decide (candidate ∈ seen) then s
  else
    let '(vs, e) := scanSuccessfulRequestFile d candidate start stop in
    ({[ candidate ]} ∪ seen, visits ++ vs,
     join_errors scanErr (wrap_err ("scan successful request history " +:+ candidate) e)).

Definition scanRecentSuccessfulRequestIPs (d : Disk) (basePath : string) (now : Time) (days : Z)
    : list (string * Time) * result unit :=
  let basePath := TrimSpace basePath in
  if String.eqb basePath "" || (days <=? 0) then ([], Ok tt)
  else
    let basePath := Clean basePath in
    let today := localMidnight now in
    let start := AddDays today (- (days - 1)) in
    let stop := AddDays today 1 in
    let candidates := map (λ offset, datedJSONLPath basePath (FormatDate (AddDays today (- Z.of_nat offset))))
                        (seq 0 (Z.to_nat days)) ++ [basePath] in
    let '(_, visits, e) := foldl (scan_candidate d start stop) (∅, [], Ok tt) candidates in
    (visits, e).

Definition removePermanentSuccessful (srg : SetRange) (f : failTracker) (ips : gset string) (d : Disk)
    : failTracker * Disk * result Z :=
  if (size ips =? 0)%nat then (f, d, Ok 0)
  else match removePermanentBlockedIPs srg d (ft_permanentFile f) ips with
  | (d, Err e) => (f, d, Err e)
  | (d, Ok removed) =>
      (set_permanent f (ft_permanent f ∖ removed), d, Ok (Z.of_nat (size removed)))
  end.

(** The visitor of the reconciliation; [clock] is the clock reading
    [markSuccessful] makes at each visit. *)
Definition reconcile_visit (today clock : Time) (s : failTracker * gset string)
    (v : string * Time) : failTracker * gset string :=
  let '(f, recent) := s in
  let f := if negb (Before v.2 today) then (markSuccessful f v.1 clock).2 else f in
  (f, if hasPermanent f v.1 then {[ v.1 ]} ∪ recent else recent).

Definition reconcileSuccessfulIPHistory (srg : SetRange) (f : failTracker) (requestLogPath : string)
    (now clock : Time) (d : Disk) : failTracker * Disk * result unit :=
  let today := localMidnight now in
  let '(visits, scanErr) := scanRecentSuccessfulRequestIPs d requestLogPath now successfulIPHistoryDays in
  let '(f, recent) := foldl (reconcile_visit today clock) (f, ∅) visits in
  let '(f, d, removeErr) := removePermanentSuccessful srg f recent d in
  (f, d, join_errors scanErr (match removeErr with Err e => Err e | Ok _ => Ok tt end)).

End History.

(** ** The invariant *)

Definition entry_ok (f : failTracker) (st : failState) : Prop :=
  0 < ft_limit f →
  Z.of_nat (length (fs_authFailures st)) < ft_limit f ∧
  Z.of_nat (length (fs_protocolFailures st)) < ft_limit f.

(** [n] is the number of addresses the state file put in the table. *)
Record fail_inv (n : Z) (f : failTracker) : Prop := {
  fi_entries : ∀ k st, ft_items f !! k = Some st → k ≠ "" ∧ entry_ok f st;
  fi_disjoint : ∀ k, k ∈ ft_permanent f → ft_items f !! k = None;
  fi_size : Z.of_nat (size (ft_items f)) ≤ Z.max n (ft_maxItems f);
  fi_pos : 0 < ft_maxItems f
}.

(** The address has a temporary block still running at [t]. *)
Definition temp (f : failTracker) (k : string) (t : Time) : Prop :=
  ∃ st, ft_items f !! k = Some st ∧ active_block t st = true.

Definition same_config (f f' : failTracker) : Prop :=
  ft_window f' = ft_window f ∧ ft_limit f' = ft_limit f ∧ ft_blockFor f' = ft_blockFor f ∧
  ft_maxItems f' = ft_maxItems f ∧ ft_stateFile f' = ft_stateFile f ∧
  ft_permanentFile f' = ft_permanentFile f.

Lemma active_block_spec t st :
  active_block t st = true ↔ fs_blockedUntil st ≠ 0 ∧ t < fs_blockedUntil st.
Proof. unfold active_block, IsZero, After. bool_lia. Qed.

Lemma blockKindRead_temporary f k t :
  blockKindRead f k t = Some blockedTemporary ↔ (k ∉ ft_permanent f) ∧ temp f k t.
Proof.
  unfold blockKindRead, hasPermanent, temp, Before, IsZero. case_bool_decide as Hk; [naive_solver|].
  destruct (ft_items f !! k) as [st|]; [|naive_solver].
  setoid_rewrite active_block_spec.
  destruct (Z.eqb_spec (fs_blockedUntil st) 0); [naive_solver|].
  destruct (Z.ltb_spec t (fs_blockedUntil st)); naive_solver lia.
Qed.

Lemma recent_length items cutoff :
  (length (appendRecentFailures items cutoff) <= length items)%nat.
Proof. apply length_filter_le. Qed.

Lemma clean_state_spec f now st :
  match (clean_state f now st).1 with
  | Some st' => fs_authFailures st' = appendRecentFailures (fs_authFailures st) (now - ft_window f) ∧
                fs_protocolFailures st' = appendRecentFailures (fs_protocolFailures st) (now - ft_window f) ∧
                (∀ t, now ≤ t → active_block t st = true → active_block t st' = true)
  | None => ∀ t, now ≤ t → active_block t st = false
  end.
Proof.
  unfold clean_state. set (expired := _ && negb (After _ _)).
  assert (∀ t, now ≤ t → active_block t st = true → expired = false) as He.
  { intros t Ht [H1 H2]%active_block_spec. unfold expired, IsZero, After. bool_lia. }
  destruct (_ && (length (appendRecentFailures (fs_protocolFailures st) _) =? 0)%nat) eqn:E; cbn.
  - intros t Ht. destruct (active_block t st) eqn:Ha; [|done].
    rewrite (He t Ht Ha) in E. apply active_block_spec in Ha as [Ha _]. unfold IsZero in E. bool_lia.
  - split_and!; [done..|]. intros t Ht Ha. rewrite (He t Ht Ha) in *.
    apply active_block_spec in Ha. by apply active_block_spec.
Qed.

(** The cleanup changes each entry by itself. *)
Lemma cleanupLocked_lookup rg f now k :
  ft_items (cleanupLocked rg f now).1 !! k
  = ft_items f !! k ≫= λ st, (clean_state f now st).1.
Proof.
  unfold cleanupLocked.
  set (F := λ s ka, _). set (G := λ m k st, match (clean_state f now st).1 with
    | Some st => <[k := st]> m | None => delete k m end : gmap string failState).
  assert (∀ es s, (foldl F s es).1 = foldl (λ m ka, G m ka.1 ka.2) s.1 es) as HF.
  { induction es as [|ka es IH]; intros s; [done|]. cbn [foldl]. rewrite IH. f_equal.
    unfold F, G. by destruct (clean_state f now ka.2) as [[?|] ?]. }
  destruct (foldl F _ _) as [items changed] eqn:E. cbn.
  specialize (HF (range_entries rg (ft_items f)) (ft_items f, false)). rewrite E in HF. cbn in HF.
  rewrite HF. apply (range_update_lookup rg G (λ st, (clean_state f now st).1)).
  intros m j st. done.
Qed.

Lemma cleanupLocked_config rg f now :
  same_config f (cleanupLocked rg f now).1 ∧
  ft_permanent (cleanupLocked rg f now).1 = ft_permanent f ∧
  ft_successfulIPs (cleanupLocked rg f now).1 = ft_successfulIPs f ∧
  ft_successfulDate (cleanupLocked rg f now).1 = ft_successfulDate f.
Proof. unfold cleanupLocked. destruct (foldl _ _ _). by repeat split. Qed.

Lemma size_shrink {A} (m m' : gmap string A) :
  (∀ k, is_Some (m' !! k) → is_Some (m !! k)) → (size m' <= size m)%nat.
Proof.
  intros H. rewrite <-!size_dom. apply subseteq_size. intros k.
  rewrite !elem_of_dom. apply H.
Qed.

Lemma cleanup_inv n rg f now : fail_inv n f → fail_inv n (cleanupLocked rg f now).1.
Proof.
  intros H. destruct (cleanupLocked_config rg f now) as ((E1&E2&E3&E4&_) & Ep & _).
  split.
  - intros k st Hk. rewrite cleanupLocked_lookup in Hk.
    destruct (ft_items f !! k) as [st0|] eqn:Hk0; [|done]. cbn in Hk.
    destruct (fi_entries _ _ H k st0 Hk0) as [Hne Hok]. split; [done|].
    pose proof (clean_state_spec f now st0) as Hc. rewrite Hk in Hc. destruct Hc as (Ea & Epr & _).
    unfold entry_ok in *. rewrite E2, Ea, Epr. intros Hl. specialize (Hok Hl).
    pose proof (recent_length (fs_authFailures st0) (now - ft_window f)).
    pose proof (recent_length (fs_protocolFailures st0) (now - ft_window f)). lia.
  - intros k. rewrite Ep, cleanupLocked_lookup. intros Hk. by rewrite (fi_disjoint _ _ H k Hk).
  - rewrite E4. pose proof (fi_size _ _ H). pose proof (size_shrink (ft_items f) (ft_items (cleanupLocked rg f now).1)) as Hs.
    cut (size (ft_items (cleanupLocked rg f now).1) <= size (ft_items f))%nat; [lia|].
    apply Hs. intros k. rewrite cleanupLocked_lookup. by destruct (ft_items f !! k); [eexists|intros [? [=]]].
  - rewrite E4. apply H.
Qed.

Lemma cleanup_temp rg f now k t :
  now ≤ t → temp f k t → temp (cleanupLocked rg f now).1 k t.
Proof.
  intros Ht (st & Hk & Ha). unfold temp. rewrite cleanupLocked_lookup, Hk. cbn.
  pose proof (clean_state_spec f now st) as Hc. destruct ((clean_state f now st).1) as [st'|].
  - destruct Hc as (_ & _ & Hc). exists st'. split; [done|]. by apply Hc.
  - by rewrite Hc in Ha.
Qed.

(** Changing one entry. *)
Lemma insert_inv n f k st :
  fail_inv n f → k ≠ "" → k ∉ ft_permanent f → entry_ok f st →
  is_Some (ft_items f !! k) ∨ Z.of_nat (size (ft_items f)) < ft_maxItems f →
  fail_inv n (set_items f (<[k := st]> (ft_items f))).
Proof.
  intros H Hne Hp Hok Hroom. split; cbn; try apply H.
  - intros j s. rewrite lookup_insert_Some. intros [[<- <-]|[_ Hs]]; [done|].
    by apply (fi_entries _ _ H).
  - intros j Hj. rewrite lookup_insert_ne by set_solver. by apply (fi_disjoint _ _ H).
  - pose proof (fi_size _ _ H). destruct (ft_items f !! k) as [s|] eqn:E.
    + rewrite map_size_insert_Some by by eexists. done.
    + rewrite map_size_insert_None by done. destruct Hroom as [[? [=]]|Hroom]. lia.
Qed.

Lemma delete_inv n f k : fail_inv n f → fail_inv n (set_items f (delete k (ft_items f))).
Proof.
  intros H. split; cbn; try apply H.
  - intros j s [_ Hs]%lookup_delete_Some. by apply (fi_entries _ _ H).
  - intros j Hj. rewrite lookup_delete_None. right. by apply (fi_disjoint _ _ H).
  - pose proof (fi_size _ _ H). pose proof (size_shrink (ft_items f) (delete k (ft_items f))) as Hs.
    cut (size (delete k (ft_items f)) <= size (ft_items f))%nat; [lia|].
    apply Hs. intros j [s [_ Hj]%lookup_delete_Some]. by eexists.
Qed.

Lemma insert_temp f k st j t :
  temp f j t → (j = k → active_block t st = true) → temp (set_items f (<[k := st]> (ft_items f))) j t.
Proof.
  intros (s & Hj & Ha) Hk. unfold temp. cbn. destruct (decide (k = j)) as [<-|Hne].
  - exists st. rewrite lookup_insert_eq. auto.
  - exists s. by rewrite lookup_insert_ne.
Qed.

Lemma delete_temp f k j t :
  temp f j t → j ≠ k → temp (set_items f (delete k (ft_items f))) j t.
Proof. intros (s & Hj & Ha) Hk. exists s. cbn. by rewrite lookup_delete_ne. Qed.

Definition same_rest (f f' : failTracker) : Prop :=
  same_config f f' ∧ ft_permanent f' = ft_permanent f ∧
  ft_successfulIPs f' = ft_successfulIPs f ∧ ft_successfulDate f' = ft_successfulDate f.

(** The entry [trackStateLocked] gives is the one there was, or a new one. *)
Definition tracked_from (f : failTracker) (key : string) (st : failState) : Prop :=
  match ft_items f !! key with
  | Some st0 => fs_authFailures st = fs_authFailures st0 ∧
                fs_protocolFailures st = fs_protocolFailures st0 ∧
                fs_blockedUntil st = fs_blockedUntil st0
  | None => fs_authFailures st = [] ∧ fs_protocolFailures st = [] ∧ fs_blockedUntil st = 0
  end.

Lemma fresh_ok f now : entry_ok f (mkFailState [] [] zeroTime now).
Proof. unfold entry_ok. cbn. lia. Qed.

Lemma same_rest_refl f : same_rest f f.
Proof. by repeat split. Qed.

Lemma track_spec n rg f key now ost f' :
  fail_inv n f → trackStateLocked rg f key now = (ost, f') →
  fail_inv n f' ∧ same_rest f f' ∧ (∀ k t, now ≤ t → temp f k t → temp f' k t) ∧
  match ost with
  | Some st => TrimSpace key ≠ "" ∧ (TrimSpace key ∉ ft_permanent f) ∧
               ft_items f' !! TrimSpace key = Some st ∧ tracked_from f (TrimSpace key) st
  | None => True
  end.
Proof.
  intros H. unfold trackStateLocked, hasPermanent. set (k := TrimSpace key).
  destruct (String.eqb_spec k "") as [|Hne]; cbn [orb].
  { intros [= <- <-]. split_and!; [done|apply same_rest_refl|by auto|done]. }
  case_bool_decide as Hp.
  { intros [= <- <-]. split_and!; [done|apply same_rest_refl|by auto|done]. }
  destruct (ft_items f !! k) as [st|] eqn:Hk.
  { intros [= <- <-]. split_and!; try done.
    - apply insert_inv; [done..| |left; by eexists]. apply (fi_entries _ _ H k st Hk).
    - intros j t Ht Htemp. apply insert_temp; [done|]. intros ->. destruct Htemp as (s & Hs & Ha).
      simplify_eq. done.
    - cbn. apply lookup_insert_eq.
    - unfold tracked_from. by rewrite Hk. }
  set (f1 := if ft_maxItems f <=? _ then _ else f).
  assert (fail_inv n f1 ∧ same_rest f f1 ∧ (∀ k t, now ≤ t → temp f k t → temp f1 k t) ∧
          ft_items f1 !! k = None) as (H1 & S1 & T1 & N1).
  { subst f1. case_match; [|split_and!; [done|apply same_rest_refl|by auto|done]].
    split_and!; [by apply cleanup_inv|apply cleanupLocked_config|intros; by apply cleanup_temp|].
    by rewrite cleanupLocked_lookup, Hk. }
  clearbody f1. destruct S1 as (C1 & P1 & Su1 & Da1). pose proof C1 as (E1&E2&E3&E4&E5&E6).
  assert (tracked_from f k (mkFailState [] [] zeroTime now)) as Hfrom
    by (unfold tracked_from; by rewrite Hk).
  assert (k ∉ ft_permanent f1) as Hp1 by by rewrite P1.
  destruct (Z.leb_spec (ft_maxItems f1) (Z.of_nat (size (ft_items f1)))) as [Hfull|Hroom].
  - pose proof (pick_oldest_spec (active_block now) fs_lastSeen rg (ft_items f1)) as [O1 O2].
    { intros j a Hj. apply (fi_entries _ _ H1 j a Hj). }
    set (oldest := (pick_oldest _ _ _).1) in *.
    destruct (String.eqb_spec oldest "") as [E|E]; intros [= <- <-].
    + split_and!; [split; cbn; apply H1|by repeat split|done|done].
    + destruct (O2 E) as (st & Hst & Hs & _). assert (oldest ≠ k) as Hok by congruence.
      set (f2 := set_counts (set_items f1 (delete oldest (ft_items f1)))
                   (wrap_u64 (ft_evicted f1 + 1)) (ft_capacityDrop f1)).
      assert (fail_inv n f2) as H2.
      { pose proof (delete_inv n f1 oldest H1) as Hd. split; apply Hd. }
      assert (∀ k t, now ≤ t → temp f k t → temp f2 k t) as T2.
      { intros j t Ht Hj. destruct (decide (j = oldest)) as [->|Hj'].
        - exfalso. destruct (T1 oldest t Ht Hj) as (s & Hs' & Ha). simplify_eq.
          apply active_block_spec in Ha. unfold active_block, IsZero, After in Hs. bool_lia.
        - destruct (delete_temp f1 oldest j t (T1 j t Ht Hj) Hj') as (s & Hs' & Ha). by exists s. }
      assert (Z.of_nat (size (ft_items f2)) < Z.of_nat (size (ft_items f1))) as Hsz.
      { cbn. rewrite map_size_delete_Some by by eexists.
        assert (size (ft_items f1) ≠ 0%nat); [|lia]. intros Hz%map_size_empty_inv.
        rewrite Hz, lookup_empty in Hst. done. }
      split_and!; try done.
      * pose proof (fi_size _ _ H2). pose proof (fi_size _ _ H1). pose proof (fi_pos _ _ H1).
        split; cbn; try apply H2.
        -- intros j s. rewrite lookup_insert_Some. intros [[<- <-]|[_ Hs']]; [split; [done|apply fresh_ok]|].
           by apply (fi_entries _ _ H2).
        -- intros j Hj. rewrite lookup_insert_ne by set_solver. by apply (fi_disjoint _ _ H2).
        -- etransitivity; [|exact (fi_size _ _ H1)]. cbn in Hsz.
           rewrite map_size_insert_None; [lia|]. by rewrite lookup_delete_ne.
      * intros j t Ht Hj. apply (insert_temp f2); [by apply T2|]. intros ->.
        destruct Hj as (s & Hs' & _). congruence.
      * cbn. apply lookup_insert_eq.
  - intros [= <- <-]. split_and!; try done.
    + apply insert_inv; [done..|apply fresh_ok|by right].
    + intros j t Ht Hj. apply insert_temp; [by apply T1|]. intros ->.
      destruct Hj as (s & Hs' & _). congruence.
    + cbn. apply lookup_insert_eq.
Qed.

(** ** Runs *)

Section Runs.
Context `{StateCodec : JSONCodec (list persistedBlockedIP)} `{LocalTime}.

(** What can happen to the tracker once the server runs, in any order: each
    critical section is one event, so a reader of [blockKind] that found an
    expired block comes back with the clock reading it made before. *)
Inductive fail_event :=
| FAuth (rg : MapRange failState) (key : string) (now saved : Time)
| FProtocol (rg : MapRange failState) (key : string) (now saved : Time)
| FSuccess (key : string) (now : Time)
| FExpire (rg : MapRange failState) (key : string) (now saved : Time)
| FCleanup (rg : MapRange failState) (now saved : Time)
| FUnblock (rg : MapRange failState) (key : string) (saved : Time)
| FUnblockPermanent (srg : SetRange) (key : string)
| FRemoveSuccessful (srg : SetRange) (ips : gset string).

Definition fail_time (ev : fail_event) : option Time :=
  match ev with
  | FAuth _ _ now _ | FProtocol _ _ now _ | FSuccess _ now | FExpire _ _ now _ | FCleanup _ now _ =>
      Some now
  | _ => None
  end.

Definition fail_step (s : failTracker * Disk) (ev : fail_event) : failTracker * Disk :=
  let '(f, d) := s in
  match ev with
  | FAuth rg key now saved => addFailure rg f key now saved d
  | FProtocol rg key now saved => let '(_, f, d) := addProtocolFailure rg f key now saved d in (f, d)
  | FSuccess key now => ((markSuccessful f key now).2, d)
  | FExpire rg key now saved => let '(_, f, d) := blockKindExpire rg f key now saved d in (f, d)
  | FCleanup rg now saved => let '(f, d, _) := cleanup rg f now saved d in (f, d)
  | FUnblock rg key saved => let '(_, f, d, _) := unblock rg f key saved d in (f, d)
  | FUnblockPermanent srg key => let '(f, d, _) := unblockPermanent srg f key d in (f, d)
  | FRemoveSuccessful srg ips => let '(f, d, _) := removePermanentSuccessful srg f ips d in (f, d)
  end.

Definition fail_run (s : failTracker * Disk) (evs : list fail_event) : failTracker * Disk :=
  foldl fail_step s evs.

(** A tracker that changed only in its successful addresses or its permanent
    ones is as good, when the latter shrank. *)
Lemma shrink_permanent_inv n f p : fail_inv n f → p ⊆ ft_permanent f → fail_inv n (set_permanent f p).
Proof.
  intros H' Hp. split; try apply H'. intros k Hk. apply (fi_disjoint _ _ H'). cbn in Hk. set_solver.
Qed.

Lemma set_successful_inv n f date ips : fail_inv n f → fail_inv n (set_successful f date ips).
Proof. intros H'. split; apply H'. Qed.

Lemma rotate_inv n f now : fail_inv n f → fail_inv n (rotateSuccessfulIPsLocked f now).
Proof. intros H'. unfold rotateSuccessfulIPsLocked. case_match; [done|by apply set_successful_inv]. Qed.

Lemma rotate_fields f now :
  same_config f (rotateSuccessfulIPsLocked f now) ∧
  ft_permanent (rotateSuccessfulIPsLocked f now) = ft_permanent f ∧
  ft_items (rotateSuccessfulIPsLocked f now) = ft_items f.
Proof. unfold rotateSuccessfulIPsLocked. case_match; by repeat split. Qed.

Lemma addFailure_inv n rg f key now saved d :
  fail_inv n f → fail_inv n (addFailure rg f key now saved d).1.
Proof.
  intros Hf. unfold addFailure. destruct (trackStateLocked rg f key now) as [ost f'] eqn:E.
  eapply track_spec in E as (H1 & (C & P & _) & _ & Hst); [|done].
  destruct ost as [st|]; [|done]. destruct Hst as (Hne & Hp & Hk & Hfrom).
  destruct (hasPermanent f' key); [done|].
  destruct (fi_entries _ _ H1 _ _ Hk) as [_ Hok]. rewrite <-P in Hp.
  case_match eqn:El; apply insert_inv; try done; try (left; by eexists).
  - intros Hl. specialize (Hok Hl). cbn. lia.
  - intros Hl. specialize (Hok Hl). cbn in *. bool_lia.
Qed.

Lemma addProtocolFailure_inv n rg f key now saved d :
  fail_inv n f → fail_inv n (addProtocolFailure rg f key now saved d).1.2.
Proof.
  intros Hf. unfold addProtocolFailure. cbn zeta. set (k := default key _).
  unfold successfulTodayLocked. apply (rotate_inv _ _ now) in Hf.
  set (f0 := rotateSuccessfulIPsLocked f now) in *. clearbody f0.
  case_bool_decide; [done|].
  destruct (trackStateLocked rg f0 k now) as [ost f'] eqn:E.
  eapply track_spec in E as (H1 & (C & P & _) & _ & Hst); [|done].
  destruct ost as [st|]; [|done]. destruct Hst as (Hne & Hp & Hk & Hfrom).
  destruct (hasPermanent f' k); [done|].
  destruct (fi_entries _ _ H1 _ _ Hk) as [_ Hok]. rewrite <-P in Hp.
  case_match eqn:El.
  - assert (fail_inv n (set_items f' (<[TrimSpace k := mkFailState [] [] zeroTime now]> (ft_items f')))) as H2
      by (apply insert_inv; try done; try apply fresh_ok; left; by eexists).
    unfold blockPermanentLocked. case_match; [done|].
    destruct (appendPermanentBlockedIP _ _ _) as [d' [?|e]]; [|done]. cbn.
    pose proof (delete_inv n _ (TrimSpace k) H2) as Hdel. split; try apply Hdel.
    intros j. cbn. rewrite lookup_delete_None, elem_of_union, elem_of_singleton.
    intros [->|Hj]; [by left|right]. by apply (fi_disjoint _ _ H2).
  - apply insert_inv; try done; [|left; by eexists].
    intros Hl. specialize (Hok Hl). cbn in *. bool_lia.
Qed.

Lemma markSuccessful_inv n f key now : fail_inv n f → fail_inv n (markSuccessful f key now).2.
Proof.
  intros Hf. unfold markSuccessful. destruct (canonicalSuccessfulIP key) as [k|]; [|done].
  apply (rotate_inv _ _ now) in Hf. set (f0 := rotateSuccessfulIPsLocked f now) in *. clearbody f0.
  cbn zeta. case_match; [done|]. cbn [snd].
  set (f1 := set_successful f0 _ _). assert (fail_inv n f1) as H1 by by apply set_successful_inv.
  clearbody f1. destruct (ft_items f1 !! k) as [st|] eqn:Hk; [|done].
  destruct (fi_entries _ _ H1 k st Hk) as [Hne Hok].
  apply insert_inv; [done..| | |left; by eexists].
  - intros Hp. by rewrite (fi_disjoint _ _ H1 k Hp) in Hk.
  - intros Hl. specialize (Hok Hl). cbn. lia.
Qed.

Lemma blockKindExpire_inv n rg f key now saved d :
  fail_inv n f → fail_inv n (blockKindExpire rg f key now saved d).1.2.
Proof.
  intros Hf. unfold blockKindExpire. destruct (ft_items f !! key) as [st|] eqn:Hk; [|done].
  case_match; [done|]. case_match; [done|]. cbn [fst snd].
  case_match; [by apply delete_inv|].
  destruct (fi_entries _ _ Hf key st Hk) as [Hne Hok].
  apply insert_inv; [done..| |done|left; by eexists].
  intros Hp. by rewrite (fi_disjoint _ _ Hf key Hp) in Hk.
Qed.

Lemma fail_step_inv n s ev : fail_inv n s.1 → fail_inv n (fail_step s ev).1.
Proof.
  destruct s as [f d]. cbn [fst]. intros Hf. destruct ev; cbn [fail_step].
  - by apply addFailure_inv.
  - pose proof (addProtocolFailure_inv n rg f key now saved d Hf) as HH.
    by destruct (addProtocolFailure _ _ _ _ _ _) as [[? ?] ?].
  - by apply markSuccessful_inv.
  - pose proof (blockKindExpire_inv n rg f key now saved d Hf) as HH.
    by destruct (blockKindExpire _ _ _ _ _ _) as [[? ?] ?].
  - unfold cleanup. pose proof (cleanup_inv n rg f now Hf) as HH.
    destruct (cleanupLocked rg f now) as [f' b]. cbn in HH.
    destruct b; cbn; [by destruct (saveLocked _ _ _ _)|done].
  - unfold unblock. cbn zeta. destruct (String.eqb (TrimSpace key) ""); [done|].
    destruct (saveLocked _ _ _ _). by apply delete_inv.
  - unfold unblockPermanent. cbn zeta. destruct (String.eqb (TrimSpace key) ""); [done|].
    destruct (RemovePermanentBlockedIP _ _ _ _) as [d' [b|e]]; [|done].
    destruct (b || _); [|done]. apply shrink_permanent_inv; [done|set_solver].
  - unfold removePermanentSuccessful. destruct (size ips =? 0)%nat; [done|].
    destruct (removePermanentBlockedIPs _ _ _ _) as [d' [b|e]]; [|done].
    apply shrink_permanent_inv; [done|set_solver].
Qed.

Lemma fail_run_inv n s evs : fail_inv n s.1 → fail_inv n (fail_run s evs).1.
Proof.
  intros Hs. unfold fail_run. induction evs as [|ev evs IH] using rev_ind; [done|].
  rewrite foldl_snoc. by apply fail_step_inv.
Qed.
End Runs.

(** ** The block of an address holds *)

Section Holds.
Context `{StateCodec : JSONCodec (list persistedBlockedIP)} `{LocalTime}.

Definition blocked (f : failTracker) (k : string) (t : Time) : Prop :=
  k ∈ ft_permanent f ∨ temp f k t.

(** The events that end a block of [k] before [t]: the operator unblocks it, a
    successful request in the history takes it off the permanent list, or a
    new block that ends before [t] replaces it. *)
Definition lifts (blockFor : Duration) (k : string) (t : Time) (ev : fail_event) : Prop :=
  match ev with
  | FAuth _ key now _ => TrimSpace key = k ∧ now + blockFor ≤ t
  | FUnblock _ key _ => TrimSpace key = k
  | FUnblockPermanent _ key => permanentBlockIPKey (TrimSpace key) = k
  | FRemoveSuccessful _ ips => ∃ ip, ip ∈ ips ∧ permanentBlockIPKey ip = k
  | _ => False
  end.

Definition not_after (t : Time) (ev : fail_event) : Prop :=
  match fail_time ev with Some now => now ≤ t | None => True end.

Lemma saveLocked_errors rg f now d : same_errors d (saveLocked rg f now d).1.
Proof.
  unfold saveLocked. case_match; [done|]. destruct (MkdirAll _ _); [|done].
  destruct (marshal _); [|done]. apply WriteFile_errors.
Qed.

Lemma temp_items f f' k t : ft_items f' = ft_items f → temp f k t → temp f' k t.
Proof. unfold temp. by intros ->. Qed.

Lemma addFailure_blocked n rg f key now saved d k t :
  fail_inv n f → now ≤ t → ¬ (TrimSpace key = k ∧ now + ft_blockFor f ≤ t) → 0 ≤ t →
  blocked f k t → blocked (addFailure rg f key now saved d).1 k t.
Proof.
  intros Hf Ht Hl Hpos Hb. unfold addFailure.
  destruct (trackStateLocked rg f key now) as [ost f'] eqn:E.
  eapply track_spec in E as (H1 & (C & P & _) & T & Hst); [|done].
  assert (blocked f' k t) as Hb'.
  { destruct Hb as [Hb|Hb]; [left; by rewrite P|right; by apply T]. }
  destruct ost as [st|]; [|done]. destruct (hasPermanent f' key); [done|].
  destruct Hst as (Hne & Hp & Hk & _). destruct C as (E1 & E2 & E3 & _).
  destruct Hb' as [Hb'|Hb']; [left; by case_match|right].
  case_match; apply insert_temp; try done; intros ->; apply active_block_spec; cbn.
  - rewrite E3. assert (¬ now + ft_blockFor f ≤ t) by (intros ?; by apply Hl). lia.
  - destruct Hb' as (s & Hs & Ha). simplify_eq. by apply active_block_spec.
Qed.

Lemma addProtocolFailure_blocked n rg f key now saved d k t :
  fail_inv n f → no_errors d → now ≤ t → blocked f k t →
  blocked (addProtocolFailure rg f key now saved d).1.2 k t.
Proof.
  intros Hf Hd Ht Hb. unfold addProtocolFailure. cbn zeta. set (kc := default key _).
  unfold successfulTodayLocked. destruct (rotate_fields f now) as (_ & Pr & Ir).
  apply (rotate_inv _ _ now) in Hf. set (f0 := rotateSuccessfulIPsLocked f now) in *.
  assert (blocked f0 k t) as Hb0.
  { destruct Hb as [Hb|Hb]; [left; by rewrite Pr|right; by apply (temp_items f)]. }
  clearbody f0. case_bool_decide; [done|].
  destruct (trackStateLocked rg f0 kc now) as [ost f'] eqn:E.
  eapply track_spec in E as (H1 & (C & P & _) & T & Hst); [|done].
  assert (blocked f' k t) as Hb'.
  { destruct Hb0 as [Hb'|Hb']; [left; by rewrite P|right; by apply T]. }
  destruct ost as [st|]; [|done]. destruct Hst as (Hne & Hp & Hk & _).
  unfold hasPermanent at 1. case_bool_decide as Hpk; [done|].
  destruct (ft_limit f' <=? _).
  - unfold blockPermanentLocked, hasPermanent. cbn zeta. rewrite bool_decide_eq_false_2 by (cbn; by rewrite P).
    destruct (String.eqb_spec (TrimSpace kc) "") as [|_]; [done|]. cbn [orb].
    pose proof (append_ok d (ft_permanentFile (set_items f' (<[TrimSpace kc := mkFailState [] [] zeroTime now]>
      (ft_items f')))) (TrimSpace kc) Hd) as Ha.
    destruct (appendPermanentBlockedIP _ _ _) as [d' r]. cbn in Ha. subst r. cbn.
    destruct (decide (k = TrimSpace kc)) as [->|Hne'].
    { left. cbn. by apply elem_of_union_l, elem_of_singleton. }
    destruct Hb' as [Hb'|(s & Hs & Ha)]; [left; cbn; by apply elem_of_union_r|right].
    exists s. cbn. by rewrite lookup_delete_ne, lookup_insert_ne.
  - destruct Hb' as [Hb'|Hb']; [by left|right]. apply insert_temp; [done|]. intros ->.
    destruct Hb' as (s & Hs & Ha). simplify_eq. apply active_block_spec. by apply active_block_spec in Ha.
Qed.

Lemma markSuccessful_blocked f key now k t :
  blocked f k t → blocked (markSuccessful f key now).2 k t.
Proof.
  intros Hb. unfold markSuccessful. destruct (canonicalSuccessfulIP key) as [kc|]; [|done].
  destruct (rotate_fields f now) as (_ & Pr & Ir). set (f0 := rotateSuccessfulIPsLocked f now) in *.
  assert (blocked f0 k t) as Hb0.
  { destruct Hb as [Hb|Hb]; [left; by rewrite Pr|right; by apply (temp_items f)]. }
  clearbody f0. cbn zeta. destruct (negb _ && _); [done|]. cbn [snd].
  set (f1 := set_successful f0 _ _). assert (blocked f1 k t) as Hb1 by done. clearbody f1.
  destruct (ft_items f1 !! kc) as [st|] eqn:Hk; [|done].
  destruct Hb1 as [Hb1|Hb1]; [by left|right]. apply insert_temp; [done|]. intros ->.
  destruct Hb1 as (s & Hs & Ha). simplify_eq. apply active_block_spec. by apply active_block_spec in Ha.
Qed.

Lemma blockKindExpire_blocked rg f key now saved d k t :
  now ≤ t → blocked f k t → blocked (blockKindExpire rg f key now saved d).1.2 k t.
Proof.
  intros Ht Hb. unfold blockKindExpire. destruct (ft_items f !! key) as [st|] eqn:Hk; [|done].
  destruct (hasPermanent f key); [done|].
  destruct (IsZero (fs_blockedUntil st) || Before now (fs_blockedUntil st)) eqn:E; [done|]. cbn [fst snd].
  assert (∀ s, ft_items f !! k = Some s → active_block t s = true → k ≠ key) as Hne.
  { intros s Hs Ha ->. simplify_eq. apply active_block_spec in Ha. unfold IsZero, Before in E. bool_lia. }
  destruct Hb as [Hb|(s & Hs & Ha)]; [left; by case_match|right]. specialize (Hne s Hs Ha).
  case_match; exists s; cbn; [by rewrite lookup_delete_ne|by rewrite lookup_insert_ne].
Qed.

Lemma fail_step_blocked n s ev k t :
  fail_inv n s.1 → no_errors s.2 → not_after t ev → ¬ lifts (ft_blockFor s.1) k t ev → 0 ≤ t →
  blocked s.1 k t → blocked (fail_step s ev).1 k t.
Proof.
  destruct s as [f d]. cbn [fst snd]. intros Hf Hd Ht Hl Hpos Hb.
  destruct ev; unfold not_after in Ht; cbn in Ht; cbn [lifts] in Hl; cbn [fail_step].
  - by eapply addFailure_blocked.
  - pose proof (addProtocolFailure_blocked n rg f key now saved d k t Hf Hd Ht Hb).
    by destruct (addProtocolFailure _ _ _ _ _ _) as [[? ?] ?].
  - by apply markSuccessful_blocked.
  - pose proof (blockKindExpire_blocked rg f key now saved d k t Ht Hb).
    by destruct (blockKindExpire _ _ _ _ _ _) as [[? ?] ?].
  - unfold cleanup. destruct (cleanupLocked_config rg f now) as (_ & P & _).
    assert (blocked (cleanupLocked rg f now).1 k t) as Hc.
    { destruct Hb as [Hb|Hb]; [left; by rewrite P|right; by apply cleanup_temp]. }
    destruct (cleanupLocked rg f now) as [f' b]. cbn in Hc.
    destruct b; cbn; [by destruct (saveLocked _ _ _ _)|done].
  - unfold unblock. cbn zeta. destruct (String.eqb (TrimSpace key) ""); [done|].
    destruct (saveLocked _ _ _ _). cbn.
    destruct Hb as [Hb|Hb]; [by left|right]. apply delete_temp; [done|congruence].
  - unfold unblockPermanent. cbn zeta. destruct (String.eqb (TrimSpace key) ""); [done|].
    destruct (RemovePermanentBlockedIP _ _ _ _) as [d' [b|e]]; [|done].
    destruct (b || _); [|done]. destruct Hb as [Hb|Hb]; [left|by right]. cbn. set_solver.
  - unfold removePermanentSuccessful. destruct (size ips =? 0)%nat; [done|].
    destruct (removePermanentBlockedIPs _ _ _ _) as [d' [b|e]] eqn:E; [|done].
    apply removed_sub in E. destruct Hb as [Hb|Hb]; [left|by right]. cbn.
    apply elem_of_difference. split; [done|]. intros Hk%E%elem_of_targets. apply Hl. naive_solver.
Qed.

Lemma fail_step_errors s ev : same_errors s.2 (fail_step s ev).2.
Proof.
  destruct s as [f d]. cbn [snd]. destruct ev; cbn [fail_step].
  - unfold addFailure. destruct (trackStateLocked _ _ _ _) as [[st|] f']; [|done].
    destruct (hasPermanent _ _); [done|]. case_match; [apply saveLocked_errors|done].
  - unfold addProtocolFailure. cbn zeta. destruct (successfulTodayLocked _ _ _) as [b f0].
    destruct b; [done|]. destruct (trackStateLocked _ _ _ _) as [[st|] f']; [|done].
    destruct (hasPermanent _ _); [done|]. destruct (_ <=? _); [|done].
    unfold blockPermanentLocked. cbn zeta. destruct (_ || _); [done|].
    match goal with |- context [appendPermanentBlockedIP ?d ?p ?k] =>
      pose proof (append_errors d p k) as Ha; destruct (appendPermanentBlockedIP d p k) as [d' [?|?]] end;
      [|done]. etransitivity; [exact Ha|]. apply saveLocked_errors.
  - done.
  - unfold blockKindExpire. destruct (ft_items f !! key) as [st|]; [|done].
    destruct (hasPermanent _ _); [done|]. destruct (_ || _); [done|]. apply saveLocked_errors.
  - unfold cleanup. destruct (cleanupLocked _ _ _) as [f' b]. destruct b; [|done]. cbn.
    pose proof (saveLocked_errors rg f' saved d). by destruct (saveLocked _ _ _ _).
  - unfold unblock. cbn zeta. destruct (String.eqb _ _); [done|].
    pose proof (saveLocked_errors rg (set_items f (delete (TrimSpace key) (ft_items f))) saved d).
    by destruct (saveLocked _ _ _ _).
  - unfold unblockPermanent, RemovePermanentBlockedIP. cbn zeta. destruct (String.eqb (TrimSpace key) ""); [done|].
    destruct (String.eqb (permanentBlockIPKey _) _); [by destruct (false || _)|].
    pose proof (remove_errors srg d (ft_permanentFile f) {[ permanentBlockIPKey (TrimSpace key) ]}).
    destruct (removePermanentBlockedIPs _ _ _ _) as [d' [?|?]]; [|done]. by destruct (_ || _).
  - unfold removePermanentSuccessful. destruct (_ =? 0)%nat; [done|].
    pose proof (remove_errors srg d (ft_permanentFile f) ips).
    by destruct (removePermanentBlockedIPs _ _ _ _) as [d' [?|?]].
Qed.

Lemma same_config_trans f1 f2 f3 : same_config f1 f2 → same_config f2 f3 → same_config f1 f3.
Proof. unfold same_config. intros (?&?&?&?&?&?) (?&?&?&?&?&?). repeat split; congruence. Qed.

Lemma fail_step_config n s ev : fail_inv n s.1 → same_config s.1 (fail_step s ev).1.
Proof.
  destruct s as [f d]. cbn [fst]. intros Hf. destruct ev; cbn [fail_step].
  - unfold addFailure. destruct (trackStateLocked _ _ _ _) as [ost f'] eqn:E.
    eapply track_spec in E as (_ & (C & _) & _); [|done]. destruct ost; [|done].
    destruct (hasPermanent _ _); [done|]. by case_match.
  - unfold addProtocolFailure. cbn zeta. unfold successfulTodayLocked.
    destruct (rotate_fields f now) as (C0 & _). apply (rotate_inv _ _ now) in Hf.
    case_bool_decide; [done|].
    destruct (trackStateLocked _ _ _ _) as [ost f'] eqn:E.
    eapply track_spec in E as (_ & (C & _) & _); [|done]. pose proof (same_config_trans _ _ _ C0 C) as Hc.
    destruct ost; [|done]. destruct (hasPermanent _ _); [done|]. destruct (_ <=? _); [|done].
    unfold blockPermanentLocked. cbn zeta. destruct (_ || _); [done|].
    by destruct (appendPermanentBlockedIP _ _ _) as [? [?|?]].
  - unfold markSuccessful. destruct (canonicalSuccessfulIP _); [|done].
    destruct (rotate_fields f now) as (C0 & _). cbn zeta. destruct (_ && _); [done|]. cbn [snd].
    by destruct (_ !! _).
  - unfold blockKindExpire. destruct (_ !! _); [|done]. destruct (hasPermanent _ _); [done|].
    by destruct (_ || _).
  - unfold cleanup. destruct (cleanupLocked_config rg f now) as (C & _).
    destruct (cleanupLocked _ _ _) as [f' b]. destruct b; [|done]. cbn.
    by destruct (saveLocked _ _ _ _).
  - unfold unblock. cbn zeta. destruct (String.eqb _ _); [done|]. by destruct (saveLocked _ _ _ _).
  - unfold unblockPermanent. cbn zeta. destruct (String.eqb (TrimSpace key) ""); [done|].
    destruct (RemovePermanentBlockedIP _ _ _ _) as [d' [b|e]]; [|done]. by destruct (b || _).
  - unfold removePermanentSuccessful. destruct (_ =? 0)%nat; [done|].
    by destruct (removePermanentBlockedIPs _ _ _ _) as [d' [?|?]].
Qed.

(** Everything a run keeps. *)
Lemma fail_run_keeps n s evs :
  fail_inv n s.1 →
  fail_inv n (fail_run s evs).1 ∧ same_config s.1 (fail_run s evs).1 ∧ same_errors s.2 (fail_run s evs).2.
Proof.
  intros Hs. unfold fail_run. induction evs as [|ev evs (I & C & D)] using rev_ind.
  { split_and!; [done|by repeat split|done]. }
  rewrite foldl_snoc. split_and!.
  - by apply fail_step_inv.
  - eapply same_config_trans; [done|]. by eapply fail_step_config.
  - etransitivity; [done|]. apply fail_step_errors.
Qed.
End Holds.

(** ** The properties *)

Section Properties.
Context `{StateCodec : JSONCodec (list persistedBlockedIP)} `{LocalTime}.


Definition auth_recent (f : failTracker) (key : string) (now : Time) : list Time :=
  appendRecentFailures (match ft_items f !! key with Some st => fs_authFailures st | None => [] end)
    (now - ft_window f).

(** Authentication failures block exactly at the threshold. For an address
    the tracker can track, when the failures within the window, this one
    included, reach the limit, the address is blocked until [now + blockFor]
    and not a moment longer, and counting starts again; below the limit what a
    reader sees of the address does not change. *)
Theorem auth_failures_block n rg f key now saved d :
  fail_inv n f → TrimSpace key = key → (trackStateLocked rg f key now).1 ≠ None →
  0 < now + ft_blockFor f →
  let f' := (addFailure rg f key now saved d).1 in
  if ft_limit f <=? Z.of_nat (length (auth_recent f key now)) + 1 then
    (∀ t, blockKindRead f' key t = Some blockedTemporary ↔ t < now + ft_blockFor f) ∧
    (∀ rg t saved d, now + ft_blockFor f ≤ t → (blockKind rg f' key t saved d).1.1 = blockedNone) ∧
    auth_recent f' key now = []
  else (∀ t, blockKindRead f' key t = blockKindRead f key t) ∧
       auth_recent f' key now = auth_recent f key now ++ (if decide (0 < ft_window f) then [now] else []).
Proof.
  intros Hf Htrim Htrack Hpos. cbn zeta. unfold addFailure.
  destruct (trackStateLocked rg f key now) as [ost f1] eqn:E. destruct ost as [st|]; [|done].
  eapply track_spec in E as (H1 & ((W & L & B & _) & P & _) & _ & (Hne & Hp & Hk & Hfrom)); [|done].
  rewrite Htrim in *. assert (hasPermanent f1 key = false) as Hperm.
  { unfold hasPermanent. rewrite P. by apply bool_decide_eq_false_2. }
  rewrite Hperm. assert (appendRecentFailures (fs_authFailures st) (now - ft_window f) = auth_recent f key now) as Ea.
  { unfold auth_recent, tracked_from in *. by destruct (ft_items f !! key); destruct Hfrom as (-> & _). }
  rewrite W, L, B, Ea, length_app, Nat2Z.inj_add. cbn [length]. change (Z.of_nat 1) with 1.
  destruct (Z.leb_spec (ft_limit f) (Z.of_nat (length (auth_recent f key now)) + 1)); cbn [fst].
  - split_and!.
    + intros t. rewrite blockKindRead_temporary. cbn. rewrite P. split.
      * intros (_ & s & Hs & Ha). cbn in Hs. rewrite lookup_insert_eq in Hs. injection Hs as <-.
        apply active_block_spec in Ha. cbn in Ha. lia.
      * intros Ht. split; [done|]. eexists. cbn. rewrite lookup_insert_eq. split; [done|].
        apply active_block_spec. cbn. lia.
    + intros rg' t saved' d' Ht. unfold blockKind, blockKindRead, blockKindExpire.
      change (hasPermanent (set_items f1 _) key) with (hasPermanent f1 key). rewrite Hperm. cbn.
      rewrite lookup_insert_eq. cbn. unfold IsZero, Before.
      destruct (Z.eqb_spec (now + ft_blockFor f) 0); [lia|].
      destruct (Z.ltb_spec t (now + ft_blockFor f)); [lia|]. done.
    + unfold auth_recent. cbn. by rewrite lookup_insert_eq.
  - split.
    + intros t. unfold blockKindRead, hasPermanent. cbn. rewrite P, lookup_insert_eq. cbn.
      unfold tracked_from in Hfrom. destruct (ft_items f !! key) as [s0|]; destruct Hfrom as (_ & _ & ->); done.
    + unfold auth_recent at 1. cbn. rewrite lookup_insert_eq. cbn. rewrite W. unfold appendRecentFailures.
      rewrite filter_app. f_equal.
      * unfold auth_recent, appendRecentFailures. rewrite list_filter_filter. apply list_filter_iff. tauto.
      * rewrite filter_cons, filter_nil. unfold After.
        repeat case_decide; try done; rewrite Z.ltb_lt in *; lia.
Qed.

Lemma markSuccessful_permanent f key now :
  ft_permanent (markSuccessful f key now).2 = ft_permanent f.
Proof.
  unfold markSuccessful. destruct (canonicalSuccessfulIP key) as [k|]; [|done].
  destruct (rotate_fields f now) as (_ & <- & _). cbn zeta. destruct (negb _ && _); [done|]. cbn [snd].
  by case_match.
Qed.

Lemma other_events_permanent n f d ev :
  fail_inv n f → (∀ rg key now saved, ev ≠ FProtocol rg key now saved) →
  ft_permanent (fail_step (f, d) ev).1 ⊆ ft_permanent f.
Proof.
  intros Hf Hev k Hin. destruct ev; cbn [fail_step] in *.
  - unfold addFailure in Hin. destruct (trackStateLocked _ _ _ _) as [ost f'] eqn:E.
    eapply track_spec in E as (_ & (_ & P & _) & _); [|done]. rewrite <-P.
    destruct ost; [|done]. destruct (hasPermanent _ _); [done|]. by case_match.
  - by destruct (Hev rg key now saved).
  - cbn [fst] in Hin. by rewrite markSuccessful_permanent in Hin.
  - unfold blockKindExpire in Hin. destruct (_ !! _) in Hin; [|done].
    destruct (hasPermanent _ _) in Hin; [done|]. by destruct (_ || _) in Hin.
  - unfold cleanup in Hin. destruct (cleanupLocked_config rg f now) as (_ & P & _).
    destruct (cleanupLocked _ _ _) as [f' b]. cbn in P. rewrite <-P.
    destruct b; [|done]. cbn in Hin. by destruct (saveLocked _ _ _ _) in Hin.
  - unfold unblock in Hin. cbn zeta in Hin. destruct (String.eqb _ _) in Hin; [done|].
    by destruct (saveLocked _ _ _ _) in Hin.
  - unfold unblockPermanent in Hin. cbn zeta in Hin.
    destruct (String.eqb (TrimSpace key) "") in Hin; [done|].
    destruct (RemovePermanentBlockedIP _ _ _ _) as [d' [b|e]]; [|done].
    destruct (b || _) in Hin; cbn in Hin; set_solver.
  - unfold removePermanentSuccessful in Hin. destruct (_ =? 0)%nat in Hin; [done|].
    destruct (removePermanentBlockedIPs _ _ _ _) as [d' [?|?]]; cbn in Hin; set_solver.
Qed.

Lemma protocol_event_permanent n f d rg key now saved k :
  fail_inv n f → (k ∉ ft_permanent f) →
  k ∈ ft_permanent (addProtocolFailure rg f key now saved d).1.2 →
  TrimSpace (default key (canonicalSuccessfulIP key)) = k ∧
  (default key (canonicalSuccessfulIP key) ∉ ft_successfulIPs (rotateSuccessfulIPsLocked f now)) ∧
  ft_limit f ≤ Z.of_nat (length (appendRecentFailures
    (match ft_items f !! k with Some st => fs_protocolFailures st | None => [] end)
    (now - ft_window f))) + 1.
Proof.
  intros Hf Hk Hin.
  unfold addProtocolFailure in Hin. cbn zeta in Hin. set (kc := default key _) in *.
  unfold successfulTodayLocked in Hin. destruct (rotate_fields f now) as ((W0&L0&_) & Pr & Ir).
  apply (rotate_inv _ _ now) in Hf. set (f0 := rotateSuccessfulIPsLocked f now) in *.
  case_bool_decide as Hs; [cbn in Hin; by rewrite Pr in Hin|].
  destruct (trackStateLocked rg f0 kc now) as [ost f1] eqn:E.
  eapply track_spec in E as (_ & ((W & L & _) & P & _) & _ & Hst); [|done].
  destruct ost as [st|]; [|cbn in Hin; by rewrite P, Pr in Hin].
  destruct Hst as (Hne & Hp & Hks & Hfrom).
  destruct (hasPermanent f1 kc); [cbn in Hin; by rewrite P, Pr in Hin|].
  destruct (Z.leb_spec (ft_limit f1) (Z.of_nat (length (appendRecentFailures (fs_protocolFailures st)
    (now - ft_window f1) ++ [now])))) as [Hlim|]; [|cbn in Hin; by rewrite P, Pr in Hin].
  assert (k = TrimSpace kc) as ->.
  { unfold blockPermanentLocked in Hin. cbn zeta in Hin.
    destruct (_ || _) in Hin; [cbn in Hin; by rewrite P, Pr in Hin|].
    destruct (appendPermanentBlockedIP _ _ _) as [? [?|?]]; cbn in Hin; rewrite P, Pr in Hin; [|done].
    by apply elem_of_union in Hin as [?%elem_of_singleton|?]. }
  split_and!; try done. rewrite <-Ir, <-W0, <-L0, <-W, <-L. rewrite length_app in Hlim. cbn in Hlim.
  unfold tracked_from in Hfrom. destruct (ft_items f0 !! TrimSpace kc); destruct Hfrom as (_ & Hfr & _);
    rewrite Hfr in Hlim; lia.
Qed.

(** An address becomes permanently blocked in memory in one way only: by a
    protocol failure that reaches the limit within the window while no
    successful request of that address is recorded for that day; it is then
    out of the table of temporary states. *)
Theorem permanent_only_by_protocol n f d ev k :
  fail_inv n f → (k ∉ ft_permanent f) → k ∈ ft_permanent (fail_step (f, d) ev).1 →
  ∃ rg key now saved, ev = FProtocol rg key now saved ∧
    TrimSpace (default key (canonicalSuccessfulIP key)) = k ∧
    (default key (canonicalSuccessfulIP key) ∉ ft_successfulIPs (rotateSuccessfulIPsLocked f now)) ∧
    ft_limit f ≤ Z.of_nat (length (appendRecentFailures
      (match ft_items f !! k with Some st => fs_protocolFailures st | None => [] end)
      (now - ft_window f))) + 1 ∧
    ft_items (fail_step (f, d) ev).1 !! k = None.
Proof.
  intros Hf Hk Hin. pose proof (fail_step_inv n (f, d) ev Hf) as Hf'.
  pose proof (fi_disjoint _ _ Hf' k Hin) as Hnone.
  destruct ev as [|rg key now saved| | | | | |];
    try (exfalso; apply Hk; eapply (other_events_permanent n f d); [done| |exact Hin]; done).
  exists rg, key, now, saved. split; [done|].
  destruct (protocol_event_permanent n f d rg key now saved k Hf Hk) as (? & ? & ?); [|by split_and!].
  cbn [fail_step] in Hin. by destruct (addProtocolFailure _ _ _ _ _ _) as [[? ?] ?].
Qed.

(** A tracker as [load] leaves it. *)
Definition loaded_ok (f : failTracker) : Prop :=
  (∀ k st, ft_items f !! k = Some st →
     k ≠ "" ∧ fs_authFailures st = [] ∧ fs_protocolFailures st = []) ∧
  (∀ k, k ∈ ft_permanent f → ft_items f !! k = None) ∧ 0 < ft_maxItems f.

Lemma loaded_inv f : loaded_ok f → fail_inv (Z.of_nat (size (ft_items f))) f.
Proof.
  intros (H1 & H2 & H3). split; [|done|lia|done].
  intros k st Hk. destruct (H1 k st Hk) as (Hne & Ea & Ep). split; [done|].
  unfold entry_ok. rewrite Ea, Ep. cbn. lia.
Qed.

Lemma load_items_entries now blocks items :
  (∀ k st, items !! k = Some st → k ≠ "" ∧ fs_authFailures st = [] ∧ fs_protocolFailures st = []) →
  ∀ k st, foldl (load_item now) items blocks !! k = Some st →
    k ≠ "" ∧ fs_authFailures st = [] ∧ fs_protocolFailures st = [].
Proof.
  revert items. induction blocks as [|b blocks IH]; intros items Hi; cbn [foldl]; [done|].
  apply IH. intros k st. unfold load_item.
  destruct (String.eqb_spec (pb_IP b) "") as [|Hne]; cbn [orb]; [apply Hi|].
  destruct (negb _); [apply Hi|]. rewrite lookup_insert_Some. intros [[<- <-]|[_ Hk]]; [done|by apply Hi].
Qed.

Lemma load_ok srg cfg stateFile permanentFile now d :
  loaded_ok (load srg (newFailTracker cfg stateFile permanentFile) now d).1.1.
Proof.
  assert (0 < ft_maxItems (newFailTracker cfg stateFile permanentFile)) as Hpos.
  { cbn. destruct (Z.leb_spec (sec_MaxTrackedFailureIPs cfg) 0); lia. }
  assert (loaded_ok (newFailTracker cfg stateFile permanentFile)) as H0.
  { split_and!; [|done..]. intros k st. cbn. by rewrite lookup_empty. }
  set (f0 := newFailTracker cfg stateFile permanentFile) in *.
  assert (ft_permanent f0 = ∅) as P0 by done. clearbody f0.
  unfold load. assert (loaded_ok (load_state f0 now d).1 ∧ ft_permanent (load_state f0 now d).1 = ∅) as [H1 P1].
  { unfold load_state. case_match; [done|]. case_match; [done..|]. case_match; [|done].
    split; [|done]. split_and!; [|cbn; set_solver|apply H0]. apply load_items_entries. apply H0. }
  destruct (load_state f0 now d) as [f1 [?|e]]; [|done]. cbn in H1, P1.
  destruct (loadPermanentBlockedIPs _ _) as [permanent|e]; [|done].
  destruct (foldl (load_permanent_ip _ _) _ _) as [[normalized d'] cleanupErr]. cbn [fst].
  set (f2 := set_permanent f1 _). assert (loaded_ok f2) as H2.
  { destruct H1 as (A & _ & C). split_and!; [done| |done]. intros k. cbn. rewrite P1. set_solver. }
  clearbody f2. generalize (set_entries srg normalized) as es. clear -H2.
  induction es as [|ip es IH] using rev_ind; [done|]. rewrite foldl_snoc.
  set (f := foldl _ _ _) in *. destruct IH as (A & B & C). split_and!; [| |done].
  - intros k st Hk. cbn in Hk. apply lookup_delete_Some in Hk as [_ Hk]. by apply A.
  - intros k. cbn. rewrite lookup_delete_None, elem_of_union, elem_of_singleton.
    intros [->|Hk]; [by left|right; by apply B].
Qed.

(** From the state [load] leaves at the start, whatever the files contain
    and however they fail later, every sequence of operations keeps the table
    within its bound (or within what the state file put there), keeps blocked
    for good and temporarily tracked addresses apart, and no tracked address
    has as many recent failures as the limit. *)
Theorem tracker_safe srg cfg stateFile permanentFile now d evs :
  let '(f0, d0, _) := load srg (newFailTracker cfg stateFile permanentFile) now d in
  let f := (fail_run (f0, d0) evs).1 in
  Z.of_nat (size (ft_items f)) ≤ Z.max (Z.of_nat (size (ft_items f0))) (ft_maxItems f0) ∧
  (∀ k, k ∈ ft_permanent f → ft_items f !! k = None) ∧
  (∀ k st, ft_items f !! k = Some st → k ≠ "" ∧
     (0 < ft_limit f → Z.of_nat (length (fs_authFailures st)) < ft_limit f ∧
                       Z.of_nat (length (fs_protocolFailures st)) < ft_limit f)).
Proof.
  pose proof (loaded_inv _ (load_ok srg cfg stateFile permanentFile now d)) as H0.
  destruct (load _ _ _ _) as [[f0 d0] r]. cbn [fst] in H0. cbn zeta.
  destruct (fail_run_keeps _ (f0, d0) evs H0) as (I & (_&_&_&M&_) & _). cbn in M.
  split_and!; [rewrite <-M; apply I|apply I|apply I].
Qed.

(** The first entry of a map in the order of a loop is its only one. *)
Lemma load_saved rg f saved now :
  (∀ k st, ft_items f !! k = Some st → k ≠ "") →
  ∀ k, foldl (load_item now) ∅ (saved_blocks rg f saved) !! k
    = ft_items f !! k ≫= λ st,
        if After (fs_blockedUntil st) saved && After (fs_blockedUntil st) now
        then Some (mkFailState [] [] (fs_blockedUntil st) now) else None.
Proof.
  intros Hne k. unfold saved_blocks.
  set (g := λ st, if After (fs_blockedUntil st) saved && After (fs_blockedUntil st) now
        then Some (mkFailState [] [] (fs_blockedUntil st) now) else None).
  assert (∀ es (m : gmap string failState), (∀ k st, (k, st) ∈ es → k ≠ "") → NoDup es.*1 →
    (∀ j, j ∈ es.*1 → m !! j = None) →
    foldl (load_item now) m (omap (λ ka, if After (fs_blockedUntil ka.2) saved
      then Some (mkPersistedBlockedIP ka.1 (fs_blockedUntil ka.2)) else None) es)
    = foldl (λ m' ka, match g ka.2 with Some b => <[ka.1 := b]> m' | None => delete ka.1 m' end) m es) as E.
  { induction es as [|[j st] es IH]; intros m Hk Hnd Hm; [done|]. cbn [fst snd fmap list_fmap] in *.
    apply NoDup_cons in Hnd as [Hj Hnd]. cbn [omap list_omap foldl fst snd].
    assert (m !! j = None) as Hmj by (apply Hm; by left).
    assert (String.eqb j "" = false) as Ej by (apply String.eqb_neq; apply (Hk j st); by left).
    assert (match g st with Some b => <[j := b]> m | None => delete j m end
            = if After (fs_blockedUntil st) saved
              then load_item now m (mkPersistedBlockedIP j (fs_blockedUntil st)) else m) as Estep.
    { unfold g, load_item. cbn. rewrite Ej. cbn [orb].
      destruct (After _ saved), (After _ now); cbn; by rewrite ?delete_id. }
    rewrite Estep.
    assert (∀ m', (∀ i, i ∈ es.*1 → m' !! i = None) → foldl (load_item now) m' (omap (λ ka : string * failState,
      if After (fs_blockedUntil ka.2) saved then Some (mkPersistedBlockedIP ka.1 (fs_blockedUntil ka.2))
      else None) es) = foldl (λ m' ka, match g ka.2 with Some b => <[ka.1 := b]> m' | None => delete ka.1 m' end) m' es)
      as IH'.
    { intros m' Hm'. apply IH; [|done..]. intros k' st' Hin. apply (Hk k' st'). by right. }
    assert (∀ i, i ∈ es.*1 → m !! i = None) as Hmes by (intros i Hi; apply Hm; by right).
    destruct (After (fs_blockedUntil st) saved); cbn [foldl]; [|by apply IH'].
    apply IH'. intros i Hi. unfold load_item. cbn. rewrite Ej. cbn [orb].
    destruct (negb _); [by apply Hmes|]. rewrite lookup_insert_ne; [by apply Hmes|]. by intros ->. }
  rewrite E.
  - apply (range_rebuild_lookup rg g (ft_items f)).
  - intros j st Hj%range_elem. by eapply Hne.
  - rewrite (range_complete rg (ft_items f)). apply NoDup_fst_map_to_list.
  - intros. apply lookup_empty.
Qed.

(** C24: the temporary blocks survive a restart: when saving succeeded, a new
    tracker that reads the file later (with a JSON decoder that undoes the
    encoder) has, at any later time, a block on exactly the addresses that
    still had one. *)
Theorem blocks_survive_restart n rg f saved now d d' f0 :
  (∀ x data, marshal x = Ok data → unmarshal data [] = Ok x) →
  fail_inv n f → no_errors d → ft_stateFile f ≠ "" →
  saveLocked rg f saved d = (d', Ok tt) →
  ft_stateFile f0 = ft_stateFile f → ft_items f0 = ∅ → saved ≤ now →
  (load_state f0 now d').2 = Ok tt ∧
  ∀ k t, now ≤ t → temp (load_state f0 now d').1 k t ↔ temp f k t.
Proof.
  intros Hlaw Hf Hd Hfile Hsave Efile Eitems Hle.
  unfold saveLocked, MkdirAll, WriteFile in Hsave.
  destruct (String.eqb_spec (ft_stateFile f) "") as [|_]; [done|].
  destruct (Hd (Dir (ft_stateFile f))) as (_ & _ & Hm & _). rewrite Hm in Hsave.
  destruct (marshal (saved_blocks rg f saved)) as [data|e] eqn:Em; [|done].
  destruct (Hd (Clean (ft_stateFile f))) as (Hr & _ & _ & Hw). rewrite Hw in Hsave. injection Hsave as <-.
  unfold load_state, ReadFile. rewrite Efile.
  destruct (String.eqb_spec (ft_stateFile f) "") as [|_]; [done|]. cbn. rewrite Hr, lookup_partial_alter_eq.
  rewrite to_of_chars, (Hlaw _ _ Em), Eitems. split; [done|]. intros k t Ht. unfold temp. cbn.
  assert (∀ j s0, ft_items f !! j = Some s0 → j ≠ "") as Hkeys.
  { intros j s0 Hj. by apply (fi_entries _ _ Hf j s0). }
  rewrite (load_saved rg f saved now Hkeys k).
  destruct (ft_items f !! k) as [st|]; cbn; [|naive_solver].
  unfold After. split.
  - intros (s & Hs & Ha). exists st. split; [done|].
    destruct (_ && _) in Hs; [|done]. injection Hs as <-. by apply active_block_spec in Ha; apply active_block_spec.
  - intros (s & [= <-] & Ha). apply active_block_spec in Ha.
    rewrite (proj2 (Z.ltb_lt saved _)), (proj2 (Z.ltb_lt now _)) by lia. cbn.
    eexists. split; [done|]. by apply active_block_spec.
Qed.
End Properties.

(** ** Concrete runs *)

(** A calendar with days of 1000 ticks. *)
Definition tickTime : LocalTime := {|
  FormatRFC3339 t := pretty t;
  ParseRFC3339 s := Atoi s;
  FormatDate t := pretty (t / 1000);
  FormatStamp t := pretty t;
  FormatMonth t := pretty (t / 30000);
  CivilDate t := (0, 0, t / 1000);
  MakeDate _ _ d := d * 1000;
  AddMonths t n := t + n * 30000;
  AddDays t n := t + n * 1000
|}.

Definition smallTracker : failTracker :=
  mkFailTracker 100 2 50 2 nminute "" ∅ ∅ ∅ "state.json" "perm.txt" 0 0.
Definition emptyDisk : Disk := goodDisk ∅.

#[local] Existing Instance tickTime.
#[local] Instance blocksCodec : JSONCodec (list persistedBlockedIP).
Proof.
  refine {| marshal x := @marshal (list (string * Z)) countableCodec
              (map (λ b, (pb_IP b, pb_BlockedUntil b)) x);
            unmarshal l z := match @unmarshal (list (string * Z)) countableCodec l [] with
              | Ok x => Ok (map (λ p, mkPersistedBlockedIP p.1 p.2) x) | Err e => Err e end |}.
Defined.

Lemma blocksCodec_law (x : list persistedBlockedIP) data :
  marshal x = Ok data → unmarshal data [] = Ok x.
Proof.
  intros H. unfold marshal, unmarshal, blocksCodec in *. rewrite (countableCodec_law _ _ _ H).
  f_equal. rewrite map_map. transitivity (map id x); [|apply map_id].
  apply map_ext. by intros [ip u].
Qed.

Lemma smallTracker_inv : fail_inv 0 smallTracker.
Proof.
  split; cbn; done.
Qed.

Lemma emptyDisk_ok : no_errors emptyDisk.
Proof. by intros p. Qed.

Definition twoFailures : list fail_event :=
  [FAuth canonicalRange "1.1.1.1" 10 10; FAuth canonicalRange "1.1.1.1" 20 20].
Definition blockedTracker : failTracker := (fail_run (smallTracker, emptyDisk) twoFailures).1.

Lemma blockedTracker_inv : fail_inv 0 blockedTracker.
Proof. apply (fail_run_inv 0 (smallTracker, emptyDisk)), smallTracker_inv. Qed.

Lemma blocked_block t : t < 70 → temp blockedTracker "1.1.1.1" t.
Proof. intros Ht. eexists. split; [vm_compute; reflexivity|]. apply active_block_spec. cbn. lia. Qed.


Lemma auth_failures_block_witness :
  let f := (fail_run (smallTracker, emptyDisk) [FAuth canonicalRange "1.1.1.1" 10 10]).1 in
  blockKindRead (addFailure canonicalRange f "1.1.1.1" 20 20 emptyDisk).1 "1.1.1.1" 69
  = Some blockedTemporary.
Proof.
  intros f.
  pose proof (auth_failures_block 0 canonicalRange f "1.1.1.1" 20 20 emptyDisk
    (fail_run_inv 0 (smallTracker, emptyDisk) [FAuth canonicalRange "1.1.1.1" 10 10] smallTracker_inv)
    eq_refl) as H.
  assert ((trackStateLocked canonicalRange f "1.1.1.1" 20).1 ≠ None) as Ht by (vm_compute; discriminate).
  specialize (H Ht ltac:(vm_compute; reflexivity)). cbn zeta in H.
  rewrite (eq_refl : (ft_limit f <=? Z.of_nat (length (auth_recent f "1.1.1.1" 20)) + 1) = true) in H.
  destruct H as [H _]. apply (H 69). reflexivity.
Defined.

Lemma permanent_only_by_protocol_witness :
  let f := (fail_run (smallTracker, emptyDisk) [FProtocol canonicalRange "1.1.1.1" 10 10]).1 in
  ft_items (fail_step (f, emptyDisk) (FProtocol canonicalRange "1.1.1.1" 20 20)).1 !! "1.1.1.1" = None.
Proof.
  intros f.
  destruct (permanent_only_by_protocol 0 f emptyDisk (FProtocol canonicalRange "1.1.1.1" 20 20) "1.1.1.1")
    as (rg & key & now & saved & _ & _ & _ & _ & H).
  - exact (fail_run_inv 0 (smallTracker, emptyDisk) [FProtocol canonicalRange "1.1.1.1" 10 10] smallTracker_inv).
  - apply (bool_decide_unpack _). vm_compute. exact I.
  - apply (bool_decide_unpack _). vm_compute. exact I.
  - exact H.
Defined.

Lemma blocks_survive_restart_witness :
  let d := (saveLocked canonicalRange blockedTracker 30 emptyDisk).1 in
  temp (load_state smallTracker 40 d).1 "1.1.1.1" 69.
Proof.
  intros d.
  destruct (blocks_survive_restart 0 canonicalRange blockedTracker 30 40 emptyDisk d smallTracker
    blocksCodec_law blockedTracker_inv emptyDisk_ok) as [_ H].
  - vm_compute. discriminate.
  - vm_compute. reflexivity.
  - vm_compute. reflexivity.
  - reflexivity.
  - lia.
  - apply H; [lia|]. by apply blocked_block.
Defined.

(** When the permanent list cannot be written, the address that just reached
    the limit loses its temporary block and its failures and is not blocked at
    all. *)
Lemma permanent_write_failure_unblocks :
  let d := mkDisk ∅ (λ _, None) (λ _, Some "permission denied") (λ _, None) (λ _, None) in
  let f := (fail_run (blockedTracker, d) [FProtocol canonicalRange "1.1.1.1" 30 30]).1 in
  let '(created, f', _) := addProtocolFailure canonicalRange f "1.1.1.1" 40 40 d in
  blockKindRead f "1.1.1.1" 41 = Some blockedTemporary ∧
  created = false ∧ blockKindRead f' "1.1.1.1" 41 = Some blockedNone.
Proof. vm_compute. repeat split; reflexivity. Qed.
