(* ===== verification/ServerConfig.v ===== *)
(** * The server configuration (src/server/tunnel/config.go,
    config_addresses.go)

    Defaults, validation, paths, loading and saving. The YAML library is a
    parameter (its decoder and encoder); a path is made absolute by a
    parameter too, because that depends on the working directory. Theorems:
    applying the defaults is idempotent and leaves every bound positive; a
    validated configuration has distinct users, every forward well-addressed
    and owned by existing users, every reverse port owned by one user and
    used once, at most one active sealing key; both hold of every
    configuration [LoadConfig] accepts. *)

From S2P Require Import Prelude.
From S2P Require Import GoStd.
From S2P Require Import Disk.
From S2P Require Import Version.
From S2P Require Import Netaddr.
From S2P Require Import ConfigData.

#[local] Open Scope Z_scope.

(** ** Reverse listen fields and loopback addresses *)

Definition validateReverseListenFields (fwd : ForwardConfig) : result unit :=
  if negb (String.eqb (TrimSpace (fw_Direction fwd)) DirectionServerToClient) then Ok tt
  else if (fw_ListenPort fwd <? 0) || (65535 <? fw_ListenPort fwd)
  then Err ("forward " +:+ quote (fw_Name fwd) +:+ " listen_port must be between 1 and 65535")
  else if String.eqb (TrimSpace (fw_ListenAddr fwd)) "" then Ok tt
  else
    let bad := Err ("forward " +:+ quote (fw_Name fwd)
                    +:+ " listen_addr must be a loopback address (127.0.0.1:port)") in
    match splitHostPort (fw_ListenAddr fwd) with
    | Err _ => bad
    | Ok (host, port) =>
        if negb (String.eqb host LoopbackIPv4) then bad
        else if negb (fw_ListenPort fwd =? 0) && negb (fw_ListenPort fwd =? port)
        then Err ("forward " +:+ quote (fw_Name fwd)
                  +:+ " listen_port conflicts with legacy listen_addr; keep only listen_port or use the same port")
        else Ok tt
    end.

Definition validateLoopbackAddresses (cfg : Config) : result unit :=
  _ ← wrap_err "listen_addr" (CheckLoopbackEndpoint (cfg_ListenAddr cfg));
  _ ← wrap_err "monitor_addr" (CheckLoopbackEndpoint (cfg_MonitorAddr cfg));
  each (λ fwd,
    _ ← wrap_err ("forward " +:+ quote (fw_Name fwd) +:+ " listen_addr")
          (CheckLoopbackEndpoint (fw_ListenAddr fwd));
    wrap_err ("forward " +:+ quote (fw_Name fwd) +:+ " server_target")
      (CheckLoopbackEndpoint (fw_ServerTarget fwd))) (cfg_Forwards cfg).

Definition normalizeReverseListenPort (forward : ForwardConfig) : ForwardConfig :=
  if negb (String.eqb (fw_Direction forward) DirectionServerToClient) then forward
  else match validateReverseListenFields forward with
  | Err _ => forward
  | Ok _ =>
      let port := if (fw_ListenPort forward =? 0)
                     && negb (String.eqb (TrimSpace (fw_ListenAddr forward)) "")
                  then match splitHostPort (fw_ListenAddr forward) with
                       | Ok (_, port) => port | Err _ => 0 end
                  else fw_ListenPort forward in
      let addr := if (0 <? port) && (port <=? 65535)
                  then JoinHostPort "127.0.0.1" (Itoa port) else fw_ListenAddr forward in
      mkForwardConfig (fw_Name forward) (fw_Direction forward) port addr
        (fw_ServerTarget forward) (fw_AllowedUsers forward)
  end.

(** ** Defaults *)

Definition positive_or (default x : Z) : Z := if x <=? 0 then default else x.

Definition default_security (s : SecurityConfig) : SecurityConfig :=
  let maxNew := if (sec_MaxNewConnectionsPerIPWindow s <=? 0) && (0 <? sec_MaxConnectionsPerIPPerWindow s)
                then sec_MaxConnectionsPerIPPerWindow s else sec_MaxNewConnectionsPerIPWindow s in
  mkSecurityConfig
    (positive_or 8 (sec_HandshakeTimeoutSec s))
    (positive_or 5 (sec_DialTimeoutSec s))
    (positive_or 32768 (sec_MaxHandshakeBytes s))
    (positive_or 2048 (sec_MaxConcurrentConnections s))
    (positive_or 128 (sec_MaxConcurrentConnectionsPerIP s))
    (positive_or 1 (sec_ConnectionRateWindowSec s))
    (positive_or 120 maxNew)
    0
    (positive_or 8192 (sec_MaxTrackedConnectionIPs s))
    (positive_or 60 (sec_ConnectionLimiterCleanupSec s))
    (positive_or 8192 (sec_MaxTrackedFailureIPs s))
    (positive_or 60 (sec_FailureTrackerCleanupSec s))
    (positive_or 2048 (sec_EntryTrafficLogQueueSize s))
    (sec_MaxConcurrentStreamsPerUser s)
    (sec_StreamRateLimitBytesPerSec s)
    (positive_or 300 (sec_AuthFailWindowSec s))
    (positive_or 8 (sec_AuthFailThreshold s))
    (positive_or 1800 (sec_AuthFailBlockSec s)).

Definition default_forward (f : ForwardConfig) : ForwardConfig :=
  let direction := TrimSpace (fw_Direction f) in
  let direction := if String.eqb direction "" then DirectionClientToServer else direction in
  normalizeReverseListenPort
    (mkForwardConfig (fw_Name f) direction (fw_ListenPort f) (fw_ListenAddr f)
       (fw_ServerTarget f) (fw_AllowedUsers f)).

Definition ApplyDefaults (cfg : Config) : Config :=
  let c := cfg_Compatibility cfg in
  let t := cfg_TLS cfg in
  let r := cfg_Runtime cfg in
  mkConfig (cfg_ConfigPath cfg)
    (if cfg_ConfigVersion cfg =? 0 then ServerConfigVersion else cfg_ConfigVersion cfg)
    (if String.eqb (TrimSpace (rc_MinServerVersion (cfg_Requires cfg))) ""
     then mkRequiresConfig ServerConfigRequiresServerVersion else cfg_Requires cfg)
    (mkCompatibilityConfig
       (if String.eqb (TrimSpace (cc_MinClientVersion c)) ""
        then MinCompatibleClientVersion else cc_MinClientVersion c)
       (cc_MaxClientVersion c)
       (if cc_ProtocolVersion c =? 0 then ProtocolVersion else cc_ProtocolVersion c))
    (if String.eqb (cfg_ListenAddr cfg) "" then DefaultListenAddr else cfg_ListenAddr cfg)
    (cfg_MonitorAddr cfg)
    (cfg_LogLevel cfg)
    (mkTLSConfig (tc_CertFile t) (tc_KeyFile t)
       (if String.eqb (tc_MinVersion t) "" then "1.3" else tc_MinVersion t))
    (cfg_Users cfg)
    (map default_forward (cfg_Forwards cfg))
    (default_security (cfg_Security cfg))
    (cfg_CredentialSealKeys cfg)
    (mkRuntimeConfig (rt_StateFile r) (rt_PermanentBlockFile r) (rt_RequestLogFile r)
       (rt_BusinessLogFile r) (rt_EntryTrafficLogFile r) (rt_FlowTrafficLogFile r)
       (positive_or 500 (rt_RecentEvents r))).

Definition configForSave (cfg : Config) : Config :=
  mkConfig (cfg_ConfigPath cfg) (cfg_ConfigVersion cfg) (cfg_Requires cfg) (cfg_Compatibility cfg)
    (cfg_ListenAddr cfg) (cfg_MonitorAddr cfg) (cfg_LogLevel cfg) (cfg_TLS cfg) (cfg_Users cfg)
    (map (λ f, if String.eqb (fw_Direction f) DirectionServerToClient && (0 <? fw_ListenPort f)
               then mkForwardConfig (fw_Name f) (fw_Direction f) (fw_ListenPort f) ""
                      (fw_ServerTarget f) (fw_AllowedUsers f)
               else f) (cfg_Forwards cfg))
    (cfg_Security cfg) (cfg_CredentialSealKeys cfg) (cfg_Runtime cfg).

(** ** Validation *)

Definition ValidateConfigVersion (cfg : Config) : result unit :=
  let c := cfg_Compatibility cfg in
  let version := cfg_ConfigVersion cfg in
  _ ← guard_err (version <? 0) "server config_version must be >= 0";
  _ ← guard_err (ServerConfigVersion <? version)
        ("server config_version " +:+ Itoa version
         +:+ " requires a newer server; current server supports config_version "
         +:+ Itoa ServerConfigVersion);
  _ ← CheckMin AppVersion (rc_MinServerVersion (cfg_Requires cfg)) "server config";
  let protocolVersion := if cc_ProtocolVersion c =? 0 then ProtocolVersion else cc_ProtocolVersion c in
  _ ← guard_err (protocolVersion <? 0) "server compatibility.protocol_version must be >= 0";
  _ ← guard_err (negb (protocolVersion =? ProtocolVersion))
        ("server compatibility.protocol_version " +:+ Itoa protocolVersion
         +:+ " is not supported by this server; current protocol_version is "
         +:+ Itoa ProtocolVersion);
  let noMin := String.eqb (TrimSpace (cc_MinClientVersion c)) "" in
  let noMax := String.eqb (TrimSpace (cc_MaxClientVersion c)) "" in
  _ ← (if noMin then Ok tt
       else wrap_err "server compatibility.min_client_version is invalid" (Validate (cc_MinClientVersion c)));
  _ ← (if noMax then Ok tt
       else wrap_err "server compatibility.max_client_version is invalid" (Validate (cc_MaxClientVersion c)));
  if negb noMin && negb noMax then
    greater ← wrap_err "server compatibility client version range is invalid"
                (Greater (cc_MinClientVersion c) (cc_MaxClientVersion c));
    guard_err greater "server compatibility min_client_version must be <= max_client_version"
  else Ok tt.

(** The loop over the users; the state is the set of the names seen. *)
Definition check_user (knownUsers : gset string) (user : UserConfig) : result (gset string) :=
  let name := TrimSpace (us_Username user) in
  if String.eqb name "" then Err "auth user username is required"
  else if bool_decide (name ∈ knownUsers) then Err ("duplicate auth user: " +:+ name)
  else if negb (us_Disabled user) && String.eqb (TrimSpace (us_PasswordHash user)) ""
  then Err ("password_hash is required for user " +:+ name)
  else Ok ({[ name ]} ∪ knownUsers).

(** The switch on the direction: the reverse port, [0] for the other kind. *)
Definition forward_port (forward : ForwardConfig) (direction : string) : result Z :=
  let q := "forward " +:+ quote (fw_Name forward) in
  if String.eqb direction DirectionClientToServer then
    match splitHostPort (fw_ServerTarget forward) with
    | Err _ => Err (q +:+ " server_target is invalid")
    | Ok (host, _) =>
        if IsForwardTargetHost host then Ok 0
        else Err (q +:+ " server_target must be a loopback or private IP (127.0.0.1 or private IP)")
    end
  else if String.eqb direction DirectionServerToClient then
    _ ← validateReverseListenFields forward;
    port ← (if fw_ListenPort forward <=? 0 then
              let bad := Err (q +:+ " listen_port is required and legacy listen_addr must be a loopback address (127.0.0.1)") in
              match splitHostPort (fw_ListenAddr forward) with
              | Ok (host, legacyPort) => if String.eqb host "127.0.0.1" then Ok legacyPort else bad
              | Err _ => bad
              end
            else Ok (fw_ListenPort forward));
    _ ← guard_err ((port <? 1) || (65535 <? port)) (q +:+ " listen_port must be between 1 and 65535");
    if String.eqb (TrimSpace (fw_ListenAddr forward)) "" then Ok port
    else
      let bad := Err (q +:+ " listen_addr must be a loopback address (127.0.0.1)") in
      match splitHostPort (fw_ListenAddr forward) with
      | Ok (host, _) => if String.eqb host "127.0.0.1" then Ok port else bad
      | Err _ => bad
      end
  else Err (q +:+ " has unsupported direction").

Definition check_allowed (q : string) (knownUsers allowedUsers : gset string) (username : string)
    : result (gset string) :=
  let username := TrimSpace username in
  if String.eqb username "" then Err (q +:+ " allowed_users contains an empty username")
  else if bool_decide (username ∈ allowedUsers)
  then Err (q +:+ " has duplicate allowed user " +:+ username)
  else if negb (bool_decide (username ∈ knownUsers))
  then Err (q +:+ " allowed user " +:+ username +:+ " does not exist")
  else Ok ({[ username ]} ∪ allowedUsers).

Definition forward_direction (forward : ForwardConfig) : string :=
  let direction := TrimSpace (fw_Direction forward) in
  if String.eqb direction "" then DirectionClientToServer else direction.

(** The loop over the forwards; the state maps the reverse ports seen to the
    forward that has them. *)
Definition check_forward (knownUsers : gset string) (seenReversePorts : gmap Z string)
    (forward : ForwardConfig) : result (gmap Z string) :=
  let q := "forward " +:+ quote (fw_Name forward) in
  let direction := forward_direction forward in
  reversePort ← forward_port forward direction;
  allowedUsers ← fold_err (check_allowed q knownUsers) ∅ (fw_AllowedUsers forward);
  _ ← guard_err (size allowedUsers =? 0)%nat (q +:+ " requires at least one allowed user");
  if String.eqb direction DirectionServerToClient then
    _ ← guard_err (negb (size allowedUsers =? 1)%nat)
          (q +:+ " reverse port must belong to exactly one allowed user");
    match seenReversePorts !! reversePort with
    | Some existing => Err (q +:+ " reverse listen_port " +:+ Itoa reversePort
                            +:+ " duplicates forward " +:+ quote existing)
    | None => Ok (<[reversePort := fw_Name forward]> seenReversePorts)
    end
  else Ok seenReversePorts.

Section WithTime.
Context `{LocalTime}.

Definition check_key (s : gset string * Z) (key : CredentialSealKeyConfig) : result (gset string * Z) :=
  let '(keyIDs, activeKeys) := s in
  let id := TrimSpace (ck_KeyID key) in
  if String.eqb id "" then Err "credential seal key_id is required"
  else if bool_decide (id ∈ keyIDs) then Err ("duplicate credential seal key: " +:+ id)
  else if String.eqb (TrimSpace (ck_PrivateKeyFile key)) "" || String.eqb (TrimSpace (ck_PublicKeyFile key)) ""
  then Err ("credential seal key " +:+ id +:+ " requires private_key_file and public_key_file")
  else if String.eqb (TrimSpace (ck_ExpiresAt key)) ""
  then Err ("credential seal key " +:+ id +:+ " requires expires_at")
  else match ParseRFC3339 (TrimSpace (ck_ExpiresAt key)) with
  | None => Err ("credential seal key " +:+ id +:+ " expires_at must be RFC3339")
  | Some _ => Ok ({[ id ]} ∪ keyIDs, if ck_Active key then activeKeys + 1 else activeKeys)
  end.

Definition ValidateConfig (cfg : Config) : result unit :=
  _ ← ValidateConfigVersion cfg;
  _ ← validateLoopbackAddresses cfg;
  _ ← guard_err (String.eqb (TrimSpace (tc_CertFile (cfg_TLS cfg))) ""
                 || String.eqb (TrimSpace (tc_KeyFile (cfg_TLS cfg))) "")
        "server TLS identity cert_file and key_file are required";
  let monitorAddr := TrimSpace (cfg_MonitorAddr cfg) in
  _ ← (if String.eqb monitorAddr "" then Ok tt
       else let bad := Err "monitor_addr must use a loopback address (127.0.0.1)" in
            match splitHostPort monitorAddr with
            | Ok (host, _) => if String.eqb host "127.0.0.1" then Ok tt else bad
            | Err _ => bad
            end);
  knownUsers ← fold_err check_user ∅ (cfg_Users cfg);
  _ ← fold_err (check_forward knownUsers) ∅ (cfg_Forwards cfg);
  '(_, activeKeys) ← fold_err check_key (∅, 0) (cfg_CredentialSealKeys cfg);
  guard_err (1 <? activeKeys) "only one credential seal key can be active".

End WithTime.

(** ** Paths *)

Definition resolveConfigPath (base p : string) : string :=
  let p := TrimSpace p in
  if String.eqb p "" || IsAbs p then p else Clean (JoinPath base p).

(** [strings.EqualFold], for ASCII letters. *)
Definition EqualFold (s t : string) : bool := String.eqb (ToLower s) (ToLower t).

Definition isSourceServerConfigDir (configDir : string) : bool :=
  let configDir := Clean configDir in
  EqualFold (Base configDir) "conf" && EqualFold (Base (Dir configDir)) "server"
  && EqualFold (Base (Dir (Dir configDir))) "src".

Definition defaultRuntimePath (configDir category name : string) : string :=
  let configDir := Clean configDir in
  if isSourceServerConfigDir configDir
  then JoinPaths [Dir (Dir (Dir configDir)); "runtime"; category; name]
  else JoinPaths [configDir; ".."; category; name].

(** ** Loading and saving *)

Section Files.
Context `{YAMLCodec Config} `{LocalTime}.
Variable Abs : string → result string.

Definition runtime_path (base p category name : string) : string :=
  if String.eqb (TrimSpace p) "" then defaultRuntimePath base category name
  else resolveConfigPath base p.

(** The paths of a configuration read from [path]. *)
Definition resolve_paths (path : string) (cfg : Config) : Config :=
  let base := Dir path in
  let r := cfg_Runtime cfg in
  let t := cfg_TLS cfg in
  mkConfig (match Abs path with Ok abs => abs | Err _ => path end)
    (cfg_ConfigVersion cfg) (cfg_Requires cfg) (cfg_Compatibility cfg)
    (cfg_ListenAddr cfg) (cfg_MonitorAddr cfg) (cfg_LogLevel cfg)
    (mkTLSConfig (resolveConfigPath base (tc_CertFile t)) (resolveConfigPath base (tc_KeyFile t))
       (tc_MinVersion t))
    (cfg_Users cfg) (cfg_Forwards cfg) (cfg_Security cfg)
    (map (λ k, mkCredentialSealKeyConfig (ck_KeyID k) (resolveConfigPath base (ck_PrivateKeyFile k))
                 (resolveConfigPath base (ck_PublicKeyFile k)) (ck_ExpiresAt k) (ck_Active k))
       (cfg_CredentialSealKeys cfg))
    (mkRuntimeConfig
       (runtime_path base (rt_StateFile r) "data" "server-state.json")
       (runtime_path base (rt_PermanentBlockFile r) "data" "server-permanent-block.txt")
       (runtime_path base (rt_RequestLogFile r) "logs" (JoinPath "request" "request.jsonl"))
       (runtime_path base (rt_BusinessLogFile r) "logs" (JoinPath "business" "business.jsonl"))
       (runtime_path base (rt_EntryTrafficLogFile r) "logs" (JoinPath "entry-traffic" "entry-traffic.jsonl"))
       (runtime_path base (rt_FlowTrafficLogFile r) "logs" (JoinPath "flow-traffic" "flow-traffic.jsonl"))
       (rt_RecentEvents r)).

Definition LoadConfig (d : Disk) (path : string) : result Config :=
  match ReadFile d (Clean path) with
  | ReadNotExist => Err (not_exist path)
  | ReadErr e => Err e
  | ReadData data =>
      cfg ← yaml_unmarshal data;
      let cfg := resolve_paths path (ApplyDefaults cfg) in
      _ ← ValidateConfig cfg;
      Ok cfg
  end.

Definition SaveConfig (d : Disk) (path : string) (cfg : Config) : Disk * result unit :=
  match validateLoopbackAddresses cfg with
  | Err e => (d, Err e)
  | Ok _ =>
      match each validateReverseListenFields (cfg_Forwards cfg) with
      | Err e => (d, Err e)
      | Ok _ =>
          match yaml_marshal (configForSave (ApplyDefaults cfg)) with
          | Err e => (d, Err e)
          | Ok data =>
              match MkdirAll d (Dir path) with
              | Err e => (d, Err e)
              | Ok _ => WriteFile d (Clean path) data
              end
          end
      end
  end.
End Files.

(** ** The canonical reverse listen address *)

Lemma TrimSpace_loopback p :
  1 ≤ p ≤ 65535 → TrimSpace (JoinHostPort "127.0.0.1" (Itoa p)) = JoinHostPort "127.0.0.1" (Itoa p).
Proof.
  intros Hp. apply TrimSpace_plain. unfold JoinHostPort.
  change (has_char colon (to_chars "127.0.0.1")) with false. cbv iota. rewrite !to_chars_app.
  apply Forall_app. split; [by repeat constructor|].
  apply Forall_app. split; [by repeat constructor|]. apply digits_plain, Itoa_digits. lia.
Qed.

Lemma splitHostPort_loopback p :
  1 ≤ p ≤ 65535 → splitHostPort (JoinHostPort "127.0.0.1" (Itoa p)) = Ok ("127.0.0.1", p).
Proof.
  intros Hp. unfold splitHostPort. rewrite TrimSpace_loopback by done.
  rewrite SplitHostPort_JoinHostPort by (done || lia). cbn [mbind result_bind].
  rewrite Atoi_Itoa by (unfold max_i64; lia).
  destruct (Z.leb_spec p 0); [lia|]. destruct (Z.ltb_spec 65535 p); [lia|]. done.
Qed.

Lemma splitHostPort_range t host port : splitHostPort t = Ok (host, port) → 1 ≤ port ≤ 65535.
Proof.
  unfold splitHostPort. destruct (SplitHostPort _) as [[h p]|e]; [|done]. cbn.
  destruct (Atoi p) as [n|]; [|done]. destruct (_ || _) eqn:E; [done|]. intros [= <- <-]. bool_lia.
Qed.

(** A reverse forward as the defaults leave it: the port and the address agree,
    or there is neither. *)
Definition reverse_normal (f : ForwardConfig) : Prop :=
  (1 ≤ fw_ListenPort f ≤ 65535 ∧ fw_ListenAddr f = JoinHostPort "127.0.0.1" (Itoa (fw_ListenPort f)))
  ∨ (fw_ListenPort f = 0 ∧ TrimSpace (fw_ListenAddr f) = "").

Lemma normalize_normal f :
  fw_Direction f = DirectionServerToClient → validateReverseListenFields f = Ok tt →
  reverse_normal (normalizeReverseListenPort f).
Proof.
  intros Hd Hv. unfold normalizeReverseListenPort. rewrite Hv, Hd. cbn [negb].
  rewrite String.eqb_refl. cbn [negb]. unfold validateReverseListenFields in Hv. rewrite Hd in Hv.
  change (TrimSpace DirectionServerToClient) with DirectionServerToClient in Hv.
  rewrite String.eqb_refl in Hv. cbn [negb] in Hv.
  destruct ((fw_ListenPort f <? 0) || (65535 <? fw_ListenPort f)) eqn:Er; [done|].
  unfold reverse_normal. cbn.
  destruct (String.eqb_spec (TrimSpace (fw_ListenAddr f)) "") as [Eb|Eb]; cbn [negb].
  - rewrite andb_false_r. destruct ((0 <? fw_ListenPort f) && (fw_ListenPort f <=? 65535)) eqn:Ep;
      [left; split; [bool_lia|done]|right; split; [bool_lia|done]].
  - destruct (splitHostPort (fw_ListenAddr f)) as [[host port]|e] eqn:Es; [|done].
    apply splitHostPort_range in Es. rewrite andb_true_r.
    destruct (Z.eqb_spec (fw_ListenPort f) 0) as [E0|E0].
    + left. split; [lia|]. destruct (Z.ltb_spec 0 port); [|lia]. destruct (Z.leb_spec port 65535); [|lia]. done.
    + left. split; [bool_lia|].
      destruct (Z.ltb_spec 0 (fw_ListenPort f)); [|bool_lia].
      destruct (Z.leb_spec (fw_ListenPort f) 65535); [done|bool_lia].
Qed.

Lemma reverse_normal_validates f :
  TrimSpace (fw_Direction f) = DirectionServerToClient → reverse_normal f →
  validateReverseListenFields f = Ok tt.
Proof.
  intros Hd Hn. unfold validateReverseListenFields. rewrite Hd, String.eqb_refl. cbn [negb].
  destruct Hn as [[Hp Ha]|[Hp Ha]].
  - destruct (Z.ltb_spec (fw_ListenPort f) 0); [lia|]. destruct (Z.ltb_spec 65535 (fw_ListenPort f)); [lia|].
    cbn [orb]. destruct (String.eqb _ ""); [done|]. rewrite Ha, splitHostPort_loopback by done.
    rewrite String.eqb_refl, Z.eqb_refl. cbn. by rewrite andb_false_r.
  - rewrite Hp. cbn [Z.ltb orb]. cbn. by rewrite Ha, String.eqb_refl.
Qed.

Lemma normalize_id f : reverse_normal f → normalizeReverseListenPort f = f.
Proof.
  intros Hn. unfold normalizeReverseListenPort. destruct (String.eqb_spec (fw_Direction f) DirectionServerToClient)
    as [Hd|]; cbn [negb]; [|done].
  rewrite reverse_normal_validates by (by rewrite ?Hd || done).
  destruct f as [n dir port addr tgt al]. unfold reverse_normal in Hn.
  cbn [fw_ListenPort fw_ListenAddr fw_Direction fw_Name fw_ServerTarget fw_AllowedUsers] in *. destruct Hn as [[Hp Ha]|[Hp Ha]].
  - destruct (Z.eqb_spec port 0); [lia|]. cbn [andb].
    destruct (Z.ltb_spec 0 port); [|lia]. destruct (Z.leb_spec port 65535); [|lia]. cbn. by rewrite Ha.
  - subst port. rewrite Ha. done.
Qed.

Lemma normalize_direction f : fw_Direction (normalizeReverseListenPort f) = fw_Direction f.
Proof. unfold normalizeReverseListenPort. case_match; [done|]. by case_match. Qed.

Lemma normalize_idemp f :
  normalizeReverseListenPort (normalizeReverseListenPort f) = normalizeReverseListenPort f.
Proof.
  destruct (String.eqb_spec (fw_Direction f) DirectionServerToClient) as [Hd|Hd].
  - destruct (validateReverseListenFields f) as [[]|e] eqn:Hv.
    + apply normalize_id. by apply normalize_normal.
    + assert (normalizeReverseListenPort f = f) as E; [|by rewrite !E].
      unfold normalizeReverseListenPort. rewrite Hv. by case_match.
  - assert (normalizeReverseListenPort f = f) as E; [|by rewrite !E].
    unfold normalizeReverseListenPort. by destruct (String.eqb_spec (fw_Direction f) DirectionServerToClient).
Qed.

Lemma forward_direction_nonblank f : forward_direction f ≠ "" ∧ TrimSpace (forward_direction f) = forward_direction f.
Proof.
  unfold forward_direction. destruct (String.eqb_spec (TrimSpace (fw_Direction f)) "") as [E|E];
    [done|split; [done|apply TrimSpace_idemp]].
Qed.

Lemma default_forward_eq f :
  default_forward f = normalizeReverseListenPort
    (mkForwardConfig (fw_Name f) (forward_direction f) (fw_ListenPort f) (fw_ListenAddr f)
       (fw_ServerTarget f) (fw_AllowedUsers f)).
Proof. done. Qed.

Lemma default_forward_direction f :
  fw_Direction (default_forward f) = forward_direction f.
Proof. by rewrite default_forward_eq, normalize_direction. Qed.

(** A forward whose direction is one already is only normalised. *)
Lemma default_forward_directed f :
  forward_direction f = fw_Direction f → default_forward f = normalizeReverseListenPort f.
Proof. intros E. rewrite default_forward_eq, E. by destruct f. Qed.

Lemma forward_direction_fixed f d :
  d ≠ "" → TrimSpace d = d → fw_Direction f = d → forward_direction f = d.
Proof.
  intros Hne Ht E. unfold forward_direction. rewrite E, Ht. by destruct (String.eqb_spec d "").
Qed.

Lemma default_forward_idemp f : default_forward (default_forward f) = default_forward f.
Proof.
  rewrite (default_forward_directed (default_forward f)).
  - rewrite default_forward_eq. apply normalize_idemp.
  - destruct (forward_direction_nonblank f) as [Hne Ht]. rewrite default_forward_direction.
    by apply forward_direction_fixed; [..|apply default_forward_direction].
Qed.

Lemma positive_or_idemp d x : 0 < d → positive_or d (positive_or d x) = positive_or d x.
Proof. intros Hd. unfold positive_or. repeat case_match; bool_lia. Qed.
Lemma positive_or_pos d x : 0 < d → 0 < positive_or d x.
Proof. intros Hd. unfold positive_or. case_match; bool_lia. Qed.

(** ** Loops that collect names *)

Lemma fold_err_nil {A S} (f : S → A → result S) s : fold_err f s [] = Ok s.
Proof. done. Qed.

(** A loop that adds [name x] to a set, and refuses a name it has seen, leaves
    distinct names. *)
Lemma collect_names {A} (name : A → string) (check : gset string → A → result (gset string)) xs s s' :
  (∀ s x s', check s x = Ok s' → (name x ∉ s) ∧ s' = {[ name x ]} ∪ s) →
  fold_err check s xs = Ok s' →
  NoDup (map name xs) ∧ (∀ x, x ∈ xs → name x ∉ s) ∧ s' ≡ s ∪ list_to_set (map name xs).
Proof.
  intros Hc. revert s. induction xs as [|x xs IH]; intros s; cbn [fold_err map].
  - intros [= <-]. split_and!; [constructor|by intros x ?%not_elem_of_nil|set_solver].
  - destruct (check s x) as [s1|] eqn:E; [|done]. apply Hc in E as [Hx ->].
    intros H. destruct (IH _ H) as (Hnd & Hnew & Hs). split_and!.
    + constructor; [|done]. intros (y & Hy & Hin)%list_elem_of_fmap.
      apply (Hnew y Hin). rewrite <-Hy. set_solver.
    + intros y [->|Hy]%elem_of_cons; [done|]. specialize (Hnew y Hy). set_solver.
    + rewrite Hs. cbn. set_solver.
Qed.

Lemma collect_all {A} (name : A → string) (check : gset string → A → result (gset string)) P xs s s' :
  (∀ s x s', check s x = Ok s' → P x) → fold_err check s xs = Ok s' → Forall P xs.
Proof.
  intros Hc. revert s. induction xs as [|x xs IH]; intros s; cbn [fold_err]; [constructor|].
  destruct (check s x) as [s1|] eqn:E; [|done]. intros H. constructor; [by eapply Hc|by eapply IH].
Qed.

Definition user_name (u : UserConfig) : string := TrimSpace (us_Username u).

Lemma check_user_ok s u s' :
  check_user s u = Ok s' →
  ((user_name u ∉ s) ∧ s' = {[ user_name u ]} ∪ s) ∧ user_name u ≠ "" ∧
  (us_Disabled u = false → TrimSpace (us_PasswordHash u) ≠ "").
Proof.
  unfold check_user, user_name. destruct (String.eqb_spec (TrimSpace (us_Username u)) ""); [done|].
  case_bool_decide; [done|]. destruct (negb (us_Disabled u) && _) eqn:E; [done|]. intros [= <-].
  split_and!; [done..|]. intros Hd Hp. rewrite Hd, Hp in E. done.
Qed.

Lemma check_allowed_ok q known s u s' :
  check_allowed q known s u = Ok s' →
  ((TrimSpace u ∉ s) ∧ s' = {[ TrimSpace u ]} ∪ s) ∧ TrimSpace u ∈ known ∧ TrimSpace u ≠ "".
Proof.
  unfold check_allowed. destruct (String.eqb_spec (TrimSpace u) ""); [done|].
  case_bool_decide; [done|]. case_bool_decide; [|done]. cbn. intros [= <-]. done.
Qed.

(** The port a reverse forward listens on. *)
Definition reverse_port (f : ForwardConfig) : option Z :=
  if String.eqb (forward_direction f) DirectionServerToClient
  then Some (if fw_ListenPort f <=? 0
             then match splitHostPort (fw_ListenAddr f) with Ok (_, p) => p | Err _ => 0 end
             else fw_ListenPort f)
  else None.

Definition forward_valid (known : gset string) (f : ForwardConfig) : Prop :=
  fw_AllowedUsers f ≠ [] ∧ NoDup (map TrimSpace (fw_AllowedUsers f)) ∧
  (∀ u, u ∈ fw_AllowedUsers f → TrimSpace u ∈ known) ∧
  match reverse_port f with
  | None => forward_direction f = DirectionClientToServer ∧
      ∃ host port, splitHostPort (fw_ServerTarget f) = Ok (host, port) ∧ IsForwardTargetHost host = true
  | Some port => 1 ≤ port ≤ 65535 ∧ length (fw_AllowedUsers f) = 1%nat ∧
      validateReverseListenFields f = Ok tt ∧
      (TrimSpace (fw_ListenAddr f) ≠ "" → splitHostPort (fw_ListenAddr f) = Ok ("127.0.0.1", port))
  end.

Lemma forward_port_ok f p :
  forward_port f (forward_direction f) = Ok p →
  match reverse_port f with
  | None => forward_direction f = DirectionClientToServer ∧
      ∃ host port, splitHostPort (fw_ServerTarget f) = Ok (host, port) ∧ IsForwardTargetHost host = true
  | Some port => p = port ∧ 1 ≤ port ≤ 65535 ∧ validateReverseListenFields f = Ok tt ∧
      (TrimSpace (fw_ListenAddr f) ≠ "" → splitHostPort (fw_ListenAddr f) = Ok ("127.0.0.1", port))
  end.
Proof.
  unfold forward_port, reverse_port.
  destruct (String.eqb_spec (forward_direction f) DirectionClientToServer) as [->|_].
  - change (String.eqb DirectionClientToServer DirectionServerToClient) with false. cbv iota.
    destruct (splitHostPort (fw_ServerTarget f)) as [[host port]|]; [|done].
    destruct (IsForwardTargetHost host) eqn:Eh; [|done]. intros _. split; [done|]. by exists host, port.
  - destruct (String.eqb_spec (forward_direction f) DirectionServerToClient) as [Ed|]; [|done].
    destruct (validateReverseListenFields f) as [[]|] eqn:Ev; [|done]. cbn [mbind result_bind].
    assert (TrimSpace (fw_Direction f) = DirectionServerToClient) as Hd.
    { unfold forward_direction in Ed. by destruct (String.eqb_spec (TrimSpace (fw_Direction f)) ""). }
    destruct (Z.leb_spec (fw_ListenPort f) 0) as [H0|H0].
    + destruct (splitHostPort (fw_ListenAddr f)) as [[host port]|] eqn:Es; [|done].
      destruct (String.eqb_spec host "127.0.0.1") as [->|]; [|done]. cbn [mbind result_bind].
      intros (_ & Hr%guard_err_ok & H)%bind_ok.
      assert (p = port) as -> by (destruct (String.eqb _ ""); congruence).
      split_and!; [done|bool_lia|bool_lia|done|done].
    + cbn [mbind result_bind]. intros (_ & Hr%guard_err_ok & H)%bind_ok.
      unfold validateReverseListenFields in Ev. rewrite Hd, String.eqb_refl in Ev. cbn [negb] in Ev.
      destruct (_ || _) in Ev; [done|].
      destruct (String.eqb_spec (TrimSpace (fw_ListenAddr f)) "") as [Eb|Eb].
      * injection H as <-. split_and!; [done|bool_lia|bool_lia|done|done].
      * destruct (splitHostPort (fw_ListenAddr f)) as [[host port]|] eqn:Es; [|done].
        destruct (String.eqb_spec host LoopbackIPv4) as [->|]; [|done]. cbn [negb] in Ev.
        rewrite String.eqb_refl in H. injection H as <-.
        destruct (negb _ && _) eqn:Ep in Ev; [done|]. assert (fw_ListenPort f = port) as <- by bool_lia.
        split_and!; [done|bool_lia|bool_lia|done|done].
Qed.

Lemma check_forward_ok known seen f seen' :
  check_forward known seen f = Ok seen' →
  forward_valid known f ∧
  match reverse_port f with
  | None => seen' = seen
  | Some port => seen !! port = None ∧ seen' = <[port := fw_Name f]> seen
  end.
Proof.
  unfold check_forward. intros (p & Hp & (allowed & Ha & (_ & Hsz%guard_err_ok & H)%bind_ok)%bind_ok)%bind_ok.
  pose proof (forward_port_ok f p Hp) as Hport.
  set (q := "forward " +:+ quote (fw_Name f)) in *. clearbody q.
  pose proof (collect_names TrimSpace (check_allowed q known) (fw_AllowedUsers f) ∅ allowed) as Hnames.
  destruct Hnames as (Hnd & _ & Hs); [intros; by eapply check_allowed_ok|done|].
  pose proof (collect_all TrimSpace (check_allowed q known) (λ u, TrimSpace u ∈ known) _ _ _
    (λ s x s' Hx, proj1 (proj2 (check_allowed_ok _ _ _ _ _ Hx))) Ha) as Hknown.
  assert (size allowed = length (fw_AllowedUsers f)) as Hsize.
  { assert (allowed = list_to_set (map TrimSpace (fw_AllowedUsers f))) as ->.
    { apply set_eq. intros x. rewrite Hs. set_solver. }
    rewrite size_list_to_set by done. apply length_map. }
  rewrite Hsize in *. apply Nat.eqb_neq in Hsz. unfold forward_valid. rewrite Forall_forall in Hknown.
  unfold reverse_port in *.
  destruct (String.eqb (forward_direction f) DirectionServerToClient).
  - destruct Hport as (-> & Hrange & Hv & Haddr).
    apply bind_ok in H as (_ & Hone%guard_err_ok & H). apply negb_false_iff, Nat.eqb_eq in Hone.
    destruct (seen !! _) eqn:Eseen; [done|]. injection H as <-.
    split; [|done]. split_and!; try done; [intros E; by rewrite E in Hsz|lia..].
  - injection H as <-. split; [|done]. split_and!; try done; try apply Hport. intros E; by rewrite E in Hsz.
Qed.

Lemma check_forwards_ok known fs seen seen' :
  fold_err (check_forward known) seen fs = Ok seen' →
  Forall (forward_valid known) fs ∧ NoDup (omap reverse_port fs) ∧
  ∀ p, p ∈ omap reverse_port fs → seen !! p = None.
Proof.
  revert seen. induction fs as [|f fs IH]; intros seen; cbn [fold_err].
  - intros _. split_and!; [constructor|constructor|by intros p ?%not_elem_of_nil].
  - destruct (check_forward known seen f) as [s|] eqn:E; [|done].
    apply check_forward_ok in E as [Hf Hp]. intros H. destruct (IH s H) as (Hall & Hnd & Hnew).
    split; [by constructor|]. cbn. destruct (reverse_port f) as [p|].
    + destruct Hp as [Hp ->]. split.
      * constructor; [|done]. intros Hin%Hnew. by rewrite lookup_insert_eq in Hin.
      * intros p' [->|Hin]%elem_of_cons; [done|]. apply Hnew in Hin.
        by apply lookup_insert_None in Hin as [Hin _].
    + subst s. done.
Qed.

Section Properties.
Context `{LocalTime}.

Definition key_id (k : CredentialSealKeyConfig) : string := TrimSpace (ck_KeyID k).

Lemma check_keys_ok keys s n s' n' :
  fold_err check_key (s, n) keys = Ok (s', n') →
  NoDup (map key_id keys) ∧ (∀ k, k ∈ keys → key_id k ∉ s) ∧
  n' = n + Z.of_nat (length (filter (λ k, ck_Active k = true) keys)).
Proof.
  revert s n. induction keys as [|k keys IH]; intros s n; cbn [fold_err map].
  - intros [= <- <-]. cbn. split_and!; [constructor|by intros x ?%not_elem_of_nil|lia].
  - destruct (check_key (s, n) k) as [[s1 n1]|] eqn:E; [|done].
    assert ((key_id k ∉ s) ∧ s1 = {[ key_id k ]} ∪ s ∧ n1 = if ck_Active k then n + 1 else n) as (Hk & -> & ->).
    { unfold check_key in E. fold (key_id k) in E. destruct (String.eqb (key_id k) ""); [done|].
      case_bool_decide; [done|]. repeat (case_match; [done|]). case_match; [|done].
      by injection E as <- <-. }
    intros Hf. destruct (IH _ _ Hf) as (Hnd & Hnew & ->). split_and!.
    + constructor; [|done]. intros (y & Hy & Hin)%list_elem_of_fmap.
      apply (Hnew y Hin). rewrite <-Hy. set_solver.
    + intros y [->|Hy]%elem_of_cons; [done|]. specialize (Hnew y Hy). set_solver.
    + rewrite filter_cons. destruct (ck_Active k); [rewrite decide_True by done|rewrite decide_False by done];
        cbn [length]; lia.
Qed.

(** What validation promises to the rest of the server. *)
Record config_valid (cfg : Config) : Prop := {
  cv_users : NoDup (map user_name (cfg_Users cfg));
  cv_usernames : Forall (λ u, user_name u ≠ "" ∧
    (us_Disabled u = false → TrimSpace (us_PasswordHash u) ≠ "")) (cfg_Users cfg);
  cv_forwards : Forall (forward_valid (list_to_set (map user_name (cfg_Users cfg)))) (cfg_Forwards cfg);
  cv_ports : NoDup (omap reverse_port (cfg_Forwards cfg));
  cv_keys : NoDup (map key_id (cfg_CredentialSealKeys cfg));
  cv_active : (length (filter (λ k, ck_Active k = true) (cfg_CredentialSealKeys cfg)) <= 1)%nat
}.

Lemma ValidateConfig_valid cfg : ValidateConfig cfg = Ok tt → config_valid cfg.
Proof.
  unfold ValidateConfig. intros (_ & _ & (_ & _ & (_ & _ & (_ & _ & Hrest)%bind_ok)%bind_ok)%bind_ok)%bind_ok.
  apply bind_ok in Hrest as (known & Hu & (seen & Hf & ([s n] & Hk & Ha%guard_err_ok)%bind_ok)%bind_ok).
  destruct (collect_names user_name check_user (cfg_Users cfg) ∅ known) as (Hnd & _ & Hknown);
    [intros s0 x s' Hx; by apply check_user_ok in Hx as [Hx _]|done|].
  assert (known = list_to_set (map user_name (cfg_Users cfg))) as -> by (apply set_eq; set_solver).
  apply check_forwards_ok in Hf as (Hall & Hports & _). apply check_keys_ok in Hk as (Hids & _ & ->).
  split; [done| |done|done|done|bool_lia].
  eapply (collect_all user_name check_user); [|exact Hu].
  intros s0 x s' Hx. by apply check_user_ok in Hx as [_ Hx].
Qed.
End Properties.

(** ** The properties *)

Lemma default_security_idemp s : default_security (default_security s) = default_security s.
Proof.
  unfold default_security. cbn. rewrite !positive_or_idemp by lia. rewrite andb_false_r.
  by rewrite positive_or_idemp.
Qed.

Lemma ApplyDefaults_idemp cfg : ApplyDefaults (ApplyDefaults cfg) = ApplyDefaults cfg.
Proof.
  unfold ApplyDefaults at 1. cbn.
  rewrite default_security_idemp, positive_or_idemp by lia. unfold ApplyDefaults. f_equal.
  - destruct (cfg_ConfigVersion cfg =? 0) eqn:E; [done|by rewrite ?E].
  - destruct (String.eqb (TrimSpace (rc_MinServerVersion (cfg_Requires cfg))) "") eqn:E; [done|by rewrite ?E].
  - f_equal.
    + destruct (String.eqb (TrimSpace (cc_MinClientVersion (cfg_Compatibility cfg))) "") eqn:E; [done|by rewrite ?E].
    + destruct (cc_ProtocolVersion (cfg_Compatibility cfg) =? 0) eqn:E; [done|by rewrite ?E].
  - destruct (String.eqb (cfg_ListenAddr cfg) "") eqn:E; [done|by rewrite ?E].
  - f_equal. destruct (String.eqb (tc_MinVersion (cfg_TLS cfg)) "") eqn:E; [done|by rewrite ?E].
  - rewrite map_map. apply map_ext. apply default_forward_idemp.
Qed.

(** Applying the defaults twice is applying them once, and afterwards every
    limit the server divides by, counts down from or waits for is positive. *)
Theorem defaults_idempotent cfg :
  ApplyDefaults (ApplyDefaults cfg) = ApplyDefaults cfg ∧
  let s := cfg_Security (ApplyDefaults cfg) in
  0 < sec_HandshakeTimeoutSec s ∧ 0 < sec_DialTimeoutSec s ∧ 0 < sec_MaxHandshakeBytes s ∧
  0 < sec_MaxConcurrentConnections s ∧ 0 < sec_MaxConcurrentConnectionsPerIP s ∧
  0 < sec_ConnectionRateWindowSec s ∧ 0 < sec_MaxNewConnectionsPerIPWindow s ∧
  0 < sec_MaxTrackedConnectionIPs s ∧ 0 < sec_MaxTrackedFailureIPs s ∧
  0 < sec_AuthFailWindowSec s ∧ 0 < sec_AuthFailThreshold s ∧ 0 < sec_AuthFailBlockSec s.
Proof.
  split; [apply ApplyDefaults_idemp|]. cbn. split_and!; apply positive_or_pos; lia.
Qed.

Definition without_path (cfg : Config) : Config :=
  mkConfig "" (cfg_ConfigVersion cfg) (cfg_Requires cfg) (cfg_Compatibility cfg)
    (cfg_ListenAddr cfg) (cfg_MonitorAddr cfg) (cfg_LogLevel cfg) (cfg_TLS cfg) (cfg_Users cfg)
    (cfg_Forwards cfg) (cfg_Security cfg) (cfg_CredentialSealKeys cfg) (cfg_Runtime cfg).

(** The address saving leaves out comes back with the defaults. *)
Lemma default_forward_saved f :
  validateReverseListenFields f = Ok tt →
  let g := default_forward f in
  default_forward (if String.eqb (fw_Direction g) DirectionServerToClient && (0 <? fw_ListenPort g)
    then mkForwardConfig (fw_Name g) (fw_Direction g) (fw_ListenPort g) "" (fw_ServerTarget g) (fw_AllowedUsers g)
    else g) = g.
Proof.
  intros Hv. cbn zeta. pose proof (default_forward_direction f) as Hd.
  destruct (String.eqb_spec (fw_Direction (default_forward f)) DirectionServerToClient) as [Ed|Ed]; cbn [andb];
    [|apply default_forward_idemp].
  destruct (Z.ltb_spec 0 (fw_ListenPort (default_forward f))) as [Hp|Hp]; [|apply default_forward_idemp].
  assert (reverse_normal (default_forward f)) as Hn.
  { rewrite default_forward_eq. apply normalize_normal; cbn; [congruence|].
    assert (TrimSpace (fw_Direction f) = forward_direction f) as Ef.
    { rewrite Hd in Ed. unfold forward_direction in *. by destruct (String.eqb_spec (TrimSpace (fw_Direction f)) ""). }
    unfold validateReverseListenFields in *. cbn. rewrite Ef in Hv.
    destruct (forward_direction_nonblank f) as [_ ->]. exact Hv. }
  destruct Hn as [[Hr Ha]|[Hr _]]; [|lia].
  set (g := default_forward f) in *. clearbody g. destruct g as [n dir port addr tgt al].
  cbn [fw_ListenPort fw_ListenAddr fw_Direction fw_Name fw_ServerTarget fw_AllowedUsers] in *.
  rewrite Ed, Ha. clear Hd. subst dir addr.
  rewrite default_forward_directed by done. unfold normalizeReverseListenPort, validateReverseListenFields. cbn.
  destruct (Z.ltb_spec port 0); [lia|]. destruct (Z.ltb_spec 65535 port); [lia|]. cbn.
  rewrite andb_false_r. destruct (Z.ltb_spec 0 port); [|lia]. destruct (Z.leb_spec port 65535); [|lia]. done.
Qed.

Lemma defaults_saved cfg :
  each validateReverseListenFields (cfg_Forwards cfg) = Ok tt →
  ApplyDefaults (without_path (configForSave (ApplyDefaults cfg))) = without_path (ApplyDefaults cfg).
Proof.
  intros Hv%each_ok.
  rewrite <-(ApplyDefaults_idemp cfg) at 2. unfold ApplyDefaults at 1 3.
  unfold without_path, configForSave. cbn. f_equal.
  rewrite !map_map. apply map_ext_in. intros f Hin%list_elem_of_In.
  rewrite Forall_forall in Hv. rewrite default_forward_idemp. apply default_forward_saved. by apply Hv.
Qed.

Section FileProperties.
Context `{YAMLCodec Config} `{LocalTime}.
Variable Abs : string → result string.
(** The YAML library reads what it wrote; the path field is not part of it. *)
Hypothesis yaml_law : ∀ cfg data, yaml_marshal cfg = Ok data → yaml_unmarshal data = Ok (without_path cfg).

(** What [LoadConfig] accepts satisfies everything validation promises:
    distinct and named users with a password unless disabled, every forward
    with a target or listen port that is allowed and with existing distinct
    users, every reverse port in range, owned by one user and used by one
    forward, distinct sealing keys of which at most one is active. *)
Theorem LoadConfig_valid d path cfg : LoadConfig Abs d path = Ok cfg → config_valid cfg.
Proof.
  unfold LoadConfig. destruct (ReadFile _ _) as [| |data]; [done..|].
  intros (c & _ & ([] & Hv & [= <-])%bind_ok)%bind_ok. by apply ValidateConfig_valid.
Qed.

Lemma load_after_save d path cfg d' :
  dk_readErr d (Clean path) = None →
  SaveConfig d path cfg = (d', Ok tt) →
  let cfg' := resolve_paths Abs path (ApplyDefaults cfg) in
  LoadConfig Abs d' path = (_ ← ValidateConfig cfg'; Ok cfg').
Proof.
  intros Hr. unfold SaveConfig. destruct (validateLoopbackAddresses cfg) as [[]|]; [|done].
  destruct (each _ _) as [[]|] eqn:Hv; [|done].
  destruct (yaml_marshal _) as [data|] eqn:Em; [|done]. destruct (MkdirAll _ _); [|done].
  unfold WriteFile. destruct (dk_writeErr d _) as [[? ?]|]; [done|]. intros [= <-]. cbn zeta.
  unfold LoadConfig, ReadFile. cbn. rewrite Hr, lookup_partial_alter_eq. rewrite (yaml_law _ _ Em).
  cbn [mbind result_bind]. by rewrite (defaults_saved cfg Hv).
Qed.

(** C22: a saved configuration loads as the one that was saved, with its
    defaults and paths resolved: the reverse listen addresses saving leaves out
    are rebuilt from the ports. *)
Theorem save_load_roundtrip d path cfg d' :
  dk_readErr d (Clean path) = None →
  SaveConfig d path cfg = (d', Ok tt) →
  let cfg' := resolve_paths Abs path (ApplyDefaults cfg) in
  LoadConfig Abs d' path = (_ ← ValidateConfig cfg'; Ok cfg').
Proof. apply load_after_save. Qed.
End FileProperties.

(** ** A concrete configuration *)

Definition sampleConfig : Config :=
  mkConfig "" 0 (mkRequiresConfig "") (mkCompatibilityConfig "" "" 0) "" "127.0.0.1:9443" ""
    (mkTLSConfig "server.crt" "server.key" "")
    [mkUserConfig "alice" "hash" false; mkUserConfig "bob" "" true]
    [mkForwardConfig "db" "" 0 "" "10.0.0.5:5432" ["alice"; "bob"];
     mkForwardConfig "web" "server_to_client" 8080 "" "" ["alice"];
     mkForwardConfig "old" "server_to_client" 0 "127.0.0.1:8081" "" ["bob"]]
    zeroSecurity [] (mkRuntimeConfig "" "" "" "" "" "" 0).

Definition savedSample : Config := without_path (configForSave (ApplyDefaults sampleConfig)).

(** A decoder that knows one text. *)
Definition sampleYAML : YAMLCodec Config := {|
  yaml_marshal cfg := if decide (without_path cfg = savedSample) then Ok "sample" else Err "unknown";
  yaml_unmarshal data := if String.eqb data "sample" then Ok savedSample else Err "unknown"
|}.

Lemma sampleYAML_law cfg data :
  @yaml_marshal _ sampleYAML cfg = Ok data → @yaml_unmarshal _ sampleYAML data = Ok (without_path cfg).
Proof.
  cbn [yaml_marshal yaml_unmarshal sampleYAML]. case_decide as E; [|done]. intros [= <-].
  rewrite String.eqb_refl. by rewrite E.
Qed.

Definition noTime : LocalTime :=
  {| FormatRFC3339 _ := ""; ParseRFC3339 _ := None; FormatDate _ := ""; FormatStamp _ := "";
     FormatMonth _ := ""; CivilDate _ := (0, 0, 0); MakeDate _ _ _ := 0; AddMonths t _ := t; AddDays t _ := t |}.

Definition sampleAbs (p : string) : result string := Ok ("/" +:+ p).

Lemma LoadConfig_valid_witness :
  ∃ cfg, @LoadConfig sampleYAML noTime sampleAbs (goodDisk {[ "conf/server.yaml" := "sample" ]})
           "conf/server.yaml" = Ok cfg ∧ NoDup (omap reverse_port (cfg_Forwards cfg)).
Proof.
  destruct (@LoadConfig sampleYAML noTime sampleAbs (goodDisk {[ "conf/server.yaml" := "sample" ]})
              "conf/server.yaml") as [cfg|e] eqn:E.
  - exists cfg. split; [reflexivity|].
    exact (cv_ports _ (@LoadConfig_valid sampleYAML noTime sampleAbs _ _ _ E)).
  - exfalso. vm_compute in E. discriminate E.
Defined.

Lemma save_load_roundtrip_witness :
  let d := (@SaveConfig sampleYAML (goodDisk ∅) "conf/server.yaml" sampleConfig).1 in
  @LoadConfig sampleYAML noTime sampleAbs d "conf/server.yaml"
  = Ok (resolve_paths sampleAbs "conf/server.yaml" (ApplyDefaults sampleConfig)).
Proof.
  intros d.
  rewrite (@save_load_roundtrip sampleYAML noTime sampleAbs sampleYAML_law (goodDisk ∅)
    "conf/server.yaml" sampleConfig d).
  - vm_compute. reflexivity.
  - reflexivity.
  - vm_compute. reflexivity.
Defined.
