(* ===== verification/Authorization.v ===== *)
(** * Who may open what (src/server/tunnel/authorization.go,
    configured_forwards.go)

    The decisions for opening a target, checking a forward and activating a
    reverse listener, over the configured forwards, and the preparation and
    audit of the forwards at the start. Log lines are left out; the events an
    audit records are its result. Dialling and listening are parameters.
    Theorems: a target is authorised exactly when a client-to-server forward
    of the user has it and its host may be forwarded to; on a validated
    configuration a reverse address is authorised exactly for the one user
    that owns its port. *)

From S2P Require Import Prelude.
From S2P Require Import GoStd.
From S2P Require Import Disk.
From S2P Require Import Netaddr.
From S2P Require Import Protocol.
From S2P Require Import EventRing.
From S2P Require Import ConfigData.
From S2P Require Import ServerConfig.

#[local] Open Scope Z_scope.

(** ** authorization.go *)

Definition allowedUser (users : list string) (username : string) : bool :=
  existsb (λ user, String.eqb (TrimSpace user) username) users.

Definition configuredReverseListenAddr (fwd : ForwardConfig) : string :=
  let addr := TrimSpace (fw_ListenAddr fwd) in
  if negb (String.eqb addr "") then addr
  else if (0 <? fw_ListenPort fwd) && (fw_ListenPort fwd <=? 65535)
  then JoinHostPort "127.0.0.1" (Itoa (fw_ListenPort fwd)) else "".

Definition forward_matches (username normalizedTarget : string) (fwd : ForwardConfig) : bool :=
  let configuredDirection := TrimSpace (fw_Direction fwd) in
  let configuredDirection := if String.eqb configuredDirection "" then DirectionClientToServer
                             else configuredDirection in
  if negb (String.eqb configuredDirection DirectionClientToServer) then false
  else if negb (allowedUser (fw_AllowedUsers fwd) username) then false
  else
    let forwardTarget := TrimSpace (fw_ServerTarget fwd) in
    negb (String.eqb forwardTarget "") && String.eqb (normalizeTarget forwardTarget) normalizedTarget.

Definition allowedConfiguredForward (cfg : Config) (username target : string) : option ForwardConfig :=
  let username := TrimSpace username in
  if String.eqb username "" then None
  else List.find (forward_matches username (normalizeTarget target)) (cfg_Forwards cfg).

Definition authorizeTarget (cfg : Config) (user : UserConfig) (target : string) : result unit :=
  match splitHostPort target with
  | Err _ => Err "target address is invalid"
  | Ok (host, _) =>
      match allowedConfiguredForward cfg (us_Username user) target with
      | None => Err "user is not allowed to access this target"
      | Some _ => if IsForwardTargetHost host then Ok tt else Err "target is not allowed"
      end
  end.

Definition authorize := authorizeTarget.

Definition authorizeOpen (cfg : Config) (user : UserConfig) (req : OpenRequest) : result unit :=
  let direction := TrimSpace (rq_Direction req) in
  if negb (String.eqb direction "") && negb (String.eqb direction DirectionClientToServer)
  then Err "request direction is invalid"
  else authorizeTarget cfg user (rq_Target req).

(** The loop of [authorizeReverse]: the first forward on the address decides. *)
Fixpoint reverse_allowed (username normalizedListenAddr : string) (fwds : list ForwardConfig) : bool :=
  match fwds with
  | [] => false
  | fwd :: fwds =>
      if negb (String.eqb (TrimSpace (fw_Direction fwd)) DirectionServerToClient)
      then reverse_allowed username normalizedListenAddr fwds
      else
        let configuredAddr := configuredReverseListenAddr fwd in
        if String.eqb configuredAddr ""
           || negb (String.eqb (normalizeTarget configuredAddr) normalizedListenAddr)
        then reverse_allowed username normalizedListenAddr fwds
        else allowedUser (fw_AllowedUsers fwd) username
  end.

Definition authorizeReverse (cfg : Config) (user : UserConfig) (listenAddr : string) : result unit :=
  guard_err (negb (reverse_allowed (TrimSpace (us_Username user)) (normalizeTarget listenAddr)
                     (cfg_Forwards cfg)))
    "user is not allowed to activate this reverse listen address".

(** ** configured_forwards.go *)

Definition forwardDisplayName (fwd : ForwardConfig) : string :=
  let name := TrimSpace (fw_Name fwd) in
  if negb (String.eqb name "") then name
  else
    let addr := TrimSpace (fw_ListenAddr fwd) in
    if negb (String.eqb addr "") then addr else TrimSpace (fw_ServerTarget fwd).

Definition markConfiguredReverseListener (configured : gset string) (addr : string) : gset string :=
  {[ normalizeTarget addr ]} ∪ configured.

Definition isConfiguredReverseListener (configured : gset string) (addr : string) : bool :=
  bool_decide (normalizeTarget addr ∈ configured).

(** The reverse addresses configured, over the forwards in order. *)
Definition prepare_forward (configured : gset string) (fwd : ForwardConfig) : gset string :=
  if String.eqb (TrimSpace (fw_Direction fwd)) DirectionServerToClient then
    let listenAddr := TrimSpace (fw_ListenAddr fwd) in
    if String.eqb listenAddr "" then configured
    else match splitHostPort listenAddr with
    | Err _ => configured
    | Ok (host, _) => if String.eqb host "127.0.0.1"
                      then markConfiguredReverseListener configured listenAddr else configured
    end
  else configured.

Definition prepareConfiguredForwards (cfg : Config) : gset string :=
  foldl prepare_forward ∅ (cfg_Forwards cfg).

Definition authorizeForwardCheck (cfg : Config) (configured : gset string) (user : UserConfig)
    (req : OpenRequest) : result unit :=
  let direction := TrimSpace (rq_Direction req) in
  let direction := if String.eqb direction "" then DirectionClientToServer else direction in
  if String.eqb direction DirectionClientToServer then authorizeTarget cfg user (rq_Target req)
  else if String.eqb direction DirectionServerToClient then
    let listenAddr := TrimSpace (rq_ListenAddr req) in
    if String.eqb listenAddr "" then Err "reverse listen address is required"
    else if negb (isConfiguredReverseListener configured listenAddr)
    then Err "reverse listen address is not configured on server"
    else authorizeReverse cfg user listenAddr
  else Err "request direction is invalid".

Section Audit.
(** The outcome of dialling a target, of listening on an address, and whether
    a reverse listener is active before and after the attempt to listen. *)
Variable dial : string → result unit.
Variable listen : string → result unit.
Variable active_before active_after : string → bool.

Definition check_failed (name direction target listenAddr code message : string) : RuntimeEvent :=
  mkRuntimeEvent "" "" "forward_check" "failed" "" "" "" name direction target listenAddr code message 0 0 0.

Definition auditClientToServerForward (name : string) (fwd : ForwardConfig) : list RuntimeEvent :=
  let target := TrimSpace (fw_ServerTarget fwd) in
  let failed := check_failed name DirectionClientToServer in
  if String.eqb target "" then [failed "" "" "empty_target" "forward target is empty"]
  else match splitHostPort target with
  | Err e => [failed target "" "invalid_target" e]
  | Ok _ => match dial target with
            | Err e => [failed target "" "target_unreachable" e]
            | Ok _ => []
            end
  end.

Definition auditServerToClientForward (name : string) (fwd : ForwardConfig) : list RuntimeEvent :=
  let listenAddr := TrimSpace (fw_ListenAddr fwd) in
  let failed := check_failed name DirectionServerToClient "" in
  if String.eqb listenAddr "" then [failed "" "empty_listen" "reverse listen address is empty"]
  else match splitHostPort listenAddr with
  | Err e => [failed listenAddr "invalid_listen" e]
  | Ok (host, _) =>
      if negb (String.eqb host "127.0.0.1")
      then [failed listenAddr "non_loopback_listen" "reverse listen address must use 127.0.0.1"]
      else if active_before listenAddr then []
      else match listen listenAddr with
      | Err e => if active_after listenAddr then []
                 else [failed listenAddr "passive_port_unavailable" e]
      | Ok _ => []
      end
  end.

Definition audit_forward (fwd : ForwardConfig) : list RuntimeEvent :=
  let name := forwardDisplayName fwd in
  let direction := TrimSpace (fw_Direction fwd) in
  if String.eqb direction DirectionClientToServer then auditClientToServerForward name fwd
  else if String.eqb direction DirectionServerToClient then auditServerToClientForward name fwd
  else [].

(** [cancelled i] tells whether the context is done before forward [i]. *)
Fixpoint auditConfiguredForwardAvailability (cancelled : nat → bool) (i : nat)
    (fwds : list ForwardConfig) : list RuntimeEvent :=
  match fwds with
  | [] => []
  | fwd :: fwds =>
      if cancelled i then []
      else audit_forward fwd ++ auditConfiguredForwardAvailability cancelled (S i) fwds
  end.
End Audit.

(** ** Lemmas *)

Lemma allowedUser_spec users username :
  allowedUser users username = true ↔ ∃ u, u ∈ users ∧ TrimSpace u = username.
Proof.
  unfold allowedUser. rewrite existsb_exists. setoid_rewrite list_elem_of_In.
  setoid_rewrite String.eqb_eq. done.
Qed.

(** A forward of the user that leads to the target. *)
Definition leads_to (username target : string) (fwd : ForwardConfig) : Prop :=
  forward_direction fwd = DirectionClientToServer ∧
  (∃ u, u ∈ fw_AllowedUsers fwd ∧ TrimSpace u = username) ∧
  TrimSpace (fw_ServerTarget fwd) ≠ "" ∧
  normalizeTarget (TrimSpace (fw_ServerTarget fwd)) = normalizeTarget target.

Lemma forward_matches_spec username target fwd :
  forward_matches username (normalizeTarget target) fwd = true ↔ leads_to username target fwd.
Proof.
  unfold forward_matches, leads_to, forward_direction. rewrite <-allowedUser_spec.
  destruct (String.eqb_spec (if String.eqb (TrimSpace (fw_Direction fwd)) "" then DirectionClientToServer
                             else TrimSpace (fw_Direction fwd)) DirectionClientToServer); cbn [negb]; [|naive_solver].
  destruct (allowedUser _ _); cbn [negb]; [|naive_solver].
  rewrite andb_true_iff, negb_true_iff, String.eqb_neq, String.eqb_eq. naive_solver.
Qed.

Lemma allowedConfiguredForward_spec cfg username target :
  is_Some (allowedConfiguredForward cfg username target) ↔
  TrimSpace username ≠ "" ∧ ∃ fwd, fwd ∈ cfg_Forwards cfg ∧ leads_to (TrimSpace username) target fwd.
Proof.
  unfold allowedConfiguredForward. destruct (String.eqb_spec (TrimSpace username) "") as [E|E].
  { split; [by intros [? [=]]|by intros [? _]]. }
  destruct (List.find _ _) as [fwd|] eqn:Ef.
  - apply List.find_some in Ef as [Hin Hm]. apply forward_matches_spec in Hm. split; [|by eexists].
    intros _. split; [done|]. exists fwd. by rewrite list_elem_of_In.
  - split; [by intros [? [=]]|]. intros (_ & fwd & Hin & Hl). apply forward_matches_spec in Hl.
    apply list_elem_of_In in Hin. by rewrite (List.find_none _ _ Ef fwd Hin) in Hl.
Qed.

(** C4: a target is authorised exactly when it is a well-formed address whose
    host is the IPv4 loopback address or a private one, the user has a name,
    and some client-to-server forward that lists the user has that target, up
    to the case and the brackets of the host. *)
Theorem authorizeTarget_exact cfg user target :
  authorizeTarget cfg user target = Ok tt ↔
  (∃ host port, splitHostPort target = Ok (host, port) ∧ IsForwardTargetHost host = true) ∧
  TrimSpace (us_Username user) ≠ "" ∧
  ∃ fwd, fwd ∈ cfg_Forwards cfg ∧ leads_to (TrimSpace (us_Username user)) target fwd.
Proof.
  unfold authorizeTarget. rewrite <-allowedConfiguredForward_spec.
  destruct (splitHostPort target) as [[host port]|e].
  2: { split; [done|]. by intros [(? & ? & [=] & _) _]. }
  destruct (allowedConfiguredForward cfg (us_Username user) target).
  - destruct (IsForwardTargetHost host) eqn:E.
    + split; [|done]. intros _. split; [by exists host, port|by eexists].
    + split; [done|]. intros [(h & p & [= <- <-] & Hh) _]. congruence.
  - split; [done|]. by intros [_ [? [=]]].
Qed.

(** ** Reverse listeners *)

Lemma normalizeTarget_loopback p :
  1 ≤ p ≤ 65535 → normalizeTarget (JoinHostPort "127.0.0.1" (Itoa p)) = JoinHostPort "127.0.0.1" (Itoa p).
Proof.
  intros Hp. unfold normalizeTarget. rewrite TrimSpace_loopback by done.
  rewrite SplitHostPort_JoinHostPort by (done || lia). done.
Qed.

Lemma JoinHostPort_inj h p q :
  0 ≤ p ≤ max_i64 → 0 ≤ q ≤ max_i64 → has_char colon (to_chars h) = false →
  has_char lbracket (to_chars h) = false → has_char rbracket (to_chars h) = false →
  JoinHostPort h (Itoa p) = JoinHostPort h (Itoa q) → p = q.
Proof.
  intros Hp Hq H1 H2 H3 E. pose proof (SplitHostPort_JoinHostPort h p) as S1.
  pose proof (SplitHostPort_JoinHostPort h q) as S2. rewrite E in S1.
  rewrite S2 in S1 by (done || lia). specialize (S1 ltac:(lia) H1 H2 H3). injection S1 as S1.
  pose proof (Atoi_Itoa p Hp) as A1. rewrite <-S1, Atoi_Itoa in A1 by done. congruence.
Qed.

(** On a validated configuration with its defaults, a reverse forward is the
    loopback address of its port. *)
Lemma reverse_forward_address known f port :
  forward_valid known (default_forward f) → reverse_port (default_forward f) = Some port →
  1 ≤ port ≤ 65535 ∧ TrimSpace (fw_Direction (default_forward f)) = DirectionServerToClient ∧
  fw_ListenPort (default_forward f) = port ∧
  fw_ListenAddr (default_forward f) = JoinHostPort "127.0.0.1" (Itoa port) ∧
  length (fw_AllowedUsers (default_forward f)) = 1%nat.
Proof.
  intros (_ & _ & _ & Hp) E. rewrite E in Hp. destruct Hp as (Hr & Hone & Hv & Haddr).
  unfold reverse_port in E. destruct (String.eqb_spec (forward_direction (default_forward f))
    DirectionServerToClient) as [Ed|]; [|done].
  assert (fw_Direction (default_forward f) = DirectionServerToClient) as Edir.
  { rewrite default_forward_direction. rewrite <-Ed. symmetry.
    destruct (forward_direction_nonblank f). apply forward_direction_fixed; [done..|].
    apply default_forward_direction. }
  assert (reverse_normal (default_forward f)) as Hn.
  { rewrite <-default_forward_idemp, default_forward_directed by (by rewrite Ed, Edir).
    by apply normalize_normal. }
  apply (inj Some) in E. destruct Hn as [[Hp Ha]|[Hp Ha]].
  - destruct (Z.leb_spec (fw_ListenPort (default_forward f)) 0); [lia|]. subst port.
    split_and!; try done; try lia. by rewrite Edir.
  - exfalso. rewrite Hp in E. cbn in E.
    destruct (splitHostPort (fw_ListenAddr (default_forward f))) as [[h q]|] eqn:Es; [|lia].
    unfold splitHostPort in Es. rewrite Ha in Es. by vm_compute in Es.
Qed.

Definition loopback_addr (port : Z) : string := JoinHostPort "127.0.0.1" (Itoa port).

(** What the code sees of a forward of a validated configuration. *)
Definition seen_as (f : ForwardConfig) : Prop :=
  match reverse_port f with
  | Some port => 1 ≤ port ≤ 65535 ∧ TrimSpace (fw_Direction f) = DirectionServerToClient ∧
      fw_ListenAddr f = loopback_addr port ∧ length (fw_AllowedUsers f) = 1%nat
  | None => TrimSpace (fw_Direction f) ≠ DirectionServerToClient
  end.

Lemma valid_seen_as known f : forward_valid known (default_forward f) → seen_as (default_forward f).
Proof.
  intros Hv. unfold seen_as. destruct (reverse_port (default_forward f)) as [port|] eqn:E.
  - destruct (reverse_forward_address known f port Hv E) as (? & ? & ? & ? & ?). split_and!; first [done|lia].
  - unfold reverse_port in E. intros Hd. unfold forward_direction in E. rewrite Hd in E. done.
Qed.

Lemma configured_addr f port :
  1 ≤ port ≤ 65535 → fw_ListenAddr f = loopback_addr port →
  configuredReverseListenAddr f = loopback_addr port ∧ String.eqb (loopback_addr port) "" = false.
Proof.
  intros Hp Ha. assert (String.eqb (loopback_addr port) "" = false) as Hne.
  { unfold loopback_addr, JoinHostPort. done. }
  unfold configuredReverseListenAddr. rewrite Ha. unfold loopback_addr at 1 2.
  rewrite TrimSpace_loopback by done. fold (loopback_addr port). by rewrite Hne.
Qed.

Lemma reverse_allowed_spec username n fwds :
  Forall seen_as fwds → NoDup (omap reverse_port fwds) →
  reverse_allowed username n fwds = true ↔
  ∃ f port, f ∈ fwds ∧ reverse_port f = Some port ∧ n = loopback_addr port ∧
    allowedUser (fw_AllowedUsers f) username = true.
Proof.
  induction fwds as [|f fwds IH]; intros Hs Hnd.
  { cbn. split; [done|]. by intros (f & p & ?%not_elem_of_nil & _). }
  apply Forall_cons in Hs as [Hf Hs]. cbn [omap list_omap] in Hnd.
  cbn [reverse_allowed]. unfold seen_as in Hf.
  destruct (reverse_port f) as [port|] eqn:Ep.
  - destruct Hf as (Hp & Hd & Ha & _). apply NoDup_cons in Hnd as [Hnew Hnd]. specialize (IH Hs Hnd).
    destruct (configured_addr f port Hp Ha) as [-> Hne]. rewrite Hd, String.eqb_refl. cbn [negb]. cbv zeta.
    rewrite Hne. cbn [orb]. unfold loopback_addr at 1. rewrite normalizeTarget_loopback by done.
    fold (loopback_addr port). destruct (String.eqb_spec (loopback_addr port) n) as [En|En]; cbn [negb].
    + split.
      * intros Hu. exists f, port. split_and!; [by left|done..].
      * intros (g & q & [->|Hg]%elem_of_cons & Eq & Hn & Hu); [done|].
        exfalso. apply Hnew. apply list_elem_of_omap. exists g. split; [done|].
        rewrite Forall_forall in Hs. specialize (Hs g Hg). unfold seen_as in Hs. rewrite Eq in Hs.
        destruct Hs as (Hq & _). rewrite Eq. f_equal. subst n.
        apply (JoinHostPort_inj "127.0.0.1"); try done; unfold max_i64; lia.
    + rewrite IH. split.
      * intros (g & q & Hg & ?). exists g, q. split; [by right|done].
      * intros (g & q & [->|Hg]%elem_of_cons & Eq & Hn & Hu); [|by exists g, q].
        rewrite Ep in Eq. apply (inj Some) in Eq. by subst q.
  - destruct (String.eqb_spec (TrimSpace (fw_Direction f)) DirectionServerToClient) as [|_]; [done|]. cbn [negb].
    rewrite (IH Hs Hnd). split.
    + intros (g & q & Hg & ?). exists g, q. split; [by right|done].
    + intros (g & q & [->|Hg]%elem_of_cons & Eq & ?); [congruence|by exists g, q].
Qed.

Lemma prepare_spec fwds s x :
  Forall seen_as fwds →
  x ∈ foldl prepare_forward s fwds ↔
  x ∈ s ∨ ∃ f port, f ∈ fwds ∧ reverse_port f = Some port ∧ x = loopback_addr port.
Proof.
  revert s. induction fwds as [|f fwds IH]; intros s Hs; cbn [foldl].
  { split; [by left|]. by intros [?|(f & p & ?%not_elem_of_nil & _)]. }
  apply Forall_cons in Hs as [Hf Hs]. rewrite (IH _ Hs). clear IH.
  assert (x ∈ prepare_forward s f ↔ x ∈ s ∨ ∃ port, reverse_port f = Some port ∧ x = loopback_addr port) as ->.
  { unfold prepare_forward. unfold seen_as in Hf. destruct (reverse_port f) as [port|].
    - destruct Hf as (Hp & -> & -> & _). rewrite String.eqb_refl. cbv zeta. unfold loopback_addr at 1 2 3.
      rewrite TrimSpace_loopback, splitHostPort_loopback by done.
      change (String.eqb (JoinHostPort "127.0.0.1" (Itoa port)) "") with false.
      rewrite String.eqb_refl. unfold markConfiguredReverseListener.
      rewrite normalizeTarget_loopback by done. fold (loopback_addr port).
      rewrite elem_of_union, elem_of_singleton. split.
      + intros [->|?]; [right; by exists port|by left].
      + intros [?|(q & [= <-] & ->)]; [by right|by left].
    - destruct (String.eqb_spec (TrimSpace (fw_Direction f)) DirectionServerToClient); [done|].
      split; [by left|]. by intros [?|(q & [=] & _)]. }
  setoid_rewrite elem_of_cons. split.
  - intros [[?|(p & ? & ?)]|(g & p & ? & ? & ?)]; [by left|right; exists f, p; auto|right; exists g, p; auto].
  - intros [?|(g & p & [->|?] & ? & ?)]; [by left; left|left; right; by exists p|right; by exists g, p].
Qed.

(** On a validated configuration, a reverse listen address is authorised
    exactly for the user its port belongs to: the request's address is, up to
    the case and the brackets of its host, the loopback address of the port of
    a reverse forward, and the user is the one allowed on it. *)
Theorem reverse_authorization_exact `{LocalTime} cfg0 user req :
  let cfg := ApplyDefaults cfg0 in
  config_valid cfg → TrimSpace (rq_Direction req) = DirectionServerToClient →
  authorizeForwardCheck cfg (prepareConfiguredForwards cfg) user req = Ok tt ↔
  TrimSpace (rq_ListenAddr req) ≠ "" ∧
  ∃ fwd port u, fwd ∈ cfg_Forwards cfg ∧ reverse_port fwd = Some port ∧
    normalizeTarget (TrimSpace (rq_ListenAddr req)) = loopback_addr port ∧
    fw_AllowedUsers fwd = [u] ∧ TrimSpace u = TrimSpace (us_Username user).
Proof.
  cbn zeta. intros Hv Hd. set (cfg := ApplyDefaults cfg0) in *.
  assert (Forall seen_as (cfg_Forwards cfg)) as Hs.
  { pose proof (cv_forwards _ Hv) as Hf. cbn in Hf |- *. rewrite Forall_fmap in Hf |- *.
    eapply Forall_impl; [exact Hf|]. intros f. apply valid_seen_as. }
  pose proof (cv_ports _ Hv) as Hnd.
  unfold authorizeForwardCheck, isConfiguredReverseListener, authorizeReverse. rewrite Hd. cbv zeta.
  change (String.eqb DirectionServerToClient "") with false. cbv iota.
  change (String.eqb DirectionServerToClient DirectionClientToServer) with false. rewrite String.eqb_refl.
  cbv iota. destruct (String.eqb_spec (TrimSpace (rq_ListenAddr req)) "") as [E|E]; [naive_solver|].
  unfold prepareConfiguredForwards. case_bool_decide as Hc; cbn [negb].
  - rewrite guard_err_ok, negb_false_iff, reverse_allowed_spec by done. split.
    + intros (f & port & Hin & Ep & Hn & (u & Hu & Hname)%allowedUser_spec). split; [done|].
      rewrite Forall_forall in Hs. specialize (Hs f Hin). unfold seen_as in Hs. rewrite Ep in Hs.
      destruct Hs as (_ & _ & _ & Hone). destruct (fw_AllowedUsers f) as [|u' [|? ?]] eqn:Eu; try done.
      apply list_elem_of_singleton in Hu. subst u'. by exists f, port, u.
    + intros (_ & f & port & u & Hin & Ep & Hn & Hu & Hname). exists f, port. split_and!; [done..|].
      apply allowedUser_spec. exists u. rewrite Hu. split; [by left|done].
  - split; [done|]. intros (_ & f & port & u & Hin & Ep & Hn & _). exfalso. apply Hc.
    apply prepare_spec; [done|]. right. by exists f, port.
Qed.

Lemma reverse_authorization_exact_witness :
  authorizeForwardCheck (ApplyDefaults sampleConfig) (prepareConfiguredForwards (ApplyDefaults sampleConfig))
    (mkUserConfig "bob" "" true)
    (mkOpenRequest "forward_check" "" "" None "" "" 3 "" "server_to_client" "127.0.0.1:8081" "" "") = Ok tt.
Proof.
  apply (@reverse_authorization_exact noTime sampleConfig).
  - apply (@ValidateConfig_valid noTime). vm_compute. reflexivity.
  - vm_compute. reflexivity.
  - split; [vm_compute; discriminate|].
    exists (mkForwardConfig "old" "server_to_client" 8081 "127.0.0.1:8081" "" ["bob"]), 8081, "bob".
    split_and!; try (vm_compute; reflexivity).
    vm_compute. right; right; left.
Defined.
