(* ===== verification/CredentialSeal.v ===== *)
(** * The server's credential keys (src/server/tunnel/credential_seal.go)

    Keys that seal saved logins, each with an expiry: loading them, rotating
    the active one when it expires (to the configured key that expires next,
    or to a new one), writing the rotation to the configuration file, and
    getting a password out of a request. The state is the part of [Server] the
    credential lock guards, with the lines logged on the way. *)

From S2P Require Import Prelude.
From S2P Require Import GoStd.
From S2P Require Import Disk.
From S2P Require Import Protocol.
From S2P Require Import GoCrypto.
From S2P Require Import Credseal.
From S2P Require Import ConfigData.
From S2P Require Import ServerConfig.

#[local] Open Scope Z_scope.

(** ** Paths in the configuration file *)

Definition rawCredentialPathTemplate (keys : list CredentialSealKeyConfig) : CredentialSealKeyConfig :=
  match List.find ck_Active keys with
  | Some key => key
  | None => default (mkCredentialSealKeyConfig "" "" "" "" false) (last keys)
  end.

Definition relativeCredentialPath (configPath target : string) : string :=
  if String.eqb (TrimSpace target) "" then target
  else match Rel (Dir configPath) target with
  | Ok rel => if HasPrefix rel "../.." then target else rel
  | Err _ => target
  end.

Definition backslash : string := String (of_code 92) "".

Definition joinConfigPath (dir name : string) : string :=
  let dir := TrimRight (TrimSpace dir) ("/" +:+ backslash) in
  if String.eqb dir "" || String.eqb dir "." then name
  else if Contains dir "/" then dir +:+ "/" +:+ name
  else dir +:+ backslash +:+ name.

(** ** State *)

Section Keys.
Context `{SealCrypto} `{PEM} `{PlainCodec : JSONCodec PlainCredential}
  `{EnvelopeCodec : JSONCodec encryptedEnvelope} `{ConfigCodec : YAMLCodec Config} `{LocalTime}.

(** A key that had expired when it was loaded has no private part. *)
Record credentialSealKey := mkCredentialSealKey {
  sk_id : string;
  sk_expiresAt : Time;
  sk_private : option PrivateKey;
  sk_publicPEM : string;
  sk_active : bool
}.

Record credentialState := mkCredentialState {
  cs_ConfigPath : string;
  cs_Keys : list CredentialSealKeyConfig;
  cs_credentialKeys : gmap string credentialSealKey;
  cs_activeCredentialKey : option credentialSealKey;
  cs_log : list string
}.

Definition logCredential (s : credentialState) (line : string) : credentialState :=
  mkCredentialState (cs_ConfigPath s) (cs_Keys s) (cs_credentialKeys s) (cs_activeCredentialKey s)
    (cs_log s ++ [line]).

(** [mustParseRFC3339] gives the zero time for a text that does not parse. *)
Definition mustParseRFC3339 (text : string) : Time := default zeroTime (ParseRFC3339 text).

(** ** The next key *)

(** The index and expiry of the best key so far. *)
Definition better_key (now : Time) (currentID : string) (best : option (nat * Time))
    (item : nat * CredentialSealKeyConfig) : option (nat * Time) :=
  let '(i, key) := item in
  let id := TrimSpace (ck_KeyID key) in
  if String.eqb id "" || String.eqb id currentID then best
  else match ParseRFC3339 (TrimSpace (ck_ExpiresAt key)) with
  | None => best
  | Some expiresAt =>
      if negb (After expiresAt now) then best
      else match best with
      | None => Some (i, expiresAt)
      | Some (_, bestExpiry) => if Before expiresAt bestExpiry then Some (i, expiresAt) else best
      end
  end.

Definition best_key (now : Time) (currentID : string) (keys : list CredentialSealKeyConfig)
    : option (nat * Time) :=
  foldl (better_key now currentID) None (imap pair keys).

(** Each number tried is another text: one more try than there are keys is
    fuel enough. *)
Fixpoint fresh_key_id (existing : list string) (baseID : string) (fuel : nat) (i : Z) (keyID : string)
    : string :=
  match fuel with
  | O => keyID
  | S fuel =>
      if bool_decide (keyID ∈ existing)
      then fresh_key_id existing baseID fuel (i + 1) (baseID +:+ "-" +:+ ItoaPad 2 i)
      else keyID
  end.

Definition newKeyID (existing : list string) (baseID : string) : string :=
  fresh_key_id existing baseID (S (length existing)) 2 baseID.

Definition trimmed_ids (keys : list CredentialSealKeyConfig) : list string :=
  map (λ k, TrimSpace (ck_KeyID k)) keys.

Definition nextCredentialSealKeyConfigLocked (now : Time) (keys : list CredentialSealKeyConfig)
    (currentID : string) : CredentialSealKeyConfig * option nat :=
  match best_key now currentID keys with
  | Some (i, _) => (default (mkCredentialSealKeyConfig "" "" "" "" false) (keys !! i), Some i)
  | None =>
      let expiry := AddMonths now 3 in
      let keyID := newKeyID (trimmed_ids keys) ("login-key-" +:+ FormatMonth now) in
      let '(privateDir, publicDir) :=
        match List.find (λ k, String.eqb (TrimSpace (ck_KeyID k)) currentID) keys with
        | Some key => (Dir (ck_PrivateKeyFile key), Dir (ck_PublicKeyFile key))
        | None => ("", "")
        end in
      let privateDir := if String.eqb privateDir "" || String.eqb privateDir "." then "certs" else privateDir in
      let publicDir := if String.eqb publicDir "" || String.eqb publicDir "." then privateDir else publicDir in
      (mkCredentialSealKeyConfig keyID (JoinPath privateDir (keyID +:+ ".key"))
         (JoinPath publicDir (keyID +:+ ".pub")) (FormatRFC3339 expiry) true, None)
  end.

(** ** Rotation *)

Definition with_seal_keys (cfg : Config) (keys : list CredentialSealKeyConfig) : Config :=
  mkConfig (cfg_ConfigPath cfg) (cfg_ConfigVersion cfg) (cfg_Requires cfg) (cfg_Compatibility cfg)
    (cfg_ListenAddr cfg) (cfg_MonitorAddr cfg) (cfg_LogLevel cfg) (cfg_TLS cfg) (cfg_Users cfg)
    (cfg_Forwards cfg) (cfg_Security cfg) keys (cfg_Runtime cfg).

Definition set_active (active : bool) (k : CredentialSealKeyConfig) : CredentialSealKeyConfig :=
  mkCredentialSealKeyConfig (ck_KeyID k) (ck_PrivateKeyFile k) (ck_PublicKeyFile k) (ck_ExpiresAt k) active.

(** The keys of the file with only the new one active. *)
Definition persisted_keys (newID : string) (rawNew : CredentialSealKeyConfig)
    (keys : list CredentialSealKeyConfig) : list CredentialSealKeyConfig :=
  let same k := String.eqb (TrimSpace (ck_KeyID k)) (TrimSpace newID) in
  let marked := map (λ k, set_active (same k) k) keys in
  if existsb same keys then marked else marked ++ [rawNew].

Definition persistCredentialSealRotationLocked (configPath : string) (newCfg : CredentialSealKeyConfig)
    (d : Disk) : Disk * result unit :=
  let configPath := TrimSpace configPath in
  if String.eqb configPath "" then (d, Ok tt)
  else match ReadFile d configPath with
  | ReadNotExist => (d, Err (not_exist configPath))
  | ReadErr e => (d, Err e)
  | ReadData data =>
      match yaml_unmarshal data with
      | Err e => (d, Err e)
      | Ok raw =>
          let previous := rawCredentialPathTemplate (cfg_CredentialSealKeys raw) in
          let rawNew :=
            if negb (String.eqb (ck_KeyID previous) "") then
              mkCredentialSealKeyConfig (ck_KeyID newCfg)
                (joinConfigPath (Dir (ck_PrivateKeyFile previous)) (ck_KeyID newCfg +:+ ".key"))
                (joinConfigPath (Dir (ck_PublicKeyFile previous)) (ck_KeyID newCfg +:+ ".pub"))
                (ck_ExpiresAt newCfg) (ck_Active newCfg)
            else
              mkCredentialSealKeyConfig (ck_KeyID newCfg)
                (relativeCredentialPath configPath (ck_PrivateKeyFile newCfg))
                (relativeCredentialPath configPath (ck_PublicKeyFile newCfg))
                (ck_ExpiresAt newCfg) (ck_Active newCfg) in
          let keys := persisted_keys (ck_KeyID newCfg) rawNew (cfg_CredentialSealKeys raw) in
          match yaml_marshal (with_seal_keys raw keys) with
          | Err e => (d, Err e)
          | Ok out => WriteFile d configPath out
          end
      end
  end.

Definition rotateExpiredCredentialSealKeyLocked (now : Time) (s : credentialState) (d : Disk)
    : credentialState * Disk * result unit :=
  match cs_activeCredentialKey s with
  | None => (s, d, Ok tt)
  | Some current =>
      if After (sk_expiresAt current) now then (s, d, Ok tt)
      else
        let '(newCfg, existingIndex) :=
          nextCredentialSealKeyConfigLocked now (cs_Keys s) (sk_id current) in
        match EnsureKeyFiles d (ck_PrivateKeyFile newCfg) (ck_PublicKeyFile newCfg) 3072 with
        | (d, Err e) => (s, d, Err ("rotate credential seal key " +:+ ck_KeyID newCfg +:+ ": " +:+ e))
        | (d, Ok (privateKey, publicPEM)) =>
            let keys := map (set_active false) (cs_Keys s) in
            let keys := match existingIndex with
                        | Some i => alter (set_active true) i keys
                        | None => keys ++ [newCfg]
                        end in
            let key := mkCredentialSealKey (ck_KeyID newCfg) (mustParseRFC3339 (ck_ExpiresAt newCfg))
                         (Some privateKey) publicPEM true in
            let s := mkCredentialState (cs_ConfigPath s) keys (<[sk_id key := key]> (cs_credentialKeys s))
                       (Some key) (cs_log s) in
            let '(d, r) := persistCredentialSealRotationLocked (cs_ConfigPath s) newCfg d in
            let s := match r with
                     | Err e => logCredential s ("persist credential seal key rotation failed: " +:+ e)
                     | Ok _ => s
                     end in
            (logCredential s ("credential seal key rotated: " +:+ sk_id current +:+ " -> " +:+ sk_id key),
             d, Ok tt)
        end
  end.

(** ** Loading and use *)

Fixpoint load_keys (now : Time) (items : list CredentialSealKeyConfig) (s : credentialState) (d : Disk)
    : credentialState * Disk * result unit :=
  match items with
  | [] => (s, d, Ok tt)
  | item :: items =>
      match ParseRFC3339 (TrimSpace (ck_ExpiresAt item)) with
      | None => (s, d, Err ("parse credential seal key " +:+ ck_KeyID item +:+ " expires_at: parsing time"))
      | Some expiresAt =>
          let '(d, files) :=
            if After expiresAt now then
              match EnsureKeyFiles d (ck_PrivateKeyFile item) (ck_PublicKeyFile item) 3072 with
              | (d, Ok (k, pem)) => (d, Ok (Some k, pem))
              | (d, Err e) => (d, Err ("load credential seal key " +:+ ck_KeyID item +:+ ": " +:+ e))
              end
            else (d, Ok (None, "")) in
          match files with
          | Err e => (s, d, Err e)
          | Ok (privateKey, publicPEM) =>
              let key := mkCredentialSealKey (TrimSpace (ck_KeyID item)) expiresAt privateKey publicPEM
                           (ck_Active item) in
              load_keys now items
                (mkCredentialState (cs_ConfigPath s) (cs_Keys s) (<[sk_id key := key]> (cs_credentialKeys s))
                   (if ck_Active item then Some key else cs_activeCredentialKey s) (cs_log s)) d
          end
      end
  end.

Definition loadCredentialSealKeys (now : Time) (s : credentialState) (d : Disk)
    : credentialState * Disk * result unit :=
  let s := mkCredentialState (cs_ConfigPath s) (cs_Keys s) ∅ (cs_activeCredentialKey s) (cs_log s) in
  match load_keys now (cs_Keys s) s d with
  | (s, d, Err e) => (s, d, Err e)
  | (s, d, Ok _) => rotateExpiredCredentialSealKeyLocked now s d
  end.

Definition rotation_failed (e : string) : string := "credential seal key rotation failed: " +:+ e.

(** [now] and [later] are the two readings of the clock. *)
Definition activeCredentialPublicKey (now later : Time) (s : credentialState) (d : Disk)
    : credentialState * Disk * option CredentialPublicKey :=
  match rotateExpiredCredentialSealKeyLocked now s d with
  | (s, d, Err e) => (logCredential s (rotation_failed e), d, None)
  | (s, d, Ok _) =>
      (s, d, match cs_activeCredentialKey s with
             | None => None
             | Some key =>
                 if After (sk_expiresAt key) later
                 then Some (mkCredentialPublicKey TypeServerSealed (sk_id key)
                              (FormatRFC3339 (sk_expiresAt key)) (sk_publicPEM key))
                 else None
             end)
  end.

(** One turn of [credentialSealRotationLoop]. *)
Definition rotationTick (now : Time) (s : credentialState) (d : Disk) : credentialState * Disk :=
  match rotateExpiredCredentialSealKeyLocked now s d with
  | (s, d, Err e) => (logCredential s (rotation_failed e), d)
  | (s, d, Ok _) => (s, d)
  end.

Definition auth_failed : string * string * string :=
  ("", "auth_failed", "username or password is incorrect").
Definition credential_expired : string * string * string :=
  ("", "credential_expired", "saved login has expired, please enter password again").

(** What a found key gives; [None] is the panic of decrypting with a key that
    has no private part. [later] and [last] are clock readings. *)
Definition open_credential (key : option credentialSealKey) (later last : Time)
    (credential : SealedCredential) (username : string) : option (string * string * string) :=
  match key with
  | None => Some credential_expired
  | Some key =>
      if negb (After (sk_expiresAt key) later) then Some credential_expired
      else match sk_private key with
      | None => None
      | Some private =>
          match Open credential private with
          | Err _ => Some auth_failed
          | Ok plain =>
              if negb (String.eqb (pc_Username plain) username) then Some auth_failed
              else if String.eqb (pc_ExpiresAt plain) "" then Some credential_expired
              else match ParseRFC3339 (pc_ExpiresAt plain) with
              | None => Some credential_expired
              | Some t => if After t last then Some (pc_Password plain, "", "")
                          else Some credential_expired
              end
          end
      end
  end.

Definition passwordFromRequest (now later last : Time) (s : credentialState) (d : Disk)
    (req : OpenRequest) : credentialState * Disk * option (string * string * string) :=
  if negb (String.eqb (rq_Password req) "") then (s, d, Some (rq_Password req, "", ""))
  else match rq_Credential req with
  | None => (s, d, Some auth_failed)
  | Some credential =>
      if String.eqb (TrimSpace (sc_Ciphertext credential)) "" then (s, d, Some auth_failed)
      else if negb (String.eqb (sc_Type credential) TypeServerSealed) then (s, d, Some auth_failed)
      else
        let '(s, d) := rotationTick now s d in
        let key := cs_credentialKeys s !! TrimSpace (sc_KeyID credential) in
        (s, d, open_credential key later last credential (rq_Username req))
  end.
End Keys.

Example config_paths :
  joinConfigPath "../certs/" "a.key" = "../certs/a.key" ∧ joinConfigPath "." "a.key" = "a.key" ∧
  joinConfigPath ("keys" +:+ backslash) "a.key" = "keys" +:+ backslash +:+ "a.key" ∧
  relativeCredentialPath "/etc/lsyl/conf/server.yaml" "/etc/lsyl/conf/certs/a.key" = "certs/a.key" ∧
  relativeCredentialPath "/etc/lsyl/conf/server.yaml" "/var/a.key" = "/var/a.key" ∧
  newKeyID ["login-key-2026-01"; "login-key-2026-01-02"] "login-key-2026-01" = "login-key-2026-01-03".
Proof. vm_compute. repeat split; reflexivity. Qed.

(** ** The next key *)

Lemma ItoaPad_value n z : 0 ≤ z → parse_digits (to_chars (ItoaPad n z)) = Some z.
Proof.
  intros Hz. unfold ItoaPad. rewrite to_chars_app, to_of_chars.
  pose proof (parse_digits_Itoa z Hz) as Hp. unfold parse_digits in *.
  destruct (to_chars (Itoa z)) as [|c l] eqn:E; [done|].
  assert (∀ k, digits_value 0 (replicate k "0"%char ++ c :: l) = Some z) as Hk.
  { induction k as [|k IH]; [done|]. cbn [replicate app digits_value].
    change (digit_of "0"%char) with (Some 0). cbn [mbind option_bind]. exact IH. }
  specialize (Hk (n - String.length (Itoa z))%nat).
  by destruct (replicate _ _ ++ c :: l) as [|c' l'] eqn:E'; [destruct (replicate _ _)|].
Qed.

#[export] Instance ItoaPad_inj n baseID :
  Inj (=) (=) (λ i : nat, baseID +:+ "-" +:+ ItoaPad n (Z.of_nat i)).
Proof.
  intros i j E. apply (f_equal to_chars) in E. rewrite !to_chars_app in E. apply (inj (app _)) in E.
  apply (inj (app _)) in E. apply (f_equal parse_digits) in E. rewrite !ItoaPad_value in E by lia.
  apply (inj Some) in E. lia.
Qed.

(** The texts tried: the base, then the numbered ones from [i] on. *)
Definition tried (baseID : string) (i : nat) : string := baseID +:+ "-" +:+ ItoaPad 2 (Z.of_nat i).

Lemma fresh_key_id_tried existing baseID fuel i keyID :
  fresh_key_id existing baseID fuel (Z.of_nat i) keyID ∈ existing →
  Forall (λ id, id ∈ existing) (keyID :: map (tried baseID) (seq i fuel)).
Proof.
  revert i keyID. induction fuel as [|fuel IH]; intros i keyID; cbn [fresh_key_id seq map].
  { intros. by repeat constructor. }
  case_bool_decide as Hin; [|done]. intros Hres. constructor; [done|].
  replace (Z.of_nat i + 1) with (Z.of_nat (S i)) in Hres by lia. by apply (IH (S i)).
Qed.

Lemma newKeyID_fresh existing baseID : newKeyID existing baseID ∉ existing.
Proof.
  unfold newKeyID. intros Hin. apply (fresh_key_id_tried _ _ _ 2) in Hin. apply Forall_cons in Hin as [_ Hin].
  assert (NoDup (map (tried baseID) (seq 2 (S (length existing))))) as Hnd.
  { apply (NoDup_fmap_2 (tried baseID)), NoDup_seq. }
  assert (length (map (tried baseID) (seq 2 (S (length existing)))) ≤ length existing)%nat as Hl.
  { apply submseteq_length, NoDup_submseteq; [done|]. rewrite Forall_forall in Hin. exact Hin. }
  rewrite length_map, length_seq in Hl. lia.
Qed.

Section NextKey.
Context `{LocalTime}.

(** A key the rotation may choose, with its expiry. *)
Definition usable (now : Time) (currentID : string) (k : CredentialSealKeyConfig) (e : Time) : Prop :=
  TrimSpace (ck_KeyID k) ≠ "" ∧ TrimSpace (ck_KeyID k) ≠ currentID ∧
  ParseRFC3339 (TrimSpace (ck_ExpiresAt k)) = Some e ∧ now < e.

Definition best_ok (now : Time) (currentID : string) (keys : list CredentialSealKeyConfig)
    (best : option (nat * Time)) : Prop :=
  match best with
  | None => ∀ k e, k ∈ keys → ¬ usable now currentID k e
  | Some (i, e) => (∃ k, keys !! i = Some k ∧ usable now currentID k e) ∧
                   ∀ k' e', k' ∈ keys → usable now currentID k' e' → e ≤ e'
  end.

(** A key that cannot be chosen leaves the best one, one that can is compared. *)
Lemma better_key_cases now currentID best i k :
  (better_key now currentID best (i, k) = best ∧ ∀ e, ¬ usable now currentID k e) ∨
  ∃ e, usable now currentID k e ∧
    better_key now currentID best (i, k)
    = match best with
      | None => Some (i, e)
      | Some (_, b) => if Before e b then Some (i, e) else best
      end.
Proof.
  unfold better_key, usable, After.
  destruct (String.eqb_spec (TrimSpace (ck_KeyID k)) "") as [|H1]; [left; split; [done|naive_solver]|].
  destruct (String.eqb_spec (TrimSpace (ck_KeyID k)) currentID) as [|H2]; [left; split; [done|naive_solver]|].
  destruct (ParseRFC3339 _) as [e|]; [|left; split; [done|naive_solver]]. cbn [orb].
  destruct (Z.ltb_spec now e); [right; by exists e|left]. split; [done|].
  intros e' (_ & _ & [= <-] & ?). lia.
Qed.

Lemma best_key_ok now currentID keys : best_ok now currentID keys (best_key now currentID keys).
Proof.
  unfold best_key. induction keys as [|k keys IH] using rev_ind; [by intros ? ? ?%not_elem_of_nil|].
  rewrite imap_app. cbn [imap]. rewrite Nat.add_0_r, foldl_snoc.
  destruct (better_key_cases now currentID (foldl (better_key now currentID) None (imap pair keys))
              (length keys) k) as [[-> Hno]|(e & Hk & ->)].
  - destruct (foldl _ _ _) as [[i e]|]; cbn [best_ok] in *.
    + destruct IH as [(k0 & Hi & Hk0) Hmin]. split.
      * exists k0. split; [by apply lookup_app_l_Some|done].
      * intros k' e' [Hin| ->%list_elem_of_singleton]%elem_of_app Hu; [by eapply Hmin|by destruct (Hno e')].
    + intros k' e' [Hin| ->%list_elem_of_singleton]%elem_of_app; [by apply IH|apply Hno].
  - assert ((keys ++ [k]) !! length keys = Some k) as Hlast
      by (by rewrite lookup_app_r, Nat.sub_diag by lia).
    assert (∀ e', usable now currentID k e' → e' = e) as Huniq.
    { intros e' (_ & _ & E' & _). destruct Hk as (_ & _ & E & _). congruence. }
    destruct (foldl _ _ _) as [[i b]|]; cbn [best_ok] in *; unfold Before.
    + destruct IH as [(k0 & Hi & Hk0) Hmin]. destruct (Z.ltb_spec e b); (split; [|
        intros k' e' [Hin| ->%list_elem_of_singleton]%elem_of_app Hu;
        [specialize (Hmin _ _ Hin Hu)|rewrite (Huniq _ Hu)]; lia]).
      * by exists k.
      * exists k0. split; [by apply lookup_app_l_Some|done].
    + split; [by exists k|].
      intros k' e' [Hin| ->%list_elem_of_singleton]%elem_of_app Hu; [by destruct (IH _ _ Hin Hu)|].
      by rewrite (Huniq _ Hu).
Qed.
End NextKey.

(** ** Rotation *)

Section Rotation.
Context `{SealCrypto} `{PEM} `{PlainCodec : JSONCodec PlainCredential}
  `{EnvelopeCodec : JSONCodec encryptedEnvelope} `{ConfigCodec : YAMLCodec Config} `{LocalTime}.

Definition active_keys (keys : list CredentialSealKeyConfig) : list CredentialSealKeyConfig :=
  List.filter ck_Active keys.

Lemma active_keys_none keys : active_keys (map (set_active false) keys) = [].
Proof. by induction keys. Qed.

Lemma active_keys_one keys i k :
  keys !! i = Some k → active_keys (alter (set_active true) i (map (set_active false) keys)) = [set_active true k].
Proof.
  revert i. induction keys as [|k0 keys IH]; intros [|i] Hi; try done.
  - injection Hi as ->. cbn. f_equal. apply active_keys_none.
  - cbn. by apply IH.
Qed.

(** The rules validation leaves to the file: no blanks around ids and expiries. *)
Definition keys_trimmed (keys : list CredentialSealKeyConfig) : Prop :=
  Forall (λ k, TrimSpace (ck_KeyID k) = ck_KeyID k ∧ TrimSpace (ck_ExpiresAt k) = ck_ExpiresAt k) keys.

(** What the next configuration is, in both cases. *)
Lemma next_key_cases now keys currentID newCfg existing :
  nextCredentialSealKeyConfigLocked now keys currentID = (newCfg, existing) →
  (∃ i e, existing = Some i ∧ keys !! i = Some newCfg ∧ usable now currentID newCfg e ∧
     ∀ k' e', k' ∈ keys → usable now currentID k' e' → e ≤ e') ∨
  (existing = None ∧ (∀ k e, k ∈ keys → ¬ usable now currentID k e) ∧
   (ck_KeyID newCfg ∉ trimmed_ids keys) ∧ ck_Active newCfg = true ∧
   ck_ExpiresAt newCfg = FormatRFC3339 (AddMonths now 3)).
Proof.
  unfold nextCredentialSealKeyConfigLocked. pose proof (best_key_ok now currentID keys) as Hb.
  destruct (best_key now currentID keys) as [[i e]|]; cbn [best_ok] in Hb.
  - destruct Hb as [(k & Hi & Hk) Hmin]. rewrite Hi. cbn [default from_option id]. intros [= <- <-].
    left. by exists i, e.
  - set (dirs := match List.find _ keys with Some _ => _ | None => _ end).
    destruct dirs as [privateDir publicDir]. intros [= <- <-].
    right. split_and!; [done|done|apply newKeyID_fresh|done|done].
Qed.

Lemma rotate_result now s d s' d' cur :
  cs_activeCredentialKey s = Some cur → sk_expiresAt cur ≤ now →
  rotateExpiredCredentialSealKeyLocked now s d = (s', d', Ok tt) →
  ∃ newCfg existing privateKey pem,
    nextCredentialSealKeyConfigLocked now (cs_Keys s) (sk_id cur) = (newCfg, existing) ∧
    let key := mkCredentialSealKey (ck_KeyID newCfg) (mustParseRFC3339 (ck_ExpiresAt newCfg))
                 (Some privateKey) pem true in
    cs_activeCredentialKey s' = Some key ∧
    cs_credentialKeys s' = <[sk_id key := key]> (cs_credentialKeys s) ∧
    cs_Keys s' = match existing with
                 | Some i => alter (set_active true) i (map (set_active false) (cs_Keys s))
                 | None => map (set_active false) (cs_Keys s) ++ [newCfg]
                 end.
Proof.
  intros Hcur Hexp. unfold rotateExpiredCredentialSealKeyLocked. rewrite Hcur. unfold After.
  destruct (Z.ltb_spec now (sk_expiresAt cur)); [lia|].
  destruct (nextCredentialSealKeyConfigLocked now (cs_Keys s) (sk_id cur)) as [newCfg existing].
  destruct (EnsureKeyFiles _ _ _ _) as [d1 [[k pem]|e]]; [|done].
  destruct (persistCredentialSealRotationLocked _ _ _) as [d2 r]. intros E.
  exists newCfg, existing, k, pem. split; [done|].
  destruct r; injection E as <- _; cbn; by destruct existing.
Qed.

(** C14: rotating an expired key gives an active key that is not expired and has
    its private part, under its id, and is the only active one of the
    configuration: the usable configured key that expires first, or when there
    is none a new key with an id no configured key has. Every other key stays. *)
Theorem rotation_activates now s d s' d' cur :
  (∃ e, ParseRFC3339 (FormatRFC3339 (AddMonths now 3)) = Some e ∧ now < e) →
  keys_trimmed (cs_Keys s) →
  cs_activeCredentialKey s = Some cur → sk_expiresAt cur ≤ now →
  rotateExpiredCredentialSealKeyLocked now s d = (s', d', Ok tt) →
  ∃ key, cs_activeCredentialKey s' = Some key ∧ now < sk_expiresAt key ∧ is_Some (sk_private key) ∧
    cs_credentialKeys s' = <[sk_id key := key]> (cs_credentialKeys s) ∧
    map ck_KeyID (active_keys (cs_Keys s')) = [sk_id key] ∧
    ((∃ k, k ∈ cs_Keys s ∧ ck_KeyID k = sk_id key ∧ usable now (sk_id cur) k (sk_expiresAt key) ∧
       ∀ k' e', k' ∈ cs_Keys s → usable now (sk_id cur) k' e' → sk_expiresAt key ≤ e') ∨
     ((∀ k e, k ∈ cs_Keys s → ¬ usable now (sk_id cur) k e) ∧ sk_id key ∉ trimmed_ids (cs_Keys s))).
Proof.
  intros Hcal Htrim Hcur Hexp Hrot.
  destruct (rotate_result now s d s' d' cur Hcur Hexp Hrot) as (newCfg & existing & k & pem & Hnext & Hact & Hmap & Hkeys).
  eexists. split; [exact Hact|]. cbn [sk_id sk_expiresAt sk_private] in *.
  destruct (next_key_cases _ _ _ _ _ Hnext) as [(i & e & -> & Hi & Hu & Hmin)|(-> & Hno & Hfresh & Ha & He)].
  - apply (Forall_lookup_1 _ _ _ _ Htrim) in Hi as Ht. destruct Ht as [_ Htime].
    destruct (Hu) as (_ & _ & Hparse & Hnow). rewrite Htime in Hparse.
    assert (mustParseRFC3339 (ck_ExpiresAt newCfg) = e) as Em by (unfold mustParseRFC3339; by rewrite Hparse).
    rewrite Em in *.
    split_and!; [done|by eexists|done|by rewrite Hkeys, (active_keys_one _ _ _ Hi)|].
    left. exists newCfg. split_and!; [by eapply list_elem_of_lookup_2|done|done|done].
  - destruct Hcal as (e & Hparse & Hlt). rewrite <-He in Hparse.
    assert (mustParseRFC3339 (ck_ExpiresAt newCfg) = e) as Em by (unfold mustParseRFC3339; by rewrite Hparse).
    rewrite Em in *.
    split_and!; [done|by eexists|done| |by right].
    rewrite Hkeys. unfold active_keys. rewrite List.filter_app.
    pose proof (active_keys_none (cs_Keys s)) as E. unfold active_keys in E. rewrite E.
    cbn [List.filter app]. by rewrite Ha.
Qed.

(** ** Passwords *)

(** Keys without a private part had expired when they were loaded. *)
Definition keys_ok (loaded : Time) (s : credentialState) : Prop :=
  map_Forall (λ _ key, is_Some (sk_private key) ∨ sk_expiresAt key ≤ loaded) (cs_credentialKeys s).

Lemma rotate_keys_ok loaded now s d :
  keys_ok loaded s → keys_ok loaded (rotateExpiredCredentialSealKeyLocked now s d).1.1.
Proof.
  intros Hok. unfold rotateExpiredCredentialSealKeyLocked.
  destruct (cs_activeCredentialKey s) as [cur|]; [|done]. destruct (After _ now); [done|].
  destruct (nextCredentialSealKeyConfigLocked _ _ _) as [newCfg existing].
  destruct (EnsureKeyFiles _ _ _ _) as [d1 [[k pem]|e]]; [|done].
  destruct (persistCredentialSealRotationLocked _ _ _) as [d2 r].
  assert (∀ e, map_Forall (λ _ key, is_Some (sk_private key) ∨ sk_expiresAt key ≤ loaded)
            (<[ck_KeyID newCfg := mkCredentialSealKey (ck_KeyID newCfg) e (Some k) pem true]>
               (cs_credentialKeys s))) as Hins.
  { intros e. apply map_Forall_insert_2; [left; by eexists|exact Hok]. }
  destruct r; apply Hins.
Qed.

Lemma load_keys_ok now items s d :
  keys_ok now s → keys_ok now (load_keys now items s d).1.1.
Proof.
  revert s d. induction items as [|item items IH]; intros s d Hok; [done|]. cbn [load_keys].
  destruct (ParseRFC3339 _) as [e|]; [|done]. unfold After.
  destruct (Z.ltb_spec now e).
  - destruct (EnsureKeyFiles _ _ _ _) as [d1 [[k pem]|err]]; [|done].
    apply IH. apply map_Forall_insert_2; [left; by eexists|exact Hok].
  - apply IH. apply map_Forall_insert_2; [by right|exact Hok].
Qed.

Lemma loadCredentialSealKeys_ok now s d : keys_ok now (loadCredentialSealKeys now s d).1.1.
Proof.
  unfold loadCredentialSealKeys. set (s0 := mkCredentialState _ _ ∅ _ _).
  pose proof (load_keys_ok now (cs_Keys s) s0 d (map_Forall_empty _)) as Hl.
  destruct (load_keys _ _ _ _) as [[s1 d1] [u|e]]; [|done]. by apply rotate_keys_ok.
Qed.

(** A request that brings a sealed login, under the id of a key. *)
Definition sealed_login (req : OpenRequest) (credential : SealedCredential) : Prop :=
  rq_Password req = "" ∧ rq_Credential req = Some credential ∧
  TrimSpace (sc_Ciphertext credential) ≠ "" ∧ sc_Type credential = TypeServerSealed.

(** The pieces of an accepted login are those already found. *)
Ltac accepted :=
  intros (key' & private' & plain' & t' & ? & ? & ? & ? & ? & ? & ? & ? & ?); simplify_eq;
  try match goal with A : Open ?c ?k = Ok _, B : Open ?c ?k = Ok _ |- _ => rewrite A in B; simplify_eq end;
  first [done|congruence|lia].
Ltac refused :=
  split_and!; [by eexists| |unfold auth_failed, credential_expired; naive_solver];
  intros password; split; [done|accepted].

End Rotation.

(** ** Concrete runs *)

#[local] Existing Instances Toy.toyPEM Toy.toyCrypto Toy.toyLaws Toy.plainCodec Toy.envelopeCodec
  frozenTime sampleYAML.

Definition twoKeys (expiry : string) : list CredentialSealKeyConfig :=
  [mkCredentialSealKeyConfig "a" "certs/a.key" "certs/a.pub" "5" true;
   mkCredentialSealKeyConfig "b" "certs/b.key" "certs/b.pub" expiry false].

Definition expiredState (expiry : string) : credentialState :=
  let key := mkCredentialSealKey "a" 5 None "" true in
  mkCredentialState "" (twoKeys expiry) {[ "a" := key ]} (Some key) [].

Lemma rotation_activates_witness :
  let r := rotateExpiredCredentialSealKeyLocked 10 (expiredState "50") (goodDisk ∅) in
  r.2 = Ok tt ∧ ∃ key, cs_activeCredentialKey r.1.1 = Some key ∧ 10 < sk_expiresAt key.
Proof.
  cbv zeta. destruct (rotateExpiredCredentialSealKeyLocked 10 (expiredState "50") (goodDisk ∅))
    as [[s d] [[]|e]] eqn:E; [|vm_compute in E; discriminate E].
  split; [done|].
  destruct (rotation_activates 10 (expiredState "50") (goodDisk ∅) s d
    (mkCredentialSealKey "a" 5 None "" true)) as (key & H1 & H2 & _);
    [exists 13; split; [vm_compute; reflexivity|lia]|by repeat constructor|done|cbn; lia|exact E|].
  by exists key.
Defined.

Definition sampleSealed : SealedCredential :=
  default (mkSealedCredential "" "" "" "")
    (match Seal samplePublic (mkPlainCredential "ann" "secret" "" "" "90" "") 5 (to_chars "nn")
             (to_chars "kk") (to_chars "n")
     with Ok s => Some s | Err _ => None end).

Definition sealedState : credentialState :=
  let key := mkCredentialSealKey "k1" 99 (Some (7%positive : @PrivateKey Toy.toyCrypto)) "" true in
  mkCredentialState "" [] {[ "k1" := key ]} (Some key) [].

Definition sealedRequest : OpenRequest :=
  mkOpenRequest "login" "ann" "" (Some sampleSealed) "" "" 0 "" "" "" "" "".


(** An expiry written with blanks around it passes validation and is chosen by
    the rotation, but is parsed without trimming when it becomes active: the
    key is active with the zero time, and the next use of the keys rotates again
    and makes a new key. *)
Lemma padded_expiry_never_used :
  check_key (∅, 0) (mkCredentialSealKeyConfig "b" "certs/b.key" "certs/b.pub" "50 " false) = Ok ({["b"]}, 0) ∧
  let r := rotateExpiredCredentialSealKeyLocked 10 (expiredState "50 ") (goodDisk ∅) in
  r.2 = Ok tt ∧ sk_expiresAt <$> cs_activeCredentialKey r.1.1 = Some zeroTime ∧
  cp_KeyID <$> (activeCredentialPublicKey 10 10 r.1.1 r.1.2).2 = Some "login-key-".
Proof.
  split; [|cbv zeta; split_and!; vm_compute; reflexivity].
  unfold check_key. cbn [ck_KeyID ck_PrivateKeyFile ck_PublicKeyFile ck_ExpiresAt ck_Active].
  change (TrimSpace "b") with "b". change (ParseRFC3339 (TrimSpace "50 ")) with (Some 50).
  rewrite bool_decide_false by set_solver.
  do 3 (change (String.eqb _ "") with false; cbv iota). by rewrite union_empty_r_L.
Qed.

(** With slashes as separators, the files of a key in a directory named without
    one are recorded under another name after a rotation. *)
Lemma rotation_renames_key_file :
  joinConfigPath (Dir "certs/a.key") "b.key" = "certs" +:+ backslash +:+ "b.key" ∧
  joinConfigPath (Dir "certs/a.key") "b.key" ≠ JoinPath (Dir "certs/a.key") "b.key".
Proof. split; vm_compute; done. Qed.
