(* ===== verification/Reverse.v ===== *)
(** * Reverse listeners (src/server/tunnel/reverse.go)

    A reverse listener is a port of the server whose connections are carried
    to a client. It has at most one control connection, over which the client
    is asked to open streams, and the inbound connections that wait for one.
    Listeners, controls and waiting connections are objects several goroutines
    share: they live in a store, by number, and each operation is the section
    of code one lock guards. *)

From S2P Require Import Prelude.
From S2P Require Import GoStd.
From S2P Require Import Netaddr.

#[local] Open Scope Z_scope.

Record reverseControl := mkReverseControl {
  ctl_conn : nat;
  ctl_requestID : string;
  ctl_username : string;
  ctl_clientID : string;
  ctl_forwardName : string;
  ctl_target : string;
  ctl_requests : list string;
  ctl_done : bool
}.

Record reversePendingConn := mkPendingConn { pc_conn : nat; pc_done : bool }.

Record reverseListener := mkReverseListener {
  rvl_addr : string;
  rvl_controls : gset nat;
  rvl_pending : gmap string nat;
  rvl_closed : bool;
  rvl_lnClosed : bool
}.

(** [st_listeners], [st_controls] and [st_waiting] are the objects; [st_map] is
    [Server.reverseListeners], [None] after shutdown; [st_connClosed] the
    connections that were closed, [st_panicked] whether a channel was closed
    twice. *)
Record reverseStore := mkReverseStore {
  st_listeners : gmap nat reverseListener;
  st_controls : gmap nat reverseControl;
  st_waiting : gmap nat reversePendingConn;
  st_map : option (gmap string nat);
  st_connClosed : gset nat;
  st_panicked : bool;
  st_next : nat
}.

Definition emptyStore : reverseStore := mkReverseStore ∅ ∅ ∅ (Some ∅) ∅ false 0.

Definition set_listener (s : reverseStore) (l : nat) (rl : reverseListener) : reverseStore :=
  mkReverseStore (<[l := rl]> (st_listeners s)) (st_controls s) (st_waiting s) (st_map s)
    (st_connClosed s) (st_panicked s) (st_next s).
Definition set_control (s : reverseStore) (c : nat) (ctl : reverseControl) : reverseStore :=
  mkReverseStore (st_listeners s) (<[c := ctl]> (st_controls s)) (st_waiting s) (st_map s)
    (st_connClosed s) (st_panicked s) (st_next s).
Definition set_map (s : reverseStore) (m : option (gmap string nat)) : reverseStore :=
  mkReverseStore (st_listeners s) (st_controls s) (st_waiting s) m
    (st_connClosed s) (st_panicked s) (st_next s).
Definition close_conn (s : reverseStore) (conn : nat) : reverseStore :=
  mkReverseStore (st_listeners s) (st_controls s) (st_waiting s) (st_map s)
    ({[ conn ]} ∪ st_connClosed s) (st_panicked s) (st_next s).

(** [close(pending.done)]: closing it twice panics. *)
Definition close_done (s : reverseStore) (p : nat) : reverseStore :=
  match st_waiting s !! p with
  | None => s
  | Some pc =>
      mkReverseStore (st_listeners s) (st_controls s) (<[p := mkPendingConn (pc_conn pc) true]> (st_waiting s))
        (st_map s) (st_connClosed s) (st_panicked s || pc_done pc) (st_next s)
  end.

(** ** Controls *)

Definition newReverseControl (s : reverseStore) (conn : nat)
    (requestID username clientID forwardName target : string) : nat * reverseStore :=
  (st_next s,
   mkReverseStore (st_listeners s)
     (<[st_next s := mkReverseControl conn requestID username clientID forwardName target [] false]>
        (st_controls s))
     (st_waiting s) (st_map s) (st_connClosed s) (st_panicked s) (S (st_next s))).

(** [closeOnce]: the channel and the connection are closed the first time. *)
Definition closeControl (s : reverseStore) (c : nat) : reverseStore :=
  match st_controls s !! c with
  | None => s
  | Some ctl =>
      if ctl_done ctl then s
      else close_conn
             (set_control s c
                (mkReverseControl (ctl_conn ctl) (ctl_requestID ctl) (ctl_username ctl) (ctl_clientID ctl)
                   (ctl_forwardName ctl) (ctl_target ctl) (ctl_requests ctl) true))
             (ctl_conn ctl)
  end.

(** The control asked to open streams for a listener: the channel holds sixteen. *)
Definition requestsCapacity : nat := 16.

Definition sendRequest (s : reverseStore) (c : nat) (streamID : string) : bool * reverseStore :=
  match st_controls s !! c with
  | None => (false, s)
  | Some ctl =>
      if (length (ctl_requests ctl) <? requestsCapacity)%nat
      then (true, set_control s c
                    (mkReverseControl (ctl_conn ctl) (ctl_requestID ctl) (ctl_username ctl) (ctl_clientID ctl)
                       (ctl_forwardName ctl) (ctl_target ctl) (ctl_requests ctl ++ [streamID]) (ctl_done ctl)))
      else (false, s)
  end.

(** The goroutine that writes requests takes the oldest. *)
Definition receiveRequest (s : reverseStore) (c : nat) : option string * reverseStore :=
  match st_controls s !! c with
  | Some ctl =>
      match ctl_requests ctl with
      | [] => (None, s)
      | id :: rest =>
          (Some id, set_control s c
             (mkReverseControl (ctl_conn ctl) (ctl_requestID ctl) (ctl_username ctl) (ctl_clientID ctl)
                (ctl_forwardName ctl) (ctl_target ctl) rest (ctl_done ctl)))
      end
  | None => (None, s)
  end.

(** ** Listeners *)

Definition with_controls (rl : reverseListener) (controls : gset nat) : reverseListener :=
  mkReverseListener (rvl_addr rl) controls (rvl_pending rl) (rvl_closed rl) (rvl_lnClosed rl).
Definition with_pending (rl : reverseListener) (pending : gmap string nat) : reverseListener :=
  mkReverseListener (rvl_addr rl) (rvl_controls rl) pending (rvl_closed rl) (rvl_lnClosed rl).

Definition addControl (s : reverseStore) (l c : nat) : bool * reverseStore :=
  match st_listeners s !! l with
  | None => (false, s)
  | Some rl =>
      if rvl_closed rl || (0 <? Z.of_nat (size (rvl_controls rl))) then (false, s)
      else (true, set_listener s l (with_controls rl ({[ c ]} ∪ rvl_controls rl)))
  end.

Definition removeControl (s : reverseStore) (l c : nat) : reverseStore :=
  match st_listeners s !! l with
  | None => s
  | Some rl =>
      if decide (c ∈ rvl_controls rl)
      then closeControl (set_listener s l (with_controls rl (rvl_controls rl ∖ {[ c ]}))) c
      else s
  end.

(** Any control of the listener, the first of a range over the map. *)
Definition pickControl (s : reverseStore) (l : nat) : option nat :=
  rl ← st_listeners s !! l; head (elements (rvl_controls rl)).

Definition addPending (s : reverseStore) (l : nat) (streamID : string) (conn : nat)
    : option nat * reverseStore :=
  match st_listeners s !! l with
  | None => (None, s)
  | Some rl =>
      if rvl_closed rl then (None, s)
      else
        let p := st_next s in
        (Some p,
         mkReverseStore (<[l := with_pending rl (<[streamID := p]> (rvl_pending rl))]> (st_listeners s))
           (st_controls s) (<[p := mkPendingConn conn false]> (st_waiting s)) (st_map s)
           (st_connClosed s) (st_panicked s) (S p))
  end.

Definition takePending (s : reverseStore) (l : nat) (streamID : string) : option nat * reverseStore :=
  match st_listeners s !! l with
  | None => (None, s)
  | Some rl =>
      match rvl_pending rl !! streamID with
      | None => (None, s)
      | Some p =>
          let s := close_done (set_listener s l (with_pending rl (delete streamID (rvl_pending rl)))) p in
          (pc_conn <$> st_waiting s !! p, s)
      end
  end.

(** One waiting connection closed with its channel. *)
Definition close_waiting (s : reverseStore) (p : nat) : reverseStore :=
  match st_waiting s !! p with
  | None => s
  | Some pc => close_done (close_conn s (pc_conn pc)) p
  end.

Definition pending_ids (rl : reverseListener) : list nat := map snd (map_to_list (rvl_pending rl)).

Definition closePending (s : reverseStore) (l : nat) : reverseStore :=
  match st_listeners s !! l with
  | None => s
  | Some rl => foldl close_waiting (set_listener s l (with_pending rl ∅)) (pending_ids rl)
  end.

Definition isIdle (s : reverseStore) (l : nat) : bool :=
  match st_listeners s !! l with
  | None => true
  | Some rl => (Z.of_nat (size (rvl_controls rl)) =? 0) && (Z.of_nat (size (rvl_pending rl)) =? 0)
  end.

(** [closeOnce]: controls and waiting connections go with the listener. *)
Definition closeListener (s : reverseStore) (l : nat) : reverseStore :=
  match st_listeners s !! l with
  | None => s
  | Some rl =>
      if rvl_lnClosed rl then s
      else
        let s := set_listener s l (mkReverseListener (rvl_addr rl) ∅ ∅ true true) in
        let s := foldl closeControl s (elements (rvl_controls rl)) in
        foldl close_waiting s (pending_ids rl)
  end.

(** ** The map of the server *)

(** [net.Listen] gives the listener's own address or fails with a text; a worker
    cannot be started once the server is closing. *)
Definition ensureReverseListener (s : reverseStore) (addr : string) (listen : result string)
    (startWorker : bool) : reverseStore * result nat * list string :=
  let key := normalizeTarget addr in
  let m := default ∅ (st_map s) in
  match m !! key with
  | Some l => (set_map s (Some m), Ok l, [])
  | None =>
      match listen with
      | Err e => (set_map s (Some m), Err "server passive port is unavailable",
                  ["reverse passive listener " +:+ addr +:+ " unavailable: " +:+ e])
      | Ok lnAddr =>
          let l := st_next s in
          let s := mkReverseStore (<[l := mkReverseListener addr ∅ ∅ false false]> (st_listeners s))
                     (st_controls s) (st_waiting s) (Some (<[key := l]> m)) (st_connClosed s)
                     (st_panicked s) (S l) in
          if startWorker then (s, Ok l, ["reverse passive listener " +:+ lnAddr +:+ " ready"])
          else (closeListener (set_map s (Some m)) l, Err "use of closed network connection", [])
      end
  end.

Definition reverseListenerAt (s : reverseStore) (addr : string) : option nat :=
  m ← st_map s; m !! normalizeTarget addr.

(** The section of [closeReverseListenerIfIdle] under the lock of the map:
    whether the listener was taken out of it and is to be closed. *)
Definition unmapIfIdle (s : reverseStore) (l : nat) : bool * reverseStore :=
  match st_listeners s !! l, st_map s with
  | Some rl, Some m =>
      let key := normalizeTarget (rvl_addr rl) in
      if decide (m !! key = Some l) then
        if isIdle s l then (true, set_map s (Some (delete key m))) else (false, s)
      else (false, s)
  | _, _ => (false, s)
  end.

Definition closeReverseListenerIfIdle (configured : string → bool) (s : reverseStore) (l : nat)
    : reverseStore * list string :=
  match st_listeners s !! l with
  | None => (s, [])
  | Some rl =>
      if negb (isIdle s l) then (s, [])
      else if configured (rvl_addr rl) then (s, [])
      else match unmapIfIdle s l with
      | (true, s) => (closeListener s l, ["reverse passive listener " +:+ rvl_addr rl +:+ " deactivated"])
      | (false, s) => (s, [])
      end
  end.

Definition closeReverseListeners (s : reverseStore) : reverseStore :=
  let listeners := map snd (map_to_list (default ∅ (st_map s))) in
  foldl closeListener (set_map s None) listeners.

Example one_stream :
  let '(s, l, _) := ensureReverseListener emptyStore "127.0.0.1:8000" (Ok "127.0.0.1:8000") true in
  let '(c, s) := newReverseControl s 100 "req-1" "ann" "pc" "web" "127.0.0.1:80" in
  let '(added, s) := addControl s 0 c in
  let '(again, s) := addControl s 0 9 in
  let '(_, s) := addPending s 0 "s1" 200 in
  let '(conn, s) := takePending s 0 "s1" in
  let '(conn', s) := takePending s 0 "s1" in
  l = Ok 0%nat ∧ added = true ∧ again = false ∧ pickControl s 0 = Some c ∧
  conn = Some 200%nat ∧ conn' = None ∧ isIdle s 0 = false ∧ st_panicked s = false.
Proof. vm_compute. repeat split; reflexivity. Qed.

(** ** Runs

    What the goroutines of the server do to the store, one lock section at a
    time, in any order. [rr_toClose] are the listeners already taken out of the
    map that some goroutine will close; [rr_offered] the inbound connections
    that were accepted to wait and [rr_taken] those handed to a stream. *)

Inductive reverse_event :=
  | RNewControl (conn : nat)
  | RAddControl (l c : nat)
  | RRemoveControl (l c : nat)
  | RCloseControl (c : nat)
  | RSend (c : nat) (streamID : string)
  | RReceive (c : nat)
  | RAddPending (l : nat) (streamID : string) (conn : nat)
  | RTake (l : nat) (streamID : string)
  | RClosePending (l : nat)
  | REnsure (addr : string) (listen : result string) (startWorker : bool)
  | RUnmap (l : nat)
  | RClose (l : nat)
  | RShutdown.

Record reverse_state := mkReverseState {
  rr_store : reverseStore;
  rr_toClose : gset nat;
  rr_offered : list nat;
  rr_taken : list nat
}.

Definition with_store (r : reverse_state) (s : reverseStore) : reverse_state :=
  mkReverseState s (rr_toClose r) (rr_offered r) (rr_taken r).

Definition is_pending (s : reverseStore) (l : nat) (streamID : string) : bool :=
  match st_listeners s !! l with
  | Some rl => bool_decide (is_Some (rvl_pending rl !! streamID))
  | None => false
  end.

(** Stream ids are random and connections are new: a step that would use one
    twice does nothing. Only listeners out of the map are closed. *)
Definition reverse_step (r : reverse_state) (ev : reverse_event) : reverse_state :=
  let s := rr_store r in
  match ev with
  | RNewControl conn => with_store r (newReverseControl s conn "" "" "" "" "").2
  | RAddControl l c => with_store r (addControl s l c).2
  | RRemoveControl l c => with_store r (removeControl s l c)
  | RCloseControl c => with_store r (closeControl s c)
  | RSend c id => with_store r (sendRequest s c id).2
  | RReceive c => with_store r (receiveRequest s c).2
  | RAddPending l id conn =>
      if bool_decide (conn ∈ rr_offered r) || is_pending s l id then r
      else match addPending s l id conn with
           | (Some _, s) => mkReverseState s (rr_toClose r) (rr_offered r ++ [conn]) (rr_taken r)
           | (None, s) => with_store r s
           end
  | RTake l id =>
      match takePending s l id with
      | (Some conn, s) => mkReverseState s (rr_toClose r) (rr_offered r) (rr_taken r ++ [conn])
      | (None, s) => with_store r s
      end
  | RClosePending l => with_store r (closePending s l)
  | REnsure addr listen startWorker => with_store r (ensureReverseListener s addr listen startWorker).1.1
  | RUnmap l =>
      match unmapIfIdle s l with
      | (true, s) => mkReverseState s ({[ l ]} ∪ rr_toClose r) (rr_offered r) (rr_taken r)
      | (false, s) => with_store r s
      end
  | RClose l => if decide (l ∈ rr_toClose r) then with_store r (closeListener s l) else r
  | RShutdown =>
      mkReverseState (set_map s None)
        (list_to_set (map snd (map_to_list (default ∅ (st_map s)))) ∪ rr_toClose r)
        (rr_offered r) (rr_taken r)
  end.

Definition reverse_run (evs : list reverse_event) : reverse_state :=
  foldl reverse_step (mkReverseState emptyStore ∅ [] []) evs.

(** ** Invariant of the waiting connections *)

Definition pend (s : reverseStore) (l : nat) (id : string) (p : nat) : Prop :=
  ∃ rl, st_listeners s !! l = Some rl ∧ rvl_pending rl !! id = Some p.

(** [ps] are waiting connections taken out of their listener and not yet closed
    or handed over. *)
Record waiting_ok (s : reverseStore) (ps offered taken : list nat) : Prop := {
  wo_pend l id p : pend s l id p → (p ∉ ps) ∧ ∃ pc, st_waiting s !! p = Some pc ∧ pc_done pc = false;
  wo_unique l id l' id' p : pend s l id p → pend s l' id' p → l = l' ∧ id = id';
  wo_flight p : p ∈ ps → ∃ pc, st_waiting s !! p = Some pc ∧ pc_done pc = false;
  wo_nodup : NoDup ps;
  wo_open p pc : st_waiting s !! p = Some pc → pc_done pc = false → p ∈ ps ∨ ∃ l id, pend s l id p;
  wo_done p pc : st_waiting s !! p = Some pc → pc_done pc = true →
                 pc_conn pc ∈ taken ∨ pc_conn pc ∈ st_connClosed s;
  wo_conn p pc p' pc' : st_waiting s !! p = Some pc → st_waiting s !! p' = Some pc' →
                        pc_conn pc = pc_conn pc' → p = p';
  wo_offered conn : conn ∈ offered ↔ ∃ p pc, st_waiting s !! p = Some pc ∧ pc_conn pc = conn;
  wo_taken : NoDup taken ∧
             ∀ conn, conn ∈ taken → ∃ p pc, st_waiting s !! p = Some pc ∧ pc_conn pc = conn ∧ pc_done pc = true;
  wo_panic : st_panicked s = false;
  wo_next p : is_Some (st_waiting s !! p) → (p < st_next s)%nat
}.

(** Two stores that agree on what the invariant looks at, one having closed more. *)
Lemma waiting_ok_same s s' ps offered taken :
  st_waiting s' = st_waiting s → st_panicked s' = st_panicked s → (st_next s ≤ st_next s')%nat →
  st_connClosed s ⊆ st_connClosed s' → (∀ l id p, pend s' l id p ↔ pend s l id p) →
  waiting_ok s ps offered taken → waiting_ok s' ps offered taken.
Proof.
  intros Hw Hp Hn Hc Hpend [W1 W2 W3 W4 W5 W6 W7 W8 W9 W10 W11]. split.
  - intros l id p E. rewrite Hw. by eapply W1, Hpend.
  - intros l id l' id' p E E'. by eapply W2; apply Hpend.
  - intros p. rewrite Hw. apply W3.
  - done.
  - intros p pc. rewrite Hw. intros E Ed. destruct (W5 _ _ E Ed) as [|(l & id & Ep)]; [by left|right].
    exists l, id. by apply Hpend.
  - intros p pc. rewrite Hw. intros E Ed. destruct (W6 _ _ E Ed) as [|]; [by left|right]. by apply Hc.
  - rewrite Hw. exact W7.
  - intros conn. rewrite Hw. apply W8.
  - rewrite Hw. exact W9.
  - by rewrite Hp.
  - intros p. rewrite Hw. intros E. specialize (W11 p E). lia.
Qed.

Lemma close_done_spec s p pc :
  st_waiting s !! p = Some pc → pc_done pc = false → st_panicked s = false →
  close_done s p = mkReverseStore (st_listeners s) (st_controls s)
    (<[p := mkPendingConn (pc_conn pc) true]> (st_waiting s)) (st_map s) (st_connClosed s) false (st_next s).
Proof. intros E Ed Ep. unfold close_done. by rewrite E, Ed, Ep. Qed.

(** Closing the channel of a connection in flight settles it. *)
Lemma settle s p pc ps offered taken taken' closed :
  st_waiting s !! p = Some pc →
  waiting_ok s (p :: ps) offered taken →
  (taken' = taken ∧ closed = {[ pc_conn pc ]} ∪ st_connClosed s ∨
   taken' = taken ++ [pc_conn pc] ∧ closed = st_connClosed s) →
  waiting_ok (mkReverseStore (st_listeners s) (st_controls s)
                (<[p := mkPendingConn (pc_conn pc) true]> (st_waiting s)) (st_map s) closed
                false (st_next s)) ps offered taken'.
Proof.
  intros Ep [W1 W2 W3 W4 W5 W6 W7 W8 [W9 W9'] W10 W11] Hcase.
  apply NoDup_cons in W4 as [Hp W4].
  destruct (W3 p) as (pc0 & Ep0 & Ed); [apply elem_of_cons; by left|].
  rewrite Ep in Ep0. injection Ep0 as <-.
  assert (pc_conn pc ∉ taken) as Hnt.
  { intros (q & qc & Eq & Ec & Eqd)%W9'. assert (q = p) as -> by (by eapply W7). congruence. }
  assert (st_connClosed s ⊆ closed) as Hcl by (destruct Hcase as [[_ ->]|[_ ->]]; set_solver).
  assert (∀ c, c ∈ taken → c ∈ taken') as Htk.
  { intros c Hc. destruct Hcase as [[-> _]|[-> _]]; [done|]. apply elem_of_app. by left. }
  split; cbn [st_waiting st_listeners st_connClosed st_panicked st_next].
  - intros l id q E. destruct (W1 l id q E) as (Hq & qc & Eq & Eqd). apply not_elem_of_cons in Hq as [Hne Hq].
    split; [done|]. exists qc. by rewrite lookup_insert_ne.
  - exact W2.
  - intros q Hq. destruct (W3 q) as (qc & Eq & Eqd); [apply elem_of_cons; by right|].
    exists qc. rewrite lookup_insert_ne; [done|]. by intros ->.
  - done.
  - intros q qc. rewrite lookup_insert. case_decide as Eqp; [by intros [= <-]|].
    intros E Eqd. destruct (W5 q qc E Eqd) as [Hin|Hin]; [|by right]. left.
    apply elem_of_cons in Hin as [->|]; done.
  - intros q qc. rewrite lookup_insert. case_decide as Eqp.
    + intros [= <-] _. cbn. destruct Hcase as [[-> ->]|[-> ->]]; [right; set_solver|left].
      apply elem_of_app. right. by apply list_elem_of_singleton.
    + intros E Eqd. destruct (W6 q qc E Eqd) as [Hin|Hin]; [left; by apply Htk|right; by apply Hcl].
  - intros q qc q' qc'. rewrite !lookup_insert.
    case_decide as E1; case_decide as E2; [by subst| | |by eauto].
    + intros [= <-] E Ec. subst q. by eapply W7.
    + intros E [= <-] Ec. subst q'. by eapply W7.
  - intros c. rewrite W8. split; intros (q & qc & E & Ec).
    + destruct (decide (p = q)) as [<-|Hne].
      * rewrite Ep in E. injection E as <-. exists p, (mkPendingConn (pc_conn pc) true).
        by rewrite lookup_insert_eq.
      * exists q, qc. by rewrite lookup_insert_ne.
    + revert E. rewrite lookup_insert. case_decide as E1; [intros [= <-]; subst q; by exists p, pc|].
      intros E. by exists q, qc.
  - split.
    + destruct Hcase as [[-> _]|[-> _]]; [done|]. apply NoDup_app. split_and!; [done| |by apply NoDup_singleton].
      intros c Hc Hc'. apply list_elem_of_singleton in Hc' as ->. done.
    + assert (∀ c, c ∈ taken' → c ∈ taken ∨ c = pc_conn pc) as Hback.
      { intros c. destruct Hcase as [[-> _]|[-> _]]; [by left|]. rewrite elem_of_app, list_elem_of_singleton. tauto. }
      intros c [Hc| ->]%Hback.
      * destruct (W9' c Hc) as (q & qc & E & Ec & Eqd). exists q, qc. rewrite lookup_insert_ne; [done|].
        intros ->. congruence.
      * exists p, (mkPendingConn (pc_conn pc) true). by rewrite lookup_insert_eq.
  - done.
  - intros q. rewrite lookup_insert. case_decide as E1; [intros _; subst; apply W11; by eexists|apply W11].
Qed.

Lemma close_waiting_ok s p ps offered taken :
  waiting_ok s (p :: ps) offered taken → waiting_ok (close_waiting s p) ps offered taken.
Proof.
  intros Hok. destruct (wo_flight _ _ _ _ Hok p) as (pc & Ep & Ed); [apply elem_of_cons; by left|].
  unfold close_waiting. rewrite Ep.
  erewrite close_done_spec; [|exact Ep|exact Ed|apply (wo_panic _ _ _ _ Hok)].
  eapply (settle s); [exact Ep|exact Hok|by left].
Qed.

Lemma close_all_waiting_ok s ps offered taken :
  waiting_ok s ps offered taken → waiting_ok (foldl close_waiting s ps) [] offered taken.
Proof.
  revert s. induction ps as [|p ps IH]; intros s Hok; [done|]. cbn. by apply IH, close_waiting_ok.
Qed.

Lemma elem_pending_ids rl p : p ∈ pending_ids rl ↔ ∃ id, rvl_pending rl !! id = Some p.
Proof.
  unfold pending_ids. rewrite list_elem_of_fmap. split.
  - intros ([id q] & -> & E). exists id. by apply elem_of_map_to_list.
  - intros (id & E). exists (id, p). split; [done|]. by apply elem_of_map_to_list.
Qed.

Lemma pend_set_listener s l rl l' id p :
  pend (set_listener s l rl) l' id p ↔
  if decide (l = l') then rvl_pending rl !! id = Some p else pend s l' id p.
Proof.
  unfold pend, set_listener. cbn. rewrite lookup_insert. case_decide as E.
  - split; [by intros (? & [= <-] & ?)|]. intros ?. by exists rl.
  - done.
Qed.

(** Emptying a listener puts its connections in flight. *)
Lemma detach_all s l rl rl' offered taken :
  st_listeners s !! l = Some rl → rvl_pending rl' = ∅ → waiting_ok s [] offered taken →
  waiting_ok (set_listener s l rl') (pending_ids rl) offered taken.
Proof.
  intros El Hrl' [W1 W2 W3 W4 W5 W6 W7 W8 W9 W10 W11].
  assert (∀ p, p ∈ pending_ids rl ↔ ∃ id, pend s l id p) as Hids.
  { intros p. rewrite elem_pending_ids. split; intros (id & E); exists id; [by exists rl|].
    destruct E as (rl0 & E0 & E). rewrite El in E0. by injection E0 as <-. }
  split; try done.
  - intros l' id p. rewrite pend_set_listener. case_decide as E; [by rewrite Hrl', lookup_empty|].
    intros Hp. split; [|by apply W1 in Hp as [_ ?]]. rewrite Hids. intros (id' & Hp').
    by destruct (W2 _ _ _ _ _ Hp Hp') as [-> _].
  - intros l1 id1 l2 id2 p. rewrite !pend_set_listener.
    case_decide; [by rewrite Hrl', lookup_empty|]. case_decide; [by rewrite Hrl', lookup_empty|]. apply W2.
  - intros p (id & Hp)%Hids. by destruct (W1 _ _ _ Hp) as [_ ?].
  - unfold pending_ids. apply NoDup_fmap_2_strong; [|apply NoDup_map_to_list].
    intros [id1 p1] [id2 p2] H1%elem_of_map_to_list H2%elem_of_map_to_list E. cbn in E. subst p2. f_equal.
    by destruct (W2 l id1 l id2 p1) as [_ ?]; [by exists rl|by exists rl|].
  - intros p pc Ep Ed. destruct (W5 p pc Ep Ed) as [Hin|(l' & id & Hp)]; [by inversion Hin|].
    destruct (decide (l = l')) as [<-|Hne]; [left; apply Hids; by exists id|right].
    exists l', id. rewrite pend_set_listener. by rewrite decide_False.
Qed.

Lemma takePending_ok s l id conn s' offered taken :
  takePending s l id = (Some conn, s') → waiting_ok s [] offered taken →
  waiting_ok s' [] offered (taken ++ [conn]).
Proof.
  unfold takePending. destruct (st_listeners s !! l) as [rl|] eqn:El; [|done].
  destruct (rvl_pending rl !! id) as [p|] eqn:Ep; [|done].
  set (rl' := with_pending rl (delete id (rvl_pending rl))). intros E Hok.
  pose proof Hok as [W1 W2 W3 W4 W5 W6 W7 W8 W9 W10 W11].
  assert (pend s l id p) as Hp by (by exists rl).
  destruct (W1 _ _ _ Hp) as (_ & pc & Ew & Ed).
  erewrite close_done_spec in E; [|exact Ew|exact Ed|exact W10]. cbn [st_waiting set_listener] in E.
  rewrite lookup_insert_eq in E. cbn in E. injection E as <- <-.
  refine (settle (set_listener s l rl') p pc [] offered taken _ (st_connClosed s) Ew _ _); [|by right].
  split; try done.
  - intros l' id' q. rewrite pend_set_listener. case_decide as E.
    + subst l'. cbn. rewrite lookup_delete_Some. intros [Hne Eq].
      assert (pend s l id' q) as Hq by (by exists rl). split; [|by apply W1 in Hq as [_ ?]].
      intros ->%list_elem_of_singleton. by destruct (W2 _ _ _ _ _ Hp Hq).
    + intros Hq. split; [|by apply W1 in Hq as [_ ?]].
      intros ->%list_elem_of_singleton. by destruct (W2 _ _ _ _ _ Hp Hq).
  - intros l1 id1 l2 id2 q H1 H2.
    assert (∀ l' id' q, pend (set_listener s l rl') l' id' q → pend s l' id' q) as Hsub.
    { intros l' id' q'. rewrite pend_set_listener. case_decide as E; [|done]. subst l'. cbn.
      rewrite lookup_delete_Some. intros [_ Eq]. by exists rl. }
    by eapply W2; apply Hsub.
  - intros q ->%list_elem_of_singleton. by exists pc.
  - apply NoDup_singleton.
  - intros q qc Eq Eqd. destruct (W5 q qc Eq Eqd) as [Hin|(l' & id' & Hq)]; [by inversion Hin|].
    destruct (decide (q = p)) as [->|Hne]; [left; by apply list_elem_of_singleton|right].
    exists l', id'. rewrite pend_set_listener. case_decide as E; [|done]. subst l'. cbn.
    destruct Hq as (rl0 & E0 & Eq'). rewrite El in E0. injection E0 as <-.
    apply lookup_delete_Some. split; [|done]. intros ->. congruence.
Qed.

Lemma addPending_ok s l id conn p s' offered taken :
  addPending s l id conn = (Some p, s') → conn ∉ offered → is_pending s l id = false →
  waiting_ok s [] offered taken → waiting_ok s' [] (offered ++ [conn]) taken.
Proof.
  unfold addPending, is_pending. destruct (st_listeners s !! l) as [rl|] eqn:El; [|done].
  destruct (rvl_closed rl); [done|]. intros [= <- <-] Hnew Hno.
  intros [W1 W2 W3 W4 W5 W6 W7 W8 [W9 W9'] W10 W11]. apply bool_decide_eq_false in Hno.
  assert (rvl_pending rl !! id = None) as Hid by (destruct (rvl_pending rl !! id); [destruct Hno; by eexists|done]).
  set (p := st_next s). assert (st_waiting s !! p = None) as Hp.
  { destruct (st_waiting s !! p) eqn:E; [|done]. specialize (W11 p ltac:(by eexists)). subst p. lia. }
  assert (∀ q, q = p → ∀ l id, ¬ pend s l id q) as Hfresh.
  { intros q -> l' id' Hq. destruct (W1 _ _ _ Hq) as (_ & pc & E & _). congruence. }
  set (s' := mkReverseStore _ _ _ _ _ _ _).
  assert (∀ l' id' q, pend s' l' id' q ↔ (l' = l ∧ id' = id ∧ q = p) ∨ pend s l' id' q) as Hpend.
  { intros l' id' q. assert (pend s' l' id' q ↔ pend (set_listener s l (with_pending rl (<[id:=p]> (rvl_pending rl)))) l' id' q)
      as -> by done. rewrite pend_set_listener. case_decide as E.
    - subst l'. cbn. rewrite lookup_insert. case_decide as E2.
      + subst id'. split; [intros [= <-]; by left|]. intros [(_ & _ & ->)|(rl0 & E0 & E1)]; [done|].
        rewrite El in E0. injection E0 as <-. congruence.
      + split; [intros Eq; right; by exists rl|]. intros [(_ & -> & _)|(rl0 & E0 & E1)]; [done|].
        rewrite El in E0. by injection E0 as <-.
    - split; [by right|]. by intros [(-> & _)|]. }
  split; cbn [s' st_waiting st_connClosed st_panicked st_next].
  - intros l' id' q [(-> & -> & ->)|Hq]%Hpend; (split; [by apply not_elem_of_nil|]).
    + exists (mkPendingConn conn false). by rewrite lookup_insert_eq.
    + destruct (W1 _ _ _ Hq) as (_ & pc & E & Ed). exists pc. rewrite lookup_insert_ne; [done|]. intros ->. congruence.
  - intros l1 id1 l2 id2 q [(-> & -> & ->)|H1]%Hpend [(-> & -> & Eq)|H2]%Hpend; [done|by eapply Hfresh in H2|
      by eapply Hfresh in H1|by eapply W2].
  - intros q Hq. by inversion Hq.
  - done.
  - intros q qc. rewrite lookup_insert. case_decide as E.
    + intros [= <-] _. right. exists l, id. apply Hpend. by left.
    + intros Eq Ed. destruct (W5 q qc Eq Ed) as [Hin|(l' & id' & Hq)]; [by left|right].
      exists l', id'. apply Hpend. by right.
  - intros q qc. rewrite lookup_insert. case_decide; [by intros [= <-]|apply W6].
  - assert (∀ q qc, st_waiting s !! q = Some qc → pc_conn qc ≠ conn) as Hne.
    { intros q qc Eq Ec. apply Hnew, W8. by exists q, qc. }
    intros q qc q' qc'. rewrite !lookup_insert. case_decide; case_decide; [by subst| | |by eauto].
    + intros [= <-] E Ec. by destruct (Hne _ _ E).
    + intros E [= <-] Ec. by destruct (Hne _ _ E).
  - intros c. rewrite elem_of_app, list_elem_of_singleton, W8. split.
    + intros [(q & qc & E & Ec)| ->].
      * exists q, qc. rewrite lookup_insert_ne; [done|]. intros ->. congruence.
      * exists p, (mkPendingConn conn false). by rewrite lookup_insert_eq.
    + intros (q & qc & E & Ec). revert E. rewrite lookup_insert. case_decide; [intros [= <-]; by right|].
      intros E. left. by exists q, qc.
  - split; [done|]. intros c Hc. destruct (W9' c Hc) as (q & qc & E & Ec & Ed). exists q, qc.
    rewrite lookup_insert_ne; [done|]. intros ->. congruence.
  - done.
  - intros q. rewrite lookup_insert. case_decide; [intros _; subst; lia|].
    intros E. specialize (W11 q E). subst p. lia.
Qed.

(** ** Invariant of the listeners and the map *)

Record listeners_ok (s : reverseStore) (toClose : gset nat) : Prop := {
  lo_one l rl : st_listeners s !! l = Some rl →
    (size (rvl_controls rl) ≤ 1)%nat ∧ rvl_closed rl = rvl_lnClosed rl ∧
    (rvl_closed rl = true → rvl_controls rl = ∅ ∧ rvl_pending rl = ∅);
  lo_map m key l : st_map s = Some m → m !! key = Some l →
    (l ∉ toClose) ∧ ∃ rl, st_listeners s !! l = Some rl ∧ normalizeTarget (rvl_addr rl) = key ∧
                          rvl_closed rl = false;
  lo_next l : is_Some (st_listeners s !! l) → (l < st_next s)%nat;
  lo_toClose l : l ∈ toClose → (l < st_next s)%nat
}.

Lemma listeners_ok_same s s' toClose :
  st_listeners s' = st_listeners s → st_map s' = st_map s → (st_next s ≤ st_next s')%nat →
  listeners_ok s toClose → listeners_ok s' toClose.
Proof.
  intros El Em En [L1 L2 L3 L4]. split.
  - rewrite El. exact L1.
  - rewrite El, Em. exact L2.
  - rewrite El. intros l Hl. specialize (L3 l Hl). lia.
  - intros l Hl. specialize (L4 l Hl). lia.
Qed.

(** Changing one listener, which may be closed once it is out of the map. *)
Lemma listeners_ok_set s toClose l rl rl' :
  st_listeners s !! l = Some rl → rvl_addr rl' = rvl_addr rl → rvl_closed rl' = rvl_lnClosed rl' →
  (size (rvl_controls rl') ≤ 1)%nat →
  (rvl_closed rl' = true → rvl_controls rl' = ∅ ∧ rvl_pending rl' = ∅) →
  (rvl_closed rl' = rvl_closed rl ∨ ∀ m key, st_map s = Some m → m !! key ≠ Some l) →
  listeners_ok s toClose → listeners_ok (set_listener s l rl') toClose.
Proof.
  intros El Ea Ecl Hsz Hemp Hmap [L1 L2 L3 L4]. split; cbn [set_listener st_listeners st_map st_next].
  - intros l' rl0. rewrite lookup_insert. case_decide as E; [intros [= <-]; done|apply L1].
  - intros m key l' Em Ek. destruct (L2 m key l' Em Ek) as (Hnc & rl0 & E0 & Ekey & Ecl0). split; [done|].
    rewrite lookup_insert. case_decide as E; [|by exists rl0]. subst l'.
    rewrite El in E0. injection E0 as <-. exists rl'. split; [done|]. split; [by rewrite Ea|].
    destruct Hmap as [->|Hno]; [done|by destruct (Hno m key)].
  - intros l'. rewrite lookup_insert. case_decide as E; [intros _; subst; apply L3; by eexists|apply L3].
  - exact L4.
Qed.

(** What closing controls and waiting connections leaves alone. *)
Definition same_tables (s s' : reverseStore) : Prop :=
  st_listeners s' = st_listeners s ∧ st_map s' = st_map s ∧ st_next s' = st_next s.

#[export] Instance same_tables_refl : Reflexive same_tables.
Proof. by repeat split. Qed.
#[export] Instance same_tables_trans : Transitive same_tables.
Proof. intros s1 s2 s3 (A1&A2&A3) (B1&B2&B3). repeat split; congruence. Qed.

Lemma closeControl_tables s c : same_tables s (closeControl s c).
Proof. unfold closeControl. destruct (st_controls s !! c) as [ctl|]; [|done]. by destruct (ctl_done ctl). Qed.

Lemma close_waiting_tables s p : same_tables s (close_waiting s p).
Proof.
  unfold close_waiting, close_done. destruct (st_waiting s !! p) as [pc|] eqn:E; [|done].
  cbn [close_conn st_waiting]. by rewrite E.
Qed.

Lemma fold_tables {A} (f : reverseStore → A → reverseStore) s xs :
  (∀ s x, same_tables s (f s x)) → same_tables s (foldl f s xs).
Proof.
  intros Hf. revert s. induction xs as [|x xs IH]; intros s; [done|]. cbn.
  etransitivity; [apply Hf|apply IH].
Qed.

Lemma listeners_ok_tables s s' toClose : same_tables s s' → listeners_ok s toClose → listeners_ok s' toClose.
Proof. intros (E1 & E2 & E3). apply listeners_ok_same; [done|done|lia]. Qed.

(** Closing controls only closes connections. *)
Lemma closeControl_ok s c ps offered taken :
  waiting_ok s ps offered taken → waiting_ok (closeControl s c) ps offered taken.
Proof.
  unfold closeControl. destruct (st_controls s !! c) as [ctl|]; [|done]. destruct (ctl_done ctl); [done|].
  apply waiting_ok_same; try done. cbn. set_solver.
Qed.

Lemma closeControls_ok s cs ps offered taken :
  waiting_ok s ps offered taken → waiting_ok (foldl closeControl s cs) ps offered taken.
Proof. revert s. induction cs as [|c cs IH]; intros s Hok; [done|]. cbn. by apply IH, closeControl_ok. Qed.

Lemma set_listener_pend s l rl rl' ps offered taken :
  st_listeners s !! l = Some rl → rvl_pending rl' = rvl_pending rl →
  waiting_ok s ps offered taken → waiting_ok (set_listener s l rl') ps offered taken.
Proof.
  intros El Ep. apply waiting_ok_same; try done. intros l' id p. rewrite pend_set_listener.
  case_decide as E; [|done]. subst l'. rewrite Ep. split; [by exists rl|].
  intros (rl0 & E0 & Eq). rewrite El in E0. by injection E0 as <-.
Qed.

Lemma closeListener_ok s l offered taken :
  waiting_ok s [] offered taken → waiting_ok (closeListener s l) [] offered taken.
Proof.
  intros Hok. unfold closeListener. destruct (st_listeners s !! l) as [rl|] eqn:El; [|done].
  destruct (rvl_lnClosed rl); [done|]. cbv zeta. apply close_all_waiting_ok, closeControls_ok.
  by eapply detach_all.
Qed.

Lemma closeListener_listeners s l toClose :
  (∀ m key, st_map s = Some m → m !! key ≠ Some l) →
  listeners_ok s toClose → listeners_ok (closeListener s l) toClose.
Proof.
  intros Hmap Hok. unfold closeListener. destruct (st_listeners s !! l) as [rl|] eqn:El; [|done].
  destruct (rvl_lnClosed rl); [done|]. cbv zeta.
  eapply listeners_ok_tables; [apply fold_tables, close_waiting_tables|].
  eapply listeners_ok_tables; [apply fold_tables, closeControl_tables|].
  eapply (listeners_ok_set _ _ l rl); [done|done|done| |done|by right|done].
  cbn [rvl_controls]. rewrite size_empty. lia.
Qed.

(** ** Each step keeps the invariant *)

Definition reverse_inv (r : reverse_state) : Prop :=
  waiting_ok (rr_store r) [] (rr_offered r) (rr_taken r) ∧ listeners_ok (rr_store r) (rr_toClose r).

(** A step on controls alone. *)
Lemma control_step_inv r s' :
  st_waiting s' = st_waiting (rr_store r) → st_panicked s' = st_panicked (rr_store r) →
  st_connClosed (rr_store r) ⊆ st_connClosed s' → st_listeners s' = st_listeners (rr_store r) →
  st_map s' = st_map (rr_store r) → (st_next (rr_store r) ≤ st_next s')%nat →
  reverse_inv r → reverse_inv (with_store r s').
Proof.
  intros E1 E2 E3 E4 E5 E6 [Hw Hl]. split; cbn.
  - eapply waiting_ok_same; [done..| |done]. intros l id p. unfold pend. by rewrite E4.
  - by eapply listeners_ok_same.
Qed.

Lemma control_events_inv r ev :
  match ev with
  | RNewControl _ | RCloseControl _ | RSend _ _ | RReceive _ => True
  | _ => False
  end → reverse_inv r → reverse_inv (reverse_step r ev).
Proof.
  intros Hev Hinv. destruct ev; try done; cbn [reverse_step].
  - apply control_step_inv; cbn; try done. lia.
  - apply control_step_inv; try done; unfold closeControl; destruct (st_controls _ !! c) as [ctl|]; try done;
      destruct (ctl_done ctl); try done. cbn. set_solver.
  - apply control_step_inv; try done; unfold sendRequest; destruct (st_controls _ !! c) as [ctl|]; try done;
      by destruct (_ <? _)%nat.
  - apply control_step_inv; try done; unfold receiveRequest; destruct (st_controls _ !! c) as [ctl|]; try done;
      by destruct (ctl_requests ctl).
Qed.

Lemma addControl_inv r l c : reverse_inv r → reverse_inv (reverse_step r (RAddControl l c)).
Proof.
  intros [Hw Hl]. cbn [reverse_step]. unfold addControl.
  destruct (st_listeners (rr_store r) !! l) as [rl|] eqn:El; [|done].
  destruct (rvl_closed rl) eqn:Ecl; [done|]. destruct (Z.ltb_spec 0 (Z.of_nat (size (rvl_controls rl)))); [done|].
  destruct (lo_one _ _ Hl _ _ El) as (_ & Heq & _). cbn [orb].
  split; cbn [with_store rr_store rr_offered rr_taken rr_toClose snd].
  - by eapply set_listener_pend.
  - eapply listeners_ok_set; try done; cbn; [|by rewrite Ecl|by left].
    assert (rvl_controls rl = ∅) as -> by (apply leibniz_equiv, size_empty_iff; lia).
    rewrite union_empty_r_L, size_singleton. lia.
Qed.

Lemma removeControl_inv r l c : reverse_inv r → reverse_inv (reverse_step r (RRemoveControl l c)).
Proof.
  intros [Hw Hl]. cbn [reverse_step]. unfold removeControl.
  destruct (st_listeners (rr_store r) !! l) as [rl|] eqn:El; [|done].
  case_decide as Hc; [|done].
  destruct (lo_one _ _ Hl _ _ El) as (H1 & Heq & Hemp).
  split; cbn [with_store rr_store rr_offered rr_taken rr_toClose].
  - apply closeControl_ok. by eapply set_listener_pend.
  - eapply listeners_ok_tables; [apply closeControl_tables|].
    eapply listeners_ok_set; try done; cbn; [| |by left].
    + etransitivity; [apply subseteq_size|exact H1]. set_solver.
    + intros E. destruct (Hemp E) as [E' _]. rewrite E' in Hc. set_solver.
Qed.

Lemma pending_events_inv r ev :
  match ev with RAddPending _ _ _ | RTake _ _ | RClosePending _ => True | _ => False end →
  reverse_inv r → reverse_inv (reverse_step r ev).
Proof.
  intros Hev [Hw Hl]. destruct ev; try done; cbn [reverse_step].
  - case_bool_decide as Hnew; [done|]. cbn [orb].
    destruct (is_pending (rr_store r) l streamID) eqn:Hp; [done|].
    destruct (addPending (rr_store r) l streamID conn) as [[p|] s'] eqn:E.
    + split; cbn [rr_store rr_offered rr_taken rr_toClose]; [by eapply addPending_ok|].
      unfold addPending in E. destruct (st_listeners (rr_store r) !! l) as [rl|] eqn:El; [|done].
      destruct (rvl_closed rl) eqn:Ecl; [done|]. injection E as <- <-.
      destruct (lo_one _ _ Hl _ _ El) as (H1 & Heq & Hemp).
      apply (listeners_ok_same (set_listener (rr_store r) l
        (with_pending rl (<[streamID := st_next (rr_store r)]> (rvl_pending rl))))); [done|done|cbn; lia|].
      apply (listeners_ok_set _ _ l rl); [done|done|done|done|cbn; by rewrite Ecl|by left|done].
    + assert (s' = rr_store r) as ->; [|by destruct r].
      revert E. unfold addPending. destruct (st_listeners (rr_store r) !! l) as [rl|]; [|by intros [= <-]].
      destruct (rvl_closed rl); by intros [= <-].
  - destruct (takePending (rr_store r) l streamID) as [[conn|] s'] eqn:E.
    + split; cbn [rr_store rr_offered rr_taken rr_toClose]; [by eapply takePending_ok|].
      unfold takePending in E. destruct (st_listeners (rr_store r) !! l) as [rl|] eqn:El; [|done].
      destruct (rvl_pending rl !! streamID) as [p|]; [|done]. injection E as _ <-.
      destruct (lo_one _ _ Hl _ _ El) as (H1 & Heq & Hemp).
      eapply listeners_ok_tables with (s := set_listener (rr_store r) l _).
      { unfold close_done. by destruct (st_waiting _ !! p). }
      eapply listeners_ok_set; try done; [|by left]. cbn. intros Ecl. destruct (Hemp Ecl) as [-> ->].
      split; [done|]. apply delete_empty.
    + revert E. unfold takePending. destruct (st_listeners (rr_store r) !! l) as [rl|] eqn:El;
        [|intros [= <-]; by destruct r].
      destruct (rvl_pending rl !! streamID) as [p|] eqn:Ep; [|intros [= <-]; by destruct r].
      intros E. exfalso. destruct (wo_pend _ _ _ _ Hw l streamID p) as (_ & pc & Ew & Ed); [by exists rl|].
      erewrite close_done_spec in E; [|exact Ew|exact Ed|exact (wo_panic _ _ _ _ Hw)]. cbn in E.
      rewrite lookup_insert_eq in E. done.
  - unfold closePending. destruct (st_listeners (rr_store r) !! l) as [rl|] eqn:El; [|by destruct r].
    destruct (lo_one _ _ Hl _ _ El) as (H1 & Heq & Hemp).
    split; cbn [with_store rr_store rr_offered rr_taken rr_toClose].
    + apply close_all_waiting_ok. by eapply detach_all.
    + eapply listeners_ok_tables; [apply fold_tables, close_waiting_tables|].
      eapply listeners_ok_set; try done; [|by left]. cbn. intros Ecl. by destruct (Hemp Ecl).
Qed.

(** A new listener, under its key. *)
Lemma new_listener_ok s toClose addr m rl l :
  rl = mkReverseListener addr ∅ ∅ false false → l = st_next s →
  (∀ key l', m !! key = Some l' → ∃ m0, st_map s = Some m0 ∧ m0 !! key = Some l') →
  listeners_ok s toClose →
  listeners_ok (mkReverseStore (<[l := rl]> (st_listeners s)) (st_controls s) (st_waiting s)
    (Some (<[normalizeTarget addr := l]> m)) (st_connClosed s) (st_panicked s) (S l)) toClose.
Proof.
  intros -> -> Hm [L1 L2 L3 L4]. split; cbn.
  - intros l' rl'. rewrite lookup_insert. case_decide; [|apply L1].
    intros [= <-]. cbn. rewrite size_empty. split_and!; [lia|done|done].
  - intros m' key l' [= <-]. rewrite lookup_insert. case_decide as Ek.
    + intros [= <-]. split; [intros Hc; specialize (L4 _ Hc); lia|].
      exists (mkReverseListener addr ∅ ∅ false false). by rewrite lookup_insert_eq.
    + intros Ekey. destruct (Hm _ _ Ekey) as (m0 & Em0 & Ekey0).
      destruct (L2 _ _ _ Em0 Ekey0) as (Hnc & rl' & El & H1 & H2). split; [done|].
      exists rl'. rewrite lookup_insert_ne; [done|]. intros <-. specialize (L3 (st_next s)).
      rewrite El in L3. specialize (L3 ltac:(by eexists)). lia.
  - intros l'. rewrite lookup_insert. case_decide; [lia|]. intros E. specialize (L3 _ E). lia.
  - intros l' Hl'. specialize (L4 _ Hl'). lia.
Qed.

Lemma new_listener_waiting s l rl m offered taken n :
  st_listeners s !! l = None → rvl_pending rl = ∅ → (st_next s ≤ n)%nat →
  waiting_ok s [] offered taken →
  waiting_ok (mkReverseStore (<[l := rl]> (st_listeners s)) (st_controls s) (st_waiting s)
    m (st_connClosed s) (st_panicked s) n) [] offered taken.
Proof.
  intros El Ep Hn. apply waiting_ok_same; try done. intros l' id p. unfold pend. cbn.
  rewrite lookup_insert. case_decide as E; [|done]. subst l'. rewrite El. split.
  - intros (? & [= <-] & Hp). by rewrite Ep, lookup_empty in Hp.
  - by intros (? & ? & _).
Qed.

Lemma set_map_waiting s m ps offered taken :
  waiting_ok s ps offered taken → waiting_ok (set_map s m) ps offered taken.
Proof. by apply waiting_ok_same. Qed.

Lemma set_map_listeners s toClose m :
  (∀ key l, m !! key = Some l → ∃ m0, st_map s = Some m0 ∧ m0 !! key = Some l) →
  listeners_ok s toClose → listeners_ok (set_map s (Some m)) toClose.
Proof.
  intros Hm [L1 L2 L3 L4]. split; [exact L1| |exact L3|exact L4]. cbn. intros m' key l [= <-] Ek.
  destruct (Hm _ _ Ek) as (m0 & Em0 & Ek0). by eapply L2.
Qed.

Lemma ensure_inv r addr listen startWorker :
  reverse_inv r → reverse_inv (reverse_step r (REnsure addr listen startWorker)).
Proof.
  intros [Hw Hl]. cbn [reverse_step]. unfold ensureReverseListener. cbv zeta.
  set (s := rr_store r) in *. set (m := default ∅ (st_map s)).
  assert (∀ key l, m !! key = Some l → ∃ m0, st_map s = Some m0 ∧ m0 !! key = Some l) as Hm.
  { intros key l. subst m. destruct (st_map s) as [m0|]; cbn; [by exists m0|by rewrite lookup_empty]. }
  assert (st_listeners s !! st_next s = None) as Hnone.
  { destruct (st_listeners s !! st_next s) eqn:E; [|done].
    pose proof (lo_next _ _ Hl (st_next s) ltac:(by eexists)). lia. }
  destruct (m !! normalizeTarget addr) as [l|] eqn:Ek; [|destruct listen as [u|e]].
  - split; cbn; [by apply set_map_waiting|by apply set_map_listeners].
  - destruct startWorker; cbn [fst].
    + split; cbn; [apply new_listener_waiting; [done|done|lia|done]|by apply new_listener_ok].
    + set (s1 := mkReverseStore _ _ _ _ _ _ _).
      assert (listeners_ok (set_map s1 (Some m)) (rr_toClose r)) as Hl1.
      { assert (listeners_ok s1 (rr_toClose r)) as H1 by (by apply new_listener_ok).
        revert H1. apply set_map_listeners. intros key l Hkl. eexists. split; [done|].
        rewrite lookup_insert_ne; [done|]. intros <-. congruence. }
      split; cbn [with_store rr_store rr_offered rr_taken rr_toClose].
      * apply closeListener_ok, set_map_waiting. apply new_listener_waiting; [done|done|lia|done].
      * apply closeListener_listeners; [|exact Hl1]. cbn. intros m' key [= <-] Hkl.
        destruct (Hm _ _ Hkl) as (m0 & Em0 & Ek0). destruct (lo_map _ _ Hl _ _ _ Em0 Ek0) as (_ & rl & E & _).
        congruence.
  - split; cbn; [by apply set_map_waiting|by apply set_map_listeners].
Qed.

Lemma unmap_inv r l : reverse_inv r → reverse_inv (reverse_step r (RUnmap l)).
Proof.
  intros [Hw Hl]. cbn [reverse_step]. unfold unmapIfIdle.
  destruct (st_listeners (rr_store r) !! l) as [rl|] eqn:El; [|by destruct r].
  destruct (st_map (rr_store r)) as [m|] eqn:Em; [|by destruct r].
  case_decide as Hkey; [|by destruct r]. destruct (isIdle (rr_store r) l); [|by destruct r].
  split; cbn [rr_store rr_offered rr_taken rr_toClose]; [by apply set_map_waiting|].
  destruct Hl as [L1 L2 L3 L4]. split; cbn.
  - exact L1.
  - intros m' key l' [= <-]. rewrite lookup_delete_Some. intros [Hne Ek].
    destruct (L2 _ _ _ Em Ek) as (Hnc & rl' & E & Ekey & Ecl). split; [|by exists rl'].
    rewrite elem_of_union, elem_of_singleton. intros [->|]; [|done].
    rewrite El in E. injection E as <-. by destruct Hne.
  - exact L3.
  - intros l'. rewrite elem_of_union, elem_of_singleton. intros [->|]; [|by apply L4]. apply L3. by eexists.
Qed.

Lemma close_inv r l : reverse_inv r → reverse_inv (reverse_step r (RClose l)).
Proof.
  intros [Hw Hl]. cbn [reverse_step]. case_decide as Hc; [|done].
  split; cbn [with_store rr_store rr_offered rr_taken rr_toClose]; [by apply closeListener_ok|].
  apply closeListener_listeners; [|done]. intros m key Em Ek.
  by destruct (lo_map _ _ Hl _ _ _ Em Ek) as [? _].
Qed.

Lemma shutdown_inv r : reverse_inv r → reverse_inv (reverse_step r RShutdown).
Proof.
  intros [Hw Hl]. split; cbn [reverse_step rr_store rr_offered rr_taken rr_toClose]; [by apply set_map_waiting|].
  destruct Hl as [L1 L2 L3 L4]. split; [exact L1|done|exact L3|]. cbn.
  intros l. rewrite elem_of_union, elem_of_list_to_set, list_elem_of_fmap.
  intros [([key l'] & -> & Hin)|]; [|by apply L4]. apply elem_of_map_to_list in Hin. cbn.
  destruct (st_map (rr_store r)) as [m|] eqn:Em; cbn in Hin; [|by rewrite lookup_empty in Hin].
  destruct (L2 _ _ _ eq_refl Hin) as (_ & rl & E & _). apply L3. by eexists.
Qed.

Create HintDb reverse.
#[export] Hint Resolve addControl_inv removeControl_inv ensure_inv unmap_inv close_inv shutdown_inv : reverse.

Lemma emptyStore_inv : reverse_inv (mkReverseState emptyStore ∅ [] []).
Proof.
  assert (∀ l id p, ¬ pend emptyStore l id p) as Hp by (intros l id p (rl & E & _); done).
  split; [split|split]; cbn; try done.
  - intros l id p E. by destruct (Hp _ _ _ E).
  - intros l id l' id' p E. by destruct (Hp _ _ _ E).
  - intros p []%not_elem_of_nil.
  - constructor.
  - intros conn. split; [intros []%not_elem_of_nil|by intros (? & ? & ? & _)].
  - split; [constructor|intros conn []%not_elem_of_nil].
  - by intros p [].
  - intros m key l [= <-]. by rewrite lookup_empty.
  - by intros l [].
Qed.

Lemma reverse_run_inv evs : reverse_inv (reverse_run evs).
Proof.
  unfold reverse_run. induction evs as [|ev evs IH] using rev_ind; [apply emptyStore_inv|].
  rewrite foldl_snoc. destruct ev; auto using control_events_inv, pending_events_inv with reverse.
Qed.

(** C11: Whatever the goroutines of the server do, in any order: a listener has
    at most one control, and a closed one holds no control and no waiting
    connection; a listener in the map of the server is open and stands under the
    normalised form of its address; no channel is closed twice, so none of the
    operations panics; and every inbound connection that was accepted to wait is
    handed to at most one stream, and is at any time waiting in exactly one
    place, handed over, or closed: none is lost. *)
Theorem reverse_safe evs :
  let r := reverse_run evs in
  let s := rr_store r in
  (∀ l rl, st_listeners s !! l = Some rl →
     (size (rvl_controls rl) ≤ 1)%nat ∧
     (rvl_closed rl = true → rvl_controls rl = ∅ ∧ rvl_pending rl = ∅)) ∧
  (∀ l addr, reverseListenerAt s addr = Some l →
     ∃ rl, st_listeners s !! l = Some rl ∧ normalizeTarget (rvl_addr rl) = normalizeTarget addr ∧
           rvl_closed rl = false) ∧
  st_panicked s = false ∧
  (NoDup (rr_taken r) ∧ ∀ conn, conn ∈ rr_taken r → conn ∈ rr_offered r) ∧
  (∀ conn, conn ∈ rr_offered r →
     conn ∈ rr_taken r ∨ conn ∈ st_connClosed s ∨
     exists! at_, ∃ pc, pend s at_.1.1 at_.1.2 at_.2 ∧ st_waiting s !! at_.2 = Some pc ∧ pc_conn pc = conn).
Proof.
  cbv zeta. destruct (reverse_run_inv evs) as [[W1 W2 W3 W4 W5 W6 W7 W8 [W9 W9'] W10 W11] [L1 L2 L3 L4]].
  split; [|split; [|split; [done|split; [split; [done|]|]]]].
  - intros l rl E. by destruct (L1 _ _ E) as (? & _ & ?).
  - intros l addr. unfold reverseListenerAt. intros (m & Em & Ek)%bind_Some.
    by destruct (L2 _ _ _ Em Ek) as (_ & ?).
  - intros conn H. apply W8. destruct (W9' _ H) as (p & pc & ? & ? & _). by exists p, pc.
  - intros conn H. apply W8 in H as (p & pc & E & Ec). subst conn.
    destruct (pc_done pc) eqn:Ed; [destruct (W6 _ _ E Ed); auto|].
    destruct (W5 _ _ E Ed) as [[]%not_elem_of_nil|(l & id & Ep)]. right; right.
    exists (l, id, p). split; [by exists pc|]. intros [[l' id'] p'] (pc' & Ep' & E' & Ec'). cbn in *.
    assert (p = p') as <- by (by eapply W7). by destruct (W2 _ _ _ _ _ Ep Ep') as [<- <-].
Qed.
