(* ===== verification/Lifecycle.v ===== *)
(** * Workers, tracked connections and shutdown (src/server/tunnel/lifecycle.go)

    The worker group and the set of accepted connections share a lock with the
    shutdown flag. The model runs the accept loop, any number of other workers
    and [Close], one section of code at a time: a step is refused ([None]) when
    the goroutine that would take it has to wait. *)

From S2P Require Import Prelude.

(** How far [entryConn.Close] has come: the socket is closed, then the lease is
    given back, then the connection leaves the set. [sync.Once] lets one caller
    in; the others return when it is done. *)
Inductive connPhase := connOpen | connClosed | connReleased | connGone.

#[export] Instance connPhase_eq_dec : EqDecision connPhase.
Proof. solve_decision. Defined.

(** Where the accept loop is: waiting, with a connection it has not tracked yet,
    with one it has no worker for yet, closing one before it returns, returned. *)
Inductive acceptPC :=
  | AcceptWait | Accepted (c : nat) | AcceptTracked (c : nat) | AcceptClosing (c : nat) | AcceptDone.

#[export] Instance acceptPC_eq_dec : EqDecision acceptPC.
Proof. solve_decision. Defined.

(** Where [Close] is; the list holds the connections it still has to close. *)
Inductive closePC :=
  | CloseNot | CloseMarked (cs : list nat) | CloseCancelled (cs : list nat) | CloseConns (cs : list nat)
  | CloseReverse | CloseHTTP | CloseWaiting | CloseFlush | CloseQueued | CloseLogs | CloseDone.

#[export] Instance closePC_eq_dec : EqDecision closePC.
Proof. solve_decision. Defined.

(** [lc_conns] is the set of tracked connections, [lc_workers] the counter of the
    wait group, [lc_entry] every connection that was accepted, [lc_released] the
    calls of their release functions, [lc_logsOpen] whether the log files still
    take entries. *)
Record serverLifecycle := mkLifecycle {
  lc_cancelled : bool;
  lc_closing : bool;
  lc_listening : bool;
  lc_conns : gset nat;
  lc_workers : nat;
  lc_accept : acceptPC;
  lc_close : closePC;
  lc_entry : gmap nat connPhase;
  lc_released : list nat;
  lc_logsOpen : bool
}.

(** After [Start]: the accept loop is the first worker. *)
Definition startedLifecycle : serverLifecycle :=
  mkLifecycle false false true ∅ 1 AcceptWait CloseNot ∅ [] true.

Definition set_workers (s : serverLifecycle) (n : nat) : serverLifecycle :=
  mkLifecycle (lc_cancelled s) (lc_closing s) (lc_listening s) (lc_conns s) n (lc_accept s) (lc_close s)
    (lc_entry s) (lc_released s) (lc_logsOpen s).
Definition set_accept (s : serverLifecycle) (a : acceptPC) : serverLifecycle :=
  mkLifecycle (lc_cancelled s) (lc_closing s) (lc_listening s) (lc_conns s) (lc_workers s) a (lc_close s)
    (lc_entry s) (lc_released s) (lc_logsOpen s).
Definition set_close (s : serverLifecycle) (p : closePC) : serverLifecycle :=
  mkLifecycle (lc_cancelled s) (lc_closing s) (lc_listening s) (lc_conns s) (lc_workers s) (lc_accept s) p
    (lc_entry s) (lc_released s) (lc_logsOpen s).
Definition set_entry (s : serverLifecycle) (e : gmap nat connPhase) (conns : gset nat) (released : list nat)
    : serverLifecycle :=
  mkLifecycle (lc_cancelled s) (lc_closing s) (lc_listening s) conns (lc_workers s) (lc_accept s) (lc_close s)
    e released (lc_logsOpen s).

(** ** The operations *)

Definition beginWorker (s : serverLifecycle) : bool * serverLifecycle :=
  if lc_closing s then (false, s) else (true, set_workers s (S (lc_workers s))).

(** The end of a goroutine [startWorker] began: [workers.Done()]. *)
Definition workerDone (s : serverLifecycle) : serverLifecycle := set_workers s (pred (lc_workers s)).

(** Whether the connection was tracked: when the server is closing it is not,
    and the caller closes it. *)
Definition trackEntryConn (s : serverLifecycle) (c : nat) : bool * serverLifecycle :=
  if lc_closing s then (false, s)
  else (true, set_entry s (lc_entry s) ({[ c ]} ∪ lc_conns s) (lc_released s)).

(** The next part of [entryConn.Close]. *)
Definition closeEntry (s : serverLifecycle) (c : nat) : serverLifecycle :=
  match lc_entry s !! c with
  | Some connOpen => set_entry s (<[c := connClosed]> (lc_entry s)) (lc_conns s) (lc_released s)
  | Some connClosed => set_entry s (<[c := connReleased]> (lc_entry s)) (lc_conns s) (lc_released s ++ [c])
  | Some connReleased => set_entry s (<[c := connGone]> (lc_entry s)) (lc_conns s ∖ {[ c ]}) (lc_released s)
  | _ => s
  end.

Definition is_gone (s : serverLifecycle) (c : nat) : bool := bool_decide (lc_entry s !! c = Some connGone).

(** The next part of [Server.Close]. *)
Definition closeServer (s : serverLifecycle) : option serverLifecycle :=
  match lc_close s with
  | CloseNot =>
      Some (mkLifecycle (lc_cancelled s) true (lc_listening s) (lc_conns s) (lc_workers s) (lc_accept s)
              (CloseMarked (elements (lc_conns s))) (lc_entry s) (lc_released s) (lc_logsOpen s))
  | CloseMarked cs =>
      Some (mkLifecycle true (lc_closing s) (lc_listening s) (lc_conns s) (lc_workers s) (lc_accept s)
              (CloseCancelled cs) (lc_entry s) (lc_released s) (lc_logsOpen s))
  | CloseCancelled cs =>
      Some (mkLifecycle (lc_cancelled s) (lc_closing s) false (lc_conns s) (lc_workers s) (lc_accept s)
              (CloseConns cs) (lc_entry s) (lc_released s) (lc_logsOpen s))
  | CloseConns [] => Some (set_close s CloseReverse)
  | CloseConns (c :: cs) => if is_gone s c then Some (set_close s (CloseConns cs)) else None
  | CloseReverse => Some (set_close s CloseHTTP)
  | CloseHTTP => Some (set_close s CloseWaiting)
  | CloseWaiting => if (lc_workers s =? 0)%nat then Some (set_close s CloseFlush) else None
  | CloseFlush => Some (set_close s CloseQueued)
  | CloseQueued => Some (set_close s CloseLogs)
  | CloseLogs =>
      Some (mkLifecycle (lc_cancelled s) (lc_closing s) (lc_listening s) (lc_conns s) (lc_workers s)
              (lc_accept s) CloseDone (lc_entry s) (lc_released s) false)
  | CloseDone => Some s
  end.

(** ** Runs *)

(** Who calls [entryConn.Close]. *)
Inductive closer := ByWorker | ByAccept | ByClose.

Inductive lifecycle_event :=
  | LAccept (c : nat)            (* Accept returns a connection that got a lease *)
  | LAcceptEnd                   (* Accept fails after shutdown began *)
  | LTrack                       (* the accept loop tracks the connection *)
  | LSpawn                       (* and starts its worker *)
  | LAcceptClosed                (* the accept loop returns after closing *)
  | LBegin                       (* startWorker or the monitor's beginWorker *)
  | LDone                        (* a worker other than the accept loop ends *)
  | LConn (by_ : closer) (c : nat)
  | LClose.

Definition accepting (s : serverLifecycle) : nat := if decide (lc_accept s = AcceptDone) then 0 else 1.

(** Whether a goroutine is there to call [Close] on [c], or one is inside. A
    connection that is not tracked yet is known to the accept loop only. *)
Definition may_close (s : serverLifecycle) (by_ : closer) (c : nat) : bool :=
  match by_ with
  | ByWorker =>
      bool_decide (lc_accept s ≠ Accepted c) &&
      (bool_decide (lc_entry s !! c ≠ Some connOpen) || (accepting s <? lc_workers s)%nat)
  | ByAccept => bool_decide (lc_accept s = AcceptClosing c)
  | ByClose => match lc_close s with CloseConns (c' :: _) => (c =? c')%nat | _ => false end
  end.

Definition lifecycle_step (s : serverLifecycle) (ev : lifecycle_event) : option serverLifecycle :=
  match ev with
  | LAccept c =>
      match lc_accept s, lc_entry s !! c, lc_listening s with
      | AcceptWait, None, true =>
          Some (set_accept (set_entry s (<[c := connOpen]> (lc_entry s)) (lc_conns s) (lc_released s)) (Accepted c))
      | _, _, _ => None
      end
  | LAcceptEnd =>
      match lc_accept s with
      | AcceptWait =>
          if lc_cancelled s || negb (lc_listening s) then Some (workerDone (set_accept s AcceptDone)) else None
      | _ => None
      end
  | LTrack =>
      match lc_accept s with
      | Accepted c =>
          let '(tracked, s) := trackEntryConn s c in
          Some (set_accept s (if tracked then AcceptTracked c else AcceptClosing c))
      | _ => None
      end
  | LSpawn =>
      match lc_accept s with
      | AcceptTracked c =>
          let '(started, s) := beginWorker s in
          Some (set_accept s (if started then AcceptWait else AcceptClosing c))
      | _ => None
      end
  | LAcceptClosed =>
      match lc_accept s with
      | AcceptClosing c => if is_gone s c then Some (workerDone (set_accept s AcceptDone)) else None
      | _ => None
      end
  | LBegin => Some (beginWorker s).2
  | LDone => if (accepting s <? lc_workers s)%nat then Some (workerDone s) else None
  | LConn by_ c => if may_close s by_ c then Some (closeEntry s c) else None
  | LClose => closeServer s
  end.

(** A step that has to wait leaves the state as it is. *)
Definition lifecycle_do (s : serverLifecycle) (ev : lifecycle_event) : serverLifecycle :=
  default s (lifecycle_step s ev).

Definition lifecycle_run (s : serverLifecycle) (evs : list lifecycle_event) : serverLifecycle :=
  foldl lifecycle_do s evs.

Example shutdown :
  let s := lifecycle_run startedLifecycle
             [LAccept 7; LTrack; LSpawn; LAccept 8; LClose; LTrack; LClose; LClose; LConn ByClose 7; LClose;
              LConn ByWorker 7; LConn ByClose 7; LClose; LClose; LClose; LClose; LDone] in
  lc_workers s = 1%nat ∧ lc_close s = CloseWaiting ∧ lc_released s = [7%nat] ∧ lc_accept s = AcceptClosing 8 ∧
  let s := lifecycle_run s [LConn ByAccept 8; LConn ByAccept 8; LConn ByAccept 8; LAcceptClosed;
                            LClose; LClose; LClose; LClose] in
  lc_workers s = 0%nat ∧ lc_close s = CloseDone ∧ lc_released s = [7%nat; 8%nat] ∧ lc_logsOpen s = false.
Proof. vm_compute. repeat split; reflexivity. Qed.

(** ** Invariant *)

(** The connections [Close] has taken over and not closed yet. *)
Definition to_close (p : closePC) : option (list nat) :=
  match p with
  | CloseNot => None
  | CloseMarked cs | CloseCancelled cs | CloseConns cs => Some cs
  | _ => Some []
  end.

(** Past the wait for the workers. *)
Definition waited (p : closePC) : bool :=
  match p with CloseFlush | CloseQueued | CloseLogs | CloseDone => true | _ => false end.

Definition held_by_accept (a : acceptPC) (c : nat) : Prop := a = Accepted c ∨ a = AcceptClosing c.

Record lifecycle_inv (s : serverLifecycle) : Prop := {
  li_closing : lc_closing s = true ↔ lc_close s ≠ CloseNot;
  li_workers : (accepting s ≤ lc_workers s)%nat;
  li_tracked c : c ∈ lc_conns s → ∃ ph, lc_entry s !! c = Some ph ∧ ph ≠ connGone;
  li_entry c ph : lc_entry s !! c = Some ph → ph ≠ connGone → c ∈ lc_conns s ∨ held_by_accept (lc_accept s) c;
  li_accepted c : lc_accept s = Accepted c → lc_entry s !! c = Some connOpen ∧ c ∉ lc_conns s;
  li_held c : lc_accept s = AcceptTracked c ∨ lc_accept s = AcceptClosing c → is_Some (lc_entry s !! c);
  li_toClose cs c : to_close (lc_close s) = Some cs → c ∈ lc_conns s → c ∈ cs;
  li_known cs c : to_close (lc_close s) = Some cs → c ∈ cs → is_Some (lc_entry s !! c) ∧ lc_accept s ≠ Accepted c;
  li_refused : lc_closing s = false → lc_accept s ≠ AcceptDone ∧ ∀ c, lc_accept s ≠ AcceptClosing c;
  li_waited : waited (lc_close s) = true → lc_workers s = 0%nat;
  li_releases : NoDup (lc_released s);
  li_released c : c ∈ lc_released s ↔ lc_entry s !! c = Some connReleased ∨ lc_entry s !! c = Some connGone;
  li_logs : lc_logsOpen s = false → lc_close s = CloseDone;
  li_cancel : match lc_close s with CloseNot | CloseMarked _ => True | _ => lc_cancelled s = true end;
  li_stopped : lc_cancelled s = true ∨ lc_listening s = false → lc_closing s = true
}.

Lemma accepting_set s a :
  accepting (set_accept s a) = if decide (a = AcceptDone) then 0%nat else 1%nat.
Proof. done. Qed.

Lemma started_inv : lifecycle_inv startedLifecycle.
Proof.
  split; cbn; try done.
  all: try (intros; naive_solver).
  - constructor.
  - intros c. rewrite lookup_empty. split; [intros []%not_elem_of_nil|by intros [|]].
Qed.

(** A step that moves the accept loop only. *)
Lemma accept_inv s a :
  lifecycle_inv s → lc_accept s ≠ AcceptDone → (∀ c, held_by_accept (lc_accept s) c → held_by_accept a c ∨
    c ∈ lc_conns s ∨ lc_entry s !! c = Some connGone) →
  (∀ c, a ≠ Accepted c) → (∀ c, a = AcceptTracked c ∨ a = AcceptClosing c → is_Some (lc_entry s !! c)) →
  (lc_closing s = false → a ≠ AcceptDone ∧ ∀ c, a ≠ AcceptClosing c) → a ≠ AcceptDone →
  lifecycle_inv (set_accept s a).
Proof.
  intros [I1 I2 I3 I4 I5 I6 I7 I8 I9 I10 I11 I12 I13 I14 I15] Hne Hheld Hacc Hk Hcl Hd. split; try done.
  - rewrite accepting_set. unfold accepting in I2. cbn. by repeat case_decide.
  - intros c ph E Hg. cbn. destruct (I4 _ _ E Hg) as [|H]; [by left|].
    destruct (Hheld _ H) as [|[|E']]; [by right|by left|]. cbn in E. congruence.
  - cbn. intros c Hc. by destruct (Hacc c).
  - intros cs c Hcs H. destruct (I8 _ _ Hcs H). done.
Qed.

(** The accept loop returns: its worker is done. *)
Lemma accept_done_inv s :
  lifecycle_inv s → lc_accept s ≠ AcceptDone → lc_closing s = true →
  (∀ c, held_by_accept (lc_accept s) c → lc_entry s !! c = Some connGone) →
  lifecycle_inv (workerDone (set_accept s AcceptDone)).
Proof.
  intros [I1 I2 I3 I4 I5 I6 I7 I8 I9 I10 I11 I12 I13 I14 I15] Hne Hcl Hheld. split; cbn; try done.
  - unfold accepting. cbn. rewrite decide_True by done. lia.
  - intros c ph E Hg. destruct (I4 _ _ E Hg) as [|H]; [by left|]. rewrite (Hheld _ H) in E. congruence.
  - by intros c [|].
  - intros cs c Hcs H. by destruct (I8 _ _ Hcs H).
  - by rewrite Hcl.
  - intros Hw. rewrite (I10 Hw). done.
Qed.

Lemma track_inv s c :
  lifecycle_inv s → lc_accept s = Accepted c →
  lifecycle_inv (let '(tracked, s) := trackEntryConn s c in
                 set_accept s (if tracked then AcceptTracked c else AcceptClosing c)).
Proof.
  intros Hi Ha. unfold trackEntryConn. destruct (lc_closing s) eqn:Ecl.
  - apply accept_inv; try done.
    + by rewrite Ha.
    + intros c' [?|?]; simplify_eq; [left; right|]; congruence.
    + intros c' [?|?]; simplify_eq. destruct Hi. destruct (li_accepted0 _ Ha) as [-> _]. done.
    + by rewrite Ecl.
  - destruct Hi as [I1 I2 I3 I4 I5 I6 I7 I8 I9 I10 I11 I12 I13 I14 I15]. destruct (I5 _ Ha) as [Hc Hn].
    assert (lc_close s = CloseNot) as Hnot.
    { destruct (decide (lc_close s = CloseNot)) as [|Hn']; [done|]. apply I1 in Hn'. congruence. }
    split; cbn [set_accept set_entry lc_closing lc_close lc_conns lc_accept lc_workers lc_entry lc_released
                lc_logsOpen lc_cancelled lc_listening]; try done.
    + unfold accepting in *. cbn in *. by rewrite Ha in I2.
    + intros c'. rewrite elem_of_union, elem_of_singleton. intros [->|]; [by eexists|by apply I3].
    + intros c' ph E Hg. destruct (I4 _ _ E Hg) as [|[H|H]]; [set_solver|rewrite Ha in H|rewrite Ha in H]; simplify_eq.
      set_solver.
    + intros c' [|]; simplify_eq. by rewrite Hc.
    + by rewrite Hnot.
    + by rewrite Hnot.
Qed.

Lemma spawn_inv s c :
  lifecycle_inv s → lc_accept s = AcceptTracked c →
  lifecycle_inv (let '(started, s) := beginWorker s in
                 set_accept s (if started then AcceptWait else AcceptClosing c)).
Proof.
  intros Hi Ha. unfold beginWorker. destruct (lc_closing s) eqn:Ecl.
  - apply accept_inv; try done.
    + by rewrite Ha.
    + rewrite Ha. by intros c' [|].
    + intros c' [?|?]; simplify_eq. eapply li_held; [done|by left].
    + by rewrite Ecl.
  - assert (lifecycle_inv (set_accept s AcceptWait)) as [I1 I2 I3 I4 I5 I6 I7 I8 I9 I10 I11 I12 I13 I14 I15].
    { apply accept_inv; try done; [by rewrite Ha|rewrite Ha; by intros c' [|]|by intros c' [|]]. }
    split; cbn in *; try done.
    + unfold accepting in *. cbn in *. lia.
    + intros Hw. assert (lc_close s ≠ CloseNot) as H by (by destruct (lc_close s)).
      apply I1 in H. congruence.
Qed.

Lemma new_conn_inv s c :
  lifecycle_inv s → lc_accept s = AcceptWait → lc_entry s !! c = None →
  lifecycle_inv (set_accept (set_entry s (<[c := connOpen]> (lc_entry s)) (lc_conns s) (lc_released s)) (Accepted c)).
Proof.
  intros [I1 I2 I3 I4 I5 I6 I7 I8 I9 I10 I11 I12 I13 I14 I15] Ha Hc.
  assert (c ∉ lc_conns s) as Hn by (intros H; destruct (I3 _ H) as (? & ? & ?); congruence).
  split; cbn; try done.
  - unfold accepting in *. cbn. by rewrite Ha in I2.
  - intros c' H. rewrite lookup_insert_ne by congruence. by apply I3.
  - intros c' ph. rewrite lookup_insert_Some. intros [[<- _]|[_ E]] Hg; [right; by left|].
    destruct (I4 _ _ E Hg) as [|[H|H]]; [by left|congruence..].
  - intros c' [= <-]. by rewrite lookup_insert_eq.
  - by intros c' [|].
  - intros cs c' Hcs H. destruct (I8 _ _ Hcs H) as [[ph E] _].
    assert (c ≠ c') by congruence. rewrite lookup_insert_ne by done. split; [by eexists|congruence].
  - intros c'. rewrite I12. destruct (decide (c = c')) as [<-|]; [|by rewrite lookup_insert_ne].
    rewrite Hc, lookup_insert_eq. naive_solver.
Qed.

Lemma begin_inv s : lifecycle_inv s → lifecycle_inv (beginWorker s).2.
Proof.
  intros Hi. unfold beginWorker. destruct (lc_closing s) eqn:Ecl; [done|].
  destruct Hi as [I1 I2 I3 I4 I5 I6 I7 I8 I9 I10 I11 I12 I13 I14 I15]. split; cbn; try done.
  - unfold accepting in *. cbn. lia.
  - intros Hw. assert (lc_close s ≠ CloseNot) as H by (by destruct (lc_close s)). apply I1 in H. congruence.
Qed.

Lemma done_inv s : lifecycle_inv s → (accepting s < lc_workers s)%nat → lifecycle_inv (workerDone s).
Proof.
  intros [I1 I2 I3 I4 I5 I6 I7 I8 I9 I10 I11 I12 I13 I14 I15] Hlt. split; cbn; try done.
  - unfold accepting in *. cbn. lia.
  - intros Hw. rewrite (I10 Hw). done.
Qed.

(** Closing a connection keeps the invariant, at any of its parts. *)
Lemma closeEntry_inv s c :
  lifecycle_inv s → lc_accept s ≠ Accepted c → lifecycle_inv (closeEntry s c).
Proof.
  intros [I1 I2 I3 I4 I5 I6 I7 I8 I9 I10 I11 I12 I13 I14 I15] Hacc. unfold closeEntry.
  destruct (lc_entry s !! c) as [ph|] eqn:Ec; [|by split].
  destruct ph; [| | |by split]; (split; cbn; try done).
  all: try (intros c' Ha; rewrite lookup_insert_ne by congruence; by apply I5).
  all: try (intros cs c' Hcs H; destruct (I8 _ _ Hcs H); split; [rewrite lookup_insert_is_Some'; by right|done]).
  all: try (intros c' ?; rewrite lookup_insert_is_Some'; right; by eapply I6).
  all: try (intros c' H; destruct (I3 _ H) as (ph & E & Hg); destruct (decide (c = c')) as [<-|];
            [rewrite lookup_insert_eq; by eexists|rewrite lookup_insert_ne by done; by exists ph]).
  all: try (intros c' ph; rewrite lookup_insert_Some; intros [[<- _]|[_ E]] Hg; [by eapply I4|by eapply I4]).
  all: try (intros c'; rewrite I12; destruct (decide (c = c')) as [<-|];
            [rewrite lookup_insert_eq, Ec; naive_solver|by rewrite lookup_insert_ne]).
  - apply NoDup_app. split; [done|]. split; [|apply NoDup_singleton].
    intros c' H ->%list_elem_of_singleton. apply I12 in H. rewrite Ec in H. by destruct H.
  - intros c'. rewrite elem_of_app, list_elem_of_singleton, I12. destruct (decide (c = c')) as [<-|].
    + rewrite lookup_insert_eq, Ec. naive_solver.
    + rewrite lookup_insert_ne by done. naive_solver.
  - intros c'. rewrite elem_of_difference, elem_of_singleton. intros [H Hne].
    rewrite lookup_insert_ne by done. by apply I3.
  - intros c' ph. rewrite lookup_insert_Some. intros [[<- <-]|[Hne E]] Hg; [done|].
    destruct (I4 _ _ E Hg); [left; set_solver|by right].
  - intros c' Ha. rewrite lookup_insert_ne by congruence. destruct (I5 _ Ha). set_solver.
  - intros cs c' H. rewrite elem_of_difference. intros [? _]. by eapply I7.
Qed.

(** A step of [Close] itself. *)
Lemma close_step_inv s cancelled listening p logs :
  lifecycle_inv s → p ≠ CloseNot →
  (∀ cs c, to_close p = Some cs → c ∈ lc_conns s → c ∈ cs) →
  (∀ cs c, to_close p = Some cs → c ∈ cs → is_Some (lc_entry s !! c) ∧ lc_accept s ≠ Accepted c) →
  (waited p = true → lc_workers s = 0%nat) → (logs = false → p = CloseDone) →
  match p with CloseNot | CloseMarked _ => True | _ => cancelled = true end →
  lifecycle_inv (mkLifecycle cancelled true listening (lc_conns s) (lc_workers s) (lc_accept s) p
                   (lc_entry s) (lc_released s) logs).
Proof. intros [I1 I2 I3 I4 I5 I6 I7 I8 I9 I10 I11 I12 I13 I14 I15] ??????. by split. Qed.

Lemma closeServer_inv s s' : lifecycle_inv s → closeServer s = Some s' → lifecycle_inv s'.
Proof.
  intros Hi H. pose proof (li_closing s Hi) as Hc.
  pose proof (li_toClose s Hi) as Ht. pose proof (li_known s Hi) as Hk.
  pose proof (li_waited s Hi) as Hw. pose proof (li_logs s Hi) as Hl. pose proof (li_cancel s Hi) as Hca.
  unfold closeServer, set_close in H.
  destruct (lc_close s) as [|cs|cs|[|c cs]| | | | | | |] eqn:Ep; cbn in *; repeat case_match; simplify_eq;
    try (rewrite (proj2 Hc) by done); 
    try (apply close_step_inv; first [done|by auto|by intros Hlo%Hl|idtac]).
  - intros cs c [= <-]. by rewrite elem_of_elements.
  - intros cs c [= <-]. rewrite elem_of_elements. intros H.
    destruct (li_tracked s Hi _ H) as (ph & E & _). split; [by rewrite E|]. intros Ha.
    by destruct (li_accepted s Hi _ Ha).
  - unfold is_gone in *. case_bool_decide as Hg; [|done].
    intros cs' c' [= <-] H. specialize (Ht _ _ eq_refl H). apply elem_of_cons in Ht as [->|]; [|done].
    destruct (li_tracked s Hi _ H) as (? & ? & ?); congruence.
  - intros cs' c' [= <-] H. apply (Hk (c :: cs)); [done|]. by apply elem_of_cons; right.
  - intros _. by apply Nat.eqb_eq.
  - by simplify_eq.
Qed.

Lemma lifecycle_do_inv s ev : lifecycle_inv s → lifecycle_inv (lifecycle_do s ev).
Proof.
  intros Hi. unfold lifecycle_do. destruct (lifecycle_step s ev) as [s'|] eqn:E; [cbn|done].
  destruct ev; cbn [lifecycle_step] in E.
  - destruct (lc_accept s) eqn:Ea; try done. destruct (lc_entry s !! c) eqn:Ec; [done|].
    destruct (lc_listening s); [|done]. injection E as <-. by apply new_conn_inv.
  - destruct (lc_accept s) eqn:Ea; try done. destruct (lc_cancelled s || _) eqn:Es; [|done]. injection E as <-.
    apply accept_done_inv; [done|by rewrite Ea|apply (li_stopped s Hi)|rewrite Ea; by intros c [|]].
    apply orb_true_iff in Es as [|Hl%negb_true_iff]; auto.
  - destruct (lc_accept s) as [|c| | |] eqn:Ea; try done.
    pose proof (track_inv s c Hi Ea) as H. destruct (trackEntryConn s c). congruence.
  - destruct (lc_accept s) as [| |c| |] eqn:Ea; try done.
    pose proof (spawn_inv s c Hi Ea) as H. destruct (beginWorker s). congruence.
  - destruct (lc_accept s) as [| | |c|] eqn:Ea; try done. unfold is_gone in E. case_bool_decide as Hg; [|done].
    injection E as <-. apply accept_done_inv; [done|by rewrite Ea| |rewrite Ea; by intros c' [|]; simplify_eq].
    destruct (lc_closing s) eqn:Ecl; [done|]. destruct (li_refused s Hi Ecl) as [_ H]. by destruct (H c).
  - injection E as <-. by apply begin_inv.
  - destruct (accepting s <? lc_workers s)%nat eqn:El; [|done]. injection E as <-.
    apply done_inv; [done|]. by apply Nat.ltb_lt.
  - destruct (may_close s by_ c) eqn:Em; [|done]. injection E as <-. apply closeEntry_inv; [done|].
    destruct by_; cbn in Em.
    + apply andb_true_iff in Em as [Em _]. by apply bool_decide_eq_true in Em.
    + apply bool_decide_eq_true in Em. congruence.
    + destruct (lc_close s) as [| | |[|c' cs]| | | | | | |] eqn:Ep; try done. apply Nat.eqb_eq in Em as ->.
      refine (proj2 (li_known s Hi (c' :: cs) c' _ _)); [by rewrite Ep|by left].
  - by eapply closeServer_inv.
Qed.

Lemma lifecycle_run_inv evs : lifecycle_inv (lifecycle_run startedLifecycle evs).
Proof.
  unfold lifecycle_run. induction evs as [|ev evs IH] using rev_ind; [apply started_inv|].
  rewrite foldl_snoc. by apply lifecycle_do_inv.
Qed.

Ltac lifecycle_cases s ev :=
  unfold lifecycle_do; destruct (lifecycle_step s ev) as [s'|] eqn:E; [cbn [default]|done];
  destruct ev; cbn [lifecycle_step] in E;
  unfold trackEntryConn, beginWorker, closeServer, closeEntry in E; repeat case_match; simplify_eq; cbn.

(** Once the server is closing, workers and tracked connections only go. *)
Lemma closing_only_shrinks s ev :
  lc_closing s = true →
  let s' := lifecycle_do s ev in
  lc_closing s' = true ∧ (lc_workers s' ≤ lc_workers s)%nat ∧ lc_conns s' ⊆ lc_conns s.
Proof. intros Hcl. cbv zeta. lifecycle_cases s ev; (split_and!; [done|lia|set_solver]). Qed.

(** C6: In every run of the accept loop, the workers and [Close], the lease of a
    connection is given back at most once, after its socket is closed; once
    shutdown has begun no worker is started and no connection is tracked; the log
    files are closed only when no worker is left; and when [Close] returns, no
    worker runs, the accept loop has returned, and every connection that was ever
    accepted is closed and its lease given back. *)
Theorem shutdown_complete evs :
  let s := lifecycle_run startedLifecycle evs in
  (NoDup (lc_released s) ∧
   ∀ c, c ∈ lc_released s → lc_entry s !! c = Some connReleased ∨ lc_entry s !! c = Some connGone) ∧
  (lc_closing s = true → ∀ more, let s' := lifecycle_run s more in
     (lc_workers s' ≤ lc_workers s)%nat ∧ lc_conns s' ⊆ lc_conns s) ∧
  (lc_logsOpen s = false → lc_workers s = 0%nat) ∧
  (lc_close s = CloseDone →
     lc_workers s = 0%nat ∧ lc_accept s = AcceptDone ∧ lc_conns s = ∅ ∧
     ∀ c ph, lc_entry s !! c = Some ph → ph = connGone ∧ c ∈ lc_released s).
Proof.
  cbv zeta. pose proof (lifecycle_run_inv evs) as Hi. set (s := lifecycle_run startedLifecycle evs) in *.
  destruct Hi as [I1 I2 I3 I4 I5 I6 I7 I8 I9 I10 I11 I12 I13 I14 I15].
  split; [|split; [|split]].
  - split; [done|]. intros c. by rewrite I12.
  - intros Hcl more. assert (lc_closing (lifecycle_run s more) = true ∧
      (lc_workers (lifecycle_run s more) ≤ lc_workers s)%nat ∧ lc_conns (lifecycle_run s more) ⊆ lc_conns s) as H.
    { unfold lifecycle_run. induction more as [|ev more IH] using rev_ind; [by split_and!|].
      rewrite foldl_snoc. destruct IH as (Hc & Hw & Hs). destruct (closing_only_shrinks _ ev Hc) as (? & ? & ?).
      split_and!; [done|lia|set_solver]. }
    tauto.
  - intros Hl. apply I10. by rewrite (I13 Hl).
  - intros Hd. assert (lc_workers s = 0%nat) as Hw by (apply I10; by rewrite Hd).
    assert (lc_accept s = AcceptDone) as Ha.
    { unfold accepting in I2. case_decide; [done|]. lia. }
    assert (lc_conns s = ∅) as Hc.
    { apply set_eq. intros c. split; [|set_solver]. intros H.
      apply (I7 [] c) in H; [|by rewrite Hd]. by apply not_elem_of_nil in H. }
    split_and!; [done..|]. intros c ph E. destruct (decide (ph = connGone)) as [->|Hg].
    + split; [done|]. apply I12. by right.
    + destruct (I4 _ _ E Hg) as [H|[H|H]]; [|congruence..]. rewrite Hc in H. set_solver.
Qed.

(** ** Shutdown ends

    Each part of [Close] that is not done either can go on, or waits for a
    goroutine that can: this measure goes down at every such step. *)

Definition weight (ph : connPhase) : nat :=
  match ph with connOpen => 3 | connClosed => 2 | connReleased => 1 | connGone => 0 end.
Definition weights (m : gmap nat connPhase) : nat := map_fold (λ _ ph n, weight ph + n) 0 m.

Definition acceptRank (a : acceptPC) : nat :=
  match a with Accepted _ => 4 | AcceptTracked _ => 3 | AcceptClosing _ => 2 | AcceptWait => 1 | AcceptDone => 0 end.

Definition closeRank (s : serverLifecycle) : nat :=
  match lc_close s with
  | CloseNot => 10 + size (lc_conns s)
  | CloseMarked cs => 9 + length cs
  | CloseCancelled cs => 8 + length cs
  | CloseConns cs => 7 + length cs
  | CloseReverse => 6 | CloseHTTP => 5 | CloseWaiting => 4 | CloseFlush => 3 | CloseQueued => 2 | CloseLogs => 1
  | CloseDone => 0
  end.

Definition shutdownRank (s : serverLifecycle) : nat :=
  closeRank s + acceptRank (lc_accept s) + lc_workers s + weights (lc_entry s).

Lemma weights_insert m c ph ph' :
  m !! c = Some ph → weights (<[c := ph']> m) + weight ph = weights m + weight ph'.
Proof.
  intros E.
  assert (∀ m0 ph0, m0 !! c = Some ph0 → weights m0 = weight ph0 + weights (delete c m0)) as Hd.
  { intros m0 ph0 E0. unfold weights. eapply (map_fold_delete_L (λ _ ph n, weight ph + n)); [intros; lia|done]. }
  rewrite (Hd m ph E), (Hd (<[c := ph']> m) ph') by (by rewrite lookup_insert_eq).
  rewrite delete_insert_eq. lia.
Qed.

(** A connection that is not gone is one part nearer to it. *)
Lemma closeEntry_rank s c :
  is_Some (lc_entry s !! c) → is_gone s c = false →
  shutdownRank (closeEntry s c) < shutdownRank s ∧ lc_closing (closeEntry s c) = lc_closing s.
Proof.
  intros [ph E] Hg. unfold is_gone in Hg. case_bool_decide as Hn; [done|].
  unfold closeEntry. rewrite E. destruct ph; [| | |congruence]; (split; [|done]);
    unfold shutdownRank, closeRank; cbn -[weights size].
  - pose proof (weights_insert _ c _ connClosed E) as H. cbn in H. lia.
  - pose proof (weights_insert _ c _ connReleased E) as H. cbn in H. lia.
  - pose proof (weights_insert _ c _ connGone E) as H. cbn in H.
    assert (size (lc_conns s ∖ {[c]}) ≤ size (lc_conns s)) by (apply subseteq_size; set_solver).
    destruct (lc_close s); lia.
Qed.

(** The steps that begin nothing. *)
Definition winding (ev : lifecycle_event) : bool :=
  match ev with LAccept _ | LBegin => false | _ => true end.

(** The accept loop, with no other worker left, is nearer to its end. *)
Lemma accept_progress s :
  lifecycle_inv s → lc_closing s = true → lc_cancelled s = true → lc_accept s ≠ AcceptDone →
  ∃ ev, winding ev = true ∧ shutdownRank (lifecycle_do s ev) < shutdownRank s.
Proof.
  intros Hi Hcl Hca Ha. pose proof (li_workers s Hi) as Hw. unfold accepting in Hw. rewrite decide_False in Hw by done.
  destruct (lc_accept s) as [|c|c|c|] eqn:Ea; try done.
  - exists LAcceptEnd. split; [done|]. unfold lifecycle_do. cbn [lifecycle_step]. rewrite Ea, Hca. cbn -[weights].
    unfold shutdownRank, closeRank. cbn -[weights]. rewrite Ea. cbn. lia.
  - exists LTrack. split; [done|]. unfold lifecycle_do. cbn [lifecycle_step]. unfold trackEntryConn.
    rewrite Ea, Hcl. unfold shutdownRank, closeRank. cbn -[weights]. rewrite Ea. cbn. lia.
  - exists LSpawn. split; [done|]. unfold lifecycle_do. cbn [lifecycle_step]. unfold beginWorker.
    rewrite Ea, Hcl. unfold shutdownRank, closeRank. cbn -[weights]. rewrite Ea. cbn. lia.
  - destruct (is_gone s c) eqn:Eg.
    + exists LAcceptClosed. split; [done|]. unfold lifecycle_do. cbn [lifecycle_step]. rewrite Ea, Eg.
      unfold shutdownRank, closeRank. cbn -[weights]. rewrite Ea. cbn. lia.
    + exists (LConn ByAccept c). split; [done|]. unfold lifecycle_do. cbn [lifecycle_step may_close].
      rewrite Ea, bool_decide_true by done. apply closeEntry_rank; [|done]. eapply li_held; [done|by right].
Qed.

Lemma shutdown_progress s :
  lifecycle_inv s → lc_close s ≠ CloseDone →
  ∃ ev, winding ev = true ∧ shutdownRank (lifecycle_do s ev) < shutdownRank s.
Proof.
  intros Hi Hd.
  assert (∀ s', closeServer s = Some s' → closeRank s' < closeRank s → lc_accept s' = lc_accept s →
     lc_workers s' = lc_workers s → lc_entry s' = lc_entry s →
     ∃ ev, winding ev = true ∧ shutdownRank (lifecycle_do s ev) < shutdownRank s) as Hclose.
  { intros s' E Hr Ha Hw He. exists LClose. split; [done|]. unfold lifecycle_do. cbn [lifecycle_step]. rewrite E.
    change (default s (Some s')) with s'. unfold shutdownRank. rewrite Ha, Hw, He. lia. }
  assert (length (elements (lc_conns s)) = size (lc_conns s)) as Hsize by done.
  unfold closeServer, closeRank in Hclose.
  destruct (lc_close s) as [|cs|cs|[|c cs]| | | | | | |] eqn:Ep; try done;
    try (eapply Hclose; [reflexivity|cbn; lia|done..]).
  - destruct (is_gone s c) eqn:Eg; [eapply Hclose; [reflexivity|cbn; lia|done..]|].
    exists (LConn ByClose c). split; [done|]. unfold lifecycle_do. cbn [lifecycle_step may_close].
    rewrite Ep, Nat.eqb_refl. apply closeEntry_rank; [|done].
    eapply li_known; [done|by rewrite Ep|by left].
  - destruct (Nat.eqb_spec (lc_workers s) 0) as [|Hne]; [eapply Hclose; [reflexivity|cbn; lia|done..]|].
    destruct (decide (accepting s < lc_workers s)%nat) as [Hlt|].
    + exists LDone. split; [done|]. unfold lifecycle_do. cbn [lifecycle_step]. apply Nat.ltb_lt in Hlt as E. rewrite E.
      unfold shutdownRank, closeRank. cbn -[weights]. lia.
    + apply accept_progress; [done|..].
      * apply li_closing; [done|]. by rewrite Ep.
      * pose proof (li_cancel s Hi) as Hc. by rewrite Ep in Hc.
      * unfold accepting in *. case_decide; [lia|done].
Qed.

