(* ===== verification/Server.v ===== *)
(** * The server and its logs (src/server/tunnel/server.go, event_logs.go,
    runtime_events.go, permanent_block_hit_logs.go, monitor.go)

    The mutable state of [Server], made of the states of its components, and the
    methods that record what happened: events, the four log files, the counters.
    The configuration, the users and the configured reverse listeners do not
    change after [Start]: they are section variables. A method takes the
    readings of the clock it may need, in order, as a function. *)

From S2P Require Import Prelude.
From S2P Require Import GoStd.
From S2P Require Import Disk.
From S2P Require Import Version.
From S2P Require Import Netaddr.
From S2P Require Import Protocol.
From S2P Require Import GoCrypto.
From S2P Require Import Credseal.
From S2P Require Import CertificateGate.
From S2P Require Import EventRing.
From S2P Require Import LogEntries.
From S2P Require Import ConfigData.
From S2P Require Import EntrySecurity.
From S2P Require Import StreamLimiter.
From S2P Require Import ConnLimiter.
From S2P Require Import PermanentBlocks.
From S2P Require Import FailTracker.
From S2P Require Import ServerConfig.
From S2P Require Import CredentialSeal.
From S2P Require Import Reverse.
From S2P Require Import Lifecycle.

#[local] Open Scope Z_scope.

(** ** The state *)

Section State.
Context `{SealCrypto}.

Record Server := mkServer {
  sv_lifecycle : serverLifecycle;
  sv_fails : failTracker;
  sv_credential : credentialState;
  sv_reverse : reverseStore;
  sv_events : option runtimeEventRing;
  sv_requestLog : option jsonlLog;
  sv_businessLog : option jsonlLog;
  sv_entryTrafficLog : option jsonlLog;
  sv_entryTrafficWriter : option asyncEntryTrafficLog;
  sv_flowTrafficLog : option jsonlLog;
  sv_requestSeq : Z;
  sv_permanentBlockHits : option permanentBlockHitAggregator;
  sv_connLimiter : option connectionLimiter;
  sv_userStreams : option userStreamLimiter;
  sv_counters : counters;
  sv_disk : Disk;
  sv_logged : list string
}.

Definition set_lifecycle (s : Server) (x : serverLifecycle) : Server :=
  mkServer x (sv_fails s) (sv_credential s) (sv_reverse s) (sv_events s) (sv_requestLog s) (sv_businessLog s)
    (sv_entryTrafficLog s) (sv_entryTrafficWriter s) (sv_flowTrafficLog s) (sv_requestSeq s)
    (sv_permanentBlockHits s) (sv_connLimiter s) (sv_userStreams s) (sv_counters s) (sv_disk s) (sv_logged s).
Definition set_fails (s : Server) (x : failTracker) (d : Disk) : Server :=
  mkServer (sv_lifecycle s) x (sv_credential s) (sv_reverse s) (sv_events s) (sv_requestLog s) (sv_businessLog s)
    (sv_entryTrafficLog s) (sv_entryTrafficWriter s) (sv_flowTrafficLog s) (sv_requestSeq s)
    (sv_permanentBlockHits s) (sv_connLimiter s) (sv_userStreams s) (sv_counters s) d (sv_logged s).
Definition set_credential (s : Server) (x : credentialState) (d : Disk) : Server :=
  mkServer (sv_lifecycle s) (sv_fails s) x (sv_reverse s) (sv_events s) (sv_requestLog s) (sv_businessLog s)
    (sv_entryTrafficLog s) (sv_entryTrafficWriter s) (sv_flowTrafficLog s) (sv_requestSeq s)
    (sv_permanentBlockHits s) (sv_connLimiter s) (sv_userStreams s) (sv_counters s) d (sv_logged s).
Definition set_reverse (s : Server) (x : reverseStore) : Server :=
  mkServer (sv_lifecycle s) (sv_fails s) (sv_credential s) x (sv_events s) (sv_requestLog s) (sv_businessLog s)
    (sv_entryTrafficLog s) (sv_entryTrafficWriter s) (sv_flowTrafficLog s) (sv_requestSeq s)
    (sv_permanentBlockHits s) (sv_connLimiter s) (sv_userStreams s) (sv_counters s) (sv_disk s) (sv_logged s).
Definition set_events (s : Server) (x : option runtimeEventRing) : Server :=
  mkServer (sv_lifecycle s) (sv_fails s) (sv_credential s) (sv_reverse s) x (sv_requestLog s) (sv_businessLog s)
    (sv_entryTrafficLog s) (sv_entryTrafficWriter s) (sv_flowTrafficLog s) (sv_requestSeq s)
    (sv_permanentBlockHits s) (sv_connLimiter s) (sv_userStreams s) (sv_counters s) (sv_disk s) (sv_logged s).
Definition set_logs (s : Server) (req bus entry flow : option jsonlLog) (d : Disk) : Server :=
  mkServer (sv_lifecycle s) (sv_fails s) (sv_credential s) (sv_reverse s) (sv_events s) req bus
    entry (sv_entryTrafficWriter s) flow (sv_requestSeq s)
    (sv_permanentBlockHits s) (sv_connLimiter s) (sv_userStreams s) (sv_counters s) d (sv_logged s).
Definition set_writer (s : Server) (x : option asyncEntryTrafficLog) : Server :=
  mkServer (sv_lifecycle s) (sv_fails s) (sv_credential s) (sv_reverse s) (sv_events s) (sv_requestLog s)
    (sv_businessLog s) (sv_entryTrafficLog s) x (sv_flowTrafficLog s) (sv_requestSeq s)
    (sv_permanentBlockHits s) (sv_connLimiter s) (sv_userStreams s) (sv_counters s) (sv_disk s) (sv_logged s).
Definition set_requestSeq (s : Server) (x : Z) : Server :=
  mkServer (sv_lifecycle s) (sv_fails s) (sv_credential s) (sv_reverse s) (sv_events s) (sv_requestLog s)
    (sv_businessLog s) (sv_entryTrafficLog s) (sv_entryTrafficWriter s) (sv_flowTrafficLog s) x
    (sv_permanentBlockHits s) (sv_connLimiter s) (sv_userStreams s) (sv_counters s) (sv_disk s) (sv_logged s).
Definition set_hits (s : Server) (x : option permanentBlockHitAggregator) : Server :=
  mkServer (sv_lifecycle s) (sv_fails s) (sv_credential s) (sv_reverse s) (sv_events s) (sv_requestLog s)
    (sv_businessLog s) (sv_entryTrafficLog s) (sv_entryTrafficWriter s) (sv_flowTrafficLog s) (sv_requestSeq s)
    x (sv_connLimiter s) (sv_userStreams s) (sv_counters s) (sv_disk s) (sv_logged s).
Definition set_limiters (s : Server) (x : option connectionLimiter) (y : option userStreamLimiter) : Server :=
  mkServer (sv_lifecycle s) (sv_fails s) (sv_credential s) (sv_reverse s) (sv_events s) (sv_requestLog s)
    (sv_businessLog s) (sv_entryTrafficLog s) (sv_entryTrafficWriter s) (sv_flowTrafficLog s) (sv_requestSeq s)
    (sv_permanentBlockHits s) x y (sv_counters s) (sv_disk s) (sv_logged s).
Definition set_counters (s : Server) (x : counters) : Server :=
  mkServer (sv_lifecycle s) (sv_fails s) (sv_credential s) (sv_reverse s) (sv_events s) (sv_requestLog s)
    (sv_businessLog s) (sv_entryTrafficLog s) (sv_entryTrafficWriter s) (sv_flowTrafficLog s) (sv_requestSeq s)
    (sv_permanentBlockHits s) (sv_connLimiter s) (sv_userStreams s) x (sv_disk s) (sv_logged s).
Definition set_logged (s : Server) (x : list string) : Server :=
  mkServer (sv_lifecycle s) (sv_fails s) (sv_credential s) (sv_reverse s) (sv_events s) (sv_requestLog s)
    (sv_businessLog s) (sv_entryTrafficLog s) (sv_entryTrafficWriter s) (sv_flowTrafficLog s) (sv_requestSeq s)
    (sv_permanentBlockHits s) (sv_connLimiter s) (sv_userStreams s) (sv_counters s) (sv_disk s) x.

(** [s.<counter>.Add(n)]. *)
Definition count (s : Server) (c : counter) (n : Z) : Server := set_counters s (Add c n (sv_counters s)).
End State.

(** ** Recording *)

Section Recording.
Context `{SealCrypto} `{LocalTime} `{RequestCodec : JSONCodec RequestLogEntry}
  `{BusinessCodec : JSONCodec BusinessLogEntry} `{EntryCodec : JSONCodec EntryTrafficLogEntry}
  `{FlowCodec : JSONCodec FlowTrafficLogEntry}.
(** The configuration, and whether the server was given a log function. *)
Variable cfg : Config.
Variable hasLogf : bool.

Definition log (s : Server) (line : string) : Server :=
  if hasLogf then set_logged s (sv_logged s ++ [line]) else s.

(** The common end of the record methods: the entry as JSON goes to the log
    lines and to its file. *)
Definition write_entry {A} `{JSONCodec A} (name words : string) (now : Time)
    (get : Server → option jsonlLog) (put : Server → option jsonlLog → Disk → Server)
    (s : Server) (entry : A) : Server :=
  match marshal entry with
  | Err e => log s ("write " +:+ words +:+ " log failed: " +:+ e)
  | Ok data =>
      let s := log s (name +:+ " " +:+ of_chars data) in
      match get s with
      | None => s
      | Some l =>
          let '(l, d, r) := WriteJSONLine (Some l) (of_chars data) (FormatDate now) (sv_disk s) in
          let s := put s l d in
          match r with
          | Ok _ => s
          | Err e => log s ("write " +:+ words +:+ " log failed: " +:+ e)
          end
      end
  end.

Definition with_request_time (now : Time) (e : RequestLogEntry) : RequestLogEntry :=
  mkRequestLogEntry (if String.eqb (rl_Time e) "" then FormatRFC3339 now else rl_Time e) (rl_RequestID e)
    (rl_RemoteAddr e) (rl_RemoteIP e) (rl_LocalAddr e) (rl_Request e) (rl_ReadError e) (rl_AuthResult e)
    (rl_Response e) (rl_Result e) (rl_DurationMS e).

Definition recordRequestLog (clk : nat → Time) (s : Server) (entry : RequestLogEntry) : Server :=
  let entry := with_request_time (clk 0%nat) entry in
  let s := if isSuccessfulRequestForBlockProtection entry
           then set_fails s (markSuccessful (sv_fails s) (rl_RemoteIP entry) (clk 1%nat)).2 (sv_disk s)
           else s in
  write_entry "request_log" "request" (clk 2%nat) sv_requestLog
    (λ s l d, set_logs s l (sv_businessLog s) (sv_entryTrafficLog s) (sv_flowTrafficLog s) d) s entry.

Definition with_business_time (now : Time) (e : BusinessLogEntry) : BusinessLogEntry :=
  mkBusinessLogEntry (if String.eqb (bl_Time e) "" then FormatRFC3339 now else bl_Time e) (bl_StartedAt e)
    (bl_EndedAt e) (bl_RequestID e) (bl_Kind e) (bl_Result e) (bl_RemoteIP e) (bl_Username e) (bl_ClientID e)
    (bl_ForwardName e) (bl_Direction e) (bl_Target e) (bl_ListenAddr e) (bl_Code e) (bl_Message e)
    (bl_DurationMS e) (bl_BytesUp e) (bl_BytesDown e).

Definition recordBusinessLog (clk : nat → Time) (s : Server) (entry : BusinessLogEntry) : Server :=
  write_entry "business_log" "business" (clk 1%nat) sv_businessLog
    (λ s l d, set_logs s (sv_requestLog s) l (sv_entryTrafficLog s) (sv_flowTrafficLog s) d) s
    (with_business_time (clk 0%nat) entry).

Definition recordBusinessLogFromEvent (clk : nat → Time) (s : Server) (event : RuntimeEvent) : Server :=
  if negb (isBusinessRuntimeEvent event) then s else recordBusinessLog clk s (businessEntry event).

Definition writeEntryTrafficLog (now : Time) (s : Server) (entry : EntryTrafficLogEntry) : Server :=
  write_entry "entry_traffic_log" "entry traffic" now sv_entryTrafficLog
    (λ s l d, set_logs s (sv_requestLog s) (sv_businessLog s) l (sv_flowTrafficLog s) d) s entry.

Definition with_entry_time (now : Time) (e : EntryTrafficLogEntry) : EntryTrafficLogEntry :=
  mkEntryTrafficLogEntry (if String.eqb (et_Time e) "" then FormatRFC3339 now else et_Time e) (et_RequestID e)
    (et_Event e) (et_Result e) (et_RemoteAddr e) (et_RemoteIP e) (et_LocalAddr e) (et_Code e) (et_Message e)
    (et_Abnormal e) (et_DurationMS e) (et_Limit e) (et_WindowSec e) (et_PermanentBlockCreated e).

Definition recordEntryTrafficLog (clk : nat → Time) (s : Server) (entry : EntryTrafficLogEntry) : Server :=
  let entry := with_entry_time (clk 0%nat) entry in
  match sv_entryTrafficWriter s with
  | Some w => set_writer s (Some (Enqueue w entry))
  | None => writeEntryTrafficLog (clk 1%nat) s entry
  end.

Definition recordFlowTrafficLog (clk : nat → Time) (s : Server) (entry : FlowTrafficLogEntry) : Server :=
  write_entry "flow_traffic_log" "flow traffic" (clk 1%nat) sv_flowTrafficLog
    (λ s l d, set_logs s (sv_requestLog s) (sv_businessLog s) (sv_entryTrafficLog s) l d) s
    (completeFlowEntry (clk 0%nat) (sec_StreamRateLimitBytesPerSec (cfg_Security cfg))
       (sec_MaxConcurrentStreamsPerUser (cfg_Security cfg)) entry).

(** ** Events *)

Definition eventRing (s : Server) : Server :=
  match sv_events s with
  | Some _ => s
  | None => set_events s (Some (newRuntimeEventRing (Z.of_nat defaultRecentEvents)))
  end.

Definition recentEventSnapshot (s : Server) : list RuntimeEvent * Server :=
  let s := eventRing s in (Snapshot (sv_events s), s).

Definition event_line (e : RuntimeEvent) : string :=
  "event kind=" +:+ logValue (re_Kind e) +:+ " result=" +:+ logValue (re_Result e)
  +:+ " remote_ip=" +:+ logValue (re_RemoteIP e) +:+ " user=" +:+ logValue (re_Username e)
  +:+ " client=" +:+ logValue (re_ClientID e) +:+ " forward=" +:+ logValue (re_ForwardName e)
  +:+ " direction=" +:+ logValue (re_Direction e) +:+ " target=" +:+ logValue (re_Target e)
  +:+ " listen=" +:+ logValue (re_ListenAddr e) +:+ " code=" +:+ logValue (re_Code e)
  +:+ " duration_ms=" +:+ Itoa (re_DurationMS e) +:+ " message=" +:+ logValue (re_Message e).

Definition with_event_time (now : Time) (e : RuntimeEvent) : RuntimeEvent :=
  mkRuntimeEvent (if String.eqb (re_Time e) "" then FormatRFC3339 now else re_Time e) (re_RequestID e)
    (re_Kind e) (re_Result e) (re_RemoteIP e) (re_Username e) (re_ClientID e) (re_ForwardName e)
    (re_Direction e) (re_Target e) (re_ListenAddr e) (re_Code e) (re_Message e) (re_DurationMS e)
    (re_BytesUp e) (re_BytesDown e).

Definition recordEvent (clk : nat → Time) (s : Server) (event : RuntimeEvent) : Server :=
  let event := with_event_time (clk 0%nat) event in
  let s := eventRing s in
  let s := set_events s (Append (sv_events s) event) in
  let s := recordBusinessLogFromEvent (λ i, clk (S i)) s event in
  log s (event_line event).

(** ** Requests and probes *)

Definition nextRequestID (now : Time) (s : Server) : string * Server :=
  let seq := wrap_u64 (sv_requestSeq s + 1) in
  ("req-" +:+ FormatStamp now +:+ "-" +:+ ItoaPad 6 seq, set_requestSeq s seq).

Definition recordPermanentBlockedHit (clk : nat → Time) (s : Server) (remoteIP : string) : Server :=
  if String.eqb remoteIP "" then s
  else
    let s := set_counters s (countEntryPermanentBlockHit (sv_counters s)) in
    match sv_permanentBlockHits s with
    | None => recordEntryTrafficLog clk s (blockedHitEntry remoteIP 1 defaultPermanentBlockHitLogInterval)
    | Some a => set_hits s (Observe (Some a) remoteIP)
    end.

(** One turn of [permanentBlockHitLogLoop], and the end of [Close]. *)
Definition flushHits (clk : nat → Time) (s : Server) : Server :=
  let '(entries, a) := flushPermanentBlockHitLogs (sv_permanentBlockHits s) in
  foldl (λ s e, recordEntryTrafficLog (λ k, clk (2 * e.1 + k)%nat) s e.2) (set_hits s a) (imap pair entries).

Definition flowTrafficEntry (requestID event kind res remoteIP : string) (req : OpenRequest)
    : FlowTrafficLogEntry :=
  mkFlowTrafficLogEntry "" requestID event kind res remoteIP (rq_Username req) (rq_ClientID req)
    (rq_ForwardName req) (rq_Direction req) (rq_Target req) (rq_ListenAddr req) "" "" false 0 0 0 0 0 0 0.

End Recording.

(** ** Versions *)

Definition serverVersionResponse (resp : OpenResponse) : OpenResponse :=
  if rs_OK resp && String.eqb (TrimSpace (rs_ServerVersion resp)) ""
  then mkOpenResponse (rs_OK resp) (rs_Code resp) (rs_Message resp) AppVersion (rs_ListenAddr resp)
         (rs_StreamID resp) (rs_CredentialKey resp)
  else resp.

(** One end of the range of client versions: [cmp] says when [bound] refuses. *)
Definition check_client_bound (cmp : string → string → result bool) (clientVersion bound what : string)
    : option OpenResponse :=
  let bound := TrimSpace bound in
  if String.eqb bound "" then None
  else match cmp clientVersion bound with
  | Err e => Some (response false "client_version_unsupported" e)
  | Ok true =>
      Some (response false "client_version_unsupported"
              ("client_version " +:+ clientVersion +:+ " is not supported by this server; " +:+ what
               +:+ " client_version is " +:+ bound))
  | Ok false => None
  end.

(** [None] when the request is compatible, otherwise the refusal. *)
Definition checkRequestCompatibility (cfg : Config) (req : OpenRequest) : option OpenResponse :=
  let serverProtocol := cc_ProtocolVersion (cfg_Compatibility cfg) in
  let serverProtocol := if serverProtocol =? 0 then ProtocolVersion else serverProtocol in
  let requestProtocol := rq_ProtocolVersion req in
  let requestProtocol := if requestProtocol =? 0 then LegacyProtocolVersion else requestProtocol in
  if negb (requestProtocol =? serverProtocol)
  then Some (response false "protocol_version_unsupported"
               ("protocol_version " +:+ Itoa requestProtocol
                +:+ " is not supported by this server; required protocol_version is " +:+ Itoa serverProtocol))
  else
    let clientVersion := TrimSpace (rq_ClientVersion req) in
    let clientVersion := if String.eqb clientVersion "" then LegacyClientVersion else clientVersion in
    match Validate clientVersion with
    | Err _ => Some (response false "client_version_unsupported"
                       ("client_version " +:+ quote clientVersion +:+ " is invalid"))
    | Ok _ =>
        match check_client_bound Less clientVersion (cc_MinClientVersion (cfg_Compatibility cfg)) "minimum" with
        | Some resp => Some resp
        | None =>
            check_client_bound Greater clientVersion (cc_MaxClientVersion (cfg_Compatibility cfg)) "maximum"
        end
    end.

Example compatibility :
  let cfg := mkConfig "" 1 (mkRequiresConfig "") (mkCompatibilityConfig "3.0.0" "" 0) "" "" ""
               (mkTLSConfig "" "" "") [] [] zeroSecurity [] (mkRuntimeConfig "" "" "" "" "" "" 0) in
  let req v p := mkOpenRequest "login" "ann" "x" None "" v p "" "" "" "" "" in
  checkRequestCompatibility cfg (req "3.1.1" 3) = None ∧
  checkRequestCompatibility cfg (req "2.9.9" 3)
  = Some (response false "client_version_unsupported"
      "client_version 2.9.9 is not supported by this server; minimum client_version is 3.0.0") ∧
  checkRequestCompatibility cfg (req "" 0)
  = Some (response false "protocol_version_unsupported"
      "protocol_version 1 is not supported by this server; required protocol_version is 3").
Proof. vm_compute. repeat split; reflexivity. Qed.

(** ** The monitor (monitor.go) *)

(** The values [status] builds. *)
Inductive jsonValue :=
  | JNum (z : Z)
  | JStr (t : string)
  | JBool (b : bool)
  | JObj (fields : list (string * jsonValue))
  | JCounts (m : gmap string Z)
  | JBlocked (items : list BlockedIPState)
  | JEvents (events : list RuntimeEvent).

Section Monitor.
Context `{SealCrypto} `{LocalTime} `{StateCodec : JSONCodec (list persistedBlockedIP)}.
Variable cfg : Config.
Variable frg : MapRange failState.
Variable urg : MapRange Z.
Variable srg : SetRange.

Definition limit_count (m : gmap string Z) (name : string) : jsonValue := JNum (default 0 (m !! name)).

(** [uptimeSec] and [addr] are what [time.Since] and the listener say. *)
Definition status (addr : string) (uptimeSec : Z) (now : Time) (s : Server) : jsonValue :=
  let conns := ConnLimiter.snapshot (sv_connLimiter s) in
  let streams := StreamLimiter.snapshot urg (sv_userStreams s) in
  let failures := FailTracker.stats (sv_fails s) in
  let writer := match sv_entryTrafficWriter s with
                | Some w => EntrySecurity.stats w
                | None => mkWriterStats 0 0 0 0 0
                end in
  let sec := cfg_Security cfg in
  let c x := JNum (sv_counters s x) in
  JObj [
    ("service", JStr "lsyl-tunnel-server"); ("listen_addr", JStr addr); ("uptime_sec", JNum uptimeSec);
    ("active_connections", limit_count conns "active");
    ("tracked_remote_ips", limit_count conns "tracked_ips");
    ("connections_rejected", c connectionsRejected);
    ("connection_limits", JObj [
      ("active", limit_count conns "active"); ("tracked_remote_ips", limit_count conns "tracked_ips");
      ("max_tracked_remote_ips", limit_count conns "max_tracked_ips");
      ("tracked_remote_ip_evictions", limit_count conns "evicted_ips");
      ("tracked_remote_ip_capacity_rejected", limit_count conns "capacity_rejected");
      ("max_concurrent_connections", JNum (sec_MaxConcurrentConnections sec));
      ("max_concurrent_connections_per_ip", JNum (sec_MaxConcurrentConnectionsPerIP sec));
      ("new_connection_rate_window_sec", JNum (sec_ConnectionRateWindowSec sec));
      ("max_new_connections_per_ip_window", JNum (sec_MaxNewConnectionsPerIPWindow sec))]);
    ("connection_rejections", JObj [
      ("total", c connectionsRejected); ("global_concurrent", c connectionsRejectedGlobal);
      ("per_ip_concurrent", c connectionsRejectedPerIPActive);
      ("per_ip_new_connection_rate", c connectionsRejectedPerIPNewRate);
      ("tracked_remote_ip_capacity", c connectionsRejectedIPCapacity)]);
    ("entry_security", JObj [
      ("protocol_rejected_total", c entryProtocolRejected); ("http_probe_rejected", c entryHTTPProbeRejected);
      ("non_tls_rejected", c entryNonTLSRejected); ("unsupported_tls_rejected", c entryUnsupportedTLSRejected);
      ("slow_handshake_rejected", c entrySlowHandshakeRejected);
      ("closed_handshake_rejected", c entryClosedHandshakeRejected);
      ("oversized_handshake_rejected", c entryOversizedHandshakeRejected);
      ("unsupported_request_rejected", c entryUnsupportedRequestRejected);
      ("invalid_handshake_rejected", c entryInvalidHandshakeRejected);
      ("permanent_blocks_created", c entryPermanentBlocksCreated);
      ("permanent_block_hits_observed", c entryPermanentBlockHits)]);
    ("failure_tracker", JObj [
      ("tracked_ips", JNum (TrackedIPs failures)); ("max_tracked_ips", JNum (MaxTrackedIPs failures));
      ("evicted_ips", JNum (EvictedIPs failures)); ("capacity_drops", JNum (CapacityDrops failures))]);
    ("entry_traffic_log", JObj [
      ("queue_capacity", JNum (ws_Capacity writer)); ("queue_pending", JNum (ws_Queued writer));
      ("accepted", JNum (ws_Accepted writer)); ("written", JNum (ws_Written writer));
      ("dropped", JNum (ws_Dropped writer))]);
    ("user_stream_limits", JObj [
      ("active", JNum (us_Active streams)); ("tracked_users", JNum (us_TrackedUsers streams));
      ("active_by_user", JCounts (us_ActiveByUser streams));
      ("max_concurrent_streams_per_user", JNum (us_MaxPerUser streams));
      ("stream_rate_limit_bytes_per_sec", JNum (sec_StreamRateLimitBytesPerSec sec));
      ("user_stream_limit_rejections_total", c userStreamLimitRejected)]);
    ("user_stream_limit_rejected", c userStreamLimitRejected);
    ("active_streams", c activeStreams); ("total_streams", c totalStreams);
    ("auth_ok", c authOK); ("auth_failed", c authFailed); ("policy_rejected", c policyRejected);
    ("dial_failed", c dialFailed); ("bytes_up", c bytesUp); ("bytes_down", c bytesDown);
    ("blocked_ips", JBlocked (snapshotBlocked frg (sv_fails s) now));
    ("recent_events", JEvents (recentEventSnapshot s).1)].

(** What a request of the monitor is answered with. *)
Record monitorReply := mkMonitorReply { mr_Status : Z; mr_Body : jsonValue }.

Definition refusal (code : Z) (message : string) : monitorReply :=
  mkMonitorReply code (JObj [("ok", JBool false); ("message", JStr message)]).
Definition removal (message : string) (removed : bool) : monitorReply :=
  mkMonitorReply 200 (JObj [("ok", JBool true); ("message", JStr message); ("removed", JBool removed)]).

(** The common part of the two handlers: [body] is the address in the decoded
    body, or none when the body does not decode. *)
Definition monitor_ip (isPost : bool) (body : option string) : monitorReply + string :=
  if negb isPost then inl (refusal 405 "method not allowed")
  else match body with
  | None => inl (refusal 400 "invalid request")
  | Some ip =>
      let ip := TrimSpace ip in
      match ParseIP ip with
      | None => inl (refusal 400 "invalid ip")
      | Some _ => inr ip
      end
  end.

Definition monitorUnblock (isPost : bool) (body : option string) (saved : Time) (s : Server)
    : monitorReply * Server :=
  match monitor_ip isPost body with
  | inl reply => (reply, s)
  | inr ip =>
      let '(removed, f, d, r) := unblock frg (sv_fails s) ip saved (sv_disk s) in
      (match r with Err e => refusal 500 e | Ok _ => removal "unblocked" removed end, set_fails s f d)
  end.

Definition monitorDeletePermanent (isPost : bool) (body : option string) (s : Server)
    : monitorReply * Server :=
  match monitor_ip isPost body with
  | inl reply => (reply, s)
  | inr ip =>
      let '(f, d, r) := unblockPermanent srg (sv_fails s) ip (sv_disk s) in
      (match r with Err e => refusal 500 e | Ok removed => removal "permanent block deleted" removed end,
       set_fails s f d)
  end.

(** A request of the monitor: it counts as a worker while it is served. [now]
    and [saved] are clock readings. *)
Definition serveMonitor (addr : string) (uptimeSec : Z) (path : string) (isPost : bool) (body : option string)
    (now saved : Time) (s : Server) : monitorReply * Server :=
  let '(started, lc) := beginWorker (sv_lifecycle s) in
  if negb started then (mkMonitorReply 503 (JStr "server is shutting down"), s)
  else
    let s := set_lifecycle s lc in
    let '(reply, s) :=
      if String.eqb path "/status" then (mkMonitorReply 200 (status addr uptimeSec now s), eventRing s)
      else if String.eqb path "/security/unblock" then monitorUnblock isPost body saved s
      else if String.eqb path "/security/permanent-block/delete" then monitorDeletePermanent isPost body s
      else (mkMonitorReply 404 (JStr "404 page not found"), s) in
    (reply, set_lifecycle s (workerDone (sv_lifecycle s))).

(** ** What the monitor changes *)

Lemma worker_served lc lc' : beginWorker lc = (true, lc') → workerDone lc' = lc.
Proof.
  unfold beginWorker. case_match; [done|]. intros [= <-]. by destruct lc.
Qed.

(** The address a request of the monitor may act on. *)
Definition acts_on (isPost : bool) (body : option string) (ip : string) : Prop :=
  isPost = true ∧ is_Some (ParseIP ip) ∧ ∃ raw, body = Some raw ∧ ip = TrimSpace raw.

Lemma monitor_ip_spec isPost body :
  match monitor_ip isPost body with
  | inl reply => (mr_Status reply = 405 ∧ isPost = false) ∨ (mr_Status reply = 400 ∧ isPost = true)
  | inr ip => acts_on isPost body ip ∧ TrimSpace ip = ip ∧ String.eqb ip "" = false
  end.
Proof.
  unfold monitor_ip, acts_on. destruct isPost; [|by left]. destruct body as [raw|]; [|by right].
  simpl. destruct (ParseIP (TrimSpace raw)) eqn:E; [|by right].
  split; [split_and!; eauto|]. split; [apply TrimSpace_idemp|].
  apply String.eqb_neq. intros Hr. by rewrite Hr in E.
Qed.

(** What a removal did to the trackers: nothing, or what its path says. *)
Definition removed_ok (path : string) (isPost : bool) (body : option string) (code : Z) (s s' : Server) : Prop :=
  let f := sv_fails s in
  let f' := sv_fails s' in
  f' = f ∧ sv_disk s' = sv_disk s
  ∨ ∃ ip, acts_on isPost body ip ∧ code ∈ [200; 500] ∧
      (path = "/security/unblock" ∧ ft_items f' = delete ip (ft_items f) ∧ ft_permanent f' = ft_permanent f
       ∨ path = "/security/permanent-block/delete" ∧ ft_items f' = ft_items f ∧
         ft_permanent f' = if decide (code = 200) then ft_permanent f ∖ {[ permanentBlockIPKey ip ]}
                           else ft_permanent f).

Lemma monitorUnblock_ok isPost body saved s :
  let '(reply, s') := monitorUnblock isPost body saved s in
  mr_Status reply ∈ [200; 400; 405; 500] ∧ sv_lifecycle s' = sv_lifecycle s ∧
  removed_ok "/security/unblock" isPost body (mr_Status reply) s s'.
Proof.
  unfold monitorUnblock, unblock, removed_ok. pose proof (monitor_ip_spec isPost body) as Hm.
  destruct (monitor_ip isPost body) as [reply|ip]; [set_solver|]. destruct Hm as (Ha & -> & ->).
  destruct (saveLocked _ _ _ _) as [d [u|e]]; simpl;
    (split_and!; [set_solver|done|right; exists ip; split_and!; [done|set_solver|by left]]).
Qed.

Lemma monitorDeletePermanent_ok isPost body s :
  let '(reply, s') := monitorDeletePermanent isPost body s in
  mr_Status reply ∈ [200; 400; 405; 500] ∧ sv_lifecycle s' = sv_lifecycle s ∧
  removed_ok "/security/permanent-block/delete" isPost body (mr_Status reply) s s'.
Proof.
  unfold monitorDeletePermanent, unblockPermanent, removed_ok. pose proof (monitor_ip_spec isPost body) as Hm.
  destruct (monitor_ip isPost body) as [reply|ip]; [set_solver|]. destruct Hm as (Ha & -> & ->).
  destruct (RemovePermanentBlockedIP _ _ _ _) as [d [removed|e]]; simpl.
  - destruct (removed || _) eqn:E; simpl;
      (split_and!; [set_solver|done|right; exists ip; split_and!; [done|set_solver|right; split_and!; [done..|]]]).
    + done.
    + apply orb_false_iff in E as [_ E]. unfold hasPermanent in E. apply bool_decide_eq_false in E.
      apply leibniz_equiv. set_solver.
  - split_and!; [set_solver|done|]. right. exists ip. split_and!; [done|set_solver|by right].
Qed.

Lemma admitted_code (code : Z) : code ∈ [200; 400; 405; 500] → code = 503 ↔ false = true.
Proof. rewrite !elem_of_cons, elem_of_nil. intros Hc. split; [lia|done]. Qed.

(** The monitor changes the failure tracker and its files only for a POST to
    one of the two removal paths with an address in its body: an unblock takes
    exactly that address out of the temporary table (also when writing the state
    file then fails with 500), a deletion answered with 200 takes exactly its key
    out of the permanent set and one answered with 500 leaves the set alone. A
    request is refused with 503 exactly when the server is closing, and every
    request that was admitted gives its worker back. *)
Theorem monitor_requests addr uptimeSec path isPost body now saved s :
  let '(reply, s') := serveMonitor addr uptimeSec path isPost body now saved s in
  mr_Status reply ∈ [200; 400; 404; 405; 500; 503] ∧ sv_lifecycle s' = sv_lifecycle s ∧
  (mr_Status reply = 503 ↔ lc_closing (sv_lifecycle s) = true) ∧
  removed_ok path isPost body (mr_Status reply) s s'.
Proof.
  unfold serveMonitor. destruct (beginWorker (sv_lifecycle s)) as [ok lc] eqn:Hw.
  assert (Hc : lc_closing (sv_lifecycle s) = negb ok).
  { revert Hw. unfold beginWorker. by case_match; intros [= <- <-]. }
  rewrite Hc. destruct ok; simpl; [|split_and!; [set_solver|done|done|by left]].
  apply worker_served in Hw. subst.
  destruct (String.eqb_spec path "/status") as [->|_].
  { split_and!; simpl; [set_solver| |done|left; by unfold eventRing; case_match].
    unfold eventRing. by case_match. }
  destruct (String.eqb_spec path "/security/unblock") as [->|_].
  { pose proof (monitorUnblock_ok isPost body saved (set_lifecycle s lc)) as Hm.
    destruct (monitorUnblock _ _ _ _) as [reply s']. destruct Hm as (Hin & Hl & Hr).
    split_and!; [set_solver|by simpl; rewrite Hl|by apply admitted_code|exact Hr]. }
  destruct (String.eqb_spec path "/security/permanent-block/delete") as [->|_].
  { pose proof (monitorDeletePermanent_ok isPost body (set_lifecycle s lc)) as Hm.
    destruct (monitorDeletePermanent _ _ _) as [reply s']. destruct Hm as (Hin & Hl & Hr).
    split_and!; [set_solver|by simpl; rewrite Hl|by apply admitted_code|exact Hr]. }
  split_and!; [set_solver|done|done|by left].
Qed.
End Monitor.
