(* ===== verification/Programs.v ===== *)
(** * Programs over calls

    Code that runs while other goroutines change the same state is written as a
    program over the calls it makes on shared components: a program says which call
    comes next for every answer the call may give. The traces of a program are the
    calls it can make with any answers, so what is proved about all of them holds
    under every interleaving. The server's handlers and the client's loops are
    programs over different calls, [op]. *)

From S2P Require Import Prelude.

Section Programs.
Context {op : Type → Type}.

Inductive prog (A : Type) : Type :=
  | Ret (a : A)
  | Do {X : Type} (o : op X) (k : X → prog A).
Arguments Ret {A} a.
Arguments Do {A X} o k.

#[global] Instance prog_ret : MRet prog := λ A a, Ret a.
#[global] Instance prog_bind : MBind prog := λ A B f,
  fix bind m := match m with Ret a => f a | Do o k => Do o (λ x, bind (k x)) end.

Definition call {X} (o : op X) : prog X := Do o Ret.

(** ** Traces *)

(** A call with its answer. *)
Inductive done_call : Type :=
  | Called {X : Type} (o : op X) (x : X).

Inductive traces {A} : prog A → list done_call → A → Prop :=
  | traces_ret a : traces (Ret a) [] a
  | traces_do X (o : op X) (k : X → prog A) x t a : traces (k x) t a → traces (Do o k) (Called o x :: t) a.

(** [Q] holds of every trace and result. *)
Fixpoint always {A} (p : prog A) (Q : list done_call → A → Prop) : Prop :=
  match p with
  | Ret a => Q [] a
  | Do o k => ∀ x, always (k x) (λ t a, Q (Called o x :: t) a)
  end.

Lemma traces_always {A} (p : prog A) Q t a : traces p t a → always p Q → Q t a.
Proof. intros H. revert Q. induction H as [|X o k x t a _ IH]; intros Q HQ; [done|]. by apply (IH _ (HQ x)). Qed.

Lemma always_traces {A} (p : prog A) Q : always p Q ↔ ∀ t a, traces p t a → Q t a.
Proof.
  split; [intros HQ t a H; by eapply traces_always|].
  revert Q. induction p as [a|X o k IH]; intros Q H; cbn; [apply H; constructor|].
  intros x. apply IH. intros t a Ht. apply H. by constructor.
Qed.

Lemma always_impl {A} (p : prog A) (Q Q' : list done_call → A → Prop) :
  (∀ t a, Q t a → Q' t a) → always p Q → always p Q'.
Proof. rewrite !always_traces. auto. Qed.

Lemma always_bind {A B} (m : prog A) (f : A → prog B) Q :
  always (m ≫= f) Q ↔ always m (λ t a, always (f a) (λ t' b, Q (t ++ t') b)).
Proof.
  revert Q. induction m as [a|X o k IH]; intros Q; [done|]. cbn.
  split; intros H x; apply (IH x (λ t b, Q (Called o x :: t) b)), H.
Qed.

Lemma always_do {X A} (o : op X) (f : X → prog A) Q :
  (∀ x, always (f x) (λ t a, Q (Called o x :: t) a)) → always (call o ≫= f) Q.
Proof. done. Qed.
Lemma always_call {X} (o : op X) Q : (∀ x, Q [Called o x] x) → always (call o) Q.
Proof. done. Qed.
Lemma always_ret {A} (a : A) Q : Q [] a → always (mret a) Q.
Proof. done. Qed.
Lemma always_seq {A B} (m : prog A) (f : A → prog B) Q :
  always m (λ t a, always (f a) (λ t' b, Q (t ++ t') b)) → always (m ≫= f) Q.
Proof. apply always_bind. Qed.

(** *** Every call

    [P] holds of every call a program makes. *)
Definition every (P : done_call → Prop) {A} (p : prog A) : Prop := always p (λ t _, Forall P t).

(** After calls it holds of. *)
Lemma every_after (P : done_call → Prop) {A} (p : prog A) t :
  Forall P t → every P p → always p (λ t' _, Forall P (t ++ t')).
Proof. intros Ht Hp. apply (always_impl p (λ t' _, Forall P t')); [|exact Hp]. intros t' _ Ht'. by apply Forall_app. Qed.

Lemma every_bind P {A B} (m : prog A) (f : A → prog B) : every P m → (∀ a, every P (f a)) → every P (m ≫= f).
Proof.
  intros Hm Hf. apply always_bind. eapply always_impl; [|exact Hm]. intros t a Ht. by apply every_after.
Qed.

Lemma every_call (P : done_call → Prop) {X} (o : op X) : (∀ x, P (Called o x)) → every P (call o).
Proof. intros Ho x. cbn. by constructor. Qed.

Lemma every_ret P {A} (a : A) : every P (mret a).
Proof. constructor. Qed.
End Programs.

Arguments prog op A : clear implicits.
Arguments done_call op : clear implicits.
Arguments Ret {op A} a.
Arguments Do {op A X} o k.
Arguments Called {op X} o x.

(** The function a program applies first. *)
Ltac head_of p := lazymatch p with ?f _ => head_of f | _ => p end.

(** Walks through a program: opens its functions and branches on the answers. *)
Ltac walk :=
  repeat first
    [ apply always_do; intros ?; cbv beta
    | apply always_ret; cbv beta
    | apply always_call; intros ?; cbv beta
    | match goal with
      | |- always (match ?x with _ => _ end) _ => destruct x eqn:?
      | |- always (let _ := _ in _) _ => cbv zeta
      end
    | apply always_seq
    | match goal with |- always ?p _ => let h := head_of p in unfold h; cbv beta end ].

(** Proves [every]: [db] for what is known, [atom] for a call. *)
Ltac walk_every db atom :=
  repeat first
    [ solve [db]
    | match goal with
      | |- every _ (match ?x with _ => _ end) => destruct x
      | |- every _ (let _ := _ in _) => cbv zeta
      | |- every _ (mret _) => apply every_ret
      | |- every _ (call _) => apply every_call; intros ?; atom
      | |- every _ (_ ≫= _) => apply every_bind; [|intros ?]
      | |- every _ ?p => let h := head_of p in unfold h; cbv beta
      end ].

(** A deadline of a connection: on both directions or on one. *)
Inductive deadlineKind := deadlineBoth | deadlineRead | deadlineWrite.

(** ** Runs

    The meaning of the calls on a state [W], with what every call answers. *)

Section Runs.
Context {op : Type → Type} {W : Type}.
Variable exec : ∀ {X}, op X → W → W * X.

Fixpoint run_with {A} (p : prog op A) (w : W) : W * list (done_call op) * A :=
  match p with
  | Ret a => (w, [], a)
  | Do o k =>
      let '(w, x) := exec o w in
      let '(w, t, a) := run_with (k x) w in (w, Called o x :: t, a)
  end.

Lemma run_with_traces {A} (p : prog op A) w : traces p (run_with p w).1.2 (run_with p w).2.
Proof.
  revert w. induction p as [a|X o k IH]; intros w; cbn; [constructor|].
  destruct (exec o w) as [w' x]. specialize (IH x w'). destruct (run_with (k x) w') as [[w'' t] a].
  by constructor.
Qed.

Lemma run_with_bind {A B} (m : prog op A) (f : A → prog op B) w :
  run_with (m ≫= f) w =
  let '(w, t, a) := run_with m w in let '(w, t', b) := run_with (f a) w in (w, t ++ t', b).
Proof.
  revert w. induction m as [a|X o k IH]; intros w.
  - change (Ret a ≫= f) with (f a). cbn. by destruct (run_with (f a) w) as [[? ?] ?].
  - change (Do o k ≫= f) with (Do o (λ x, k x ≫= f)). cbn.
    destruct (exec o w) as [w' x]. rewrite IH.
    destruct (run_with (k x) w') as [[w'' t] a]. by destruct (run_with (f a) w'') as [[? ?] ?].
Qed.

(** An invariant of the state that every call keeps. *)
Lemma run_with_inv {A} (P : W → Prop) (p : prog op A) w :
  (∀ X (o : op X) w, P w → P (exec o w).1) → P w → P (run_with p w).1.1.
Proof.
  intros Hstep. revert w. induction p as [a|X o k IH]; intros w Hw; cbn; [done|].
  specialize (Hstep X o w Hw). destruct (exec o w) as [w' x]. specialize (IH x w' Hstep).
  by destruct (run_with (k x) w') as [[w'' t] a].
Qed.
End Runs.
