(* ===== verification/Ownership.v ===== *)
(** * Who owns what while goroutines interleave

    Calls open, hand over and close things with a number: sockets, clients. A
    program owns a set of them, must own what it closes or hands over, and gains
    what it opens or takes. When every goroutine of a pool owns a set of its own,
    each step keeps an account of what is open; the account itself is the
    component's. *)

From S2P Require Import Prelude.
From S2P Require Import Programs.

Section Ownership.
Context {op : Type → Type}.
(** What a call must own, what is owned after it by its answer, and what is known
    of the answer. *)
Context (needs : ∀ X, op X → gset nat).
Context (owns : ∀ X, op X → gset nat → X → gset nat).
Context (possible : ∀ X, op X → X → Prop).
Arguments needs {X} _.
Arguments owns {X} _ _ _.
Arguments possible {X} _ _.

Abbreviation program := (prog op).

(** A program that owns [mine] only uses what it owns, and leaves [Q]. *)
Fixpoint owned {A} (p : program A) (mine : gset nat) (Q : A → gset nat → Prop) : Prop :=
  match p with
  | Ret a => Q a mine
  | Do o k => needs o ⊆ mine ∧ ∀ x, possible o x → owned (k x) (owns o mine x) Q
  end.

Lemma owned_bind {A B} (m : program A) (f : A → program B) mine Q :
  owned (m ≫= f) mine Q ↔ owned m mine (λ a mine', owned (f a) mine' Q).
Proof.
  revert mine. induction m as [a|X o k IH]; intros mine; [done|]. cbn.
  split; intros [Hn Hx]; (split; [done|]); intros x Hp; by apply (IH x), Hx.
Qed.

Lemma owned_impl {A} (p : program A) mine (Q Q' : A → gset nat → Prop) :
  (∀ a mine, Q a mine → Q' a mine) → owned p mine Q → owned p mine Q'.
Proof.
  intros HQ. revert mine. induction p as [a|X o k IH]; intros mine; cbn; [apply HQ|].
  intros [Hn Hx]. split; [done|]. intros x Hp. by apply (IH x), Hx.
Qed.

Lemma owned_call {X A} (o : op X) (f : X → program A) mine Q :
  needs o ⊆ mine → (∀ x, possible o x → owned (f x) (owns o mine x) Q) → owned (call o ≫= f) mine Q.
Proof. done. Qed.

(** Programs that own nothing before and after. *)
Definition balanced {A} (p : program A) : Prop := owned p ∅ (λ _ mine, mine = ∅).

Lemma balanced_bind {A B} (m : program A) (f : A → program B) :
  balanced m → (∀ a, balanced (f a)) → balanced (m ≫= f).
Proof.
  intros Hm Hf. apply owned_bind. eapply owned_impl; [|exact Hm]. intros a mine ->. apply Hf.
Qed.

Lemma balanced_call {X} (o : op X) : needs o = ∅ → (∀ x, owns o ∅ x = ∅) → balanced (call o).
Proof. intros Hn Hx. split; [by rewrite Hn|]. intros x _. apply Hx. Qed.

Lemma balanced_ret {A} (a : A) : balanced (mret a).
Proof. reflexivity. Qed.

(** ** Pools *)

(** Sets that share nothing with each other. *)
Fixpoint apart (ms : list (gset nat)) : Prop :=
  match ms with [] => True | m :: ms => (m ## ⋃ ms) ∧ apart ms end.

Lemma apart_middle ms m ms' : apart (ms ++ m :: ms') ↔ (m ## ⋃ (ms ++ ms')) ∧ apart (ms ++ ms').
Proof.
  induction ms as [|n ms IH]; [done|]. cbn. rewrite IH. rewrite !union_list_app_L, !union_list_cons. set_solver.
Qed.

Lemma union_middle (ms ms' : list (gset nat)) m : ⋃ (ms ++ m :: ms') = m ∪ ⋃ (ms ++ ms').
Proof. rewrite !union_list_app_L, union_list_cons. set_solver. Qed.

(** A program that ends owning nothing. *)
Definition holds (p : program unit) (mine : gset nat) : Prop := owned p mine (λ _ rest, rest = ∅).

(** What a call makes of the state, what it starts as goroutines, which programs
    may start at any time, and the account of a set that is held. *)
Context {W : Type} (sem : ∀ X, op X → W → X → W → Prop).
Context (spawned : ∀ X, op X → list (program unit)).
Context (starts : program unit → Prop).
Context (account : gset nat → W → Prop).
Arguments sem {X} _ _ _ _.
Arguments spawned {X} _.

(** A goroutine makes its next call, or one starts. *)
Inductive pool_step : W * list (program unit) → W * list (program unit) → Prop :=
  | step_call ps ps' X (o : op X) (k : X → program unit) w x w' :
      sem o w x w' → pool_step (w, ps ++ Do o k :: ps') (w', ps ++ k x :: ps' ++ spawned o)
  | step_start ps w p : starts p → pool_step (w, ps) (w, ps ++ [p]).

(** Every goroutine holds a set of its own, and everything open is accounted for. *)
Definition pool_accounted (s : W * list (program unit)) (held : list (gset nat)) : Prop :=
  Forall2 holds s.2 held ∧ apart held ∧ account (⋃ held) s.1.

(** Goroutines that start hold nothing. *)
Lemma pool_more w ps held qs :
  Forall balanced qs → pool_accounted (w, ps) held → pool_accounted (w, ps ++ qs) (held ++ replicate (length qs) ∅).
Proof.
  intros Hq [Hf [Ha Hc]]. cbn in *.
  assert (∀ n, ⋃ (held ++ replicate n ∅) = ⋃ held) as Hu.
  { intros n. rewrite union_list_app_L. induction n as [|n IH]; cbn; [set_solver|]. rewrite <- IH at 2. set_solver. }
  split; [|split]; cbn; [|clear Hf Hc|by rewrite Hu].
  - apply Forall2_app; [done|]. clear -Hq. induction Hq; by constructor.
  - induction (length qs) as [|n IH]; cbn; [by rewrite app_nil_r|]. apply apart_middle. split; [set_solver|done].
Qed.

Hypothesis spawned_balanced : ∀ X (o : op X), Forall balanced (spawned o).
Hypothesis starts_balanced : ∀ p, starts p → balanced p.
(** A call that owns what it needs keeps the account. *)
Hypothesis sem_accounted : ∀ X (o : op X) w x w' mine held,
  sem o w x w' → needs o ⊆ mine → mine ## held → account (mine ∪ held) w →
  possible o x ∧ owns o mine x ## held ∧ account (owns o mine x ∪ held) w'.

Lemma pool_step_accounted s s' held :
  pool_step s s' → pool_accounted s held → ∃ held', pool_accounted s' held'.
Proof.
  intros [ps ps' X o k w x w' Hsem|ps w p Hp] Hs.
  - destruct Hs as [Hf [Ha Hc]]. cbn in *.
    apply Forall2_app_inv_l in Hf as (hs & hs1 & Hf1 & Hf2 & ->).
    apply Forall2_cons_inv_l in Hf2 as (mine & hs2 & [Hn Hk] & Hf2 & ->).
    apply apart_middle in Ha as [Hm Ha]. rewrite union_middle in Hc.
    destruct (sem_accounted X o w x w' mine (⋃ (hs ++ hs2)) Hsem Hn Hm Hc) as (Hx & Hd & Hc').
    exists (hs ++ owns o mine x :: hs2 ++ replicate (length (spawned o)) ∅).
    change (ps ++ k x :: ps' ++ spawned o) with (ps ++ (k x :: ps') ++ spawned o).
    change (owns o mine x :: hs2 ++ ?r) with ((owns o mine x :: hs2) ++ r). rewrite !app_assoc.
    apply pool_more; [apply spawned_balanced|].
    split; [apply Forall2_app; [done|]; constructor; [by apply Hk|done]|].
    cbn. split; [by apply apart_middle|by rewrite union_middle].
  - exists (held ++ replicate (length [p]) ∅). apply pool_more; [|done].
    constructor; [by apply starts_balanced|done].
Qed.

(** From a pool that holds nothing, everything stays accounted for; what is left
    when all have ended is accounted for without them. *)
Lemma pool_run_accounted w0 ps0 w ps :
  Forall balanced ps0 → account ∅ w0 → rtc pool_step (w0, ps0) (w, ps) →
  (∃ held, pool_accounted (w, ps) held) ∧ (Forall (λ p, ∃ a, p = Ret a) ps → account ∅ w).
Proof.
  intros Hps0 Hw0 Hrun.
  assert (∃ held, pool_accounted (w, ps) held) as Hex.
  { assert (∃ held, pool_accounted (w0, ps0) held) as Hs.
    { exists (replicate (length ps0) ∅). apply (pool_more w0 [] [] ps0 Hps0). split; [constructor|]. by split. }
    revert Hs. induction Hrun as [s|s s1 s' Hstep _ IH]; [done|]. intros [held Hs]. apply IH.
    by eapply pool_step_accounted. }
  split; [done|]. intros Hdone. destruct Hex as (held & Hf & _ & Hc). cbn in *.
  assert (⋃ held = ∅) as E; [|by rewrite E in Hc]. clear -Hf Hdone.
  induction Hf as [|p m ps held Hp _ IH]; [done|]. apply Forall_cons in Hdone as [[a ->] Hdone].
  cbn in *. rewrite (IH Hdone). set_solver.
Qed.
End Ownership.

(** Walks through a program that owns nothing between its calls. *)
Ltac balanced_walk db :=
  repeat first
    [ solve [db]
    | match goal with
      | |- balanced _ _ _ (match ?x with _ => _ end) => destruct x
      | |- balanced _ _ _ (let _ := _ in _) => cbv zeta
      | |- balanced _ _ _ (mret _) => apply balanced_ret
      | |- balanced _ _ _ (call _) => apply balanced_call; [reflexivity|intros; reflexivity]
      | |- balanced _ _ _ (_ ≫= _) => apply balanced_bind; [|intros ?]
      | |- balanced _ _ _ ?p => let h := head_of p in unfold h; cbv beta
      end ].
