(* ===== verification/Handler.v ===== *)
(** * The connection handlers as programs (src/server/tunnel/server.go, reverse.go)

    Handlers run while other connections, loops and shutdown change the same
    server, so they are programs over the calls they make on shared components.
    [HandlerRun] gives the calls their meaning. *)

From S2P Require Import Prelude.
From S2P Require Import Programs.
From S2P Require Import GoStd.
From S2P Require Import Netaddr.
From S2P Require Import Protocol.
From S2P Require Import Passutil.
From S2P Require Import CertificateGate.
From S2P Require Import EventRing.
From S2P Require Import LogEntries.
From S2P Require Import ConfigData.
From S2P Require Import EntrySecurity.
From S2P Require Import FailTracker.
From S2P Require Import ServerConfig.
From S2P Require Import Authorization.
From S2P Require Import Server.

#[local] Open Scope Z_scope.

(** ** Calls *)

(** What a handler starts in a goroutine of its own. *)
Inductive worker :=
  | WAccepted (conn : nat) (acceptedAt : Time)
  | WReverseControl (l c : nat)
  | WReverseStream (conn inbound : nat) (release : onceToken string) (requestID : string) (req : OpenRequest).

(** How a wait for a channel, the end of a control, shutdown or a timer ends. *)
Inductive waited := waitReady | waitControlDone | waitCancelled | waitTimeout.

(** Each call with the type of its answer. Connections, listeners and controls
    are numbers. The gate and the TLS handshake answer with their error and the
    first bytes the client had sent. *)
Inductive op : Type → Type :=
  | OpNow : op Time
  | OpCancelled : op bool
  | OpLog (line : string) : op unit
  | OpNextRequestID : op string
  | OpBlockKind (ip : string) : op blockKindT
  | OpPermanentBlockedHit (ip : string) : op unit
  | OpAddFailure (ip : string) : op unit
  | OpAddProtocolFailure (ip : string) : op bool
  | OpCount (c : counter) (n : Z) : op unit
  | OpProtocolRejected (code : string) : op unit
  | OpEvent (e : RuntimeEvent) : op unit
  | OpRequestLog (e : RequestLogEntry) : op unit
  | OpFlowLog (e : FlowTrafficLogEntry) : op unit
  | OpEntryLog (e : EntryTrafficLogEntry) : op unit
  | OpDeadline (conn : nat) (which : deadlineKind) (timeout : option Duration) : op unit
  | OpRead (conn : nat) : op (result OpenRequest)
  | OpWrite (conn : nat) (resp : OpenResponse) : op (result unit)
  | OpClose (conn : nat) : op unit
  | OpKeepAlive (conn : nat) (period : Duration) : op unit
  | OpAcquireConn (ip : string) : op (onceToken string * bool * string)
  | OpConnectionRejected (reason : string) : op unit
  | OpTrackConn (conn : nat) (release : onceToken string) : op bool
  | OpGate (conn : nat) : op (option gateError * chars)
  | OpTLSHandshake (conn : nat) : op (option string * chars)
  | OpPassword (req : OpenRequest) : op (option (string * string * string))
  | OpActiveKey : op (option CredentialPublicKey)
  | OpAcquireStream (username : string) : op (onceToken string * bool)
  | OpReleaseStream (release : onceToken string) : op unit
  | OpDial (target : string) (timeout : Duration) : op (result nat)
  | OpProxy (left right : nat) (rate : Z) : op (Z * Z)
  | OpStartWorker (w : worker) : op bool
  | OpEnsureListener (addr : string) : op (result nat)
  | OpListenerAt (addr : string) : op (option nat)
  | OpListenerAddr (l : nat) : op string
  | OpNewControl (conn : nat) (requestID username clientID forwardName target : string) : op nat
  | OpAddControl (l c : nat) : op bool
  | OpCloseControl (c : nat) : op unit
  | OpRemoveControl (l c : nat) : op unit
  | OpPickControl (l : nat) : op (option nat)
  | OpNewStreamID : op (result string)
  | OpAddPending (l : nat) (streamID : string) (conn : nat) : op bool
  | OpTakePending (l : nat) (streamID : string) : op (option nat)
  | OpClosePending (l : nat) : op unit
  | OpCloseIfIdle (l : nat) : op unit
  | OpSendRequest (c : nat) (streamID : string) (timeout : Duration) : op waited
  | OpAwaitTaken (l : nat) (streamID : string) (c : nat) : op waited.

Abbreviation prog := (Programs.prog op).

(** ** The handlers *)

Section Handlers.
(** The configuration, its users by name, and the configured reverse listeners
    do not change while the server runs. *)
Variable cfg : Config.
Variable users : gmap string UserConfig.
Variable configuredReverse : gset string.

Definition sec : SecurityConfig := cfg_Security cfg.
Definition handshakeTimeout : Duration := seconds (sec_HandshakeTimeoutSec sec).
Definition reverseControlHeartbeatInterval : Duration := 15 * nsecond.
Definition reverseControlReadTimeout : Duration := 45 * nsecond.
Definition reverseControlWriteTimeout : Duration := 5 * nsecond.
Definition errUserStreamLimit : string := "too many concurrent streams for account".
Definition errNetClosed : string := "use of closed network connection".

(** [time.Since(start).Milliseconds()]. *)
Definition millisSince (start : Time) : prog Z :=
  now ← call OpNow; mret (Z.quot (now - start) 1000000).

(** An event about a request; [listenAddr] is left out of some. *)
Definition requestEvent (requestID kind res remoteIP : string) (req : OpenRequest)
    (listenAddr code message : string) (durationMS up down : Z) : RuntimeEvent :=
  mkRuntimeEvent "" requestID kind res remoteIP (rq_Username req) (rq_ClientID req) (rq_ForwardName req)
    (rq_Direction req) (rq_Target req) listenAddr code message durationMS up down.

(** The fields a caller of [flowTrafficEntry] sets afterwards. *)
Definition flow_with (e : FlowTrafficLogEntry) (listenAddr code message : string) (abnormal : bool)
    (durationMS up down : Z) : FlowTrafficLogEntry :=
  mkFlowTrafficLogEntry (ft_Time e) (ft_RequestID e) (ft_Event e) (ft_Kind e) (ft_Result e) (ft_RemoteIP e)
    (ft_Username e) (ft_ClientID e) (ft_ForwardName e) (ft_Direction e) (ft_Target e) listenAddr code message
    abnormal durationMS up down (ft_BytesTotal e) (ft_AverageBytesPerSec e) (ft_RateLimitBytesPerSec e)
    (ft_MaxConcurrentStreamsUser e).

(** ** Rejected connections (entry_security.go) *)

Definition rejectEntryProtocol (conn : nat) (remote localAddr : option string)
    (remoteIP requestID entryCode responseMessage : string) (countAuthFailed : bool) (durationMS : Z) : prog unit :=
  _ ← (if countAuthFailed then call (OpCount authFailed 1) else mret tt);
  _ ← call (OpProtocolRejected entryCode);
  permanentBlockCreated ← call (OpAddProtocolFailure remoteIP);
  _ ← (if permanentBlockCreated : bool then call (OpCount entryPermanentBlocksCreated 1) else mret tt);
  _ ← call (OpEntryLog (mkEntryTrafficLogEntry "" requestID "protocol_rejected" "rejected" (addrString remote)
              remoteIP (addrString localAddr) entryCode responseMessage true durationMS 0 0 permanentBlockCreated));
  if negb (String.eqb responseMessage "")
  then _ ← call (OpWrite conn (response false "bad_request" responseMessage)); mret tt
  else mret tt.

(** ** Reverse control and streams (reverse.go) *)

Definition registerReverseControl (conn : nat) (req : OpenRequest) (user : UserConfig) (requestID : string)
    : prog (result unit) :=
  let listenAddr := TrimSpace (rq_ListenAddr req) in
  if String.eqb listenAddr "" then mret (Err "reverse listen address is required")
  else if String.eqb (TrimSpace (rq_Target req)) "" then mret (Err "reverse target address is required")
  else if negb (isConfiguredReverseListener configuredReverse listenAddr)
  then mret (Err "reverse listen address is not configured on server")
  else match authorizeReverse cfg user listenAddr with
  | Err e => mret (Err e)
  | Ok _ =>
      rl ← call (OpEnsureListener listenAddr);
      match rl with
      | Err e => mret (Err e)
      | Ok rl =>
          control ← call (OpNewControl conn requestID (rq_Username req) (rq_ClientID req)
                            (rq_ForwardName req) (rq_Target req));
          added ← call (OpAddControl rl control);
          if negb added then mret (Err "reverse listen address is already activated")
          else
            _ ← call (OpKeepAlive conn reverseControlHeartbeatInterval);
            _ ← call (OpDeadline conn deadlineBoth None);
            key ← call OpActiveKey;
            written ← call (OpWrite conn (serverVersionResponse
              (mkOpenResponse true "ok" "reverse listen activated" "" "" "" key)));
            match written with
            | Err e =>
                _ ← call (OpCloseControl control); _ ← call (OpRemoveControl rl control); mret (Err e)
            | Ok _ =>
                started ← call (OpStartWorker (WReverseControl rl control));
                if negb started
                then _ ← call (OpCloseControl control); _ ← call (OpRemoveControl rl control);
                     mret (Err errNetClosed)
                else
                  _ ← call (OpEvent (requestEvent requestID "reverse_listen" "activated" "" req listenAddr "ok" ""
                              0 0 0));
                  mret (Ok tt)
            end
      end
  end.

(** How [registerReverseStream] returns: nil, [errUserStreamLimit] or another error. *)
Inductive registration := Registered | LimitReached | Refused (e : string).

Definition registerReverseStream (conn : nat) (req : OpenRequest) (user : UserConfig) (requestID : string)
    : prog registration :=
  let listenAddr := TrimSpace (rq_ListenAddr req) in
  let streamID := TrimSpace (rq_StreamID req) in
  if String.eqb listenAddr "" || String.eqb streamID "" then mret (Refused "reverse stream is invalid")
  else if negb (isConfiguredReverseListener configuredReverse listenAddr)
  then mret (Refused "reverse listen address is not configured on server")
  else match authorizeReverse cfg user listenAddr with
  | Err e => mret (Refused e)
  | Ok _ =>
      rl ← call (OpListenerAt listenAddr);
      match rl with
      | None => mret (Refused "reverse listen is not active")
      | Some rl =>
          inbound ← call (OpTakePending rl streamID);
          match inbound with
          | None => mret (Refused "reverse stream has expired")
          | Some inbound =>
              '(release, ok) ← call (OpAcquireStream (rq_Username req));
              if negb ok
              then _ ← call (OpCount userStreamLimitRejected 1); _ ← call (OpClose inbound);
                   _ ← call (OpCloseIfIdle rl); mret LimitReached
              else
                _ ← call (OpCloseIfIdle rl);
                _ ← call (OpKeepAlive conn reverseControlHeartbeatInterval);
                _ ← call (OpDeadline conn deadlineBoth None);
                written ← call (OpWrite conn (serverVersionResponse (response true "ok" "connected")));
                match written with
                | Err e => _ ← call (OpReleaseStream release); _ ← call (OpClose inbound); mret (Refused e)
                | Ok _ =>
                    started ← call (OpStartWorker (WReverseStream conn inbound release requestID req));
                    if negb started
                    then _ ← call (OpReleaseStream release); _ ← call (OpClose inbound); mret (Refused errNetClosed)
                    else mret Registered
                end
          end
      end
  end.

(** The worker of a reverse stream, with its deferred calls in order. *)
Definition reverseStreamWorker (conn inbound : nat) (remote : option string) (release : onceToken string)
    (requestID : string) (req : OpenRequest) : prog unit :=
  let listenAddr := TrimSpace (rq_ListenAddr req) in
  _ ← call (OpCount totalStreams 1);
  _ ← call (OpCount activeStreams 1);
  started ← call OpNow;
  _ ← call (OpEvent (requestEvent requestID "reverse_stream" "connected" "" req listenAddr "ok" "" 0 0 0));
  '(inboundToClient, clientToInbound) ← call (OpProxy inbound conn (sec_StreamRateLimitBytesPerSec sec));
  durationMS ← millisSince started;
  _ ← call (OpFlowLog (flow_with (flowTrafficEntry requestID "stream_closed" "reverse_stream" "closed"
              (remoteHost remote) req) listenAddr "closed" "" false durationMS inboundToClient clientToInbound));
  _ ← call (OpEvent (requestEvent requestID "reverse_stream" "closed" "" req listenAddr "closed" ""
              durationMS inboundToClient clientToInbound));
  _ ← call (OpCount activeStreams (-1));
  _ ← call (OpClose conn);
  _ ← call (OpClose inbound);
  call (OpReleaseStream release).
(** ** Reverse listeners (reverse.go) *)

Definition expireReversePending (rl : nat) (listenAddr streamID : string) (remote : nat → option string)
    : prog unit :=
  pending ← call (OpTakePending rl streamID);
  match pending with
  | None => mret tt
  | Some pending =>
      cancelled ← call OpCancelled;
      if cancelled : bool then call (OpClose pending)
      else
        let message := "timed out waiting for client stream" in
        _ ← call (OpCount dialFailed 1);
        _ ← call (OpFlowLog (mkFlowTrafficLogEntry "" "" "reverse_inbound_failed" "reverse_inbound" "failed"
                    (remoteHost (remote pending)) "" "" "" "" "" listenAddr "client_stream_timeout" message true
                    0 0 0 0 0 0 0));
        _ ← call (OpEvent (mkRuntimeEvent "" "" "reverse_inbound" "failed" "" "" "" "" "" "" listenAddr
                    "client_stream_timeout" message 0 0 0));
        call (OpClose pending)
  end.

Definition inboundTimeout : Duration :=
  let timeout := seconds (sec_DialTimeoutSec sec) in if timeout <=? 0 then 5 * nsecond else timeout.

(** The handler of a connection to a reverse listener; the deferred block takes
    back and closes what is still waiting. *)
Definition handleReverseInbound (rl inbound : nat) (remote : nat → option string) : prog unit :=
  listenAddr ← call (OpListenerAddr rl);
  control ← call (OpPickControl rl);
  match control with
  | None =>
      let message := "reverse stream has no active client" in
      _ ← call (OpCount dialFailed 1);
      _ ← call (OpFlowLog (mkFlowTrafficLogEntry "" "" "reverse_inbound_failed" "reverse_inbound" "failed"
                  (remoteHost (remote inbound)) "" "" "" "" "" listenAddr "no_active_client" message true
                  0 0 0 0 0 0 0));
      _ ← call (OpEvent (mkRuntimeEvent "" "" "reverse_inbound" "failed" "" "" "" "" "" "" listenAddr
                  "no_active_client" message 0 0 0));
      _ ← call (OpClose inbound);
      call (OpCloseIfIdle rl)
  | Some control =>
      streamID ← call OpNewStreamID;
      match streamID with
      | Err _ => call (OpClose inbound)
      | Ok streamID =>
          added ← call (OpAddPending rl streamID inbound);
          if negb added then call (OpClose inbound)
          else
            sent ← call (OpSendRequest control streamID inboundTimeout);
            _ ← match sent with
                | waitReady =>
                    outcome ← call (OpAwaitTaken rl streamID control);
                    match outcome with
                    | waitTimeout => expireReversePending rl listenAddr streamID remote
                    | _ => mret tt
                    end
                | waitTimeout => expireReversePending rl listenAddr streamID remote
                | _ => mret tt
                end;
            pending ← call (OpTakePending rl streamID);
            _ ← match pending with Some pending => call (OpClose pending) | None => mret tt end;
            call (OpCloseIfIdle rl)
      end
  end.

(** What [errors.Is(err, net.ErrClosed)] and [net.Error.Timeout] say of the error
    of a read. *)
Variables isErrClosed isTimeout : string → bool.

(** The read loop of [runReverseControl]: the code and message it closes with,
    [None] when it has read [fuel] frames without an error. A frame takes at least
    five bytes, so the bytes that can arrive bound the number of rounds. *)
Fixpoint readControl (fuel : nat) (conn : nat) (forwardName : string) : prog (option (string * string)) :=
  match fuel with
  | O => mret None
  | S fuel =>
      _ ← call (OpDeadline conn deadlineRead (Some reverseControlReadTimeout));
      r ← call (OpRead conn);
      match r with
      | Ok _ => readControl fuel conn forwardName
      | Err e =>
          if isErrClosed e then mret (Some ("closed", ""))
          else if isTimeout e then
            _ ← call (OpLog ("reverse control " +:+ forwardName +:+ " heartbeat timeout"));
            mret (Some ("heartbeat_timeout", "reverse control heartbeat timed out"))
          else
            _ ← call (OpLog ("reverse control " +:+ forwardName +:+ " read failed: " +:+ e));
            mret (Some ("control_read_failed", "reverse control connection was interrupted"))
      end
  end.

(** What follows the read loop; the writer goroutine ends with the control. *)
Definition endReverseControl (rl c conn : nat)
    (requestID username clientID forwardName target closeCode closeMessage : string) : prog unit :=
  _ ← call (OpDeadline conn deadlineRead None);
  _ ← call (OpCloseControl c);
  _ ← call (OpRemoveControl rl c);
  _ ← call (OpClosePending rl);
  _ ← call (OpCloseIfIdle rl);
  listenAddr ← call (OpListenerAddr rl);
  call (OpEvent (mkRuntimeEvent "" requestID "reverse_listen" "closed" "" username clientID forwardName "" target
          listenAddr closeCode closeMessage 0 0 0)).

(** [runReverseControl] around its writer goroutine; [false] when the fuel ran out. *)
Definition runReverseControl (fuel : nat) (rl c conn : nat)
    (requestID username clientID forwardName target : string) : prog bool :=
  ended ← readControl fuel conn forwardName;
  match ended with
  | None => mret false
  | Some (closeCode, closeMessage) =>
      _ ← endReverseControl rl c conn requestID username clientID forwardName target closeCode closeMessage;
      mret true
  end.

Definition writeReverseControlResponse (conn : nat) (resp : OpenResponse) : prog (result unit) :=
  _ ← call (OpDeadline conn deadlineWrite (Some reverseControlWriteTimeout));
  r ← call (OpWrite conn (serverVersionResponse resp));
  _ ← call (OpDeadline conn deadlineWrite None);
  mret r.

(** One turn of the writer goroutine: a stream to ask for, or a heartbeat. It
    ends ([false]) when a write fails. *)
Definition controlWriterTurn (c conn : nat) (forwardName : string) (streamID : option string) : prog bool :=
  let '(resp, what) :=
    match streamID with
    | Some id => (mkOpenResponse true "reverse_connect" "open reverse stream" "" "" id None, " write failed: ")
    | None => (response true "reverse_ping" "keepalive", " heartbeat failed: ")
    end in
  written ← writeReverseControlResponse conn resp;
  match written with
  | Ok _ => mret true
  | Err e =>
      _ ← call (OpLog ("reverse control " +:+ forwardName +:+ what +:+ e));
      _ ← call (OpCloseControl c);
      mret false
  end.

(** ** The handler of a connection (server.go) *)

(** What [handleConn] comes to: whether its deferred call closes the connection,
    or the panic of a key without a private part. *)
Inductive handled := Handled (closeConn : bool) | Panicked.

#[export] Instance handled_eq_dec : EqDecision handled.
Proof. solve_decision. Defined.

Section Connection.
Variables (conn : nat) (remote localAddr : option string).

Definition remoteIP : string := remoteHost remote.

(** The closure [recordRequest]; no caller passes it a read error. *)
Definition recordRequest (requestID : string) (requestStarted : Time) (req : OpenRequest)
    (res authResult : string) (resp : OpenResponse) : prog unit :=
  durationMS ← millisSince requestStarted;
  call (OpRequestLog (mkRequestLogEntry "" requestID (default "" remote) remoteIP (default "" localAddr) req ""
          authResult resp res durationMS)).

(** The request is answered with [resp], after it is recorded. *)
Definition answer (requestID : string) (requestStarted : Time) (req : OpenRequest)
    (res authResult : string) (resp : OpenResponse) : prog handled :=
  _ ← recordRequest requestID requestStarted req res authResult resp;
  _ ← call (OpWrite conn resp);
  mret (Handled true).

Definition event_of (requestID kind res : string) (req : OpenRequest) (code message : string) : prog unit :=
  call (OpEvent (requestEvent requestID kind res remoteIP req (rq_ListenAddr req) code message 0 0 0)).
(** Events of opened streams leave out the listen address. *)
Definition open_event (requestID res : string) (req : OpenRequest) (code message : string)
    (durationMS up down : Z) : prog unit :=
  call (OpEvent (requestEvent requestID "open" res remoteIP req "" code message durationMS up down)).

Definition flow_failed (requestID event kind res code message : string) (req : OpenRequest) : prog unit :=
  call (OpFlowLog (flow_with (flowTrafficEntry requestID event kind res remoteIP req) (rq_ListenAddr req)
          code message true 0 0 0)).

Definition handleTemporaryBlock (requestID : string) (requestStarted : Time) : prog handled :=
  _ ← call (OpDeadline conn deadlineBoth (Some handshakeTimeout));
  _ ← call (OpRead conn);
  _ ← call (OpDeadline conn deadlineWrite (Some handshakeTimeout));
  let resp := response false "auth_blocked" "too many login failures, temporarily blocked; try later" in
  _ ← call (OpEvent (mkRuntimeEvent "" requestID "auth" "blocked" remoteIP "" "" "" "" "" "" "auth_blocked"
              "too many login failures" 0 0 0));
  answer requestID requestStarted emptyRequest "blocked" "blocked" resp.

Definition handleAuthFailure (requestID : string) (requestStarted : Time) (req : OpenRequest)
    (authCode authMessage : string) : prog handled :=
  _ ← call (OpCount authFailed 1);
  _ ← call (OpAddFailure remoteIP);
  kind ← call (OpBlockKind remoteIP);
  let temporarilyBlocked := bool_decide (kind = blockedTemporary) in
  let '(authCode, authMessage) :=
    if temporarilyBlocked then ("auth_blocked", "too many login failures, temporarily blocked; try later")
    else if String.eqb authCode "" then ("auth_failed", "username or password is incorrect")
    else (authCode, authMessage) in
  let res := if temporarilyBlocked then "blocked" else "failed" in
  _ ← event_of requestID "auth" res req authCode authMessage;
  answer requestID requestStarted req res res (response false authCode authMessage).

Definition handleOpen (requestID : string) (requestStarted : Time) (req : OpenRequest) (user : UserConfig)
    : prog handled :=
  match authorizeOpen cfg user req with
  | Err e =>
      _ ← call (OpCount policyRejected 1);
      _ ← open_event requestID "denied" req "target_denied" e 0 0 0;
      answer requestID requestStarted req "denied" "ok" (response false "target_denied" e)
  | Ok _ =>
      '(release, ok) ← call (OpAcquireStream (rq_Username req));
      if negb ok then
        _ ← call (OpCount userStreamLimitRejected 1);
        _ ← flow_failed requestID "stream_rejected" "open" "rejected" "user_stream_limit" errUserStreamLimit req;
        _ ← open_event requestID "denied" req "user_stream_limit" errUserStreamLimit 0 0 0;
        answer requestID requestStarted req "denied" "ok" (response false "user_stream_limit" errUserStreamLimit)
      else
        let done h := _ ← call (OpReleaseStream release); mret h in
        target ← call (OpDial (rq_Target req) (seconds (sec_DialTimeoutSec sec)));
        match target with
        | Err _ =>
            cancelled ← call OpCancelled;
            if cancelled : bool then done (Handled true)
            else
              let message := "target service is unreachable" in
              _ ← call (OpCount dialFailed 1);
              _ ← flow_failed requestID "stream_failed" "open" "failed" "target_unreachable" message req;
              _ ← open_event requestID "failed" req "target_unreachable" message 0 0 0;
              h ← answer requestID requestStarted req "failed" "ok" (response false "target_unreachable" message);
              done h
        | Ok targetConn =>
            let finish := _ ← call (OpClose targetConn); done (Handled true) in
            key ← call OpActiveKey;
            let resp := serverVersionResponse (mkOpenResponse true "ok" "connected" "" "" "" key) in
            _ ← recordRequest requestID requestStarted req "ok" "ok" resp;
            written ← call (OpWrite conn resp);
            match written with
            | Err _ => finish
            | Ok _ =>
                _ ← call (OpDeadline conn deadlineBoth None);
                _ ← call (OpCount totalStreams 1);
                _ ← call (OpCount activeStreams 1);
                started ← call OpNow;
                _ ← open_event requestID "connected" req "ok" "" 0 0 0;
                '(targetToClient, clientToTarget) ←
                  call (OpProxy targetConn conn (sec_StreamRateLimitBytesPerSec sec));
                durationMS ← millisSince started;
                _ ← call (OpFlowLog (flow_with (flowTrafficEntry requestID "stream_closed" "open" "closed" remoteIP req)
                            (rq_ListenAddr req) "closed" "" false durationMS clientToTarget targetToClient));
                _ ← open_event requestID "closed" req "closed" "" durationMS clientToTarget targetToClient;
                _ ← call (OpCount activeStreams (-1));
                finish
            end
        end
  end.

Definition handleReverse (requestID : string) (requestStarted : Time) (req : OpenRequest) (user : UserConfig)
    : prog handled :=
  registered ← registerReverseControl conn req user requestID;
  match registered with
  | Err e =>
      _ ← call (OpCount policyRejected 1);
      _ ← event_of requestID "reverse_listen" "failed" req "reverse_failed" e;
      answer requestID requestStarted req "failed" "ok" (response false "reverse_failed" e)
  | Ok _ =>
      key ← call OpActiveKey;
      _ ← recordRequest requestID requestStarted req "ok" "ok" (serverVersionResponse
            (mkOpenResponse true "ok" "reverse listen activated" "" "" "" key));
      mret (Handled false)
  end.

Definition handleReverseStream (requestID : string) (requestStarted : Time) (req : OpenRequest)
    (user : UserConfig) : prog handled :=
  registered ← registerReverseStream conn req user requestID;
  let failed code e :=
    _ ← flow_failed requestID "stream_failed" "reverse_stream" "failed" code e req;
    _ ← event_of requestID "reverse_stream" "failed" req code e;
    answer requestID requestStarted req "failed" "ok" (response false code e) in
  match registered with
  | LimitReached => failed "user_stream_limit" errUserStreamLimit
  | Refused e => _ ← call (OpCount dialFailed 1); failed "reverse_failed" e
  | Registered =>
      _ ← recordRequest requestID requestStarted req "ok" "ok"
            (serverVersionResponse (response true "ok" "connected"));
      mret (Handled false)
  end.

(** What an authenticated request is answered with. *)
Definition handleAuthenticated (requestID : string) (requestStarted : Time) (req : OpenRequest)
    (user : UserConfig) : prog handled :=
  let ok message := serverVersionResponse (response true "ok" message) in
  if String.eqb (rq_Type req) "health"
  then answer requestID requestStarted req "ok" "ok" (ok "server healthy")
  else if String.eqb (rq_Type req) "forward_check" then
    match authorizeForwardCheck cfg configuredReverse user req with
    | Err e => answer requestID requestStarted req "denied" "ok" (response false "target_denied" e)
    | Ok _ => answer requestID requestStarted req "ok" "ok" (ok "forward allowed")
    end
  else
    _ ← call (OpCount authOK 1);
    if String.eqb (rq_Type req) "login" then
      key ← call OpActiveKey;
      _ ← call (OpEvent (mkRuntimeEvent "" requestID "login" "ok" remoteIP (rq_Username req) (rq_ClientID req)
                  "" "" "" "" "ok" "" 0 0 0));
      answer requestID requestStarted req "ok" "ok"
        (serverVersionResponse (mkOpenResponse true "ok" "login verified" "" "" "" key))
    else if String.eqb (rq_Type req) "reverse" || String.eqb (rq_Type req) "reverse_listen"
    then handleReverse requestID requestStarted req user
    else if String.eqb (rq_Type req) "reverse_stream"
    then handleReverseStream requestID requestStarted req user
    else handleOpen requestID requestStarted req user.

Definition requestTypes : list string :=
  ["open"; "login"; "health"; "forward_check"; "reverse"; "reverse_listen"; "reverse_stream"].

(** The request was read: it is refused, or the user is authenticated. *)
Definition handleRequest (requestID : string) (requestStarted : Time) (req : OpenRequest) : prog handled :=
  if bool_decide (rq_Type req ∉ requestTypes) then
    durationMS ← millisSince requestStarted;
    _ ← rejectEntryProtocol conn remote localAddr remoteIP requestID entryCodeUnsupportedRequest
          "unsupported request" false durationMS;
    mret (Handled true)
  else match checkRequestCompatibility cfg req with
  | Some resp =>
      _ ← event_of requestID "compatibility" "rejected" req (rs_Code resp) (rs_Message resp);
      answer requestID requestStarted req "rejected" "not_attempted" resp
  | None =>
      found ← call (OpPassword req);
      match found with
      | None => mret Panicked
      | Some (password, authCode, authMessage) =>
          match users !! rq_Username req with
          | Some user =>
              if us_Disabled user || negb (String.eqb authCode "")
                 || negb (VerifyPassword password (us_PasswordHash user))
              then handleAuthFailure requestID requestStarted req authCode authMessage
              else handleAuthenticated requestID requestStarted req user
          | None => handleAuthFailure requestID requestStarted req authCode authMessage
          end
      end
  end.

Definition handleRequests (requestID : string) (requestStarted : Time) : prog handled :=
  kind ← call (OpBlockKind remoteIP);
  match kind with
  | blockedPermanent => _ ← call (OpPermanentBlockedHit remoteIP); mret (Handled true)
  | blockedTemporary => handleTemporaryBlock requestID requestStarted
  | blockedNone =>
      _ ← call (OpDeadline conn deadlineBoth (Some handshakeTimeout));
      r ← call (OpRead conn);
      match r with
      | Err e =>
          cancelled ← call OpCancelled;
          if cancelled : bool then mret (Handled true)
          else
            durationMS ← millisSince requestStarted;
            _ ← rejectEntryProtocol conn remote localAddr remoteIP requestID (classifyEntryReadError (Some e))
                  "invalid tunnel request" true durationMS;
            mret (Handled true)
      | Ok req => handleRequest requestID requestStarted req
      end
  end.

(** The deferred close runs on a panic too. *)
Definition handleConn : prog handled :=
  requestID ← call OpNextRequestID;
  requestStarted ← call OpNow;
  h ← handleRequests requestID requestStarted;
  match h with
  | Handled false => mret h
  | _ => _ ← call (OpClose conn); mret h
  end.

(** A connection the accept loop gave to a worker. *)
Definition handleAcceptedConn (acceptedAt : Time) : prog handled :=
  let reject code :=
    cancelled ← call OpCancelled;
    if cancelled : bool then _ ← call (OpClose conn); mret (Handled true)
    else
      durationMS ← millisSince acceptedAt;
      _ ← rejectEntryProtocol conn remote localAddr remoteIP "" code "" true durationMS;
      _ ← call (OpClose conn);
      mret (Handled true) in
  _ ← call (OpDeadline conn deadlineBoth (Some handshakeTimeout));
  '(gate, prefix) ← call (OpGate conn);
  match gate with
  | Some e => reject (classifyEntryCertificateGateError (Some e) prefix)
  | None =>
      '(err, prefix) ← call (OpTLSHandshake conn);
      match err with
      | Some e => reject (classifyEntryHandshakeError (Some e) prefix)
      | None => handleConn
      end
  end.

(** One turn of [acceptLoop] for an accepted connection: whether the loop goes on. *)
Definition acceptConn : prog bool :=
  kind ← call (OpBlockKind remoteIP);
  if bool_decide (kind = blockedPermanent)
  then _ ← call (OpPermanentBlockedHit remoteIP); _ ← call (OpClose conn); mret true
  else
    '(release, ok, reason) ← call (OpAcquireConn remoteIP);
    if negb ok then
      _ ← call (OpConnectionRejected reason);
      let '(limit, windowSec) := connectionRejectLimit sec reason in
      _ ← call (OpEntryLog (mkEntryTrafficLogEntry "" "" "connection_rejected" "rejected" (addrString remote)
                  remoteIP (addrString localAddr) reason "entry connection limit reached" true 0 limit windowSec
                  false));
      _ ← call (OpClose conn);
      mret true
    else
      acceptedAt ← call OpNow;
      tracked ← call (OpTrackConn conn release);
      if negb tracked then mret false
      else
        started ← call (OpStartWorker (WAccepted conn acceptedAt));
        if negb started then _ ← call (OpClose conn); mret false
        else mret true.
End Connection.
End Handlers.
