(* ===== verification/HandlerTraces.v ===== *)
(** * What every run of a handler does

    The traces of a program are the calls it can make with any answers. What is
    proved here about all traces of [handleConn] holds whatever the network, the
    clock and the other goroutines of the server do. *)

From S2P Require Import Prelude.
From S2P Require Import Programs.
From S2P Require Import GoStd.
From S2P Require Import Netaddr.
From S2P Require Import Protocol.
From S2P Require Import Passutil.
From S2P Require Import CertificateGate.
From S2P Require Import EventRing.
From S2P Require Import LogEntries.
From S2P Require Import ConfigData.
From S2P Require Import EntrySecurity.
From S2P Require Import FailTracker.
From S2P Require Import ServerConfig.
From S2P Require Import Authorization.
From S2P Require Import Server.
From S2P Require Import Handler.

#[local] Open Scope Z_scope.

Abbreviation done_call := (Programs.done_call op).

(** ** What a call was *)

Definition dialled (c : done_call) : option string :=
  match c with @Called _ X o x => match o with OpDial target _ => Some target | _ => None end end.

Definition was_read (c : done_call) : option OpenRequest :=
  match c with
  | @Called _ X o x =>
      match o in op X return X → option OpenRequest with
      | OpRead _ => λ r, match r with Ok req => Some req | Err _ => None end
      | _ => λ _, None
      end x
  end.

Definition found_password (c : done_call) : option (OpenRequest * (string * string * string)) :=
  match c with
  | @Called _ X o x =>
      match o in op X return X → option (OpenRequest * (string * string * string)) with
      | OpPassword req => λ r, pair req <$> r
      | _ => λ _, None
      end x
  end.

Definition block_seen (c : done_call) : option blockKindT :=
  match c with
  | @Called _ X o x =>
      match o in op X return X → option blockKindT with OpBlockKind _ => λ k, Some k | _ => λ _, None end x
  end.

Definition logged (c : done_call) : option RequestLogEntry :=
  match c with @Called _ X o x => match o with OpRequestLog e => Some e | _ => None end end.

Definition response_to (conn : nat) (c : done_call) : option OpenResponse :=
  match c with
  | @Called _ X o x => match o with OpWrite c' resp => if decide (c' = conn) then Some resp else None | _ => None end
  end.

Definition granted (c : done_call) : option (onceToken string) :=
  match c with
  | @Called _ X o x =>
      match o in op X return X → option (onceToken string) with
      | OpAcquireStream _ => λ r, if r.2 : bool then Some r.1 else None
      | _ => λ _, None
      end x
  end.

Definition released (c : done_call) : option (onceToken string) :=
  match c with @Called _ X o x => match o with OpReleaseStream t => Some t | _ => None end end.

(** The worker a call started. *)
Definition started (c : done_call) : option worker :=
  match c with
  | @Called _ X o x =>
      match o in op X return X → option worker with
      | OpStartWorker w => λ ok : bool, if ok then Some w else None
      | _ => λ _, None
      end x
  end.

Definition slot_of (w : worker) : option (onceToken string) :=
  match w with WReverseStream _ _ release _ _ => Some release | _ => None end.

Definition closes (conn : nat) (c : done_call) : bool :=
  match c with @Called _ X o x => match o with OpClose c' => bool_decide (c' = conn) | _ => false end end.

Definition counted (which : counter) (c : done_call) : Z :=
  match c with @Called _ X o x => match o with OpCount c' n => if decide (c' = which) then n else 0 | _ => 0 end end.
Definition total (which : counter) (t : list done_call) : Z := foldr (λ c z, counted which c + z) 0 t.

(** A failure counted against the address of the connection. *)
Definition blamed (c : done_call) : option string :=
  match c with
  | @Called _ X o x => match o with OpAddFailure ip | OpAddProtocolFailure ip => Some ip | _ => None end
  end.

(** The target connection a dial gave, the waiting connection a stream took, the
    control made for [conn]. *)
Definition dialled_conn (c : done_call) : option nat :=
  match c with
  | @Called _ X o x =>
      match o in op X return X → option nat with
      | OpDial _ _ => λ r, match r with Ok n => Some n | Err _ => None end
      | _ => λ _, None
      end x
  end.
Definition taken_conn (c : done_call) : option nat :=
  match c with
  | @Called _ X o x =>
      match o in op X return X → option nat with OpTakePending _ _ => λ r, r | _ => λ _, None end x
  end.
Definition control_for (conn : nat) (c : done_call) : option nat :=
  match c with
  | @Called _ X o x =>
      match o in op X return X → option nat with
      | OpNewControl c' _ _ _ _ _ => λ n, if decide (c' = conn) then Some n else None
      | _ => λ _, None
      end x
  end.

(** What the gate and the TLS handshake came to; a lease of the connection limiter;
    whether the connection was tracked with it. *)
Definition gate_answer (c : done_call) : option (option gateError) :=
  match c with
  | @Called _ X o x =>
      match o in op X return X → option (option gateError) with OpGate _ => λ r, Some r.1 | _ => λ _, None end x
  end.
Definition tls_answer (c : done_call) : option (option string) :=
  match c with
  | @Called _ X o x =>
      match o in op X return X → option (option string) with
      | OpTLSHandshake _ => λ r, Some r.1
      | _ => λ _, None
      end x
  end.
Definition lease (c : done_call) : option (onceToken string) :=
  match c with
  | @Called _ X o x =>
      match o in op X return X → option (onceToken string) with
      | OpAcquireConn _ => λ r, if r.1.2 : bool then Some r.1.1 else None
      | _ => λ _, None
      end x
  end.
Definition tracked (conn : nat) (c : done_call) : option (onceToken string * bool) :=
  match c with
  | @Called _ X o x =>
      match o in op X return X → option (onceToken string * bool) with
      | OpTrackConn n release => λ ok, if decide (n = conn) then Some (release, ok) else None
      | _ => λ _, None
      end x
  end.
Definition cancelled (c : done_call) : option bool :=
  match c with
  | @Called _ X o x =>
      match o in op X return X → option bool with OpCancelled => λ b, Some b | _ => λ _, None end x
  end.
Definition entry_logged (c : done_call) : option EntryTrafficLogEntry :=
  match c with @Called _ X o x => match o with OpEntryLog e => Some e | _ => None end end.
Definition hit_of (c : done_call) : option string :=
  match c with @Called _ X o x => match o with OpPermanentBlockedHit ip => Some ip | _ => None end end.

(** A call that sets a deadline on both directions of [conn] ([None] clears it),
    and one that may wait for its peer. *)
Definition deadline_set (conn : nat) (c : done_call) : option (option Duration) :=
  match c with
  | @Called _ X o x =>
      match o with OpDeadline c' deadlineBoth d => if decide (c' = conn) then Some d else None | _ => None end
  end.
Definition waits_for (conn : nat) (c : done_call) : bool :=
  match c with
  | @Called _ X o x => match o with OpRead c' | OpWrite c' _ => bool_decide (c' = conn) | _ => false end
  end.

(** Until a password is looked for, each call that waits for the peer is under
    the deadline [d]; [set] is the deadline before the trace. *)
Fixpoint under_deadline (conn : nat) (d : Duration) (set : option Duration) (t : list done_call) : bool :=
  match t with
  | [] => true
  | c :: t =>
      if bool_decide (is_Some (found_password c)) then true
      else (negb (waits_for conn c) || bool_decide (set = Some d)) &&
           under_deadline conn d (default set (deadline_set conn c)) t
  end.

Section Runs.
Variable cfg : Config.
Variable users : gmap string UserConfig.
Variable configuredReverse : gset string.
Variables (conn : nat) (remote localAddr : option string).

Definition conn_program : prog handled := handleConn cfg users configuredReverse conn remote localAddr.


(** ** Access needs authentication *)

(** The run read one request, when the address was not blocked; the request is
    compatible, and the password found for it is the one of an enabled user. *)
Definition authenticated (t : list done_call) (req : OpenRequest) (user : UserConfig) : Prop :=
  omap was_read t = [req] ∧ omap block_seen t = [blockedNone] ∧ rq_Type req ∈ requestTypes ∧
  checkRequestCompatibility cfg req = None ∧ users !! rq_Username req = Some user ∧ us_Disabled user = false ∧
  ∃ password message, omap found_password t = [(req, (password, "", message))] ∧
                      VerifyPassword password (us_PasswordHash user) = true.

Definition access_ok (t : list done_call) : Prop :=
  (∀ target, target ∈ omap dialled t → ∃ req user, authenticated t req user ∧ rq_Type req = "open" ∧
     authorizeOpen cfg user req = Ok tt ∧ target = rq_Target req ∧ length (omap granted t) = 1%nat) ∧
  (∀ w, w ∈ omap started t → ∃ req user, authenticated t req user ∧
     isConfiguredReverseListener configuredReverse (TrimSpace (rq_ListenAddr req)) = true ∧
     authorizeReverse cfg user (TrimSpace (rq_ListenAddr req)) = Ok tt).

(** What the branches taken say. *)
Ltac branches :=
  repeat match goal with
  | u : unit |- _ => destruct u
  | H : negb _ = true |- _ => apply negb_true_iff in H
  | H : negb _ = false |- _ => apply negb_false_iff in H
  | H : _ || _ = false |- _ => apply orb_false_iff in H as [? ?]
  | H : bool_decide (_ ∉ _) = false |- _ => apply bool_decide_eq_false, dec_stable in H
  | H : (_ =? _)%string = true |- _ => apply String.eqb_eq in H
  | H : (_ =? _)%string = false |- _ => apply String.eqb_neq in H
  end; simplify_eq.

Lemma auth_intro t req user password authCode message :
  omap was_read t = [req] → omap block_seen t = [blockedNone] → rq_Type req ∈ requestTypes →
  checkRequestCompatibility cfg req = None → users !! rq_Username req = Some user →
  us_Disabled user = false → omap found_password t = [(req, (password, authCode, message))] → authCode = "" →
  VerifyPassword password (us_PasswordHash user) = true → authenticated t req user.
Proof. intros ??????? -> ?. split_and!; eauto. Qed.

Lemma other_type req :
  rq_Type req ∈ requestTypes → rq_Type req ≠ "health" → rq_Type req ≠ "forward_check" → rq_Type req ≠ "login" →
  rq_Type req ≠ "reverse" → rq_Type req ≠ "reverse_listen" → rq_Type req ≠ "reverse_stream" → rq_Type req = "open".
Proof. unfold requestTypes. rewrite !elem_of_cons. pose proof (not_elem_of_nil (rq_Type req)). tauto. Qed.

(** ** The other facts *)

(** The same answer, whatever credential key is sent with it. *)
Definition same_answer (r r' : OpenResponse) : Prop :=
  rs_OK r = rs_OK r' ∧ rs_Code r = rs_Code r' ∧ rs_Message r = rs_Message r' ∧ rs_ServerVersion r = rs_ServerVersion r'.

Definition recorded_ok (t : list done_call) : Prop :=
  match omap logged t with
  | [] => omap (response_to conn) t = [] ∨
          ∃ m, omap (response_to conn) t = [response false "bad_request" m]
  | [e] => ∃ earlier resp, omap (response_to conn) t = earlier ++ [resp] ∧ same_answer resp (rl_Response e) ∧
             (rs_OK resp = true → earlier = []) ∧ rl_RemoteIP e = remoteIP remote ∧
             (hd blockedNone (omap block_seen t) = blockedNone → omap was_read t = [rl_Request e])
  | _ => False
  end.

Definition slots_ok (t : list done_call) : Prop :=
  omap granted t = omap released t ++ omap slot_of (omap started t) ∧
  (length (omap granted t) ≤ 1)%nat ∧ total activeStreams t = 0.

Definition owns (t : list done_call) (w : worker) : Prop :=
  match w with
  | WAccepted _ _ => False
  | WReverseControl _ c => c ∈ omap (control_for conn) t
  | WReverseStream c inbound _ _ _ => c = conn ∧ inbound ∈ omap taken_conn t
  end.

Definition conns_ok (t : list done_call) (h : handled) : Prop :=
  match h with
  | Handled false => ∃ w, omap started t = [w] ∧ owns t w
  | _ => omap started t = [] ∧ last t = Some (Called (OpClose conn) tt)
  end ∧
  (∀ n, n ∈ omap dialled_conn t → existsb (closes n) t = true) ∧
  (∀ n, n ∈ omap taken_conn t → h = Handled false ∨ existsb (closes n) t = true).

(** Whether the run counts a successful login. *)
Definition counts_login (req : OpenRequest) : bool :=
  bool_decide (rq_Type req ∉ ["health"; "forward_check"]).

Definition good_login (req : OpenRequest) (password authCode : string) : bool :=
  match users !! rq_Username req with
  | Some user => negb (us_Disabled user || negb (String.eqb authCode "")
                       || negb (VerifyPassword password (us_PasswordHash user)))
  | None => false
  end.

Definition accounts_ok (t : list done_call) : Prop :=
  match omap found_password t with
  | [(req, (password, authCode, _))] =>
      if good_login req password authCode
      then total authOK t = (if counts_login req then 1 else 0) ∧ total authFailed t = 0 ∧ omap blamed t = []
      else total authOK t = 0 ∧ total authFailed t = 1 ∧ omap blamed t = [remoteIP remote] ∧
           omap granted t = [] ∧ omap started t = []
  | _ => total authOK t = 0 ∧ omap granted t = [] ∧ omap started t = []
  end.

Lemma access_none t : omap dialled t = [] → omap started t = [] → access_ok t.
Proof. unfold access_ok. intros -> ->. split; by intros ? []%not_elem_of_nil. Qed.

Lemma access_dial t req user :
  omap dialled t = [rq_Target req] → omap started t = [] → authenticated t req user → rq_Type req = "open" →
  authorizeOpen cfg user req = Ok tt → length (omap granted t) = 1%nat → access_ok t.
Proof.
  unfold access_ok. intros -> -> Ha ???. split; [|by intros ? []%not_elem_of_nil].
  intros target ->%list_elem_of_singleton. by exists req, user.
Qed.

Lemma access_start t w req user :
  omap dialled t = [] → omap started t = [w] → authenticated t req user →
  isConfiguredReverseListener configuredReverse (TrimSpace (rq_ListenAddr req)) = true →
  authorizeReverse cfg user (TrimSpace (rq_ListenAddr req)) = Ok tt → access_ok t.
Proof.
  unfold access_ok. intros -> -> Ha ??. split; [by intros ? []%not_elem_of_nil|].
  intros w' ->%list_elem_of_singleton. by exists req, user.
Qed.

Lemma accounts_none t :
  omap found_password t = [] → total authOK t = 0 → omap granted t = [] → omap started t = [] → accounts_ok t.
Proof. unfold accounts_ok. by intros ->. Qed.

Lemma accounts_good t req user password message :
  omap found_password t = [(req, (password, "", message))] → users !! rq_Username req = Some user →
  us_Disabled user = false → VerifyPassword password (us_PasswordHash user) = true →
  total authOK t = (if counts_login req then 1 else 0) → total authFailed t = 0 → omap blamed t = [] →
  accounts_ok t.
Proof. unfold accounts_ok, good_login. intros -> -> -> ->. done. Qed.

Lemma accounts_bad t req password authCode message :
  omap found_password t = [(req, (password, authCode, message))] → good_login req password authCode = false →
  total authOK t = 0 → total authFailed t = 1 → omap blamed t = [remoteIP remote] → omap granted t = [] →
  omap started t = [] → accounts_ok t.
Proof. unfold accounts_ok. intros -> ->. done. Qed.

Lemma counts_other req : rq_Type req ≠ "health" → rq_Type req ≠ "forward_check" → counts_login req = true.
Proof.
  intros. apply bool_decide_eq_true. rewrite !elem_of_cons. pose proof (not_elem_of_nil (rq_Type req)). tauto.
Qed.
Lemma counts_probe req : rq_Type req = "health" ∨ rq_Type req = "forward_check" → counts_login req = false.
Proof. intros. apply bool_decide_eq_false. rewrite !elem_of_cons. tauto. Qed.

Definition run_ok (t : list done_call) (h : handled) : Prop :=
  access_ok t ∧ recorded_ok t ∧ slots_ok t ∧ conns_ok t h ∧
  under_deadline conn (handshakeTimeout cfg) None t = true ∧ accounts_ok t ∧
  omap gate_answer t = [] ∧ omap tls_answer t = [].

(** Computes what the calls of a leaf were. *)
Ltac observe := unfold omap, list_omap; cbn; rewrite ?decide_True by done; cbn.

Ltac authenticated_leaf := eapply auth_intro; (eassumption || reflexivity).
Ltac access_leaf :=
  first [by apply access_none
        |eapply access_dial; [reflexivity..|authenticated_leaf|by apply other_type|done|reflexivity]
        |eapply access_start; [reflexivity..|authenticated_leaf|done|done]].

Ltac recorded_leaf :=
  unfold recorded_ok; observe;
  first [by left|right; by eexists
        |exists []; eexists; split; [reflexivity|]; by split_and!
        |eexists [_], _; split; [reflexivity|]; by split_and!].

Ltac slots_leaf := unfold slots_ok; observe; split_and!; (reflexivity || (cbn; lia)).

Ltac conns_leaf :=
  unfold conns_ok, owns; observe;
  split_and!; try reflexivity; try (by intros ? []%not_elem_of_nil); try (by left);
  try (eexists; split; [reflexivity|]; cbn; rewrite ?list_elem_of_singleton; by split_and?);
  intros ? ->%list_elem_of_singleton; rewrite bool_decide_true by done; by try right.

Ltac accounts_leaf :=
  first [by apply accounts_none
        |eapply accounts_good; [reflexivity|eassumption..| | |];
           [first [by rewrite counts_other|rewrite counts_probe by auto; reflexivity]|reflexivity..]
        |eapply accounts_bad; [reflexivity| |reflexivity..]; unfold good_login;
           repeat match goal with H : _ = _ |- _ => rewrite H; clear H end; done].

Lemma handler_runs : always conn_program run_ok.
Proof.
  walk. all: branches. all: split; [|split; [|split; [|split; [|split; [|split]]]]].
  all: try match goal with |- access_ok _ => access_leaf end.
  all: try match goal with |- recorded_ok _ => recorded_leaf end.
  all: try match goal with |- slots_ok _ => slots_leaf end.
  all: try match goal with |- conns_ok _ _ => conns_leaf end.
  all: try match goal with |- accounts_ok _ => accounts_leaf end.
  all: try (split; reflexivity).
  all: cbn; rewrite ?decide_True, ?bool_decide_true by done; reflexivity.
Qed.

Ltac from_runs := eapply always_impl; [|exact handler_runs]; intros t h; unfold run_ok; tauto.

(** C1: In every run of the handler of a connection, under every behaviour of the
    network and of the rest of the server: a target is dialled only for one
    compatible "open" request of an enabled user whose password was verified, from
    an address that was not blocked, that is authorised for exactly that target
    and holds a stream slot; and a worker takes over the connection only for such
    a user, for a configured reverse listener the user is authorised for. *)
Theorem access_authenticated : always conn_program (λ t _, access_ok t).
Proof. from_runs. Qed.

(** In every run, at most one request is recorded, with the address and the
    request it is about; the last response the client is sent is the recorded one
    (up to the credential key), a recorded success is the only response, and a run
    that records nothing sends nothing but "bad_request". *)
Theorem answers_recorded : always conn_program (λ t _, recorded_ok t).
Proof. from_runs. Qed.

(** In every run, everything read from or written to the client before its
    password is looked for happens under the handshake deadline. *)
Theorem handshake_under_deadline :
  always conn_program (λ t _, under_deadline conn (handshakeTimeout cfg) None t = true).
Proof. from_runs. Qed.

(** C13: In every run in which a password was looked for, the login is good exactly
    when the user exists, is enabled and the password verifies; a good login is
    counted once, unless the request is a health or forward check, and never
    blamed on the address; a bad one counts one failure and one entry against the
    address, and gets no stream and no worker. *)
Theorem logins_accounted : always conn_program (λ t _, accounts_ok t).
Proof. from_runs. Qed.

(** *** Admission *)

(** A connection that fails the gate or the handshake: nothing was read as a
    request or sent, and it is closed, after one failure of its address unless the
    server was shutting down. *)
Definition turned_away (t : list done_call) : Prop :=
  omap was_read t = [] ∧ omap found_password t = [] ∧ omap started t = [] ∧ omap dialled t = [] ∧
  omap (response_to conn) t = [] ∧ last t = Some (Called (OpClose conn) tt) ∧
  (omap cancelled t = [true] ∧ omap blamed t = [] ∨
   omap cancelled t = [false] ∧ omap blamed t = [remoteIP remote] ∧ total authFailed t = 1 ∧
   ∃ e, omap entry_logged t = [e]).

(** An accepted connection first has to pass the certificate gate, under the
    handshake deadline, and then the TLS handshake; one that fails either is turned
    away, with one entry record and one failure of its address. *)
Theorem gate_first acceptedAt :
  always (handleAcceptedConn cfg users configuredReverse conn remote localAddr acceptedAt) (λ t _,
    (∃ gate rest, t = Called (OpDeadline conn deadlineBoth (Some (handshakeTimeout cfg))) tt ::
                      Called (OpGate conn) gate :: rest) ∧
    match omap gate_answer t, omap tls_answer t with
    | [None], [None] => True
    | [Some _], [] | [None], [Some _] => turned_away t
    | _, _ => False
    end).
Proof.
  unfold handleAcceptedConn. apply always_do; intros []. apply always_do; intros [gate prefix]. cbv zeta.
  destruct gate as [e|]; [|apply always_do; intros [[e|] prefix']].
  3: { eapply always_impl; [|exact handler_runs]. intros t h (_ & _ & _ & _ & _ & _ & Hg & Htls).
       split; [by eexists _, _|]. unfold omap, list_omap in *. cbn. by rewrite Hg, Htls. }
  all: walk; (split; [by eexists _, _|]); unfold turned_away; observe; branches; split_and!; try reflexivity.
  all: first [by left|right; split_and!; (reflexivity || by eexists)].
Qed.

(** In every run of a turn of the accept loop: a permanently blocked address is
    closed after one hit, without a lease or a record; a connection over a limit is
    closed after one record with the reason; otherwise its lease goes to the
    tracked connection, and a worker is started only for a tracked one. *)
Theorem admission_runs :
  always (acceptConn cfg conn remote localAddr) (λ t _,
    match omap lease t with
    | [] => omap (tracked conn) t = [] ∧ omap started t = [] ∧ last t = Some (Called (OpClose conn) tt) ∧
            (omap block_seen t = [blockedPermanent] ∧ omap hit_of t = [remoteIP remote] ∧ omap entry_logged t = [] ∨
             omap hit_of t = [] ∧ ∃ e, omap entry_logged t = [e] ∧ et_Result e = "rejected" ∧ et_Abnormal e = true)
    | [release] =>
        omap block_seen t ≠ [blockedPermanent] ∧
        ((omap (tracked conn) t = [(release, false)] ∧ omap started t = []) ∨
         (omap (tracked conn) t = [(release, true)] ∧
          ((∃ acceptedAt, omap started t = [WAccepted conn acceptedAt]) ∨
           omap started t = [] ∧ last t = Some (Called (OpClose conn) tt))))
    | _ => False
    end).
Proof.
  walk. all: observe; branches; rewrite ?decide_True by done; cbn.
  all: match goal with
       | H : bool_decide _ = true |- _ => apply bool_decide_eq_true in H; subst
       | H : bool_decide _ = false |- _ => apply bool_decide_eq_false in H
       end.
  - split_and!; auto.
  - split_and!; eauto 10.
  - split; [congruence|auto].
  - split; [congruence|auto].
  - split; [congruence|eauto].
Qed.

(** *** Reverse streams and inbound connections *)

Lemma stream_worker_runs inbound release requestID req :
  always (reverseStreamWorker cfg conn inbound remote release requestID req)
    (λ t _, omap released t = [release] ∧ total activeStreams t = 0 ∧
            existsb (closes conn) t = true ∧ existsb (closes inbound) t = true).
Proof.
  walk. all: observe; split_and!; try reflexivity; rewrite ?(bool_decide_true (conn = conn)), ?(bool_decide_true (inbound = inbound)) by done;
    by rewrite ?orb_true_r.
Qed.


(** The stream id under which [inbound] was accepted to wait; an attempt to take it. *)
Definition offered_as (rl inbound : nat) (c : done_call) : option string :=
  match c with
  | @Called _ X o x =>
      match o in op X return X → option string with
      | OpAddPending l id n => λ ok : bool, if decide (l = rl ∧ n = inbound) then if ok then Some id else None else None
      | _ => λ _, None
      end x
  end.
Definition take_tried (rl : nat) (c : done_call) : option string :=
  match c with
  | @Called _ X o x => match o with OpTakePending l id => if decide (l = rl) then Some id else None | _ => None end
  end.

(** In every run of the handler of an inbound connection of a reverse
    listener, the connection is closed or accepted to wait; one that waits is taken
    back before the handler returns (by its stream, or by the handler), and what the
    handler takes back it closes, whether the wait ends by a stream, the end of the
    control, shutdown or the timer. *)
Theorem inbound_settled rl inbound peers :
  always (handleReverseInbound cfg rl inbound peers) (λ t _,
    (omap (offered_as rl inbound) t = [] → existsb (closes inbound) t = true) ∧
    (∀ id, id ∈ omap (offered_as rl inbound) t → id ∈ omap (take_tried rl) t) ∧
    (∀ n, n ∈ omap taken_conn t → existsb (closes n) t = true)).
Proof.
  walk. all: observe; branches; rewrite ?decide_True by done.
  all: split_and!; try (by rewrite bool_decide_true, ?orb_true_r by done);
    try (by intros ? []%not_elem_of_nil); try done.
  all: intros ?; rewrite ?orb_true_iff, ?bool_decide_eq_true, ?elem_of_cons, elem_of_nil; intuition congruence.
Qed.
End Runs.
