(* ===== verification/HandlerRun.v ===== *)
(** * Running the handlers on the server

    The meaning of the calls of [Handler]: each is an operation of a component on
    the state of the server, the connections, the clock and what the rest of the
    world does, which is a parameter. Between two calls the other goroutines of
    the server may change everything. Every run is a trace of the program, so
    what [HandlerTraces] proves holds of it. *)

From S2P Require Import Prelude.
From S2P Require Import Programs.
From S2P Require Import GoStd.
From S2P Require Import Disk.
From S2P Require Import Version.
From S2P Require Import Netaddr.
From S2P Require Import Protocol.
From S2P Require Import GoCrypto.
From S2P Require Import Passutil.
From S2P Require Import Credseal.
From S2P Require Import CertificateGate.
From S2P Require Import Transport.
From S2P Require Import EventRing.
From S2P Require Import LogEntries.
From S2P Require Import ConfigData.
From S2P Require Import EntrySecurity.
From S2P Require Import StreamLimiter.
From S2P Require Import ConnLimiter.
From S2P Require Import FailTracker.
From S2P Require Import ServerConfig.
From S2P Require Import Authorization.
From S2P Require Import CredentialSeal.
From S2P Require Import Reverse.
From S2P Require Import Lifecycle.
From S2P Require Import Server.
From S2P Require Import Handler.
From S2P Require Import HandlerTraces.

#[local] Open Scope Z_scope.

(** [hex.EncodeToString]. *)
Definition hex_encode (l : chars) : string :=
  of_chars (flat_map (λ c, [hex_char (code c / 16); hex_char (code c `mod` 16)]) l).

(** [newReverseStreamID], [random] being what [rand.Read] gives. *)
Definition newReverseStreamID (random : result chars) : result string := hex_encode <$> random.

Section World.
Context `{SealCrypto}.

(** The server, the bytes of its connections by number, the leases of the
    connections it accepted, the next reading of the clock, and the next number
    for a connection. *)
Record World := mkWorld {
  w_server : Server;
  w_links : gmap nat memConn;
  w_leases : gmap nat (onceToken string);
  w_tick : nat;
  w_next : nat
}.

Definition with_server (w : World) (s : Server) : World :=
  mkWorld s (w_links w) (w_leases w) (w_tick w) (w_next w).
Definition with_link (w : World) (conn : nat) (l : memConn) : World :=
  mkWorld (w_server w) (<[conn := l]> (w_links w)) (w_leases w) (w_tick w) (w_next w).
Definition with_leases (w : World) (leases : gmap nat (onceToken string)) : World :=
  mkWorld (w_server w) (w_links w) leases (w_tick w) (w_next w).
Definition tick (n : nat) (w : World) : World :=
  mkWorld (w_server w) (w_links w) (w_leases w) (w_tick w + n) (w_next w).

(** What the rest of the world does, by the number of clock readings so far. *)
Record Environment := mkEnvironment {
  env_clock : nat → Time;
  env_others : nat → World → World;
  env_dial : nat → string → result unit;
  env_listen : nat → string → result string;
  env_proxied : nat → Z * Z * bool * bool * direction;
  env_random : nat → result chars;
  env_tls : nat → option string;
  env_writeErr : nat → option string;
  env_wait : nat → Handler.waited
}.
End World.

Section Exec.
Context `{SealCrypto} `{PEM} `{LocalTime} `{PlainCodec : JSONCodec PlainCredential}
  `{EnvelopeCodec : JSONCodec encryptedEnvelope} `{ConfigCodec : YAMLCodec Config}
  `{RequestCodec : JSONCodec RequestLogEntry} `{BusinessCodec : JSONCodec BusinessLogEntry}
  `{EntryCodec : JSONCodec EntryTrafficLogEntry} `{FlowCodec : JSONCodec FlowTrafficLogEntry}
  `{OpenCodec : JSONCodec OpenRequest} `{ResponseCodec : JSONCodec OpenResponse}
  `{StateCodec : JSONCodec (list persistedBlockedIP)}.
Variable cfg : Config.
Variable configuredReverse : gset string.
Variable hasLogf : bool.
Variable gateKey : CertificateGateKey.
Variable frg : MapRange failState.
Variable crg : MapRange connectionLimitState.
Variable env : Environment.

Definition clk (w : World) (i : nat) : Time := env_clock env (w_tick w + i).

(** ** Connections *)

Definition is_closed (w : World) (conn : nat) : bool :=
  bool_decide (conn ∈ st_connClosed (sv_reverse (w_server w))).

(** [entryConn.Close] as a whole: the lease is released with the first close. *)
Definition closeEntryConn (w : World) (conn : nat) : World :=
  let s := w_server w in
  match lc_entry (sv_lifecycle s) !! conn with
  | Some connOpen =>
      let lc := closeEntry (closeEntry (closeEntry (sv_lifecycle s) conn) conn) conn in
      let s := set_lifecycle s lc in
      match w_leases w !! conn with
      | Some t =>
          let s := match token_fires t with
                   | Some ip => set_limiters s (ConnLimiter.release (sv_connLimiter s) ip (clk w 0)) (sv_userStreams s)
                   | None => s
                   end in
          with_leases (with_server w s) (<[conn := token_call t]> (w_leases w))
      | None => with_server w s
      end
  | _ => with_server w s
  end.

(** The accepted connections among those that were closed: their [Close] runs. *)
Definition settleClosed (w : World) : World :=
  foldl closeEntryConn w (elements (st_connClosed (sv_reverse (w_server w)))).

Definition on_reverse (w : World) (f : reverseStore → reverseStore) : World :=
  settleClosed (with_server w (set_reverse (w_server w) (f (sv_reverse (w_server w))))).

Definition readRequest (w : World) (conn : nat) : World * result OpenRequest :=
  match w_links w !! conn, is_closed w conn with
  | Some l, false =>
      let '(rest, r) := ReadJSON (mc_in l) emptyRequest (sec_MaxHandshakeBytes (sec cfg)) in
      (with_link w conn (mkMemConn rest (mc_out l)), r)
  | _, _ => (w, Err errNetClosed)
  end.

Definition writeResponse (w : World) (conn : nat) (resp : OpenResponse) : World * result unit :=
  match w_links w !! conn, is_closed w conn, env_writeErr env (w_tick w) with
  | Some l, false, None =>
      let '(out, r) := WriteJSON (mc_out l) resp in (with_link w conn (mkMemConn (mc_in l) out), r)
  | Some _, false, Some e => (w, Err e)
  | _, _, _ => (w, Err errNetClosed)
  end.

(** The gate over the bytes of the connection; the first bytes the client sent are
    kept until the handshake begins. *)
Definition runGate (w : World) (conn : nat) : World * (option gateError * chars) :=
  match w_links w !! conn with
  | None => (w, (Some (gateFailure errNetClosed), []))
  | Some l =>
      let '(l', e) := server_gate (env_random env (w_tick w)) l gateKey in
      let consumed := take (length (avail (mc_in l)) - length (avail (mc_in l'))) (avail (mc_in l)) in
      (with_link w conn l', (e, take 16 consumed))
  end.

(** A connection the server opens, with nothing to read yet. *)
Definition openConn (w : World) : World * nat :=
  (mkWorld (w_server w) (<[w_next w := incoming []]> (w_links w)) (w_leases w) (w_tick w) (S (w_next w)), w_next w).

(** ** Calls *)

Definition set_bytes (cs : counters) (up down : option Z) : counters :=
  λ c, match c with bytesUp => default 0 up | bytesDown => default 0 down | _ => cs c end.

Definition runProxy (w : World) : World * (Z * Z) :=
  let '(leftToRight, rightToLeft, halfLeft, halfRight, first) := env_proxied env (w_tick w) in
  let cs := sv_counters (w_server w) in
  let '(moved, st) := ProxyPairWithOptions leftToRight rightToLeft halfLeft halfRight first
                        (Some (cs bytesUp)) (Some (cs bytesDown)) in
  (with_server w (set_counters (w_server w)
     (set_bytes cs (px_leftToRightBytes st) (px_rightToLeftBytes st))), moved).

Definition startWorker (s : Server) : bool * Server :=
  let '(ok, lc) := beginWorker (sv_lifecycle s) in (ok, set_lifecycle s lc).

Definition logLines (s : Server) (lines : list string) : Server := foldl (log hasLogf) s lines.

Definition ensureListener (w : World) (addr : string) : World * result nat :=
  let s := w_server w in
  match reverseListenerAt (sv_reverse s) addr with
  | Some l => (w, Ok l)
  | None =>
      let listen := env_listen env (w_tick w) addr in
      let '(ok, s) := if is_ok listen then startWorker s else (true, s) in
      let '(store, r, lines) := ensureReverseListener (sv_reverse s) addr listen ok in
      (with_server w (logLines (set_reverse s store) lines), r)
  end.

(** [trackEntryConn]: a connection that comes too late is closed. *)
Definition trackConn (w : World) (conn : nat) (release : onceToken string) : World * bool :=
  let w := with_leases w (<[conn := release]> (w_leases w)) in
  let lc := sv_lifecycle (w_server w) in
  let lc := set_entry lc (<[conn := connOpen]> (lc_entry lc)) (lc_conns lc) (lc_released lc) in
  let '(ok, lc) := trackEntryConn lc conn in
  let w := with_server w (set_lifecycle (w_server w) lc) in
  if ok then (w, true) else (on_reverse w (λ st, close_conn st conn), false).

Definition sendAnswer (w : World) (c : nat) (streamID : string) : World * Handler.waited :=
  match env_wait env (w_tick w) with
  | waitReady =>
      match sendRequest (sv_reverse (w_server w)) c streamID with
      | (true, store) => (with_server w (set_reverse (w_server w) store), waitReady)
      | (false, _) => (w, waitTimeout)
      end
  | other => (w, other)
  end.

Definition lift {X} (w : World) (r : Server * X) : World * X := (with_server w r.1, r.2).

(** What a call does and answers, from the reading [c] of the clock on. *)
Definition exec_at {X} (c : nat → Time) (o : op X) (w : World) : World * X :=
  let s := w_server w in
  match o in op X return World * X with
  | OpNow => lift w (s, c 0%nat)
  | OpCancelled => lift w (s, lc_cancelled (sv_lifecycle s))
  | OpLog line => lift w (log hasLogf s line, tt)
  | OpNextRequestID => let '(id, s) := nextRequestID (c 0%nat) s in lift w (s, id)
  | OpBlockKind ip =>
      let '(k, f, d) := blockKind frg (sv_fails s) ip (c 0%nat) (c 1%nat) (sv_disk s) in lift w (set_fails s f d, k)
  | OpPermanentBlockedHit ip => lift w (recordPermanentBlockedHit hasLogf c s ip, tt)
  | OpAddFailure ip =>
      let '(f, d) := addFailure frg (sv_fails s) ip (c 0%nat) (c 1%nat) (sv_disk s) in lift w (set_fails s f d, tt)
  | OpAddProtocolFailure ip =>
      let '(b, f, d) := addProtocolFailure frg (sv_fails s) ip (c 0%nat) (c 1%nat) (sv_disk s) in
      lift w (set_fails s f d, b)
  | OpCount which n => lift w (count s which n, tt)
  | OpProtocolRejected code => lift w (set_counters s (countEntryProtocolRejected code (sv_counters s)), tt)
  | OpConnectionRejected reason => lift w (set_counters s (recordConnectionRejected reason (sv_counters s)), tt)
  | OpEvent e => lift w (recordEvent hasLogf c s e, tt)
  | OpRequestLog e => lift w (recordRequestLog hasLogf c s e, tt)
  | OpFlowLog e => lift w (recordFlowTrafficLog cfg hasLogf c s e, tt)
  | OpEntryLog e => lift w (recordEntryTrafficLog hasLogf c s e, tt)
  | OpPassword req =>
      let '(st, d, r) := passwordFromRequest (c 0%nat) (c 1%nat) (c 2%nat) (sv_credential s) (sv_disk s) req in
      lift w (set_credential s st d, r)
  | OpActiveKey =>
      let '(st, d, r) := activeCredentialPublicKey (c 0%nat) (c 1%nat) (sv_credential s) (sv_disk s) in
      lift w (set_credential s st d, r)
  | OpAcquireConn ip =>
      let '(a, l) := ConnLimiter.acquire crg (sv_connLimiter s) ip (c 0%nat) in
      lift w (set_limiters s l (sv_userStreams s), (aq_release a, aq_ok a, aq_reason a))
  | OpAcquireStream username =>
      let '(t, ok, l) := StreamLimiter.acquire (sv_userStreams s) username in
      lift w (set_limiters s (sv_connLimiter s) l, (t, ok))
  | OpReleaseStream t =>
      lift w (match token_fires t with
            | Some u => set_limiters s (sv_connLimiter s) (StreamLimiter.release (sv_userStreams s) u)
            | None => s
            end, tt)
  | OpStartWorker _ => let '(ok, s) := startWorker s in lift w (s, ok)
  | OpListenerAt addr => lift w (s, reverseListenerAt (sv_reverse s) addr)
  | OpListenerAddr l => lift w (s, default "" (rvl_addr <$> st_listeners (sv_reverse s) !! l))
  | OpNewControl conn requestID username clientID forwardName target =>
      let '(n, st) := newReverseControl (sv_reverse s) conn requestID username clientID forwardName target in
      lift w (set_reverse s st, n)
  | OpAddControl l n => let '(ok, st) := addControl (sv_reverse s) l n in lift w (set_reverse s st, ok)
  | OpPickControl l => lift w (s, pickControl (sv_reverse s) l)
  | OpAddPending l id conn =>
      let '(p, st) := addPending (sv_reverse s) l id conn in lift w (set_reverse s st, bool_decide (is_Some p))
  | OpTakePending l id => let '(conn, st) := takePending (sv_reverse s) l id in lift w (set_reverse s st, conn)

  | OpDeadline _ _ _ | OpKeepAlive _ _ => (w, tt)
  | OpRead conn => readRequest w conn
  | OpWrite conn resp => writeResponse w conn resp
  | OpClose conn => (on_reverse w (λ st, close_conn st conn), tt)
  | OpTrackConn conn release => trackConn w conn release
  | OpGate conn => runGate w conn
  | OpTLSHandshake _ => (w, (env_tls env (w_tick w), []))
  | OpDial target _ =>
      match env_dial env (w_tick w) target with
      | Err e => (w, Err e)
      | Ok _ => let '(w, n) := openConn w in (w, Ok n)
      end
  | OpProxy _ _ _ => runProxy w
  | OpEnsureListener addr => ensureListener w addr
  | OpCloseControl c => (on_reverse w (λ st, closeControl st c), tt)
  | OpRemoveControl l c => (on_reverse w (λ st, removeControl st l c), tt)
  | OpClosePending l => (on_reverse w (λ st, closePending st l), tt)
  | OpCloseIfIdle l =>
      let '(st, lines) := closeReverseListenerIfIdle (isConfiguredReverseListener configuredReverse)
                            (sv_reverse (w_server w)) l in
      let w := on_reverse w (λ _, st) in
      (with_server w (logLines (w_server w) lines), tt)
  | OpNewStreamID => (w, newReverseStreamID (env_random env (w_tick w)))
  | OpSendRequest c id _ => sendAnswer w c id
  | OpAwaitTaken _ _ _ => (w, env_wait env (w_tick w))
  end.

Definition exec {X} (o : op X) (w : World) : World * X :=
  let '(w', x) := exec_at (clk w) o w in (tick 3 w', x).

(** A program run from [w], the others running between its calls: the world it
    leaves, its calls with their answers, and its result. *)
Fixpoint run {A} (p : prog A) (w : World) : World * list done_call * A :=
  match p with
  | Ret a => (w, [], a)
  | Do o k =>
      let '(w, x) := exec o (env_others env (w_tick w) w) in
      let '(w, t, a) := run (k x) w in
      (w, Called o x :: t, a)
  end.

(** Every run is one of the traces. *)
Lemma run_traces {A} (p : prog A) w : traces p (run p w).1.2 (run p w).2.
Proof.
  revert w. induction p as [a|X o k IH]; intros w; cbn; [constructor|].
  destruct (exec o (env_others env (w_tick w) w)) as [w' x]. specialize (IH x w').
  destruct (run (k x) w') as [[w'' t] a]. by constructor.
Qed.

Lemma run_always {A} (p : prog A) (Q : list done_call → A → Prop) w :
  always p Q → Q (run p w).1.2 (run p w).2.
Proof. intros HQ. eapply traces_always; [apply run_traces|exact HQ]. Qed.

(** ** The totals the monitor shows

    The rejections of each class add up to the total of their kind, whatever runs
    in between. *)

Definition class_counters : list counter :=
  entryProtocolRejected :: connectionsRejected :: entry_classes ++ rejection_classes.

Definition counts_well {X} (o : op X) : Prop :=
  match o with
  | OpCount c _ => c ∉ class_counters
  | OpConnectionRejected reason => reason ∈ rejection_reasons
  | _ => True
  end.

(** A refused lease names one of the four reasons. *)
Definition good_answer {X} (o : op X) : X → Prop :=
  match o in op X return X → Prop with
  | OpAcquireConn _ => λ r, r.1.2 = false → r.2 ∈ rejection_reasons
  | _ => λ _, True
  end.

Fixpoint well_counted {A} (p : prog A) : Prop :=
  match p with
  | Ret _ => True
  | Do o k => counts_well o ∧ ∀ x, good_answer o x → well_counted (k x)
  end.

Lemma well_counted_bind {A B} (m : prog A) (f : A → prog B) :
  well_counted m → (∀ a, well_counted (f a)) → well_counted (m ≫= f).
Proof.
  intros Hm Hf. induction m as [a|X o k IH]; [apply Hf|].
  change (well_counted (Do o (λ x, k x ≫= f))). destruct Hm as [Ho Hk]. split; [done|]. auto.
Qed.

Lemma well_counted_call {X A} (o : op X) (f : X → prog A) :
  counts_well o → (∀ x, good_answer o x → well_counted (f x)) → well_counted (call o ≫= f).
Proof. done. Qed.

Lemma acquire_answer l ip now :
  good_answer (OpAcquireConn ip) (let '(a, _) := ConnLimiter.acquire crg l ip now in (aq_release a, aq_ok a, aq_reason a)).
Proof.
  destruct (ConnLimiter.acquire crg l ip now) as [a l'] eqn:E. cbn. unfold ConnLimiter.acquire in E.
  repeat case_match; simplify_eq; try done; intros _; apply (bool_decide_unpack _); vm_compute; exact I.
Qed.

Lemma log_counters s line : sv_counters (log hasLogf s line) = sv_counters s.
Proof. unfold log. by destruct hasLogf. Qed.

Lemma write_entry_counters {A} `{JSONCodec A} name words now get put s (e : A) :
  (∀ s l d, sv_counters (put s l d) = sv_counters s) →
  sv_counters (write_entry hasLogf name words now get put s e) = sv_counters s.
Proof.
  intros Hput. unfold write_entry. destruct (marshal e); [|apply log_counters].
  destruct (get _); [|by rewrite log_counters].
  destruct (WriteJSONLine _ _ _ _) as [[? ?] [|]]; by rewrite ?log_counters, Hput, log_counters.
Qed.

Lemma recordEntry_counters c s e : sv_counters (recordEntryTrafficLog hasLogf c s e) = sv_counters s.
Proof.
  unfold recordEntryTrafficLog, writeEntryTrafficLog.
  destruct (sv_entryTrafficWriter s); [done|by rewrite write_entry_counters].
Qed.

Lemma recordEvent_counters c s e : sv_counters (recordEvent hasLogf c s e) = sv_counters s.
Proof.
  unfold recordEvent, recordBusinessLogFromEvent, recordBusinessLog, eventRing. rewrite log_counters.
  destruct (isBusinessRuntimeEvent _); cbn [negb]; rewrite ?write_entry_counters by done; by destruct (sv_events s).
Qed.

Lemma recordRequest_counters c s e : sv_counters (recordRequestLog hasLogf c s e) = sv_counters s.
Proof. unfold recordRequestLog. rewrite write_entry_counters by done. by destruct (isSuccessfulRequestForBlockProtection _). Qed.

Lemma closeEntryConn_counters w conn :
  sv_counters (w_server (closeEntryConn w conn)) = sv_counters (w_server w).
Proof. unfold closeEntryConn. repeat case_match; done. Qed.

Lemma on_reverse_counters w f : sv_counters (w_server (on_reverse w f)) = sv_counters (w_server w).
Proof.
  unfold on_reverse, settleClosed. generalize (elements (st_connClosed (sv_reverse (w_server
    (with_server w (set_reverse (w_server w) (f (sv_reverse (w_server w))))))))). intros l.
  transitivity (sv_counters (w_server (with_server w (set_reverse (w_server w) (f (sv_reverse (w_server w))))))); [|done].
  generalize (with_server w (set_reverse (w_server w) (f (sv_reverse (w_server w))))). 
  induction l as [|conn l IH]; intros w'; [done|]. cbn [foldl]. rewrite IH. apply closeEntryConn_counters.
Qed.

Lemma logLines_counters s lines : sv_counters (logLines s lines) = sv_counters s.
Proof.
  unfold logLines. revert s. induction lines as [|line lines IH]; intros s; [done|]. cbn [foldl].
  by rewrite IH, log_counters.
Qed.

Lemma set_bytes_totals cs up down : totals cs → totals (set_bytes cs up down).
Proof. done. Qed.

Lemma recordFlow_counters c s e : sv_counters (recordFlowTrafficLog cfg hasLogf c s e) = sv_counters s.
Proof. unfold recordFlowTrafficLog. by rewrite write_entry_counters. Qed.

Create Rewrite HintDb run_counters.
#[local] Hint Rewrite log_counters recordEntry_counters recordEvent_counters recordRequest_counters
  recordFlow_counters on_reverse_counters logLines_counters : run_counters.

Lemma recordHit_totals c s ip :
  totals (sv_counters s) → totals (sv_counters (recordPermanentBlockedHit hasLogf c s ip)).
Proof.
  intros Ht. unfold recordPermanentBlockedHit. destruct (String.eqb ip ""); [done|].
  assert (totals (countEntryPermanentBlockHit (sv_counters s))) as Ht'.
  { apply Add_totals; [|done]. apply (bool_decide_unpack _). vm_compute. exact I. }
  cbv zeta. destruct (sv_permanentBlockHits _); autorewrite with run_counters; exact Ht'.
Qed.

(** A call the program makes as it should keeps the totals and answers as it should. *)
Lemma exec_totals {X} c (o : op X) w :
  counts_well o → totals (sv_counters (w_server w)) →
  totals (sv_counters (w_server (exec_at c o w).1)) ∧ good_answer o (exec_at c o w).2.
Proof.
  intros Ho Ht. destruct o; cbn [exec_at good_answer];
    unfold lift, readRequest, writeResponse, trackConn, runGate, sendAnswer, startWorker, openConn, ensureListener,
      runProxy, startWorker, nextRequestID;
    try (split; [|exact I]).
  all: try (repeat case_match; cbn -[totals Add set_bytes on_reverse]; autorewrite with run_counters; exact Ht).
  - by apply recordHit_totals.
  - by apply Add_totals.
  - by apply countEntryProtocolRejected_totals.
  - pose proof (acquire_answer (sv_connLimiter (w_server w)) ip (c 0%nat)) as Ha.
    destruct (ConnLimiter.acquire _ _ _ _) as [a l]. by split.
  - by apply recordConnectionRejected_totals.
  - by destruct (beginWorker _).
  - destruct (reverseListenerAt _ _); [done|].
    destruct (is_ok _); [destruct (beginWorker _)|]; destruct (ensureReverseListener _ _ _ _) as [[store r] lines];
      cbn -[totals]; autorewrite with run_counters; exact Ht.
Qed.

Definition others_keep_totals : Prop :=
  ∀ n w, totals (sv_counters (w_server w)) → totals (sv_counters (w_server (env_others env n w))).

Lemma run_totals {A} (p : prog A) w :
  others_keep_totals → well_counted p → totals (sv_counters (w_server w)) →
  totals (sv_counters (w_server (run p w).1.1)).
Proof.
  intros Hothers. revert w. induction p as [a|X o k IH]; intros w Hp Ht; [done|]. destruct Hp as [Ho Hk].
  cbn [run]. unfold exec.
  destruct (exec_totals (clk (env_others env (w_tick w) w)) o _ Ho (Hothers (w_tick w) w Ht)) as [Ht' Hx].
  destruct (exec_at _ o _) as [w' x]. cbn [fst snd] in *.
  specialize (IH x (tick 3 w') (Hk x Hx) Ht'). by destruct (run (k x) (tick 3 w')) as [[w'' t] a].
Qed.

Ltac well_counted :=
  repeat first
    [ apply well_counted_call; [cbn; first [exact I|apply (bool_decide_unpack _); vm_compute; exact I|auto]|intros ?x ?; cbv beta]
    | exact I
    | match goal with
      | |- well_counted (match ?x with _ => _ end) => destruct x eqn:?
      | |- well_counted (let _ := _ in _) => cbv zeta
      | |- well_counted (call _) => unfold call
      | |- well_counted (Do _ Ret) => split; [exact I|done]
      end
    | apply well_counted_bind; [|intros ?]
    | match goal with |- well_counted ?p => let h := head_of p in unfold h; cbv beta end ].

Lemma handlers_well_counted users conn remote localAddr acceptedAt :
  well_counted (acceptConn cfg conn remote localAddr) ∧
  well_counted (handleAcceptedConn cfg users configuredReverse conn remote localAddr acceptedAt).
Proof.
  split; well_counted. match goal with H : good_answer (OpAcquireConn _) _ |- _ => apply H end.
  by apply negb_true_iff.
Qed.

(** The totals the monitor shows are right: when they agree with their
    classes (up to the 64 bits of the counters) before the accept loop and the
    handler of a connection run, they agree after, provided the other goroutines
    keep them so; rejections of the entry are the sum of their eight classes, and
    refused connections the sum of their four. *)
Theorem status_totals users conn remote localAddr acceptedAt w :
  others_keep_totals → totals (sv_counters (w_server w)) →
  let '(w1, _, _) := run (acceptConn cfg conn remote localAddr) w in
  let '(w2, _, _) := run (handleAcceptedConn cfg users configuredReverse conn remote localAddr acceptedAt) w1 in
  totals (sv_counters (w_server w1)) ∧ totals (sv_counters (w_server w2)).
Proof.
  intros Ho Ht. destruct (handlers_well_counted users conn remote localAddr acceptedAt) as [Ha Hh].
  pose proof (run_totals _ w Ho Ha Ht) as H1'. destruct (run (acceptConn _ _ _ _) w) as [[w1 t1] a1].
  pose proof (run_totals _ w1 Ho Hh H1') as H2'. destruct (run (handleAcceptedConn _ _ _ _ _ _ _) w1) as [[w2 t2] a2].
  by split.
Qed.

(** ** The control loop ends *)

Lemma run_bind {A B} (m : prog A) (f : A → prog B) w :
  run (m ≫= f) w =
  let '(w, t, a) := run m w in let '(w, t', b) := run (f a) w in (w, t ++ t', b).
Proof.
  revert w. induction m as [a|X o k IH]; intros w.
  - change (Ret a ≫= f) with (f a). cbn [run]. by destruct (run (f a) w) as [[? ?] ?].
  - change (Do o k ≫= f) with (Do o (λ x, k x ≫= f)). cbn [run].
    destruct (exec o (env_others env (w_tick w) w)) as [w' x]. rewrite IH.
    destruct (run (k x) w') as [[w'' t] a]. by destruct (run (f a) w'') as [[? ?] ?].
Qed.

(** The others neither send bytes on the connection nor take them. *)
Variable conn : nat.
Definition left_on (w : World) : nat := match w_links w !! conn with Some l => length (avail (mc_in l)) | None => 0 end.
Hypothesis others_leave : ∀ n w, left_on (env_others env n w) = left_on w.

(** A frame that was read took bytes. *)
Lemma ReadFull_takes r n r' p : ReadFull r n = (r', Ok p) → length (avail r) = (n + length (avail r'))%nat.
Proof.
  unfold ReadFull. destruct (Nat.leb_spec n (length (avail r))); [|done].
  intros [= <- _]. cbn. rewrite length_drop. lia.
Qed.

Lemma ReadJSON_shrinks {A} `{JSONCodec A} r (v : A) maxBytes :
  let '(r', res) := ReadJSON r v maxBytes in
  (length (avail r') ≤ length (avail r))%nat ∧ (is_ok res = true → (length (avail r') < length (avail r))%nat).
Proof.
  unfold ReadJSON. set (limit := if maxBytes <=? 0 then _ else _).
  destruct (ReadFull r 4) as [r1 [header|e1]] eqn:E1; pose proof (ReadFull_consumes _ _ _ _ E1) as (B1 & _ & _);
    [|cbn; split; [lia|done]].
  apply ReadFull_takes in E1. destruct (Uint32 header =? 0); [cbn; split; [lia|done]|].
  destruct (limit <? Uint32 header); [cbn; split; [lia|done]|].
  destruct (ReadFull r1 _) as [r2 [data|e2]] eqn:E2; pose proof (ReadFull_consumes _ _ _ _ E2) as (C1 & _ & _);
    cbn; (split; [lia|intros; try done; lia]).
Qed.

Lemma readRequest_left w :
  let '(w', r) := readRequest w conn in
  (left_on w' ≤ left_on w)%nat ∧ (is_ok r = true → (left_on w' < left_on w)%nat).
Proof.
  unfold readRequest, left_on. destruct (w_links w !! conn) as [l|] eqn:El; [|by rewrite El].
  destruct (is_closed w conn); [by rewrite El|].
  pose proof (ReadJSON_shrinks (mc_in l) emptyRequest (sec_MaxHandshakeBytes (sec cfg))) as H'.
  destruct (ReadJSON (mc_in l) emptyRequest _) as [rest r]. cbn. by rewrite lookup_insert_eq.
Qed.

Lemma readControl_ends isErrClosed isTimeout fuel forwardName w :
  (left_on w < fuel)%nat → (run (readControl isErrClosed isTimeout fuel conn forwardName) w).2 ≠ None.
Proof.
  revert w. induction fuel as [|fuel IH]; intros w Hlt; [lia|]. cbn [readControl].
  rewrite run_bind. destruct (run (call (OpDeadline conn _ _)) w) as [[w1 t1] a1] eqn:E1.
  assert (left_on w1 = left_on w) as Hl1.
  { cbn in E1. injection E1 as <- _ _. exact (others_leave (w_tick w) w). }
  rewrite run_bind. destruct (run (call (OpRead conn)) w1) as [[w2 t2] r] eqn:E2.
  assert ((left_on w2 ≤ left_on w1)%nat ∧ (is_ok r = true → (left_on w2 < left_on w1)%nat)) as [Hl2 Hl2s].
  { cbn in E2. unfold exec in E2. cbn [exec_at] in E2.
    pose proof (readRequest_left (env_others env (w_tick w1) w1)) as Hr. rewrite others_leave in Hr.
    destruct (readRequest _ conn) as [w' r']. injection E2 as <- _ <-. exact Hr. }
  destruct r as [req|e].
  - specialize (IH w2). destruct (run (readControl _ _ fuel _ _) w2) as [[w3 t3] a3]. cbn in *.
    apply IH. specialize (Hl2s eq_refl). lia.
  - destruct (isErrClosed e); [by cbn|]. destruct (isTimeout e); rewrite run_bind;
      (destruct (run (call _) w2) as [[w3 t3] a3]; by cbn).
Qed.

(** The codes a control closes with. *)
Definition closeCodes : list string := ["closed"; "heartbeat_timeout"; "control_read_failed"].

Lemma readControl_code isErrClosed isTimeout fuel forwardName :
  always (readControl isErrClosed isTimeout fuel conn forwardName) (λ _ r,
    match r with Some (code, _) => code ∈ closeCodes | None => True end).
Proof.
  unfold closeCodes. induction fuel as [|fuel IH]; [done|]. cbn [readControl].
  apply always_do. intros []. apply always_do. intros [req|e].
  - eapply always_impl; [|exact IH]. done.
  - destruct (isErrClosed e); [apply always_ret; set_solver|].
    destruct (isTimeout e); apply always_do; intros []; apply always_ret; set_solver.
Qed.

End Exec.

(** ** A sample server *)

Module Sample.

#[local] Existing Instances Toy.toyPEM Toy.toyCrypto Toy.plainCodec Toy.envelopeCodec frozenTime sampleYAML.

(** Records that are only written, by one of their fields. *)
Definition textCodec {A} (f : A → string) : JSONCodec A :=
  {| marshal a := Ok (to_chars (f a)); unmarshal _ _ := Err "not read" |}.

#[export] Instance requestCodec : JSONCodec RequestLogEntry := textCodec rl_Result.
#[export] Instance businessCodec : JSONCodec BusinessLogEntry := textCodec bl_Kind.
#[export] Instance entryCodec : JSONCodec EntryTrafficLogEntry := textCodec et_Event.
#[export] Instance flowCodec : JSONCodec FlowTrafficLogEntry := textCodec ft_Event.
#[export] Instance stateCodec : JSONCodec (list persistedBlockedIP) := textCodec (λ _, "state").

#[export] Instance openCodec : JSONCodec OpenRequest := {|
  marshal r := Ok (Toy.write_fields [rq_Type r; rq_Username r; rq_Password r; rq_ClientVersion r; rq_Target r;
                                     rq_ListenAddr r]);
  unmarshal l _ := match Toy.read_fields 6 l with
                   | Some [t; u; p; v; target; listen] =>
                       Ok (mkOpenRequest t u p None "" v ProtocolVersion "" "" listen "" target)
                   | _ => Err "invalid"
                   end
|}.
#[export] Instance responseCodec : JSONCodec OpenResponse := textCodec (λ r, rs_Code r +:+ "|" +:+ rs_Message r).

Definition cfg : Config :=
  mkConfig "" 1 (mkRequiresConfig "") (mkCompatibilityConfig "3.0.0" "" 0) "" "" "" (mkTLSConfig "" "" "")
    [mkUserConfig "ann" "plain:secret" false]
    [mkForwardConfig "web" "client_to_server" 0 "" "127.0.0.1:8080" ["ann"]]
    (mkSecurityConfig 5 5 0 0 0 0 0 0 0 0 0 0 0 1 0 60 2 60) [] (mkRuntimeConfig "" "" "" "" "" "" 0).
Definition users : gmap string UserConfig := {[ "ann" := mkUserConfig "ann" "plain:secret" false ]}.

Definition server : Server :=
  mkServer startedLifecycle (newFailTracker (cfg_Security cfg) "" "") (mkCredentialState "" [] ∅ None [])
    emptyStore None None None None (Some (newAsyncEntryTrafficLog 8)) None 0 (Some (newPermanentBlockHitAggregator 0))
    (Some (newConnectionLimiter (cfg_Security cfg))) (Some (newUserStreamLimiter (cfg_Security cfg))) zeroCounters
    (goodDisk ∅) [].

(** Nobody else is there, every call succeeds, and the proxy moves 10 bytes from
    the target and 3 from the client. *)
Definition env : Environment :=
  mkEnvironment (λ i, Z.of_nat i) (λ _ w, w) (λ _ _, Ok tt) (λ _ a, Ok a)
    (λ _, (10, 3, true, true, left_to_right)) (λ _, Ok sampleNonce) (λ _, None) (λ _, None) (λ _, waitReady).

Definition frame (data : chars) : chars := PutUint32 (Z.of_nat (length data)) ++ data.
Definition sends (req : OpenRequest) : chars := match marshal req with Ok data => frame data | Err _ => [] end.
Definition request (kind user password target : string) : OpenRequest :=
  mkOpenRequest kind user password None "" "3.1.1" ProtocolVersion "" "" "" "" target.

(** A client that has the certificate and sends one request. *)
Definition client (req : OpenRequest) : memConn :=
  incoming (proof_frame sampleKey sampleNonce sampleNonce ++ sends req).

Definition world (req : OpenRequest) : World := mkWorld server {[ 1%nat := client req ]} ∅ 0 2.

Definition serve {A} (p : prog A) (w : World) : World * list done_call * A :=
  run cfg (prepareConfiguredForwards cfg) true sampleKey canonicalRange canonicalRange env p w.

Definition accepted : prog handled :=
  handleAcceptedConn cfg users (prepareConfiguredForwards cfg) 1 (Some "198.51.100.7:4000") (Some "10.0.0.1:3443") 0.
Definition accept : prog bool := acceptConn cfg 1 (Some "198.51.100.7:4000") (Some "10.0.0.1:3443").

(** What the server sent after the gate, and a counter, at the end of a connection. *)
Definition outcome (req : OpenRequest) : string * list Z * option handled :=
  let '(w, _, ok) := serve accept (world req) in
  let '(w, _, h) := serve accepted w in
  let out := match w_links w !! 1%nat with
             | Some l => drop (certificateGateChallengeSize + 4) (mc_out l)
             | None => []
             end in
  (of_chars out, map (sv_counters (w_server w)) [authOK; authFailed; totalStreams; activeStreams; bytesUp; bytesDown]
                 ++ [Z.of_nat (length (lc_released (sv_lifecycle (w_server w))))],
   if ok then Some h else None).

End Sample.

Section Examples.
#[local] Existing Instances Toy.toyPEM Toy.toyCrypto Toy.plainCodec Toy.envelopeCodec frozenTime sampleYAML
  Sample.requestCodec Sample.businessCodec Sample.entryCodec Sample.flowCodec Sample.stateCodec Sample.openCodec
  Sample.responseCodec.

Example opened :
  Sample.outcome (Sample.request "open" "ann" "secret" "127.0.0.1:8080")
  = ("ok|connected", [1; 0; 1; 0; 10; 3; 1], Some (Handled true)).
Proof. vm_compute. reflexivity. Qed.

Example refused_logins :
  Sample.outcome (Sample.request "open" "ann" "wrong" "127.0.0.1:8080")
  = ("auth_failed|username or password is incorrect", [0; 1; 0; 0; 0; 0; 1], Some (Handled true)) ∧
  Sample.outcome (Sample.request "open" "ann" "secret" "127.0.0.1:22")
  = ("target_denied|user is not allowed to access this target", [1; 0; 0; 0; 0; 0; 1], Some (Handled true)) ∧
  Sample.outcome (Sample.request "health" "ann" "secret" "")
  = ("ok|server healthy", [0; 0; 0; 0; 0; 0; 1], Some (Handled true)) ∧
  Sample.outcome (Sample.request "GET /" "ann" "secret" "")
  = ("bad_request|unsupported request", [0; 0; 0; 0; 0; 0; 1], Some (Handled true)).
Proof. vm_compute. repeat split; reflexivity. Qed.

(** The counter shown as bytes_up counts what went from the target to the client,
    the flow records call the other direction up. *)
Lemma bytes_up_is_download :
  let '(w, t, _) := Sample.serve Sample.accepted
                      (Sample.world (Sample.request "open" "ann" "secret" "127.0.0.1:8080")) in
  sv_counters (w_server w) bytesUp = 10 ∧
  omap (λ c, match c with @Called _ X o x => match o with OpFlowLog e => Some (ft_BytesUp e) | _ => None end end) t = [3].
Proof. vm_compute. split; reflexivity. Qed.

Definition controlWorld : World := mkWorld Sample.server {[ 1%nat := incoming [] ]} ∅ 0 2.

Lemma status_totals_witness :
  let '(w1, _, _) := Sample.serve Sample.accept (Sample.world (Sample.request "POST" "ann" "x" "")) in
  let '(w2, _, _) := Sample.serve Sample.accepted w1 in
  sv_counters (w_server w2) entryUnsupportedRequestRejected = 1 ∧ totals (sv_counters (w_server w2)).
Proof.
  pose proof (status_totals Sample.cfg (prepareConfiguredForwards Sample.cfg) true sampleKey canonicalRange
    canonicalRange Sample.env Sample.users 1 (Some "198.51.100.7:4000") (Some "10.0.0.1:3443") 0
    (Sample.world (Sample.request "POST" "ann" "x" "")) (λ _ _ H, H) (conj eq_refl eq_refl)) as H.
  unfold Sample.serve, Sample.accept, Sample.accepted.
  destruct (run _ _ _ _ _ _ _ (acceptConn _ _ _ _) _) as [[w1 t1] a1] eqn:E1.
  destruct (run _ _ _ _ _ _ _ (handleAcceptedConn _ _ _ _ _ _ _) w1) as [[w2 t2] a2] eqn:E2.
  split; [|exact (proj2 H)].
  change w2 with (w2, t2, a2).1.1. rewrite <-E2. change w1 with (w1, t1, a1).1.1. rewrite <-E1.
  vm_compute. reflexivity.
Defined.

End Examples.
