(* ===== verification/Yaml.v ===== *)
(** * YAML trees and the shape checks on them
    (src/server/tunnel/config_compat.go, config_forward.go,
    src/client/tunnel/config_compat.go)

    Parsing text into a tree and a tree into a value is the YAML library's; the
    program walks the trees to check that an installed configuration has every
    field a version of the schema asks for. *)

From S2P Require Import Prelude.
From S2P Require Import GoStd.

#[local] Open Scope Z_scope.

Inductive yamlKind := DocumentNode | SequenceNode | MappingNode | ScalarNode | AliasNode.
#[export] Instance yamlKind_eq_dec : EqDecision yamlKind.
Proof. solve_decision. Defined.

(** [yaml.Node]: a mapping has its keys and values in turn. *)
Inductive yamlNode := mkNode (kind : yamlKind) (tag value : string) (content : list yamlNode).

Definition Kind (n : yamlNode) : yamlKind := let '(mkNode k _ _ _) := n in k.
Definition Tag (n : yamlNode) : string := let '(mkNode _ t _ _) := n in t.
Definition Value (n : yamlNode) : string := let '(mkNode _ _ v _) := n in v.
Definition Content (n : yamlNode) : list yamlNode := let '(mkNode _ _ _ c) := n in c.

Definition is_kind (k : yamlKind) (n : yamlNode) : bool := bool_decide (Kind n = k).
Definition is_value (n : yamlNode) : bool := is_kind ScalarNode n && negb (String.eqb (Tag n) "!!null").

(** The YAML library: [yaml.Unmarshal] into a node, and [Decode] into a number. *)
Class YAMLTree := {
  yaml_tree : string → result yamlNode;
  node_int : yamlNode → result Z
}.

(** Keys and values in turn; an odd last node is left out. *)
Fixpoint pairs (l : list yamlNode) : list (yamlNode * yamlNode) :=
  match l with
  | k :: v :: l => (k, v) :: pairs l
  | _ => []
  end.

(** ** The checks *)

Abbreviation fields := (gmap string yamlNode).

Definition yamlRootMapping `{YAMLTree} (what data : string) : result yamlNode :=
  document ← yaml_tree data;
  match Content document with
  | [root] =>
      if negb (is_kind DocumentNode document) then Err (what +:+ " must contain one YAML document")
      else if negb (is_kind MappingNode root) then Err (what +:+ " must be a mapping")
      else Ok root
  | _ => Err (what +:+ " must contain one YAML document")
  end.

Definition add_field (path : string) (m : fields) (kv : yamlNode * yamlNode) : result fields :=
  if negb (is_kind ScalarNode kv.1) then Err (path +:+ " contains an invalid key")
  else Ok (<[Value kv.1 := kv.2]> m).

(** [None] is a nil node. *)
Definition yamlMappingFields (node : option yamlNode) (path : string) : result fields :=
  match node with
  | None => Err (path +:+ " must be a mapping")
  | Some node =>
      if negb (is_kind MappingNode node) then Err (path +:+ " must be a mapping")
      else fold_err (add_field path) ∅ (pairs (Content node))
  end.

(** The client refuses a field that comes twice. *)
Definition add_client_field (path : string) (m : fields) (kv : yamlNode * yamlNode) : result fields :=
  if negb (is_kind ScalarNode kv.1) then Err (path +:+ " contains an invalid key")
  else match m !! Value kv.1 with
       | Some _ => Err (path +:+ " contains duplicate field " +:+ Value kv.1)
       | None => Ok (<[Value kv.1 := kv.2]> m)
       end.

Definition clientYAMLMappingFields (node : option yamlNode) (path : string) : result fields :=
  match node with
  | None => Err (path +:+ " must be a mapping")
  | Some node =>
      if negb (is_kind MappingNode node) then Err (path +:+ " must be a mapping")
      else fold_err (add_client_field path) ∅ (pairs (Content node))
  end.

Definition yamlRequiredField (m : fields) (path name : string) : result yamlNode :=
  match m !! name with
  | None => Err (path +:+ " is missing required field " +:+ name)
  | Some node => Ok node
  end.

Definition yamlRequiredScalar (m : fields) (path name : string) : result yamlNode :=
  node ← yamlRequiredField m path name;
  if negb (is_value node) then Err (path +:+ "." +:+ name +:+ " must be a value") else Ok node.

Definition yamlRequireScalar (m : fields) (path name : string) : result unit :=
  _ ← yamlRequiredScalar m path name; Ok tt.

Definition yamlRequireSequence (m : fields) (path name : string) : result yamlNode :=
  node ← yamlRequiredField m path name;
  if negb (is_kind SequenceNode node) then Err (path +:+ "." +:+ name +:+ " must be a list") else Ok node.

(** The copies of the client. *)
Definition clientYAMLRequiredField := yamlRequiredField.
Definition clientYAMLRequireScalar (m : fields) (path name : string) : result unit :=
  node ← clientYAMLRequiredField m path name;
  guard_err (negb (is_value node)) (path +:+ "." +:+ name +:+ " must be a value").

Definition clientYAMLRequireOptionalScalar (m : fields) (path name : string) : result unit :=
  match m !! name with
  | None => Ok tt
  | Some node =>
      if String.eqb (Tag node) "!!null" then Ok tt
      else guard_err (negb (is_kind ScalarNode node)) (path +:+ "." +:+ name +:+ " must be a value")
  end.

(** A mapping in which every name is a value. *)
Definition validateScalarMapping (node : option yamlNode) (path : string) (names : list string) : result unit :=
  m ← yamlMappingFields node path; each (yamlRequireScalar m path) names.
Definition validateClientScalarMapping (node : option yamlNode) (path : string) (names : list string) : result unit :=
  m ← clientYAMLMappingFields node path; each (clientYAMLRequireScalar m path) names.

(** A loop over the elements of a list, with their numbers. *)
Definition each_item (check : nat → yamlNode → result unit) (node : yamlNode) : result unit :=
  each (λ item, check item.1 item.2) (imap pair (Content node)).

Definition index_path (path : string) (i : nat) : string := path +:+ "[" +:+ Itoa (Z.of_nat i) +:+ "]".

(** ** What the checks mean *)

(** The node is a mapping with scalar keys, and [m] its fields. *)
Definition maps_to (node : option yamlNode) (m : fields) : Prop :=
  ∃ n, node = Some n ∧ Kind n = MappingNode ∧ (∀ kv, kv ∈ pairs (Content n) → Kind kv.1 = ScalarNode) ∧
       m = foldl (λ m kv, <[Value kv.1 := kv.2]> m) ∅ (pairs (Content n)).

Lemma each_ok_elem {A} (f : A → result unit) xs : each f xs = Ok tt ↔ ∀ x, x ∈ xs → f x = Ok tt.
Proof. by rewrite Prelude.each_ok, Forall_forall. Qed.

Lemma add_fields_ok path m kvs m' :
  fold_err (add_field path) m kvs = Ok m' ↔
  (∀ kv, kv ∈ kvs → Kind kv.1 = ScalarNode) ∧ m' = foldl (λ m kv, <[Value kv.1 := kv.2]> m) m kvs.
Proof.
  revert m. induction kvs as [|kv kvs IH]; intros m; cbn.
  { split; [intros [= ->]; split; [by intros ? []%not_elem_of_nil|done]|by intros [_ ->]]. }
  unfold add_field at 1, is_kind. setoid_rewrite elem_of_cons.
  destruct (decide (Kind kv.1 = ScalarNode)) as [E|E].
  - rewrite bool_decide_true by done. cbn. rewrite IH. naive_solver.
  - rewrite bool_decide_false by done. cbn. split; [done|]. intros [H _]. destruct E. auto.
Qed.

Lemma yamlMappingFields_ok node path m : yamlMappingFields node path = Ok m ↔ maps_to node m.
Proof.
  unfold yamlMappingFields, maps_to. destruct node as [n|]; [|split; [done|by intros (? & ? & _)]].
  unfold is_kind. destruct (decide (Kind n = MappingNode)) as [E|E].
  - rewrite bool_decide_true by done. cbn. rewrite add_fields_ok. naive_solver.
  - rewrite bool_decide_false by done. cbn. split; [done|]. intros (n' & [= <-] & ? & _). done.
Qed.

Lemma is_value_spec n : is_value n = true ↔ Kind n = ScalarNode ∧ Tag n ≠ "!!null".
Proof.
  unfold is_value, is_kind. rewrite andb_true_iff, bool_decide_eq_true, negb_true_iff, String.eqb_neq. done.
Qed.

(** The field is there and is a value. *)
Definition has_value (m : fields) (name : string) : Prop :=
  ∃ n, m !! name = Some n ∧ Kind n = ScalarNode ∧ Tag n ≠ "!!null".

Lemma yamlRequireScalar_ok m path name : yamlRequireScalar m path name = Ok tt ↔ has_value m name.
Proof.
  unfold yamlRequireScalar, yamlRequiredScalar, yamlRequiredField, has_value. destruct (m !! name) as [n|]; [|naive_solver].
  cbn. pose proof (is_value_spec n). destruct (is_value n); cbn; naive_solver.
Qed.

Lemma clientYAMLRequireScalar_ok m path name : clientYAMLRequireScalar m path name = Ok tt ↔ has_value m name.
Proof.
  unfold clientYAMLRequireScalar, clientYAMLRequiredField, yamlRequiredField, has_value, guard_err.
  destruct (m !! name) as [n|]; [|naive_solver].
  cbn. pose proof (is_value_spec n). destruct (is_value n); cbn; naive_solver.
Qed.

(** A mapping with a value under every name. *)
Definition scalar_mapping (node : option yamlNode) (names : list string) : Prop :=
  ∃ m, maps_to node m ∧ ∀ name, name ∈ names → has_value m name.

Lemma validateScalarMapping_ok node path names :
  validateScalarMapping node path names = Ok tt ↔ scalar_mapping node names.
Proof.
  unfold validateScalarMapping, scalar_mapping. pose proof (yamlMappingFields_ok node path) as Hm.
  destruct (yamlMappingFields node path) as [m|e]; cbn.
  - rewrite each_ok_elem. setoid_rewrite yamlRequireScalar_ok. split.
    + intros H. exists m. split; [by apply Hm|done].
    + intros (m' & Hm' & H). apply Hm in Hm'. by injection Hm' as <-.
  - split; [done|]. intros (m' & Hm' & _). by apply Hm in Hm'.
Qed.

(** A field that comes twice. *)
Definition distinct_keys (node : option yamlNode) : Prop :=
  ∃ n, node = Some n ∧ NoDup (map (Value ∘ fst) (pairs (Content n))).

Lemma fold_fields_lookup (kvs : list (yamlNode * yamlNode)) (m : fields) k :
  foldl (λ m kv, <[Value kv.1 := kv.2]> m) m kvs !! k = None ↔ m !! k = None ∧ k ∉ map (Value ∘ fst) kvs.
Proof.
  revert m. induction kvs as [|kv kvs IH]; intros m; cbn.
  { split; [intros H; split; [done|by intros []%not_elem_of_nil]|by intros [? _]]. }
  rewrite IH, lookup_insert_None, not_elem_of_cons. naive_solver.
Qed.

Lemma dup_field_refused path k kvs m m' :
  k ∈ map (Value ∘ fst) kvs → is_Some (m !! k) → fold_err (add_client_field path) m kvs ≠ Ok m'.
Proof.
  revert m. induction kvs as [|kv kvs IH]; intros m; [by intros []%not_elem_of_nil|].
  cbn [map fold_err]. intros Hk Hm. unfold add_client_field at 1. destruct (negb _); [done|].
  destruct (m !! Value kv.1) as [n|] eqn:E; [done|].
  apply elem_of_cons in Hk as [->|Hk]; [cbn in Hm; rewrite E in Hm; by destruct Hm|].
  apply IH; [done|]. rewrite lookup_insert_is_Some. destruct (decide (Value kv.1 = k)); auto.
Qed.

Lemma add_client_fields_ok path m kvs m' :
  (∀ k, k ∈ map (Value ∘ fst) kvs → m !! k = None) →
  fold_err (add_client_field path) m kvs = Ok m' ↔
  (∀ kv, kv ∈ kvs → Kind kv.1 = ScalarNode) ∧ NoDup (map (Value ∘ fst) kvs) ∧
  m' = foldl (λ m kv, <[Value kv.1 := kv.2]> m) m kvs.
Proof.
  revert m. induction kvs as [|kv kvs IH]; intros m Hfree; cbn.
  { split; [intros [= ->]; split_and!; [by intros ? []%not_elem_of_nil|apply NoDup_nil_2|done]|by intros (_ & _ & ->)]. }
  unfold add_client_field at 1, is_kind. setoid_rewrite elem_of_cons.
  destruct (decide (Kind kv.1 = ScalarNode)) as [E|E].
  2: { rewrite bool_decide_false by done. cbn. split; [done|]. intros [H _]. destruct E. auto. }
  rewrite bool_decide_true by done. cbn. rewrite (Hfree (Value kv.1)) by (by left).
  rewrite NoDup_cons. destruct (decide (Value kv.1 ∈ map (Value ∘ fst) kvs)) as [Hin|Hin].
  - split; [|naive_solver]. intros Hf. exfalso.
    apply (dup_field_refused path (Value kv.1) kvs (<[Value kv.1 := kv.2]> m) m' Hin); [|done].
    rewrite lookup_insert_eq. by eexists.
  - rewrite IH.
    + naive_solver.
    + intros k Hk. rewrite lookup_insert_ne by congruence. apply Hfree. by right.
Qed.

Lemma clientYAMLMappingFields_ok node path m :
  clientYAMLMappingFields node path = Ok m ↔ maps_to node m ∧ distinct_keys node.
Proof.
  unfold clientYAMLMappingFields, maps_to, distinct_keys. destruct node as [n|]; [|naive_solver].
  unfold is_kind. destruct (decide (Kind n = MappingNode)) as [E|E].
  - rewrite bool_decide_true by done. cbn. rewrite add_client_fields_ok by (intros; apply lookup_empty). naive_solver.
  - rewrite bool_decide_false by done. cbn. naive_solver.
Qed.

Definition client_scalar_mapping (node : option yamlNode) (names : list string) : Prop :=
  scalar_mapping node names ∧ distinct_keys node.

Lemma validateClientScalarMapping_ok node path names :
  validateClientScalarMapping node path names = Ok tt ↔ client_scalar_mapping node names.
Proof.
  unfold validateClientScalarMapping, client_scalar_mapping, scalar_mapping.
  pose proof (clientYAMLMappingFields_ok node path) as Hm.
  destruct (clientYAMLMappingFields node path) as [m|e]; cbn.
  - rewrite each_ok_elem. setoid_rewrite clientYAMLRequireScalar_ok. destruct (proj1 (Hm m) eq_refl) as [H1 H2]. split.
    + intros H. split; [by exists m|done].
    + intros [(m' & Hm' & H) _]. assert (Ok m = Ok m') as [= ->] by (by apply Hm). done.
  - split; [done|]. intros [(m' & Hm' & _) Hd]. discriminate (proj2 (Hm m') (conj Hm' Hd)).
Qed.

Lemma each_item_ok check node :
  each_item check node = Ok tt ↔ ∀ i n, Content node !! i = Some n → check i n = Ok tt.
Proof.
  unfold each_item. rewrite each_ok_elem. split.
  - intros H i n Hi. apply (H (i, n)). apply list_elem_of_lookup. exists i. by rewrite list_lookup_imap, Hi.
  - intros H [i n] Hin. apply list_elem_of_lookup in Hin as [j Hj]. rewrite list_lookup_imap in Hj.
    destruct (Content node !! j) as [n'|] eqn:E; [|done]. cbn in Hj. injection Hj as <- <-. by apply H.
Qed.

Lemma yamlRequireSequence_ok m path name n :
  yamlRequireSequence m path name = Ok n ↔ m !! name = Some n ∧ Kind n = SequenceNode.
Proof.
  unfold yamlRequireSequence, yamlRequiredField, is_kind. destruct (m !! name) as [n'|]; [|naive_solver].
  cbn. destruct (decide (Kind n' = SequenceNode)) as [E|E].
  - rewrite bool_decide_true by done. naive_solver.
  - rewrite bool_decide_false by done. naive_solver.
Qed.

Lemma has_field_value m path name n :
  yamlRequiredScalar m path name = Ok n ↔ m !! name = Some n ∧ is_value n = true.
Proof.
  unfold yamlRequiredScalar, yamlRequiredField. destruct (m !! name) as [n'|]; cbn; [|by split; [|intros []]].
  destruct (is_value n') eqn:E; cbn; split; intros H; [| |done|destruct H; congruence].
  - by injection H as <-.
  - destruct H; congruence.
Qed.

Lemma required_field_ok m path name :
  (_ ← yamlRequiredField m path name; Ok tt) = Ok tt ↔ is_Some (m !! name).
Proof. unfold yamlRequiredField. destruct (m !! name); cbn; [by split; [eexists|]|]. split; [done|intros []; done]. Qed.

Lemma maps_to_fun node m m' : maps_to node m → maps_to node m' → m = m'.
Proof. intros (n & -> & _ & _ & ->) (n' & [= <-] & _ & _ & ->). done. Qed.

Lemma seq_ok {A} (r : result unit) (k : result A) a : (_ ← r; k) = Ok a ↔ r = Ok tt ∧ k = Ok a.
Proof. destruct r as [[]|]; cbn; naive_solver. Qed.
