(* ===== verification/ServerUpgrade.v ===== *)
(** * Installed server configurations (src/server/tunnel/config_compat.go,
    config_forward.go, config.go)

    What an installation checks before it keeps a configuration that is already
    there: an unversioned file may have only the fields of the old schema, a
    versioned one must have every field of its version; both must be valid. *)

From S2P Require Import Prelude.
From S2P Require Import GoStd.
From S2P Require Import Disk.
From S2P Require Import Version.
From S2P Require Import Yaml.
From S2P Require Import ConfigData.
From S2P Require Import ServerConfig.
From S2P Require Import CredentialSeal.

#[local] Open Scope Z_scope.

Record legacyForwardV0 := mkLegacyForward {
  lf_Name : string; lf_Direction : string; lf_ListenAddr : string; lf_ServerTarget : string;
  lf_AllowedUsers : list string
}.

Record legacyServerConfigV0 := mkLegacyConfig {
  lc_ConfigVersion : Z; lc_ListenAddr : string; lc_MonitorAddr : string; lc_LogLevel : string; lc_TLS : TLSConfig;
  lc_Users : list UserConfig; lc_Forwards : list legacyForwardV0; lc_Security : SecurityConfig;
  lc_CredentialSealKeys : list CredentialSealKeyConfig; lc_Runtime : RuntimeConfig
}.

(** A decoder that refuses unknown fields: the value of the first document, and
    what decoding a second one gives: nothing at the end of the file, a document
    or an error. *)
Class YAMLStrict (A : Type) := {
  decode_known : string → result A;
  decode_next : string → option (result unit)
}.

Definition decodeStrictYAML {A} `{YAMLStrict A} (data : string) : result A :=
  out ← decode_known data;
  match decode_next data with
  | None => Ok out
  | Some (Ok _) => Err "config must contain exactly one YAML document"
  | Some (Err e) => Err e
  end.

Section Upgrade.
Context `{YAMLTree} `{YAMLStrict Config} `{YAMLStrict legacyServerConfigV0} `{YAMLCodec Config} `{LocalTime}.

(** [UnmarshalYAML] of a forward; [decode] is the library's decoding of the node. *)
Definition forwardUnmarshalYAML (decode : yamlNode → result ForwardConfig) (node : option yamlNode)
    : result ForwardConfig :=
  match node with
  | Some node =>
      if negb (is_kind MappingNode node) then Err "forward must be a mapping"
      else
        raw ← decode node;
        _ ← each (λ kv,
              if bool_decide (Value kv.1 ∈ ["name"; "direction"; "listen_port"; "listen_addr"; "server_target"; "allowed_users"])
              then Ok tt
              else Err ("forward " +:+ quote (fw_Name raw) +:+ " contains unknown field " +:+ quote (Value kv.1)))
            (pairs (Content node));
        Ok raw
  | None => Err "forward must be a mapping"
  end.

Definition decodeLegacyServerConfigV0 (data : string) : result Config :=
  legacy ← decodeStrictYAML (A := legacyServerConfigV0) data;
  Ok (mkConfig "" (lc_ConfigVersion legacy) (mkRequiresConfig "") (mkCompatibilityConfig "" "" 0)
        (lc_ListenAddr legacy) (lc_MonitorAddr legacy) (lc_LogLevel legacy) (lc_TLS legacy) (lc_Users legacy)
        (map (λ f, mkForwardConfig (lf_Name f) (lf_Direction f) 0 (lf_ListenAddr f) (lf_ServerTarget f)
                     (lf_AllowedUsers f)) (lc_Forwards legacy))
        (lc_Security legacy) (lc_CredentialSealKeys legacy) (lc_Runtime legacy)).

(** The version and whether there is one. *)
Definition serverConfigSchemaVersion (data : string) : result (Z * bool) :=
  root ← yamlRootMapping "server config" data;
  m ← yamlMappingFields (Some root) "server config";
  match m !! "config_version" with
  | None => Ok (0, false)
  | Some node =>
      if negb (is_value node) then Err "server config config_version must be a number"
      else match node_int node with
           | Err e => Err ("server config config_version is invalid: " +:+ e)
           | Ok version => Ok (version, true)
           end
  end.

(** A list of mappings under a name. *)
Definition validateAuthUsers (node : option yamlNode) : result unit :=
  m ← yamlMappingFields node "server config.auth";
  users ← yamlRequireSequence m "server config.auth" "users";
  each_item (λ i user, validateScalarMapping (Some user) (index_path "server config.auth.users" i)
                         ["username"; "password_hash"; "disabled"]) users.

Definition validateForwardV1 (path : string) (forward : yamlNode) : result unit :=
  m ← yamlMappingFields (Some forward) path;
  _ ← each (λ name, _ ← yamlRequiredField m path name; Ok tt) ["name"; "direction"; "allowed_users"];
  _ ← yamlRequireScalar m path "name";
  direction ← yamlRequiredScalar m path "direction";
  users ← yamlRequireSequence m path "allowed_users";
  _ ← each_item (λ userIndex user, guard_err (negb (is_value user))
                   (index_path (path +:+ ".allowed_users") userIndex +:+ " must be a value")) users;
  let kind := TrimSpace (Value direction) in
  if String.eqb kind DirectionClientToServer then yamlRequireScalar m path "server_target"
  else if String.eqb kind DirectionServerToClient then
    match m !! "listen_port" with
    | None => yamlRequireScalar m path "listen_addr"
    | Some _ => yamlRequireScalar m path "listen_port"
    end
  else Ok tt.

(** The node is there: it is a required field of its caller. *)
Definition validateForwardsV1 (node : option yamlNode) : result unit :=
  match node with
  | Some node =>
      if negb (is_kind SequenceNode node) then Err "server config.forwards must be a list"
      else each_item (λ i forward, validateForwardV1 (index_path "server config.forwards" i) forward) node
  | None => Err "server config.forwards must be a list"
  end.

Definition validateCredentialSealKeys (node : option yamlNode) : result unit :=
  m ← yamlMappingFields node "server config.credential_seal";
  keys ← yamlRequireSequence m "server config.credential_seal" "keys";
  each_item (λ i key, validateScalarMapping (Some key) (index_path "server config.credential_seal.keys" i)
                        ["key_id"; "private_key_file"; "public_key_file"; "expires_at"; "active"]) keys.

Definition v1_top : list string :=
  ["config_version"; "requires"; "compatibility"; "listen_addr"; "monitor_addr"; "log_level";
   "tls"; "auth"; "forwards"; "security"; "credential_seal"; "runtime"].
Definition v1_scalars : list string := ["config_version"; "listen_addr"; "monitor_addr"; "log_level"].
Definition v1_compatibility : list string := ["min_client_version"; "max_client_version"; "protocol_version"].
Definition v1_tls : list string := ["cert_file"; "key_file"; "min_version"].
Definition v1_security : list string :=
  ["handshake_timeout_sec"; "dial_timeout_sec"; "max_handshake_bytes";
   "max_concurrent_connections"; "max_concurrent_connections_per_ip";
   "connection_rate_window_sec"; "max_new_connections_per_ip_window";
   "max_concurrent_streams_per_user"; "stream_rate_limit_bytes_per_sec";
   "auth_fail_window_sec"; "auth_fail_threshold"; "auth_fail_block_sec"].
Definition v1_runtime : list string :=
  ["state_file"; "permanent_block_file"; "request_log_file"; "business_log_file";
   "entry_traffic_log_file"; "flow_traffic_log_file"; "recent_events"].

Definition validateServerConfigV1Structure (data : string) : result unit :=
  root ← yamlRootMapping "server config" data;
  top ← yamlMappingFields (Some root) "server config";
  _ ← each (λ name, _ ← yamlRequiredField top "server config" name; Ok tt) v1_top;
  _ ← each (yamlRequireScalar top "server config") v1_scalars;
  _ ← validateScalarMapping (top !! "requires") "server config.requires" ["min_server_version"];
  _ ← validateScalarMapping (top !! "compatibility") "server config.compatibility" v1_compatibility;
  _ ← validateScalarMapping (top !! "tls") "server config.tls" v1_tls;
  _ ← validateAuthUsers (top !! "auth");
  _ ← validateForwardsV1 (top !! "forwards");
  _ ← validateScalarMapping (top !! "security") "server config.security" v1_security;
  _ ← validateCredentialSealKeys (top !! "credential_seal");
  validateScalarMapping (top !! "runtime") "server config.runtime" v1_runtime.

(** ** The shape of a version 1 configuration *)

(** A list under a name of a mapping, every element of which is good. *)
Definition list_field (m : fields) (name : string) (good : yamlNode → Prop) : Prop :=
  ∃ n, m !! name = Some n ∧ Kind n = SequenceNode ∧ ∀ x, x ∈ Content n → good x.

Definition user_shape (user : yamlNode) : Prop :=
  scalar_mapping (Some user) ["username"; "password_hash"; "disabled"].
Definition key_shape (key : yamlNode) : Prop :=
  scalar_mapping (Some key) ["key_id"; "private_key_file"; "public_key_file"; "expires_at"; "active"].

(** A forward has a target or a place to listen by its direction. *)
Definition forward_shape (forward : yamlNode) : Prop :=
  ∃ m direction, maps_to (Some forward) m ∧ has_value m "name" ∧
    m !! "direction" = Some direction ∧ is_value direction = true ∧
    list_field m "allowed_users" (λ user, is_value user = true) ∧
    (TrimSpace (Value direction) = DirectionClientToServer → has_value m "server_target") ∧
    (TrimSpace (Value direction) = DirectionServerToClient →
       has_value m "listen_port" ∨ m !! "listen_port" = None ∧ has_value m "listen_addr").

Definition v1_shape (root : yamlNode) : Prop :=
  ∃ top auth seal,
    maps_to (Some root) top ∧ (∀ name, name ∈ v1_scalars → has_value top name) ∧
    scalar_mapping (top !! "requires") ["min_server_version"] ∧
    scalar_mapping (top !! "compatibility") v1_compatibility ∧
    scalar_mapping (top !! "tls") v1_tls ∧
    (maps_to (top !! "auth") auth ∧ list_field auth "users" user_shape) ∧
    list_field top "forwards" forward_shape ∧
    scalar_mapping (top !! "security") v1_security ∧
    (maps_to (top !! "credential_seal") seal ∧ list_field seal "keys" key_shape) ∧
    scalar_mapping (top !! "runtime") v1_runtime.

Lemma items_ok (check : nat → yamlNode → result unit) (good : yamlNode → Prop) node :
  (∀ i n, check i n = Ok tt ↔ good n) → each_item check node = Ok tt ↔ ∀ x, x ∈ Content node → good x.
Proof.
  intros Hc. rewrite each_item_ok. setoid_rewrite Hc. split.
  - intros Hg x [i Hi]%list_elem_of_lookup. by apply (Hg i).
  - intros Hg i n Hi. apply Hg. by eapply list_elem_of_lookup_2.
Qed.

Lemma list_in_mapping_ok node path name check (good : yamlNode → Prop) :
  (∀ i n, check i n = Ok tt ↔ good n) →
  (m ← yamlMappingFields node path; items ← yamlRequireSequence m path name; each_item check items) = Ok tt ↔
  ∃ m, maps_to node m ∧ list_field m name good.
Proof.
  intros Hc. rewrite bind_ok. setoid_rewrite bind_ok. setoid_rewrite yamlMappingFields_ok.
  setoid_rewrite yamlRequireSequence_ok. setoid_rewrite (items_ok check good _ Hc). unfold list_field. naive_solver.
Qed.

Lemma direction_field_ok m path kind :
  (if String.eqb kind DirectionClientToServer then yamlRequireScalar m path "server_target"
   else if String.eqb kind DirectionServerToClient then
     match m !! "listen_port" with
     | None => yamlRequireScalar m path "listen_addr"
     | Some _ => yamlRequireScalar m path "listen_port"
     end
   else Ok tt) = Ok tt ↔
  (kind = DirectionClientToServer → has_value m "server_target") ∧
  (kind = DirectionServerToClient → has_value m "listen_port" ∨ m !! "listen_port" = None ∧ has_value m "listen_addr").
Proof.
  destruct (String.eqb_spec kind DirectionClientToServer) as [->|N1].
  { rewrite yamlRequireScalar_ok. split; [|naive_solver]. intros Hv. split; [done|]. intros [=]. }
  destruct (String.eqb_spec kind DirectionServerToClient) as [->|N2]; [|naive_solver].
  destruct (m !! "listen_port") as [n|] eqn:E; rewrite yamlRequireScalar_ok; [naive_solver|].
  split; [naive_solver|]. intros [_ Hv]. destruct (Hv eq_refl) as [(n & Hn & _)|[_ ?]]; [congruence|done].
Qed.

Lemma validateForwardV1_ok path forward : validateForwardV1 path forward = Ok tt ↔ forward_shape forward.
Proof.
  assert (∀ p u, each_item (λ i user, guard_err (negb (is_value user)) (p i)) u = Ok tt ↔
            ∀ x, x ∈ Content u → (λ user, is_value user = true) x) as Hu.
  { intros p u. apply items_ok. intros i n. rewrite guard_err_ok. by destruct (is_value n). }
  unfold validateForwardV1, forward_shape, list_field. split.
  - intros (m & Hm%yamlMappingFields_ok & Hs)%bind_ok. apply seq_ok in Hs as [_ Hs].
    apply seq_ok in Hs as [Hn%yamlRequireScalar_ok Hs]. apply bind_ok in Hs as (d & [Hd Hv]%has_field_value & Hs).
    apply bind_ok in Hs as (u & Hus%yamlRequireSequence_ok & Hs). apply seq_ok in Hs as [Hi Hs].
    apply direction_field_ok in Hs as [H1' H2']. destruct Hus. rewrite Hu in Hi. eauto 14.
  - intros (m & d & Hm & Hn & Hd & Hv & (u & Hus & Hk & Hi) & H1' & H2').
    apply bind_ok. exists m. split; [by apply yamlMappingFields_ok|]. apply seq_ok. split.
    { apply each_ok_elem. intros name Hin. apply required_field_ok. destruct Hn as (n & Hn & _).
      repeat (apply elem_of_cons in Hin as [->|Hin]); [by eexists..|by apply not_elem_of_nil in Hin]. }
    apply seq_ok. split; [by apply yamlRequireScalar_ok|]. apply bind_ok. exists d. split; [by apply has_field_value|].
    apply bind_ok. exists u. split; [by apply yamlRequireSequence_ok|]. apply seq_ok.
    split; [by apply Hu|by apply direction_field_ok].
Qed.

Lemma validateForwardsV1_ok top : validateForwardsV1 (top !! "forwards") = Ok tt ↔ list_field top "forwards" forward_shape.
Proof.
  unfold validateForwardsV1, list_field, is_kind. destruct (top !! "forwards") as [n|] eqn:E; [|naive_solver].
  destruct (decide (Kind n = SequenceNode)) as [Ek|Ek].
  - rewrite bool_decide_true by done. cbn. rewrite (items_ok _ forward_shape) by (intros; apply validateForwardV1_ok).
    naive_solver.
  - rewrite bool_decide_false by done. naive_solver.
Qed.

Lemma scalar_mapping_there node names : scalar_mapping node names → is_Some node.
Proof. intros (m & (n & -> & _) & _). by eexists. Qed.

Lemma maps_to_there node m : maps_to node m → is_Some node.
Proof. intros (n & -> & _). by eexists. Qed.

(** The checks accept exactly the mappings of the shape: the names the first
    loop asks for are among those the later checks ask for. *)
Theorem v1_structure_exact data :
  validateServerConfigV1Structure data = Ok tt ↔
  ∃ root, yamlRootMapping "server config" data = Ok root ∧ v1_shape root.
Proof.
  unfold validateServerConfigV1Structure, v1_shape, validateAuthUsers, validateCredentialSealKeys.
  rewrite bind_ok. apply exist_proper. intros root. split.
  - intros [Hroot (top & Htop%yamlMappingFields_ok & Hs)%bind_ok]. 
    apply seq_ok in Hs as [_ H9]. apply seq_ok in H9 as [Hs H9]. apply seq_ok in H9 as [Hr H9].
    apply seq_ok in H9 as [Hc H9]. apply seq_ok in H9 as [Ht H9]. apply seq_ok in H9 as [Ha H9].
    apply seq_ok in H9 as [Hf H9]. apply seq_ok in H9 as [Hsec H9]. apply seq_ok in H9 as [Hk Hrun].
    rewrite each_ok_elem in Hs. setoid_rewrite yamlRequireScalar_ok in Hs.
    rewrite validateScalarMapping_ok in Hr, Hc, Ht, Hsec, Hrun. rewrite validateForwardsV1_ok in Hf.
    apply (list_in_mapping_ok _ _ _ _ user_shape) in Ha as [auth Ha]; [|intros; apply validateScalarMapping_ok].
    apply (list_in_mapping_ok _ _ _ _ key_shape) in Hk as [seal Hk]; [|intros; apply validateScalarMapping_ok].
    split; [done|]. exists top, auth, seal. split_and!; done || apply Ha || apply Hk.
  - intros (Hroot & top & auth & seal & Htop & Hs & Hr & Hc & Ht & Ha & Hf & Hsec & Hk & Hrun).
    split; [done|]. apply bind_ok. exists top. split; [by apply yamlMappingFields_ok|].
    apply seq_ok. split.
    { assert (∀ name, has_value top name → is_Some (top !! name)) as Hv by (intros name (n & -> & _); by eexists).
      destruct Ha as [Ha _], Hf as (forwards & Hf & _), Hk as [Hk _].
      apply each_ok_elem. intros name Hin. apply required_field_ok.
      repeat (apply elem_of_cons in Hin as [->|Hin]); [..|by apply not_elem_of_nil in Hin];
        eauto using scalar_mapping_there, maps_to_there; apply Hv, Hs; set_solver. }
    apply seq_ok. split; [apply each_ok_elem; intros; by apply yamlRequireScalar_ok, Hs|].
    do 3 (apply seq_ok; split; [by apply validateScalarMapping_ok|]).
    apply seq_ok. split; [apply (list_in_mapping_ok _ _ _ _ user_shape); [intros; apply validateScalarMapping_ok|eauto]|].
    apply seq_ok. split; [by apply validateForwardsV1_ok|].
    apply seq_ok. split; [by apply validateScalarMapping_ok|].
    apply seq_ok. split; [apply (list_in_mapping_ok _ _ _ _ key_shape); [intros; apply validateScalarMapping_ok|eauto]|].
    by apply validateScalarMapping_ok.
Qed.

(** The decoding of a file by its version. *)
Definition decode_installed (data : string) (version : Z) (hasVersion : bool) : result Config :=
  if negb hasVersion || (version =? 0) then decodeLegacyServerConfigV0 data
  else if version =? ServerConfigVersion then
    cfg ← decodeStrictYAML (A := Config) data;
    _ ← validateServerConfigV1Structure data;
    Ok cfg
  else
    let cfg := mkConfig "" version (mkRequiresConfig "") (mkCompatibilityConfig "" "" 0) "" "" ""
                 (mkTLSConfig "" "" "") [] [] zeroSecurity [] (mkRuntimeConfig "" "" "" "" "" "" 0) in
    _ ← ValidateConfigVersion cfg;
    Ok cfg.

Definition CheckConfigUpgradeCompatible (d : Disk) (path : string) : result unit :=
  data ← wrap_err "read installed server config" (read_file d path);
  '(version, hasVersion) ← wrap_err "parse installed server config structure" (serverConfigSchemaVersion data);
  cfg ← wrap_err "installed server config is not compatible with this server version"
          (decode_installed data version hasVersion);
  wrap_err "installed server config is not valid for this server version" (ValidateConfig (ApplyDefaults cfg)).

(** A first installation gets one new key of its own, without key files. *)
Definition fresh_keys (now : Time) (keys : list CredentialSealKeyConfig) : list CredentialSealKeyConfig :=
  let template := rawCredentialPathTemplate keys in
  let privateDir := Dir (TrimSpace (ck_PrivateKeyFile template)) in
  let publicDir := Dir (TrimSpace (ck_PublicKeyFile template)) in
  let privateDir := if String.eqb privateDir "" || String.eqb privateDir "." then "../certs" else privateDir in
  let publicDir := if String.eqb publicDir "" || String.eqb publicDir "." then privateDir else publicDir in
  let keyID := "login-key-" +:+ FormatMonth now in
  [mkCredentialSealKeyConfig keyID (JoinPath privateDir (keyID +:+ ".key")) (JoinPath publicDir (keyID +:+ ".pub"))
     (FormatRFC3339 (AddMonths now 3)) true].

Definition PrepareFreshInstallConfig (d : Disk) (path : string) (now : Time) : Disk * result unit :=
  match cfg ← (data ← read_file d path; yaml_unmarshal data);
        let cfg := ApplyDefaults cfg in
        let cfg := with_seal_keys cfg (fresh_keys now (cfg_CredentialSealKeys cfg)) in
        _ ← ValidateConfig cfg; Ok cfg with
  | Err e => (d, Err e)
  | Ok cfg => SaveConfig d path cfg
  end.
End Upgrade.
