(* ===== verification/VirtualAddress.v ===== *)
(** * Virtual entry addresses (src/client/tunnel/config.go,
    certificate_policy.go)

    A virtual forward listens on an address of the server that the client takes
    over. The address must be written as [:port] or [IPv4:port], and it must be
    one the certificate of the server names: this file models the reading of the
    address and the policy the certificate states. *)

From stdpp Require Import sorting.
From S2P Require Import Prelude.
From S2P Require Import GoStd.
From S2P Require Import Disk.
From S2P Require Import Netaddr.
From S2P Require Import Protocol.
From S2P Require Import GoCrypto.

#[local] Open Scope Z_scope.

(** ** Reading an address *)

(** [IP.To4] on an address of either length, and [IP.String] of four bytes. *)
Definition to4 (ip : list Z) : option (list Z) :=
  if (length ip =? 4)%nat then Some ip else if (length ip =? 16)%nat then To4 ip else None.
Definition ipv4_text (b : list Z) : string := Join (map Itoa b) ".".

Definition normalizeVirtualIPv4 (value : string) : result (list Z) :=
  match ParseIP (TrimSpace value) with
  | None => Err "virtual listen_addr does not support domain names; use an IPv4 address from the server certificate SAN"
  | Some ip =>
      match To4 ip with
      | None => Err "virtual listen_addr host must be an IPv4 address"
      | Some b =>
          if Contains value ":" then Err "virtual listen_addr host must be an IPv4 address"
          else if (byte_at b 0 =? 0) || (224 <=? byte_at b 0) || IsLoopback ip || IsLinkLocalUnicast ip
          then Err "virtual listen_addr host must be a usable non-local IPv4 address"
          else Ok b
      end
  end.

(** The host is empty or in canonical form. *)
Definition parseVirtualListenAddr (value : string) : result (string * Z) :=
  match SplitHostPort (TrimSpace value) with
  | Err _ => Err "virtual listen_addr must use :port or IPv4:port"
  | Ok (host, port) =>
      let host := Trim (TrimSpace host) "[]" in
      host ← (if String.eqb host "" then Ok "" else ipv4_text <$> normalizeVirtualIPv4 host);
      let bad := Err "virtual listen_addr port must be between 1 and 65535" in
      match Atoi port with
      | Some n => if (n <? 1) || (65535 <? n) then bad else Ok (host, n)
      | None => bad
      end
  end.

Example virtual_addresses :
  map parseVirtualListenAddr [":443"; "10.0.0.7:443"; " 10.0.0.7:443 "; "127.0.0.1:443"; "[::ffff:10.0.0.7]:443";
                              "web.local:443"; "169.254.1.1:1"; "224.0.0.1:1"; "10.0.0.7:0"; "443"]
  = [Ok ("", 443); Ok ("10.0.0.7", 443); Ok ("10.0.0.7", 443);
     Err "virtual listen_addr host must be a usable non-local IPv4 address";
     Err "virtual listen_addr host must be an IPv4 address";
     Err "virtual listen_addr does not support domain names; use an IPv4 address from the server certificate SAN";
     Err "virtual listen_addr host must be a usable non-local IPv4 address";
     Err "virtual listen_addr host must be a usable non-local IPv4 address";
     Err "virtual listen_addr port must be between 1 and 65535";
     Err "virtual listen_addr must use :port or IPv4:port"].
Proof. vm_compute. reflexivity. Qed.

(** ** What the certificate allows *)

(** The IP addresses [crypto/x509] finds in a certificate. *)
Class CertificateIPs := ParseCertificateIPs : chars → result (list (list Z)).

Section Policy.
Context `{PEM} `{CertificateIPs}.

Definition add_ipv4 (seen : gset string) (ip : list Z) : gset string :=
  match to4 ip with Some b => {[ ipv4_text b ]} ∪ seen | None => seen end.

(** The loop over the PEM blocks: how many certificates there were and their
    IPv4 addresses. Each block is shorter than the data it was found in, so the
    length of the data is fuel enough. *)
Fixpoint certificate_loop (fuel : nat) (data : chars) (certificates : Z) (seen : gset string)
    : result (Z * gset string) :=
  match fuel, data with
  | O, _ | _, [] => Ok (certificates, seen)
  | S fuel, _ =>
      match pem_Decode data with
      | None => Ok (certificates, seen)
      | Some (type, bytes, rest) =>
          if negb (String.eqb type "CERTIFICATE") then certificate_loop fuel rest certificates seen
          else match ParseCertificateIPs bytes with
          | Err e => Err ("parse virtual forwarding certificate policy: " +:+ e)
          | Ok ips => certificate_loop fuel rest (certificates + 1) (foldl add_ipv4 seen ips)
          end
      end
  end.

Definition certificateIPv4SANs (d : Disk) (path : string) : result (list string) :=
  let path := TrimSpace path in
  if String.eqb path "" then Err "tls.ca_cert_file is required to authorize virtual forwarding addresses"
  else match read_file d path with
  | Err e => Err ("read virtual forwarding certificate policy: " +:+ e)
  | Ok data =>
      let data := to_chars data in
      '(certificates, seen) ← certificate_loop (length data) data 0 ∅;
      if certificates =? 0 then Err "no certificate found in tls.ca_cert_file for virtual forwarding"
      else if decide (seen = ∅) then Err "server certificate has no IPv4 SAN for virtual forwarding"
      else Ok (merge_sort string_le (elements seen))
  end.

Record virtualAddressResolver := mkResolver {
  vr_serverAddr : string;
  vr_allowed : gset string;
  vr_candidates : list string
}.

(** [caCertFile] and [serverAddr] are the fields of the configuration. *)
Definition newVirtualAddressResolver (d : Disk) (caCertFile serverAddr : string) : result virtualAddressResolver :=
  allowedValues ← certificateIPv4SANs d caCertFile;
  Ok (mkResolver (TrimSpace serverAddr) (list_to_set allowedValues)
        (filter (λ value, is_ok (normalizeVirtualIPv4 value) = true) allowedValues)).

(** The address of the server itself when the certificate names it, else the
    only usable address. *)
Definition server_ip (r : virtualAddressResolver) : option string :=
  match SplitHostPort (vr_serverAddr r) with
  | Err _ => None
  | Ok (host, _) =>
      match normalizeVirtualIPv4 (Trim (TrimSpace host) "[]") with
      | Err _ => None
      | Ok b => if decide (ipv4_text b ∈ vr_allowed r) then Some (ipv4_text b) else None
      end
  end.

Definition automaticIP (r : virtualAddressResolver) : result string :=
  match server_ip r with
  | Some value => Ok value
  | None =>
      match vr_candidates r with
      | [] => Err "server certificate has no usable non-local IPv4 SAN for automatic virtual forwarding"
      | [value] => Ok value
      | _ => Err "server certificate has multiple usable IPv4 SANs; specify virtual listen_addr as IPv4:port"
      end
  end.

Definition resolve (r : option virtualAddressResolver) (host : string) (port : Z) : result string :=
  match r with
  | None => Err "virtual address resolver is unavailable"
  | Some r =>
      if String.eqb host "" then host ← automaticIP r; Ok (JoinHostPort host (Itoa port))
      else if decide (host ∈ vr_allowed r) then Ok (JoinHostPort host (Itoa port))
      else Err ("virtual listen_addr " +:+ JoinHostPort host (Itoa port)
                +:+ " is not authorized by the server certificate IPv4 SAN")
  end.

Definition VirtualForwardAddr (d : Disk) (caCertFile serverAddr listenAddr : string) : result string :=
  '(host, port) ← parseVirtualListenAddr listenAddr;
  resolver ← newVirtualAddressResolver d caCertFile serverAddr;
  resolve (Some resolver) host port.
End Policy.

(** ** Lemmas on the addresses *)

(** An address a virtual forward may stand for: not 0.x, loopback, link-local,
    multicast or reserved. *)
Definition usable (b : list Z) : Prop :=
  ∃ x y z w, b = [x; y; z; w] ∧ octet x ∧ octet y ∧ octet z ∧ octet w ∧
    1 ≤ x < 224 ∧ x ≠ 127 ∧ ¬ (x = 169 ∧ y = 254).

Lemma parseIPv4Fields_octets val digLen prevDot fields l b :
  0 ≤ val ≤ 255 → Forall octet fields → parseIPv4Fields val digLen prevDot fields l = Some b →
  length b = 4%nat ∧ Forall octet b.
Proof.
  revert val digLen prevDot fields. induction l as [|c l IH]; intros val n pd fields Hv Hf; cbn.
  - destruct (Nat.eqb_spec (length fields) 3) as [E|]; [|done]. intros [= <-].
    rewrite length_app, E, Forall_app. split; [done|]. split; [done|]. by apply Forall_singleton.
  - destruct (digit_of c) as [d|] eqn:Ed.
    + destruct (_ && _); [done|]. destruct (Z.ltb_spec 255 (val * 10 + d)); [done|]. apply IH; [|done].
      unfold digit_of in Ed. destruct (_ && _) eqn:Er in Ed; [|done]. injection Ed as <-. bool_lia.
    + destruct (Ascii.eqb c dot); [|done]. destruct (_ || _); [done|].
      destruct (length fields =? 3)%nat; [done|]. apply IH; [lia|].
      apply Forall_app. split; [done|]. by apply Forall_singleton.
Qed.

Lemma parse_addr_kind_v4 whole l a :
  has_char colon l = false → parse_addr_kind whole l = Some a → ∃ b, a = Addr4 b ∧ parseIPv4 whole = Some b.
Proof.
  unfold has_char. induction l as [|c l IH]; [done|]. cbn [existsb parse_addr_kind].
  intros [Hc Hl]%orb_false_iff.
  destruct (Ascii.eqb c dot).
  { destruct (parseIPv4 whole) as [b|]; [|done]. intros [= <-]. by exists b. }
  rewrite Ascii.eqb_sym in Hc. rewrite Hc. destruct (Ascii.eqb c percent); [done|auto].
Qed.

Lemma Contains_char s c : Contains s (String c "") = has_char c (to_chars s).
Proof.
  induction s as [|x s IH]; [done|]. cbn [Contains to_chars String.list_ascii_of_string].
  fold (to_chars s). cbn [has_char existsb]. rewrite IH. f_equal. cbn.
  destruct (Ascii.ascii_dec c x) as [->|Hne]; cbn.
  - rewrite Ascii.eqb_refl. by destruct s.
  - symmetry. by apply Ascii.eqb_neq.
Qed.

Lemma has_char_cons c x l : has_char c (x :: l) = Ascii.eqb c x || has_char c l.
Proof. done. Qed.

Lemma TrimSpace_no_char c s : has_char c (to_chars s) = false → has_char c (to_chars (TrimSpace s)) = false.
Proof.
  intros Hs. unfold TrimSpace. rewrite to_of_chars.
  destruct (trim_front_suffix utf8_spaces (length (to_chars s)) (to_chars s)) as [p Hp].
  change (trim_front utf8_spaces (length (to_chars s)) (to_chars s)) with (trim_left (to_chars s)) in Hp.
  destruct (trim_right_prefix (trim_left (to_chars s))) as [r Hr].
  rewrite Hp, Hr, !has_char_app in Hs. by apply orb_false_iff in Hs as [_ [? _]%orb_false_iff].
Qed.

Lemma normalizeVirtualIPv4_usable value b : normalizeVirtualIPv4 value = Ok b → usable b.
Proof.
  unfold normalizeVirtualIPv4, ParseIP, ParseAddr.
  destruct (parse_addr_kind _ _) as [a|] eqn:Ea; [|done].
  destruct (Contains value ":") eqn:Ec.
  { destruct a as [|? zone]; [|destruct (String.eqb zone ""); [|done]]; by destruct (To4 _). }
  change ":" with (String colon "") in Ec. rewrite Contains_char in Ec.
  apply parse_addr_kind_v4 in Ea as (b' & -> & Hb); [|by apply TrimSpace_no_char].
  unfold parseIPv4 in Hb. destruct (to_chars (TrimSpace value)); [done|].
  apply parseIPv4Fields_octets in Hb as [Hl Ho]; [|lia|done].
  destruct b' as [|x [|y [|z [|w [|]]]]]; try done.
  do 4 (apply Forall_cons in Ho as [? Ho]).
  unfold To4, IsLoopback, IsLinkLocalUnicast. change (take 12 (v4InV6Prefix ++ [x; y; z; w])) with v4InV6Prefix.
  unfold To4. change (take 12 (v4InV6Prefix ++ [x; y; z; w])) with v4InV6Prefix.
  rewrite bool_decide_true by done. cbn.
  destruct (_ || _) eqn:E; [done|]. intros [= <-]. exists x, y, z, w. unfold octet in *.
  split_and!; try done; try bool_lia.
Qed.

Lemma normalizeVirtualIPv4_text b : usable b → normalizeVirtualIPv4 (ipv4_text b) = Ok b.
Proof.
  intros (x & y & z & w & -> & Hx & Hy & Hz & Hw & Hr & Hlo & Hll).
  change (ipv4_text [x; y; z; w]) with (dotted x y z w). unfold normalizeVirtualIPv4.
  destruct (dotted_text x y z w Hx Hy Hz Hw) as (-> & _). rewrite ParseIP_dotted by done.
  unfold To4. change (take 12 (v4InV6Prefix ++ [x; y; z; w])) with v4InV6Prefix.
  rewrite bool_decide_true by done.
  assert (Contains (dotted x y z w) ":" = false) as ->.
  { change ":" with (String colon ""). rewrite Contains_char, to_chars_dotted.
    assert (∀ n, octet n → has_char colon (to_chars (Itoa n)) = false) as Hn.
    { intros n Hn. pose proof (Itoa_digits n (proj1 Hn)) as Hd.
      induction Hd as [|c l Hc Hl IH]; [done|]. rewrite has_char_cons, IH, orb_false_r.
      apply Ascii.eqb_neq. intros <-. done. }
    rewrite ?has_char_app, ?has_char_cons, ?has_char_app, ?has_char_cons, ?has_char_app, ?has_char_cons.
    by rewrite !Hn. }
  unfold IsLoopback, IsLinkLocalUnicast, To4.
  change (take 12 (v4InV6Prefix ++ [x; y; z; w])) with v4InV6Prefix. rewrite bool_decide_true by done. cbn.
  replace ((x =? 0) || (224 <=? x) || (x =? 127) || (x =? 169) && (y =? 254)) with false; [done|].
  symmetry. apply not_true_iff_false. intros H. bool_lia.
Qed.

(** ** Which addresses are taken over *)

Section Authorized.
Context `{PEM} `{CertificateIPs}.

Lemma certificateIPv4SANs_nodup d path sans : certificateIPv4SANs d path = Ok sans → NoDup sans.
Proof.
  unfold certificateIPv4SANs. destruct (String.eqb _ _); [done|]. destruct (read_file _ _); [|done].
  destruct (certificate_loop _ _ _ _) as [[n seen]|]; [|done]. cbn.
  destruct (n =? 0); [done|]. case_decide; [done|]. intros [= <-].
  rewrite merge_sort_Permutation. apply NoDup_elements.
Qed.

Lemma parseVirtualListenAddr_ok listen host port :
  parseVirtualListenAddr listen = Ok (host, port) →
  1 ≤ port ≤ 65535 ∧ (host = "" ∨ ∃ b, usable b ∧ host = ipv4_text b).
Proof.
  unfold parseVirtualListenAddr. destruct (SplitHostPort _) as [[h p]|]; [|done].
  destruct (String.eqb (Trim _ _) "").
  - cbn. destruct (Atoi p) as [n|]; [|done]. destruct (_ || _) eqn:E; [done|]. intros [= <- <-].
    split; [bool_lia|by left].
  - destruct (normalizeVirtualIPv4 _) as [b|] eqn:Eb; [|done]. cbn.
    destruct (Atoi p) as [n|]; [|done]. destruct (_ || _) eqn:E; [done|]. intros [= <- <-].
    split; [bool_lia|]. right. exists b. split; [|done]. by eapply normalizeVirtualIPv4_usable.
Qed.

(** The text of an address a virtual forward may stand for. *)
Definition names_usable (value : string) : Prop := ∃ b, normalizeVirtualIPv4 value = Ok b ∧ usable b.

Lemma candidate_usable value : is_ok (normalizeVirtualIPv4 value) = true ↔ names_usable value.
Proof.
  unfold names_usable. destruct (normalizeVirtualIPv4 value) as [b|] eqn:E; cbn; split; try done.
  - intros _. exists b. split; [done|]. by eapply normalizeVirtualIPv4_usable.
  - by intros (b & ? & _).
Qed.

(** The address the server is reached at, when it is usable. *)
Definition server_address (serverAddr : string) : option string :=
  match SplitHostPort (TrimSpace serverAddr) with
  | Err _ => None
  | Ok (host, _) => match normalizeVirtualIPv4 (Trim (TrimSpace host) "[]") with
                    | Err _ => None
                    | Ok b => Some (ipv4_text b)
                    end
  end.

(** What [:port] stands for: the address of the server itself, or else the only
    usable address of the certificate. *)
Definition automatic (sans : list string) (serverAddr value : string) : Prop :=
  server_address serverAddr = Some value ∨
  (∀ v, server_address serverAddr = Some v → v ∉ sans) ∧ names_usable value ∧
  ∀ v, v ∈ sans → names_usable v → v = value.

Lemma server_ip_spec sans serverAddr cs value :
  server_ip (mkResolver (TrimSpace serverAddr) (list_to_set sans) cs) = Some value ↔
  server_address serverAddr = Some value ∧ value ∈ sans.
Proof.
  unfold server_ip, server_address. cbn. destruct (SplitHostPort _) as [[host p]|]; [|naive_solver].
  destruct (normalizeVirtualIPv4 _) as [b|]; [|naive_solver].
  case_decide as Hd; rewrite elem_of_list_to_set in Hd; naive_solver.
Qed.

Lemma filter_single (P : string → Prop) `{∀ x, Decision (P x)} (l : list string) (v : string) :
  NoDup l → filter P l = [v] ↔ v ∈ l ∧ P v ∧ ∀ w, w ∈ l → P w → w = v.
Proof.
  intros Hnd. split.
  - intros E. assert (∀ w, w ∈ filter P l ↔ w = v) as Hw by (intros w; rewrite E; apply list_elem_of_singleton).
    setoid_rewrite list_elem_of_filter in Hw. split_and!; [by apply Hw|by apply Hw|naive_solver].
  - intros (Hv & Pv & Hall). apply (NoDup_filter P) in Hnd.
    assert (∀ w, w ∈ filter P l ↔ w = v) as Hw by (intros w; rewrite list_elem_of_filter; naive_solver).
    destruct (filter P l) as [|w [|w' l']].
    + by destruct (not_elem_of_nil v); apply Hw.
    + f_equal. apply Hw. by left.
    + apply NoDup_cons in Hnd as [Hn _]. destruct Hn.
      rewrite (proj1 (Hw w)), (proj1 (Hw w')) by set_solver. by left.
Qed.

Lemma automaticIP_spec sans serverAddr value :
  NoDup sans →
  automaticIP (mkResolver (TrimSpace serverAddr) (list_to_set sans)
                 (filter (λ v, is_ok (normalizeVirtualIPv4 v) = true) sans)) = Ok value
  ↔ value ∈ sans ∧ automatic sans serverAddr value.
Proof.
  intros Hnd. set (r := mkResolver _ _ _). unfold automaticIP.
  assert (∀ v, server_ip r = Some v ↔ server_address serverAddr = Some v ∧ v ∈ sans) as Hs
    by apply server_ip_spec.
  assert (vr_candidates r = [value] ↔
          value ∈ sans ∧ names_usable value ∧ ∀ v, v ∈ sans → names_usable v → v = value) as Hf.
  { subst r. cbn [vr_candidates]. rewrite filter_single by done. by setoid_rewrite candidate_usable. }
  unfold automatic. destruct (server_ip r) as [v|] eqn:E.
  - destruct (proj1 (Hs v) eq_refl) as [E' Hv]. clear E. rename E' into E. split; [intros [= <-]; auto|]. intros (Hin & [E'|(Hn & _)]); [congruence|].
    by destruct (Hn v E).
  - assert (∀ v, server_address serverAddr = Some v → v ∉ sans) as Hn.
    { intros v Ev Hin. discriminate (proj2 (Hs v) (conj Ev Hin)). }
    split.
    + intros Hr. assert (vr_candidates r = [value]) as Hc by (by destruct (vr_candidates r) as [|? [|]]; simplify_eq).
      apply Hf in Hc as (Hin & Hu & Hall). auto.
    + intros (Hin & [E'|(_ & Hu & Hall)]); [by destruct (Hn value E')|].
      by rewrite (proj2 Hf (conj Hin (conj Hu Hall))).
Qed.

Lemma automatic_usable sans serverAddr value : automatic sans serverAddr value → names_usable value.
Proof.
  intros [Hv|(_ & Hu & _)]; [|done]. unfold server_address in Hv.
  destruct (SplitHostPort _) as [[h p]|]; [|done]. destruct (normalizeVirtualIPv4 _) as [b|] eqn:E; [|done].
  simplify_eq. apply normalizeVirtualIPv4_usable in E. exists b. split; [by apply normalizeVirtualIPv4_text|done].
Qed.

(** C8: A virtual forward takes over an address exactly when its entry is
    [:port] or [IPv4:port] with a port in range, and the address is one the
    certificate of the server names: the written one, in canonical form, or for
    [:port] the address of the server itself or else the only usable one. So it
    never takes over a loopback, link-local, multicast or reserved address, nor
    one the certificate does not list. *)
Theorem virtual_address_authorized d caCertFile serverAddr listenAddr addr :
  (VirtualForwardAddr d caCertFile serverAddr listenAddr = Ok addr ↔
   ∃ host port sans value,
     parseVirtualListenAddr listenAddr = Ok (host, port) ∧ certificateIPv4SANs d caCertFile = Ok sans ∧
     value ∈ sans ∧ addr = JoinHostPort value (Itoa port) ∧
     (host = value ∧ value ≠ "" ∨ host = "" ∧ automatic sans serverAddr value)) ∧
  (∀ host port, parseVirtualListenAddr listenAddr = Ok (host, port) →
     1 ≤ port ≤ 65535 ∧ (host = "" ∨ names_usable host)) ∧
  (∀ sans value, automatic sans serverAddr value → names_usable value).
Proof.
  split_and!.
  - unfold VirtualForwardAddr. destruct (parseVirtualListenAddr listenAddr) as [[host port]|]; [|naive_solver].
    cbn. unfold newVirtualAddressResolver.
    destruct (certificateIPv4SANs d caCertFile) as [sans|] eqn:Es; [|naive_solver]. cbn.
    apply certificateIPv4SANs_nodup in Es.
    pose proof (automaticIP_spec sans serverAddr) as Ha.
    destruct (String.eqb_spec host "") as [->|Hne].
    + destruct (automaticIP _) as [v|]; cbn.
      * destruct (proj1 (Ha v Es) eq_refl) as [Hin Hv]. split; [intros [= <-]; exists "", port, sans, v; split_and!; auto|].
        intros (h & p & s & value & E1 & E2 & Hi & -> & Hc). simplify_eq.
        destruct Hc as [[<- ?]|[_ Hc]]; [done|]. assert (Ok v = Ok value) as [= ->] by (by apply Ha). done.
      * split; [done|]. intros (h & p & s & value & E1 & E2 & Hi & -> & Hc). simplify_eq.
        destruct Hc as [[<- ?]|[_ Hc]]; [done|]. by pose proof (proj2 (Ha value Es) (conj Hi Hc)).
    + case_decide as Hd; rewrite elem_of_list_to_set in Hd.
      * split; [intros [= <-]; exists host, port, sans, host; split_and!; auto|]. naive_solver.
      * split; [done|]. naive_solver.
  - intros host port Hp. destruct (parseVirtualListenAddr_ok _ _ _ Hp) as [Hr [->|(b & Hb & ->)]]; [auto|].
    split; [done|]. right. exists b. split; [by apply normalizeVirtualIPv4_text|done].
  - intros sans value. apply automatic_usable.
Qed.
End Authorized.
