(* ===== verification/VirtualRedirect.v ===== *)
(** * The virtual redirect table (src/client/tunnel/virtual_redirect.go)

    The packet rewriting behind virtual forwards: packets to a virtual endpoint
    are sent to a local port under a source port of the table, and the answers
    are given back the addresses of the endpoint. The flows are shared between
    two maps by pointer, so the table here is a store of flows with two maps of
    references into it. Packets are bytes; a rewriting gives the changed packet. *)

From stdpp Require Import sorting.
From S2P Require Import Prelude.
From S2P Require Import GoStd.
From S2P Require Import Disk.
From S2P Require Import Netaddr.
From S2P Require Import Protocol.
From S2P Require Import GoCrypto.
From S2P Require Import VirtualAddress.

#[local] Open Scope Z_scope.

(** ** Rules *)

Definition maxVirtualRedirectEndpoints : Z := 48.
Definition maxVirtualRedirectFlows : Z := 8192.
Definition virtualRedirectEvictSample : nat := 32.
Definition virtualRedirectFlowIdleTTL : Duration := 24 * nhour.
Definition virtualRedirectClosingTTL : Duration := 10 * nminute.
Definition virtualRedirectSweepPeriod : Duration := nminute.
Definition virtualRedirectLoopbackIPv4 : Z := 0x7f000001.

Record virtualRedirectRule := mkRule { rule_VirtualIP : string; rule_VirtualPort : Z; rule_LocalPort : Z }.

#[export] Instance virtualRedirectRule_eq_dec : EqDecision virtualRedirectRule.
Proof. solve_decision. Defined.

Definition newVirtualRedirectRule (virtualAddr : string) (localPort : Z) : result virtualRedirectRule :=
  match SplitHostPort (TrimSpace virtualAddr) with
  | Err e => Err ("parse virtual redirect endpoint: " +:+ e)
  | Ok (host, portText) =>
      ip ← normalizeVirtualIPv4 host;
      let bad := Err "virtual redirect port must be between 1 and 65535" in
      match Atoi portText with
      | None => bad
      | Some virtualPort =>
          if (virtualPort <? 1) || (65535 <? virtualPort) then bad
          else if (localPort <? 1) || (65535 <? localPort)
          then Err "local virtual redirect port must be between 1 and 65535"
          else Ok (mkRule (ipv4_text ip) (wrap_u16 virtualPort) (wrap_u16 localPort))
      end
  end.

Definition rule_le (r r' : virtualRedirectRule) : Prop :=
  (if String.eqb (rule_VirtualIP r) (rule_VirtualIP r') then rule_VirtualPort r <=? rule_VirtualPort r'
   else String.leb (rule_VirtualIP r) (rule_VirtualIP r')) = true.
#[export] Instance rule_le_dec r r' : Decision (rule_le r r') := bool_eq_dec _ _.

(** One rule of the loop; the maps of keys seen are sets. *)
Definition add_rule (s : gset string * gset Z * list virtualRedirectRule) (value : virtualRedirectRule)
    : result (gset string * gset Z * list virtualRedirectRule) :=
  let '(targets, localPorts, rules) := s in
  ip ← normalizeVirtualIPv4 (rule_VirtualIP value);
  if (rule_VirtualPort value =? 0) || (rule_LocalPort value =? 0)
  then Err "virtual redirect ports must be between 1 and 65535"
  else
    let value := mkRule (ipv4_text ip) (rule_VirtualPort value) (rule_LocalPort value) in
    let key := JoinHostPort (rule_VirtualIP value) (Itoa (rule_VirtualPort value)) in
    if decide (key ∈ targets) then Err ("duplicate virtual redirect endpoint " +:+ key)
    else if decide (rule_LocalPort value ∈ localPorts)
    then Err ("duplicate local virtual redirect port " +:+ Itoa (rule_LocalPort value))
    else Ok ({[ key ]} ∪ targets, {[ rule_LocalPort value ]} ∪ localPorts, rules ++ [value]).

(** Endpoints are different, so any way of sorting gives the same list. *)
Definition normalizeVirtualRedirectRules (values : list virtualRedirectRule) : result (list virtualRedirectRule) :=
  if maxVirtualRedirectEndpoints <? Z.of_nat (length values)
  then Err ("virtual forwarding supports at most " +:+ Itoa maxVirtualRedirectEndpoints +:+ " endpoints")
  else
    '(_, _, rules) ← fold_err add_rule (∅, ∅, []) values;
    Ok (merge_sort rule_le rules).

Definition buildVirtualRedirectFilter (rules : list virtualRedirectRule) : result string :=
  rules ← normalizeVirtualRedirectRules rules;
  match rules with
  | [] => Err "at least one virtual redirect rule is required"
  | _ =>
      let targets := map (λ r, "(ip.DstAddr == " +:+ rule_VirtualIP r +:+ " and tcp.DstPort == "
                                +:+ Itoa (rule_VirtualPort r) +:+ ")") rules in
      let responses := map (λ r, "(loopback and ip.SrcAddr == 127.0.0.1 and ip.DstAddr == 127.0.0.1 and tcp.SrcPort == "
                                +:+ Itoa (rule_LocalPort r) +:+ ")") rules in
      Ok ("ip and tcp and outbound and (" +:+ Join (targets ++ responses) " or " +:+ ")")
  end.

(** ** The table *)

Record targetFlowKey := mkTargetKey { tk_SourceIP : Z; tk_SourcePort : Z; tk_TargetIP : Z; tk_TargetPort : Z }.
Record responseFlowKey := mkResponseKey { rk_LocalPort : Z; rk_NATPort : Z }.

#[export] Instance targetFlowKey_eq_dec : EqDecision targetFlowKey.
Proof. solve_decision. Defined.
#[export] Instance targetFlowKey_countable : Countable targetFlowKey.
Proof.
  refine (inj_countable' (λ k, (tk_SourceIP k, tk_SourcePort k, tk_TargetIP k, tk_TargetPort k))
            (λ x, let '(a, b, c, d) := x in mkTargetKey a b c d) _). by intros [].
Defined.
#[export] Instance responseFlowKey_eq_dec : EqDecision responseFlowKey.
Proof. solve_decision. Defined.
#[export] Instance responseFlowKey_countable : Countable responseFlowKey.
Proof.
  refine (inj_countable' (λ k, (rk_LocalPort k, rk_NATPort k)) (λ x, mkResponseKey x.1 x.2) _). by intros [].
Defined.

Record virtualRedirectFlow := mkFlow {
  fl_targetKey : targetFlowKey;
  fl_responseKey : responseFlowKey;
  fl_rule : virtualRedirectRule;
  fl_lastSeen : Time;
  fl_closing : bool;
  fl_ifIdx : Z;
  fl_subIfIdx : Z
}.

Record virtualRedirectTable := mkTable {
  tb_targets : gmap (Z * Z) virtualRedirectRule;
  tb_responses : gmap Z virtualRedirectRule;
  tb_targetFlows : gmap targetFlowKey nat;
  tb_responseFlows : gmap responseFlowKey nat;
  tb_flows : gmap nat virtualRedirectFlow;
  tb_nextNATPort : Z;
  tb_lastFlowCleanup : Time;
  tb_nextFlow : nat
}.

Definition set_flow (t : virtualRedirectTable) (p : nat) (f : virtualRedirectFlow) : virtualRedirectTable :=
  mkTable (tb_targets t) (tb_responses t) (tb_targetFlows t) (tb_responseFlows t) (<[p := f]> (tb_flows t))
    (tb_nextNATPort t) (tb_lastFlowCleanup t) (tb_nextFlow t).
Definition set_maps (t : virtualRedirectTable) (m : gmap targetFlowKey nat) (m' : gmap responseFlowKey nat)
    : virtualRedirectTable :=
  mkTable (tb_targets t) (tb_responses t) m m' (tb_flows t) (tb_nextNATPort t) (tb_lastFlowCleanup t)
    (tb_nextFlow t).
Definition set_nextNATPort (t : virtualRedirectTable) (port : Z) : virtualRedirectTable :=
  mkTable (tb_targets t) (tb_responses t) (tb_targetFlows t) (tb_responseFlows t) (tb_flows t)
    port (tb_lastFlowCleanup t) (tb_nextFlow t).
Definition set_cleanup (t : virtualRedirectTable) (now : Time) : virtualRedirectTable :=
  mkTable (tb_targets t) (tb_responses t) (tb_targetFlows t) (tb_responseFlows t) (tb_flows t)
    (tb_nextNATPort t) now (tb_nextFlow t).

(** [binary.BigEndian.Uint32] of the four bytes of an address. *)
Definition ip_value (b : list Z) : Z := foldl (λ acc x, acc * 256 + x) 0 b.
Definition rule_ip (r : virtualRedirectRule) : Z :=
  match ParseIP (rule_VirtualIP r) with
  | Some ip => match To4 ip with Some b => ip_value b | None => 0 end
  | None => 0
  end.

Definition newVirtualRedirectTable (rules : list virtualRedirectRule) (now : Time) : result virtualRedirectTable :=
  rules ← normalizeVirtualRedirectRules rules;
  Ok (mkTable (foldl (λ m r, <[(rule_ip r, rule_VirtualPort r) := r]> m) ∅ rules)
        (foldl (λ m r, <[rule_LocalPort r := r]> m) ∅ rules) ∅ ∅ ∅ 49152 now 0).

(** A range over [targetFlows]. *)
Record FlowRange := mkFlowRange {
  flow_entries : gmap targetFlowKey nat → list (targetFlowKey * nat);
  flow_complete : ∀ m, flow_entries m ≡ₚ map_to_list m
}.
Definition canonicalFlowRange : FlowRange := mkFlowRange map_to_list (λ m, reflexivity _).

(** ** Flows *)

Definition removeFlow (t : virtualRedirectTable) (p : option nat) : virtualRedirectTable :=
  match p ≫= λ p, tb_flows t !! p with
  | None => t
  | Some f => set_maps t (delete (fl_targetKey f) (tb_targetFlows t)) (delete (fl_responseKey f) (tb_responseFlows t))
  end.

Section Flows.
Variable rg : FlowRange.

(** The flow seen longest ago among the first entries of the range. *)
Definition older (t : virtualRedirectTable) (candidate : option nat) (p : nat) : option nat :=
  match candidate with
  | None => Some p
  | Some q =>
      match tb_flows t !! p, tb_flows t !! q with
      | Some f, Some g => if Before (fl_lastSeen f) (fl_lastSeen g) then Some p else candidate
      | _, _ => candidate
      end
  end.

Definition evictStaleFlow (t : virtualRedirectTable) : virtualRedirectTable :=
  removeFlow t (foldl (older t) None (map snd (take virtualRedirectEvictSample (flow_entries rg (tb_targetFlows t))))).

(** A turn of the loop of [cleanupFlows]; an entry deleted earlier in the loop is
    not visited. *)
Definition cleanup_flow (now : Time) (t : virtualRedirectTable) (entry : targetFlowKey * nat) : virtualRedirectTable :=
  match tb_targetFlows t !! entry.1 ≫= λ p, (p,.) <$> tb_flows t !! p with
  | None => t
  | Some (p, f) =>
      let ttl := if fl_closing f then virtualRedirectClosingTTL else virtualRedirectFlowIdleTTL in
      if ttl <=? now - fl_lastSeen f then removeFlow t (Some p) else t
  end.

Definition cleanupFlows (t : virtualRedirectTable) (now : Time) : virtualRedirectTable :=
  if now - tb_lastFlowCleanup t <? virtualRedirectSweepPeriod then t
  else foldl (cleanup_flow now) (set_cleanup t now) (flow_entries rg (tb_targetFlows t)).

Definition port_after (port : Z) : Z :=
  let next := wrap_u16 (port + 1) in if next =? 0 then 1024 else next.

Fixpoint scan_ports (attempts : nat) (t : virtualRedirectTable) (localPort : Z) : option Z * virtualRedirectTable :=
  match attempts with
  | O => (None, t)
  | S attempts =>
      let port := tb_nextNATPort t in
      let t := set_nextNATPort t (port_after port) in
      if (port =? 0) || (port =? localPort) then scan_ports attempts t localPort
      else match tb_responseFlows t !! mkResponseKey localPort port with
      | None => (Some port, t)
      | Some _ => scan_ports attempts t localPort
      end
  end.

Definition natAttempts : nat := Z.to_nat 65535.

Definition allocateNATPort (t : virtualRedirectTable) (preferred localPort : Z) : option Z * virtualRedirectTable :=
  if negb (preferred =? 0) && negb (preferred =? localPort)
     && bool_decide (tb_responseFlows t !! mkResponseKey localPort preferred = None)
  then (Some preferred, t)
  else scan_ports natAttempts t localPort.

Definition ensureTargetFlow (t : virtualRedirectTable) (key : targetFlowKey) (rule : virtualRedirectRule)
    (ifIdx subIfIdx : Z) (now : Time) : option nat * virtualRedirectTable :=
  let t := cleanupFlows t now in
  match tb_targetFlows t !! key ≫= λ p, (p,.) <$> tb_flows t !! p with
  | Some (p, f) =>
      (Some p, set_flow t p (mkFlow (fl_targetKey f) (fl_responseKey f) (fl_rule f) now (fl_closing f) ifIdx subIfIdx))
  | None =>
      let t := if maxVirtualRedirectFlows <=? Z.of_nat (size (tb_targetFlows t)) then evictStaleFlow t else t in
      match allocateNATPort t (tk_SourcePort key) (rule_LocalPort rule) with
      | (None, t) => (None, t)
      | (Some natPort, t) =>
          let responseKey := mkResponseKey (rule_LocalPort rule) natPort in
          let p := tb_nextFlow t in
          (Some p,
           mkTable (tb_targets t) (tb_responses t) (<[key := p]> (tb_targetFlows t))
             (<[responseKey := p]> (tb_responseFlows t))
             (<[p := mkFlow key responseKey rule now false ifIdx subIfIdx]> (tb_flows t))
             (tb_nextNATPort t) (tb_lastFlowCleanup t) (S p))
      end
  end.

Definition updateFlowState (t : virtualRedirectTable) (p : nat) (tcpFlags : Z) (now : Time) : virtualRedirectTable :=
  match tb_flows t !! p with
  | None => t
  | Some f =>
      let with_closing c := mkFlow (fl_targetKey f) (fl_responseKey f) (fl_rule f) now c (fl_ifIdx f) (fl_subIfIdx f) in
      let closing := if negb (Z.land tcpFlags 2 =? 0) then false else fl_closing f in
      if negb (Z.land tcpFlags 4 =? 0) then removeFlow (set_flow t p (with_closing closing)) (Some p)
      else set_flow t p (with_closing (if negb (Z.land tcpFlags 1 =? 0) then true else closing))
  end.

(** ** Packets *)

Definition byte_of (packet : chars) (i : nat) : Z := match packet !! i with Some c => code c | None => 0 end.
Definition slice (packet : chars) (i n : nat) : chars := take n (drop i packet).
Definition put (packet : chars) (i : nat) (data : chars) : chars :=
  take i packet ++ data ++ drop (i + length data) packet.
Definition PutUint16 (v : Z) : chars := map of_code [v / 2 ^ 8; v `mod` 256].

(** The length of the IP header; the addresses stand at 12 and 16, the ports at
    the header length and two bytes after. *)
Definition parseVirtualRedirectIPv4TCP (packet : chars) : option nat :=
  if (length packet <? 40)%nat || negb (Z.shiftr (byte_of packet 0) 4 =? 4) || negb (byte_of packet 9 =? 6) then None
  else
    let ihl := (Z.to_nat (Z.land (byte_of packet 0) 0x0f) * 4)%nat in
    if (ihl <? 20)%nat || (length packet <? ihl + 20)%nat then None else Some ihl.

Record endpoints := mkEndpoints { ep_srcIP : Z; ep_srcPort : Z; ep_dstIP : Z; ep_dstPort : Z }.

Definition read_endpoints (packet : chars) (ihl : nat) : endpoints :=
  mkEndpoints (Uint32 (slice packet 12 4)) (Uint32 (slice packet ihl 2))
    (Uint32 (slice packet 16 4)) (Uint32 (slice packet (ihl + 2) 2)).
Definition write_endpoints (packet : chars) (ihl : nat) (e : endpoints) : chars :=
  let packet := put packet 12 (PutUint32 (ep_srcIP e)) in
  let packet := put packet ihl (PutUint16 (ep_srcPort e)) in
  let packet := put packet 16 (PutUint32 (ep_dstIP e)) in
  put packet (ihl + 2) (PutUint16 (ep_dstPort e)).

Inductive packetAction := redirectPass | redirectInject | redirectDrop.
Record packetRoute := mkRoute { rt_Outbound : bool; rt_Loopback : bool; rt_IfIdx : Z; rt_SubIfIdx : Z }.

(** [now] and [later] are the clock readings of [ensureTargetFlow] and
    [updateFlowState]. *)
Definition rewriteVirtualRedirectPacket (packet : chars) (route : packetRoute) (table : option virtualRedirectTable)
    (now later : Time) : packetRoute * packetAction * chars * option virtualRedirectTable :=
  let pass := (route, redirectPass, packet, table) in
  match table, parseVirtualRedirectIPv4TCP packet with
  | None, _ | _, None => pass
  | Some t, Some ihl =>
      let tcpFlags := byte_of packet (ihl + 13) in
      let e := read_endpoints packet ihl in
      if negb (rt_Outbound route) then pass
      else match tb_targets t !! (ep_dstIP e, ep_dstPort e) with
      | Some rule =>
          let key := mkTargetKey (ep_srcIP e) (ep_srcPort e) (ep_dstIP e) (ep_dstPort e) in
          let '(p, t) := ensureTargetFlow t key rule (rt_IfIdx route) (rt_SubIfIdx route) now in
          match p ≫= λ p, (p,.) <$> tb_flows t !! p with
          | None => (route, redirectDrop, packet, Some t)
          | Some (p, f) =>
              (mkRoute true true 1 0, redirectInject,
               write_endpoints packet ihl (mkEndpoints virtualRedirectLoopbackIPv4 (rk_NATPort (fl_responseKey f))
                                             virtualRedirectLoopbackIPv4 (rule_LocalPort rule)),
               Some (updateFlowState t p tcpFlags later))
          end
      | None =>
          match tb_responses t !! ep_srcPort e with
          | None => pass
          | Some rule =>
              if negb (rt_Loopback route && (ep_srcIP e =? virtualRedirectLoopbackIPv4)
                       && (ep_dstIP e =? virtualRedirectLoopbackIPv4)) then pass
              else match tb_responseFlows t !! mkResponseKey (ep_srcPort e) (ep_dstPort e)
                         ≫= λ p, (p,.) <$> tb_flows t !! p with
              | None => pass
              | Some (p, f) =>
                  if negb (bool_decide (fl_rule f = rule)) then pass
                  else
                    (mkRoute false false (fl_ifIdx f) (fl_subIfIdx f), redirectInject,
                     write_endpoints packet ihl
                       (mkEndpoints (tk_TargetIP (fl_targetKey f)) (rule_VirtualPort rule)
                          (tk_SourceIP (fl_targetKey f)) (tk_SourcePort (fl_targetKey f))),
                     Some (updateFlowState t p tcpFlags later))
              end
          end
      end
  end.
End Flows.

(** ** The invariant of the table *)

Definition flow_of (t : virtualRedirectTable) (k : targetFlowKey) (f : virtualRedirectFlow) : Prop :=
  ∃ p, tb_targetFlows t !! k = Some p ∧ tb_flows t !! p = Some f.

Definition rules_ok (t : virtualRedirectTable) : Prop :=
  ∀ ip port r, tb_targets t !! (ip, port) = Some r →
    port = rule_VirtualPort r ∧ tb_responses t !! rule_LocalPort r = Some r ∧
    ip ≠ virtualRedirectLoopbackIPv4 ∧ 0 ≤ rule_LocalPort r < 2 ^ 16.

(** The fields of a key as the unsigned integers they are. *)
Definition key_ok (k : targetFlowKey) : Prop :=
  0 ≤ tk_SourceIP k < 2 ^ 32 ∧ 0 ≤ tk_SourcePort k < 2 ^ 16 ∧
  0 ≤ tk_TargetIP k < 2 ^ 32 ∧ 0 ≤ tk_TargetPort k < 2 ^ 16.

(** The two maps are inverse to each other through the flows they refer to. *)
Record flows_ok (t : virtualRedirectTable) : Prop := {
  fo_target : ∀ k p, tb_targetFlows t !! k = Some p →
    ∃ f, tb_flows t !! p = Some f ∧ fl_targetKey f = k ∧ tb_responseFlows t !! fl_responseKey f = Some p;
  fo_response : ∀ k p, tb_responseFlows t !! k = Some p →
    ∃ f, tb_flows t !! p = Some f ∧ fl_responseKey f = k ∧ tb_targetFlows t !! fl_targetKey f = Some p;
  fo_flow : ∀ k f, flow_of t k f →
    tb_targets t !! (tk_TargetIP k, tk_TargetPort k) = Some (fl_rule f) ∧
    rk_LocalPort (fl_responseKey f) = rule_LocalPort (fl_rule f) ∧
    0 < rk_NATPort (fl_responseKey f) < 2 ^ 16 ∧ rk_NATPort (fl_responseKey f) ≠ rule_LocalPort (fl_rule f) ∧
    key_ok k;
  fo_fresh : ∀ p, is_Some (tb_flows t !! p) → (p < tb_nextFlow t)%nat
}.

Record table_ok (t : virtualRedirectTable) : Prop := {
  to_rules : rules_ok t;
  to_flows : flows_ok t;
  to_size : Z.of_nat (size (tb_targetFlows t)) ≤ maxVirtualRedirectFlows;
  to_port : 1024 ≤ tb_nextNATPort t ≤ 65535
}.

(** What an operation on the flows leaves alone. *)
Definition same_rules (t t' : virtualRedirectTable) : Prop :=
  tb_targets t' = tb_targets t ∧ tb_responses t' = tb_responses t.
#[export] Instance same_rules_refl : Reflexive same_rules.
Proof. done. Qed.
#[export] Instance same_rules_trans : Transitive same_rules.
Proof. intros t1 t2 t3 [? ?] [? ?]. split; congruence. Qed.

Lemma rules_ok_same t t' : same_rules t t' → rules_ok t → rules_ok t'.
Proof. unfold rules_ok. by intros [-> ->]. Qed.

Definition live (t : virtualRedirectTable) (p : nat) : Prop :=
  ∃ f, tb_flows t !! p = Some f ∧ tb_targetFlows t !! fl_targetKey f = Some p.

Lemma flow_unique t k f f' : flow_of t k f → flow_of t k f' → f = f'.
Proof. intros (p & ? & ?) (p' & ? & ?). naive_solver. Qed.

(** Taking a live flow out of both maps. *)
Lemma removeFlow_ok t p :
  flows_ok t → live t p →
  let t' := removeFlow t (Some p) in
  flows_ok t' ∧ same_rules t t' ∧ tb_nextNATPort t' = tb_nextNATPort t ∧
  size (tb_targetFlows t) = S (size (tb_targetFlows t')) ∧
  ∃ f, tb_flows t !! p = Some f ∧ tb_targetFlows t' = delete (fl_targetKey f) (tb_targetFlows t) ∧
       tb_flows t' = tb_flows t.
Proof.
  intros [F1 F2 F3 F4] (f & Hf & Hp). cbv zeta. unfold removeFlow. cbn. rewrite Hf. cbn.
  destruct (F1 _ _ Hp) as (f' & Hf' & _ & Hr). assert (f' = f) as -> by congruence.
  split_and!; [|done|done| |eauto].
  - constructor; unfold flow_of, set_maps; simpl.
    + intros k q [Hk Hq]%lookup_delete_Some. destruct (F1 _ _ Hq) as (g & Hg & <- & Hrg).
      exists g. split_and!; [done..|]. rewrite lookup_delete_ne; [done|]. intros E. rewrite E in Hr. congruence.
    + intros k q [Hk Hq]%lookup_delete_Some. destruct (F2 _ _ Hq) as (g & Hg & <- & Htg).
      exists g. split_and!; [done..|]. rewrite lookup_delete_ne; [done|]. intros E. rewrite E in Hp. congruence.
    + intros k g (q & [Hk Hq]%lookup_delete_Some & Hg). apply (F3 k g). by exists q.
    + done.
  - rewrite map_size_delete_Some by eauto. destruct (size (tb_targetFlows t)) eqn:E; [|done].
    apply map_size_empty_iff in E. rewrite E in Hp. by rewrite lookup_empty in Hp.
Qed.

(** Changing what a flow has seen, but not its keys and rule. *)
Definition same_keys (f g : virtualRedirectFlow) : Prop :=
  fl_targetKey g = fl_targetKey f ∧ fl_responseKey g = fl_responseKey f ∧ fl_rule g = fl_rule f.

Lemma set_flow_ok t p f g :
  flows_ok t → tb_flows t !! p = Some f → same_keys f g → flows_ok (set_flow t p g).
Proof.
  intros [F1 F2 F3 F4] Hf (E1 & E2 & E3).
  assert (∀ q h, tb_flows t !! q = Some h →
    ∃ h', <[p := g]> (tb_flows t) !! q = Some h' ∧ same_keys h h') as Hl.
  { intros q h Hh. destruct (decide (q = p)) as [->|Hne].
    - exists g. rewrite lookup_insert_eq. split; [done|]. by simplify_eq.
    - exists h. by rewrite lookup_insert_ne by done. }
  assert (∀ q h', <[p := g]> (tb_flows t) !! q = Some h' →
    ∃ h, tb_flows t !! q = Some h ∧ same_keys h h') as Hl'.
  { intros q h' Hh. destruct (decide (q = p)) as [->|Hne].
    - rewrite lookup_insert_eq in Hh. simplify_eq. by exists f.
    - rewrite lookup_insert_ne in Hh by done. by exists h'. }
  constructor; cbn.
  - intros k q Hq. destruct (F1 _ _ Hq) as (h & Hh & <- & Hr).
    destruct (Hl q h Hh) as (h' & Hh' & A1 & A2 & A3). exists h'. by rewrite A1, A2.
  - intros k q Hq. destruct (F2 _ _ Hq) as (h & Hh & <- & Hr).
    destruct (Hl q h Hh) as (h' & Hh' & A1 & A2 & A3). exists h'. by rewrite A1, A2.
  - intros k h' (q & Hq & Hh'). destruct (Hl' q h' Hh') as (h & Hh & A1 & A2 & A3).
    cbn in *. rewrite A2, A3. apply (F3 k h). by exists q.
  - intros q [h' Hh']. destruct (Hl' q h' Hh') as (h & Hh & _). by apply F4.
Qed.

Lemma set_flow_same t p g :
  same_rules t (set_flow t p g) ∧ tb_targetFlows (set_flow t p g) = tb_targetFlows t ∧
  tb_nextNATPort (set_flow t p g) = tb_nextNATPort t.
Proof. done. Qed.

Lemma live_of_target t k p : flows_ok t → tb_targetFlows t !! k = Some p → live t p.
Proof. intros [F1 _ _ _] Hp. destruct (F1 _ _ Hp) as (f & Hf & <- & _). by exists f. Qed.

(** ** Eviction and cleanup *)

Section Proofs.
Variable rg : FlowRange.

(** What the sweeps do: the table stays right and loses flows only. *)
Definition shrinks (t t' : virtualRedirectTable) : Prop :=
  flows_ok t' ∧ same_rules t t' ∧ tb_nextNATPort t' = tb_nextNATPort t ∧
  tb_targetFlows t' ⊆ tb_targetFlows t ∧ tb_flows t' = tb_flows t.

Lemma shrinks_refl t : flows_ok t → shrinks t t.
Proof. unfold shrinks. intros. by split_and!. Qed.
Lemma shrinks_trans t1 t2 t3 : shrinks t1 t2 → shrinks t2 t3 → shrinks t1 t3.
Proof.
  unfold shrinks. intros (? & A1 & ? & ? & ?) (? & B1 & ? & ? & ?). split_and!; [done|by etrans|congruence|by etrans|congruence].
Qed.
Lemma shrinks_size t t' : shrinks t t' → (size (tb_targetFlows t') ≤ size (tb_targetFlows t))%nat.
Proof.
  intros (_ & _ & _ & Hs & _). rewrite <-!size_dom. by apply subseteq_size, subseteq_dom.
Qed.

Lemma removeFlow_shrinks t p : flows_ok t → live t p → shrinks t (removeFlow t (Some p)).
Proof.
  intros Hok Hl. destruct (removeFlow_ok t p Hok Hl) as (H1 & H2 & H3 & _ & f & _ & H5 & H6).
  unfold shrinks. split_and!; [done..| |done]. rewrite H5. apply delete_subseteq.
Qed.

Lemma older_some t ps p : (∃ q, foldl (older t) (Some p) ps = Some q ∧ (q = p ∨ q ∈ ps)).
Proof.
  revert p. induction ps as [|q ps IH]; intros p; [by exists p; auto|]. cbn [foldl]. unfold older at 2.
  assert (∀ q', q' = p ∨ q' = q → ∃ r, foldl (older t) (Some q') ps = Some r ∧ (r = p ∨ r ∈ q :: ps)) as H.
  { intros q' Hq'. destruct (IH q') as (r & -> & Hr). exists r. split; [done|]. rewrite elem_of_cons. naive_solver. }
  destruct (tb_flows t !! q) as [f|], (tb_flows t !! p) as [g|]; auto. destruct (Before _ _); auto.
Qed.

(** A table that is not empty loses one flow. *)
Lemma evict_ok t :
  flows_ok t → tb_targetFlows t ≠ ∅ →
  shrinks t (evictStaleFlow rg t) ∧ size (tb_targetFlows t) = S (size (tb_targetFlows (evictStaleFlow rg t))).
Proof.
  intros Hok Hne. unfold evictStaleFlow.
  assert (∃ p, foldl (older t) None (map snd (take virtualRedirectEvictSample (flow_entries rg (tb_targetFlows t)))) = Some p
               ∧ live t p) as (p & -> & Hl).
  { pose proof (flow_complete rg (tb_targetFlows t)) as Hc.
    destruct (flow_entries rg (tb_targetFlows t)) as [|[k p] es] eqn:E.
    { apply Permutation_nil_l, symmetry, map_to_list_empty_iff in Hc. done. }
    change virtualRedirectEvictSample with (S 31). cbn [take map foldl snd]. unfold older at 2.
    destruct (older_some t (map snd (take 31 es)) p) as (q & -> & Hq). exists q. split; [done|].
    assert (q ∈ (map_to_list (tb_targetFlows t)).*2) as Hin.
    { rewrite <-Hc. cbn. destruct Hq as [->|Hq]; [by left|]. right.
      apply list_elem_of_fmap in Hq as ([k' q'] & -> & Hq). apply list_elem_of_fmap. exists (k', q').
      split; [done|]. by eapply elem_of_take in Hq as (i & Hi & _); eapply list_elem_of_lookup_2. }
    apply list_elem_of_fmap in Hin as ([k' q'] & -> & Hin%elem_of_map_to_list).
    by apply (live_of_target t k'). }
  split; [by apply removeFlow_shrinks|]. by apply removeFlow_ok.
Qed.

Lemma cleanup_flow_ok now t e : flows_ok t → shrinks t (cleanup_flow now t e).
Proof.
  intros Hok. unfold cleanup_flow. destruct (tb_targetFlows t !! e.1) as [p|] eqn:Hp; [|by apply shrinks_refl].
  cbn. destruct (tb_flows t !! p) as [f|]; [|by apply shrinks_refl]. cbn.
  destruct (_ <=? _); [|by apply shrinks_refl]. apply removeFlow_shrinks; [done|]. by eapply live_of_target.
Qed.

Lemma cleanupFlows_ok t now : flows_ok t → shrinks t (cleanupFlows rg t now).
Proof.
  intros Hok. unfold cleanupFlows. destruct (_ <? _); [by apply shrinks_refl|].
  assert (shrinks t (set_cleanup t now)) as H0 by (unfold shrinks; split_and!; [by destruct Hok|done..]).
  revert H0. generalize (set_cleanup t now). induction (flow_entries rg (tb_targetFlows t)) as [|e es IH]; [done|].
  intros s Hs. cbn. apply IH. eapply shrinks_trans; [done|]. apply cleanup_flow_ok, Hs.
Qed.
End Proofs.

(** ** Allocation always finds a port *)

Definition port_at (port : Z) (i : nat) : Z := 1024 + (port - 1024 + Z.of_nat i) `mod` 64512.

Lemma port_at_range port i : 1024 ≤ port_at port i ≤ 65535.
Proof. unfold port_at. pose proof (Z.mod_pos_bound (port - 1024 + Z.of_nat i) 64512). lia. Qed.

Lemma port_after_at port i : 1024 ≤ port ≤ 65535 → port_at (port_after port) i = port_at port (S i).
Proof.
  intros Hp. unfold port_after, port_at, wrap_u. change (2 ^ 16) with 65536.
  destruct (decide (port = 65535)) as [->|Hne].
  - rewrite Z.mod_same by done. cbn [Z.eqb]. f_equal.
    replace (65535 - 1024 + Z.of_nat (S i)) with (1024 - 1024 + Z.of_nat i + 1 * 64512) by lia.
    by rewrite Z.mod_add.
  - rewrite (Z.mod_small (port + 1)) by lia. destruct (Z.eqb_spec (port + 1) 0); [lia|]. f_equal. f_equal. lia.
Qed.

Lemma port_after_range port : 1024 ≤ port ≤ 65535 → 1024 ≤ port_after port ≤ 65535.
Proof.
  intros Hp. unfold port_after, wrap_u. change (2 ^ 16) with 65536.
  destruct (decide (port = 65535)) as [->|Hne]; [by vm_compute|].
  rewrite Z.mod_small by lia. destruct (Z.eqb_spec (port + 1) 0); lia.
Qed.

Lemma port_at_0 port : 1024 ≤ port ≤ 65535 → port_at port 0 = port.
Proof. intros Hp. unfold port_at. rewrite Z.mod_small by lia. lia. Qed.

Lemma port_at_inj port i j :
  Z.of_nat i < 64512 → Z.of_nat j < 64512 → port_at port i = port_at port j → i = j.
Proof.
  unfold port_at. intros Hi Hj E. assert ((port - 1024 + Z.of_nat i) `mod` 64512
    = (port - 1024 + Z.of_nat j) `mod` 64512) as Em by lia.
  pose proof (Z.div_mod (port - 1024 + Z.of_nat i) 64512 ltac:(lia)).
  pose proof (Z.div_mod (port - 1024 + Z.of_nat j) 64512 ltac:(lia)). lia.
Qed.

Lemma scan_ports_spec attempts t localPort :
  1024 ≤ tb_nextNATPort t ≤ 65535 →
  let '(r, t') := scan_ports attempts t localPort in
  (∃ next, t' = set_nextNATPort t next ∧ 1024 ≤ next ≤ 65535) ∧
  match r with
  | Some port => 1024 ≤ port ≤ 65535 ∧ port ≠ localPort ∧ tb_responseFlows t !! mkResponseKey localPort port = None
  | None => ∀ i, (i < attempts)%nat → let port := port_at (tb_nextNATPort t) i in
              port = localPort ∨ is_Some (tb_responseFlows t !! mkResponseKey localPort port)
  end.
Proof.
  revert t. induction attempts as [|n IH]; intros t Hp; cbn [scan_ports].
  { split; [exists (tb_nextNATPort t); by destruct t|lia]. }
  set (t1 := set_nextNATPort t (port_after (tb_nextNATPort t))).
  specialize (IH t1 (port_after_range _ Hp)).
  assert ((∃ next, t1 = set_nextNATPort t next ∧ 1024 ≤ next ≤ 65535)) as H1
    by (eexists; split; [done|by apply port_after_range]).
  assert (tb_nextNATPort t = localPort ∨ is_Some (tb_responseFlows t !! mkResponseKey localPort (tb_nextNATPort t)) →
    let '(r, t') := scan_ports n t1 localPort in
    (∃ next, t' = set_nextNATPort t next ∧ 1024 ≤ next ≤ 65535) ∧
    match r with
    | Some port => 1024 ≤ port ≤ 65535 ∧ port ≠ localPort ∧ tb_responseFlows t !! mkResponseKey localPort port = None
    | None => ∀ i, (i < S n)%nat → let port := port_at (tb_nextNATPort t) i in
                port = localPort ∨ is_Some (tb_responseFlows t !! mkResponseKey localPort port)
    end) as Hnext.
  { intros Hused. destruct (scan_ports n t1 localPort) as [r t'].
    destruct IH as [(next & -> & Hn) Hr]. split; [by exists next|]. destruct r as [port|]; [done|].
    intros [|i] Hi; cbv zeta; [by rewrite port_at_0|].
    rewrite <-port_after_at by done. apply (Hr i). lia. }
  destruct (Z.eqb_spec (tb_nextNATPort t) 0); [lia|]. cbn [orb].
  destruct (Z.eqb_spec (tb_nextNATPort t) localPort) as [E|E]; [by apply Hnext; left|].
  change (tb_responseFlows t1) with (tb_responseFlows t).
  destruct (tb_responseFlows t !! _) as [p|] eqn:Er; [by apply Hnext; right|].
  split; [done|]. split_and!; (lia || done).
Qed.

Lemma filter_ne_length (l : list Z) x : NoDup l → (length l ≤ S (length (filter (λ y, y ≠ x) l)))%nat.
Proof.
  induction 1 as [|y l Hy Hl IH]; [cbn; lia|]. cbn [length]. rewrite filter_cons. case_decide as Hd; cbn [length]; [lia|].
  assert (filter (λ z, z ≠ x) l = l) as ->; [|lia].
  subst y. clear IH Hl. induction l as [|z l IHl]; [done|].
  rewrite filter_cons_True by set_solver. f_equal. apply IHl. set_solver.
Qed.

Lemma scan_fails_full n t localPort m :
  1024 ≤ tb_nextNATPort t ≤ 65535 → (scan_ports n t localPort).1 = None → (m ≤ n)%nat → Z.of_nat m ≤ 64512 →
  (m ≤ S (size (tb_responseFlows t)))%nat.
Proof.
  intros Hp Hf Hm Hz. pose proof (scan_ports_spec n t localPort Hp) as Hs.
  destruct (scan_ports n t localPort) as [r t']. cbn in Hf. subst r. destruct Hs as [_ Hs].
  set (ports := map (port_at (tb_nextNATPort t)) (seq 0 m)).
  assert (NoDup ports) as Hnd.
  { apply NoDup_fmap_2_strong; [|apply NoDup_seq]. intros i j Hi%elem_of_seq Hj%elem_of_seq. apply port_at_inj; lia. }
  pose proof (filter_ne_length ports localPort Hnd) as Hl.
  replace (length ports) with m in Hl by (by unfold ports; rewrite length_map, length_seq).
  enough (length (filter (λ y, y ≠ localPort) ports) ≤ size (tb_responseFlows t))%nat by lia.
  rewrite <-size_dom. replace (length _) with (length (mkResponseKey localPort <$> filter (λ y, y ≠ localPort) ports))
    by apply length_fmap.
  rewrite <-(size_list_to_set (C := gset responseFlowKey)).
  - apply subseteq_size. intros k. rewrite elem_of_list_to_set. intros (port & -> & Hport)%list_elem_of_fmap.
    apply list_elem_of_filter in Hport as [Hne Hin]. apply list_elem_of_fmap in Hin as (i & -> & Hi%elem_of_seq).
    apply elem_of_dom. destruct (Hs i ltac:(lia)) as [E|?]; [congruence|done].
  - apply NoDup_fmap_2; [by intros ? ? [= ->]|]. by apply NoDup_filter.
Qed.

(** As many answers as flows. *)
Lemma responses_size t : flows_ok t → (size (tb_responseFlows t) ≤ size (tb_targetFlows t))%nat.
Proof.
  intros [F1 F2 _ _]. rewrite <-!length_map_to_list, <-(length_fmap snd (map_to_list (tb_responseFlows t))).
  rewrite <-(length_fmap snd (map_to_list (tb_targetFlows t))). apply submseteq_length, NoDup_submseteq.
  - apply NoDup_fmap_2_strong; [|apply NoDup_map_to_list].
    intros [k p] [k' p'] Hk%elem_of_map_to_list Hk'%elem_of_map_to_list. cbn. intros <-.
    destruct (F2 _ _ Hk) as (f & Hf & <- & _), (F2 _ _ Hk') as (f' & Hf' & <- & _). congruence.
  - intros p ([k q] & -> & Hk%elem_of_map_to_list)%list_elem_of_fmap. destruct (F2 _ _ Hk) as (f & _ & _ & Ht).
    apply list_elem_of_fmap. exists (fl_targetKey f, q). split; [done|]. by apply elem_of_map_to_list.
Qed.

Lemma allocateNATPort_ok t preferred localPort :
  flows_ok t → 1024 ≤ tb_nextNATPort t ≤ 65535 → Z.of_nat (size (tb_targetFlows t)) ≤ maxVirtualRedirectFlows →
  0 ≤ preferred < 2 ^ 16 →
  ∃ port next, allocateNATPort t preferred localPort = (Some port, set_nextNATPort t next) ∧
    1024 ≤ next ≤ 65535 ∧ 0 < port < 2 ^ 16 ∧ port ≠ localPort ∧
    tb_responseFlows t !! mkResponseKey localPort port = None.
Proof.
  intros Hok Hp Hs Hpref. unfold allocateNATPort. destruct (_ && _) eqn:E.
  - apply andb_true_iff in E as [[E1 E2]%andb_true_iff E3]. apply bool_decide_eq_true in E3.
    exists preferred, (tb_nextNATPort t). split_and!; try done; try (by destruct t); bool_lia.
  - pose proof (scan_ports_spec natAttempts t localPort Hp) as Hspec.
    pose proof (scan_fails_full natAttempts t localPort (Z.to_nat 8194) Hp) as Hfull.
    pose proof (responses_size t Hok). unfold maxVirtualRedirectFlows in Hs.
    destruct (scan_ports natAttempts t localPort) as [[port|] t']; cbn [fst] in *.
    + destruct Hspec as [(next & -> & Hn) (H1 & H2 & H3)]. exists port, next.
      split_and!; (lia || done).
    + exfalso. assert (Z.to_nat 8194 ≤ natAttempts)%nat as Hle by (unfold natAttempts; lia).
      specialize (Hfull eq_refl Hle). lia.
Qed.

(** ** The operations keep the table right *)

Section Steps.
Variable rg : FlowRange.

(** A flow never changes its keys or its rule. *)
Definition flows_kept (t t' : virtualRedirectTable) : Prop :=
  ∀ p f, tb_flows t !! p = Some f → ∃ g, tb_flows t' !! p = Some g ∧ same_keys f g.

#[local] Instance flows_kept_refl : Reflexive flows_kept.
Proof. intros t p f Hf. by exists f. Qed.
#[local] Instance flows_kept_trans : Transitive flows_kept.
Proof.
  intros t1 t2 t3 H12 H23 p f Hf. destruct (H12 p f Hf) as (g & Hg & A1 & A2 & A3).
  destruct (H23 p g Hg) as (h & Hh & B1 & B2 & B3). exists h. split; [done|]. split_and!; congruence.
Qed.

Lemma set_flow_kept t p f g : tb_flows t !! p = Some f → same_keys f g → flows_kept t (set_flow t p g).
Proof.
  intros Hf Hs q h Hh. cbn. destruct (decide (q = p)) as [->|Hne].
  - exists g. rewrite lookup_insert_eq. by simplify_eq.
  - exists h. by rewrite lookup_insert_ne by done.
Qed.

Definition steps_to (t t' : virtualRedirectTable) : Prop := table_ok t' ∧ same_rules t t' ∧ flows_kept t t'.

Lemma shrinks_ok t t' : table_ok t → shrinks t t' → steps_to t t'.
Proof.
  intros [R F S P] Hsh. pose proof (shrinks_size _ _ Hsh). destruct Hsh as (H1 & H2 & H3 & H4 & H5).
  split; [|split; [done|]].
  - constructor; [by eapply rules_ok_same|done|lia|by rewrite H3].
  - intros p f Hf. exists f. by rewrite H5.
Qed.

Lemma insert_flow_ok t key rule natPort now ifIdx subIfIdx :
  flows_ok t → tb_targetFlows t !! key = None →
  tb_responseFlows t !! mkResponseKey (rule_LocalPort rule) natPort = None →
  tb_targets t !! (tk_TargetIP key, tk_TargetPort key) = Some rule →
  0 < natPort < 2 ^ 16 → natPort ≠ rule_LocalPort rule → key_ok key →
  let responseKey := mkResponseKey (rule_LocalPort rule) natPort in
  let p := tb_nextFlow t in
  flows_ok (mkTable (tb_targets t) (tb_responses t) (<[key := p]> (tb_targetFlows t))
             (<[responseKey := p]> (tb_responseFlows t))
             (<[p := mkFlow key responseKey rule now false ifIdx subIfIdx]> (tb_flows t))
             (tb_nextNATPort t) (tb_lastFlowCleanup t) (S p)).
Proof.
  intros [F1 F2 F3 F4] Hk Hr Ht Hnat Hne Hkey. cbv zeta.
  assert (tb_flows t !! tb_nextFlow t = None) as Hfresh.
  { apply eq_None_not_Some. intros Hs%F4. lia. }
  assert (∀ q f, tb_flows t !! q = Some f → q ≠ tb_nextFlow t) as Hold by (intros q f Hq ->; congruence).
  constructor; unfold flow_of; cbn [tb_targetFlows tb_responseFlows tb_flows tb_targets tb_nextFlow].
  - intros k q [[<- <-]|[Hk' Hq]]%lookup_insert_Some.
    + eexists. rewrite lookup_insert_eq. split_and!; [done..|]. cbn. by rewrite lookup_insert_eq.
    + destruct (F1 _ _ Hq) as (f & Hf & <- & Hrf). exists f.
      rewrite !lookup_insert_ne; [done| |by apply not_eq_sym, (Hold _ f)]. intros E. rewrite E in Hr. congruence.
  - intros k q [[<- <-]|[Hk' Hq]]%lookup_insert_Some.
    + eexists. rewrite lookup_insert_eq. split_and!; [done..|]. cbn. by rewrite lookup_insert_eq.
    + destruct (F2 _ _ Hq) as (f & Hf & <- & Htf). exists f.
      rewrite !lookup_insert_ne; [done| |by apply not_eq_sym, (Hold _ f)]. intros E. rewrite E in Hk. congruence.
  - intros k f (q & [[<- <-]|[Hk' Hq]]%lookup_insert_Some & Hf).
    + rewrite lookup_insert_eq in Hf. injection Hf as <-. cbn. split_and!; (done || lia).
    + destruct (F1 _ _ Hq) as (g & Hg & _). rewrite lookup_insert_ne in Hf by (apply not_eq_sym, (Hold _ g Hg)).
      apply (F3 k f). by exists q.
  - intros q [f Hf]. apply lookup_insert_Some in Hf as [[<- _]|[_ Hf]]; [lia|].
    assert (q < tb_nextFlow t)%nat by (apply F4; eauto). lia.
Qed.

(** A flow is found or made for every packet to a target: it never fails. *)
Lemma ensureTargetFlow_ok t key rule ifIdx subIfIdx now :
  table_ok t → tb_targets t !! (tk_TargetIP key, tk_TargetPort key) = Some rule → key_ok key →
  ∃ p t' f, ensureTargetFlow rg t key rule ifIdx subIfIdx now = (Some p, t') ∧ steps_to t t' ∧
    tb_targetFlows t' !! key = Some p ∧ tb_flows t' !! p = Some f ∧ fl_targetKey f = key ∧ fl_rule f = rule ∧
    fl_ifIdx f = ifIdx ∧ fl_subIfIdx f = subIfIdx.
Proof.
  intros Hok Ht Hkey. unfold ensureTargetFlow.
  destruct (shrinks_ok t _ Hok (cleanupFlows_ok rg t now (to_flows t Hok))) as (Hok1 & Hr1 & Hk1).
  set (t1 := cleanupFlows rg t now) in *. rewrite <-(proj1 Hr1) in Ht.
  destruct (tb_targetFlows t1 !! key) as [p|] eqn:Ep; cbn [mbind option_bind].
  - destruct (fo_target t1 (to_flows t1 Hok1) _ _ Ep) as (f & Hf & Hkf & _). rewrite Hf. cbn.
    set (g := mkFlow _ _ _ _ _ _ _). exists p, (set_flow t1 p g), g. split; [done|].
    assert (same_keys f g) as Hs by done.
    assert (fl_rule f = rule) as Hrule.
    { destruct (fo_flow t1 (to_flows t1 Hok1) key f) as [Hr _]; [by exists p|]. congruence. }
    split; [|split; [done|split; [cbn; by rewrite lookup_insert_eq|done]]].
    split; [|split; [done|etrans; [done|by eapply set_flow_kept]]].
    destruct Hok1 as [R F S P]. constructor; [done| |done..]. by eapply set_flow_ok.
  - set (t2 := if maxVirtualRedirectFlows <=? Z.of_nat (size (tb_targetFlows t1)) then evictStaleFlow rg t1 else t1).
    assert (steps_to t t2 ∧ Z.of_nat (size (tb_targetFlows t2)) < maxVirtualRedirectFlows ∧
            tb_targetFlows t2 !! key = None) as ((Hok2 & Hr2 & Hk2) & Hs2 & Hn2).
    { subst t2. destruct (Z.leb_spec maxVirtualRedirectFlows (Z.of_nat (size (tb_targetFlows t1)))).
      - destruct (evict_ok rg t1 (to_flows t1 Hok1)) as [Hsh Hsz].
        { intros E. rewrite E, map_size_empty in *. unfold maxVirtualRedirectFlows in *. lia. }
        destruct (shrinks_ok _ _ Hok1 Hsh) as (? & ? & ?). pose proof (to_size t1 Hok1). split_and!.
        + split; [done|split; by etrans].
        + lia.
        + destruct Hsh as (_ & _ & _ & Hsub & _). by eapply lookup_weaken_None.
      - by split_and!. }
    clearbody t2. rewrite (proj1 Hr1), <-(proj1 Hr2) in Ht.
    destruct (allocateNATPort_ok t2 (tk_SourcePort key) (rule_LocalPort rule) (to_flows t2 Hok2) (to_port t2 Hok2)
                (to_size t2 Hok2) (proj1 (proj2 Hkey))) as (port & next & -> & Hnext & Hport & Hne & Hfree).
    eexists _, _, _. split; [reflexivity|].
    cbn [tb_targetFlows tb_flows tb_nextFlow set_nextNATPort]. rewrite !lookup_insert_eq.
    split_and!; [|reflexivity..]. destruct Hok2 as [R F S P]. split; [|split].
    + constructor; cbn.
      * intros ip q r Hq. by apply R.
      * apply (insert_flow_ok (set_nextNATPort t2 next)); try done. by destruct F.
      * rewrite map_size_insert_None by done. lia.
      * done.
    + done.
    + etrans; [done|]. intros q f Hf. cbn. exists f. rewrite lookup_insert_ne; [done|].
      intros <-. assert (tb_nextFlow t2 < tb_nextFlow t2)%nat by (apply (fo_fresh t2 F); eauto). lia.
Qed.

Lemma updateFlowState_ok t p f flags now :
  table_ok t → tb_flows t !! p = Some f → tb_targetFlows t !! fl_targetKey f = Some p →
  let t' := updateFlowState t p flags now in
  steps_to t t' ∧
  (Z.land flags 4 = 0 → tb_targetFlows t' = tb_targetFlows t ∧
     ∃ g, tb_flows t' !! p = Some g ∧ fl_ifIdx g = fl_ifIdx f ∧ fl_subIfIdx g = fl_subIfIdx f).
Proof.
  intros Hok Hf Hp. cbv zeta. unfold updateFlowState. rewrite Hf.
  assert (∀ c, let g := mkFlow (fl_targetKey f) (fl_responseKey f) (fl_rule f) now c (fl_ifIdx f) (fl_subIfIdx f) in
               steps_to t (set_flow t p g)) as Hset.
  { intros c g. assert (same_keys f g) as Hs by done. split; [|split; [done|by eapply set_flow_kept]].
    destruct Hok as [R F S P]. constructor; [done| |done..]. by eapply set_flow_ok. }
  destruct (Z.eqb_spec (Z.land flags 4) 0) as [E|E]; cbn [negb].
  - split; [apply Hset|]. intros _. split; [done|]. cbn. rewrite lookup_insert_eq. by eexists.
  - split; [|done]. set (c := if negb _ then false else _).
    destruct (Hset c) as (H1 & H2 & H3). cbv zeta in *.
    destruct (shrinks_ok _ _ H1 (removeFlow_shrinks _ p (to_flows _ H1) ltac:(eexists; cbn; by rewrite lookup_insert_eq)))
      as (? & ? & ?). split; [done|]. split; by etrans.
Qed.
End Steps.

(** ** Reading what was written into a packet *)

Lemma length_put packet i data : (i + length data ≤ length packet)%nat → length (put packet i data) = length packet.
Proof. intros H. unfold put. rewrite !length_app, length_take, length_drop. lia. Qed.

Lemma lookup_put packet i data j :
  (i + length data ≤ length packet)%nat →
  put packet i data !! j = if decide (i ≤ j < i + length data)%nat then data !! (j - i)%nat else packet !! j.
Proof.
  intros H. unfold put. assert (length (take i packet) = i) as Hl by (rewrite length_take; lia).
  destruct (decide (j < i)%nat) as [Hj|Hj].
  { rewrite lookup_app_l by lia. rewrite lookup_take_lt by done. rewrite decide_False by lia. done. }
  rewrite lookup_app_r, Hl by lia. case_decide as Hd.
  - by rewrite lookup_app_l by lia.
  - rewrite lookup_app_r by lia. rewrite lookup_drop. f_equal. lia.
Qed.

Lemma slice_put packet i data : (i + length data ≤ length packet)%nat → slice (put packet i data) i (length data) = data.
Proof.
  intros H. unfold slice, put. rewrite drop_app_length' by (rewrite length_take; lia). by rewrite take_app_length.
Qed.

Lemma slice_put_ne packet i data j m :
  (i + length data ≤ length packet)%nat → (j + m ≤ i ∨ i + length data ≤ j)%nat →
  slice (put packet i data) j m = slice packet j m.
Proof.
  intros H Hd. apply list_eq. intros k. unfold slice. destruct (decide (k < m)%nat) as [Hk|Hk].
  - rewrite !lookup_take_lt, !lookup_drop, lookup_put by done. rewrite decide_False by lia. done.
  - by rewrite !lookup_take_ge by lia.
Qed.

Lemma byte_put packet i data j :
  (i + length data ≤ length packet)%nat → (j < i ∨ i + length data ≤ j)%nat →
  byte_of (put packet i data) j = byte_of packet j.
Proof. intros H Hd. unfold byte_of. rewrite lookup_put by done. by rewrite decide_False by lia. Qed.

Lemma drop_put packet i data n :
  (i + length data ≤ n)%nat → (n ≤ length packet)%nat → drop n (put packet i data) = drop n packet.
Proof.
  intros H Hn. apply list_eq. intros k. rewrite !lookup_drop, lookup_put by lia. by rewrite decide_False by lia.
Qed.

Lemma Uint16_PutUint16 v : 0 ≤ v < 2 ^ 16 → Uint32 (PutUint16 v) = v.
Proof.
  intros Hv. unfold Uint32, PutUint16. cbn [map foldl].
  assert (0 ≤ v / 2 ^ 8 < 256) by (split; [apply Z.div_pos; lia|apply Z.div_lt_upper_bound; lia]).
  rewrite !code_of_code by (done || apply Z.mod_pos_bound; lia). change (2 ^ 8) with 256. pose proof (Z.div_mod v 256 ltac:(lia)). lia.
Qed.

Lemma Uint16_range b : length b = 2%nat → 0 ≤ Uint32 b < 2 ^ 16.
Proof.
  intros Hl. destruct b as [|c0 [|c1 [|]]]; try done. unfold Uint32. cbn [foldl].
  pose proof (code_range c0). pose proof (code_range c1). lia.
Qed.

Lemma length_slice packet i n : (i + n ≤ length packet)%nat → length (slice packet i n) = n.
Proof. intros H. unfold slice. rewrite length_take, length_drop. lia. Qed.

Lemma parse_bounds packet ihl :
  parseVirtualRedirectIPv4TCP packet = Some ihl → (20 ≤ ihl)%nat ∧ (ihl + 20 ≤ length packet)%nat.
Proof.
  unfold parseVirtualRedirectIPv4TCP. destruct (_ || _ || _); [done|].
  destruct (_ || _) eqn:E; [done|]. intros [= <-]. apply orb_false_iff in E as [?%Nat.ltb_ge ?%Nat.ltb_ge]. done.
Qed.

Definition endpoints_ok (e : endpoints) : Prop :=
  0 ≤ ep_srcIP e < 2 ^ 32 ∧ 0 ≤ ep_srcPort e < 2 ^ 16 ∧ 0 ≤ ep_dstIP e < 2 ^ 32 ∧ 0 ≤ ep_dstPort e < 2 ^ 16.

Lemma read_endpoints_ok packet ihl : parseVirtualRedirectIPv4TCP packet = Some ihl → endpoints_ok (read_endpoints packet ihl).
Proof.
  intros [H1 H2]%parse_bounds.
  split; [|split; [|split]]; cbn [ep_srcIP ep_srcPort ep_dstIP ep_dstPort read_endpoints];
    first [apply Uint32_range|apply Uint16_range]; apply length_slice; lia.
Qed.

(** A packet that was rewritten is a packet of the same shape with the new
    endpoints and the same payload. *)
Lemma write_endpoints_ok packet ihl e :
  parseVirtualRedirectIPv4TCP packet = Some ihl → endpoints_ok e →
  let packet' := write_endpoints packet ihl e in
  read_endpoints packet' ihl = e ∧ parseVirtualRedirectIPv4TCP packet' = Some ihl ∧
  length packet' = length packet ∧ drop (ihl + 4) packet' = drop (ihl + 4) packet.
Proof.
  intros Hp (He1 & He2 & He3 & He4). destruct (parse_bounds _ _ Hp) as [H1 H2]. cbv zeta. unfold write_endpoints.
  set (d1 := PutUint32 (ep_srcIP e)). set (d2 := PutUint16 (ep_srcPort e)).
  set (d3 := PutUint32 (ep_dstIP e)). set (d4 := PutUint16 (ep_dstPort e)).
  assert (length d1 = 4 ∧ length d2 = 2 ∧ length d3 = 4 ∧ length d4 = 2)%nat as (L1 & L2 & L3 & L4) by done.
  set (p1 := put packet 12 d1). set (p2 := put p1 ihl d2). set (p3 := put p2 16 d3).
  assert (length p1 = length packet) as Hl1 by (apply length_put; lia).
  assert (length p2 = length packet) as Hl2 by (unfold p2; rewrite length_put; lia).
  assert (length p3 = length packet) as Hl3 by (unfold p3; rewrite length_put; lia).
  assert (length (put p3 (ihl + 2) d4) = length packet) as Hl4 by (rewrite length_put; lia).
  split_and!; [| |done|].
  - unfold read_endpoints. destruct e as [a b c d]. cbn [ep_srcIP ep_srcPort ep_dstIP ep_dstPort] in *. f_equal.
    + rewrite slice_put_ne by lia. unfold p3. rewrite slice_put_ne by lia. unfold p2. rewrite slice_put_ne by lia.
      change 4%nat with (length d1). unfold p1. rewrite slice_put by lia. by apply Uint32_PutUint32.
    + rewrite slice_put_ne by lia. unfold p3. rewrite slice_put_ne by lia.
      change 2%nat with (length d2). unfold p2. rewrite slice_put by lia. by apply Uint16_PutUint16.
    + rewrite slice_put_ne by lia. change 4%nat with (length d3). unfold p3. rewrite slice_put by lia.
      by apply Uint32_PutUint32.
    + change (slice (put p3 (ihl + 2) d4) (ihl + 2) 2) with (slice (put p3 (ihl + 2) d4) (ihl + 2) (length d4)).
      rewrite slice_put by lia. by apply Uint16_PutUint16.
  - rewrite <-Hp. unfold parseVirtualRedirectIPv4TCP. rewrite Hl4.
    assert (∀ j, (j < 12)%nat → byte_of (put p3 (ihl + 2) d4) j = byte_of packet j) as Hb.
    { intros j Hj. rewrite byte_put by lia. unfold p3. rewrite byte_put by lia. unfold p2. rewrite byte_put by lia.
      unfold p1. by rewrite byte_put by lia. }
    by rewrite !Hb by lia.
  - rewrite drop_put by lia. unfold p3. rewrite drop_put by lia. unfold p2. rewrite drop_put by lia.
    unfold p1. by rewrite drop_put by lia.
Qed.

(** ** A new table *)

Definition rule_typed (r : virtualRedirectRule) : Prop :=
  0 ≤ rule_VirtualPort r < 2 ^ 16 ∧ 0 ≤ rule_LocalPort r < 2 ^ 16.
Definition rule_good (r : virtualRedirectRule) : Prop :=
  (∃ b, usable b ∧ rule_VirtualIP r = ipv4_text b) ∧ rule_typed r.

Lemma add_rules_ok values s s' :
  fold_err add_rule s values = Ok s' → Forall rule_typed values →
  let ok (s : gset string * gset Z * list virtualRedirectRule) :=
    s.1.2 = list_to_set (map rule_LocalPort s.2) ∧ NoDup (map rule_LocalPort s.2) ∧ Forall rule_good s.2 in
  ok s → ok s'.
Proof.
  cbv zeta. revert s. induction values as [|v values IH]; intros [[targets ports] rules]; [by intros [= <-]|].
  cbn [fold_err]. destruct (add_rule _ v) as [s1|] eqn:E; [|done]. intros Hf [Hv Hvs]%Forall_cons (H1 & H2 & H3).
  cbn in H1, H2, H3. apply (IH s1 Hf Hvs). clear IH Hf. unfold add_rule in E.
  destruct (normalizeVirtualIPv4 (rule_VirtualIP v)) as [b|] eqn:Eb; [|done]. cbn in E.
  destruct (_ || _) in E; [done|]. case_decide; [done|]. case_decide as Hp; [done|]. injection E as <-.
  cbn [fst snd]. rewrite map_app. cbn [map]. split_and!.
  - rewrite list_to_set_app_L, H1. cbn. set_solver.
  - apply NoDup_app. split_and!; [done| |by apply NoDup_singleton].
    intros x Hx ->%list_elem_of_singleton. apply Hp. rewrite H1. by apply elem_of_list_to_set.
  - apply Forall_app. split; [done|]. apply Forall_singleton. split; [|done].
    exists b. split; [by eapply normalizeVirtualIPv4_usable|done].
Qed.

Lemma normalize_rules_ok values rules :
  normalizeVirtualRedirectRules values = Ok rules → Forall rule_typed values →
  NoDup (map rule_LocalPort rules) ∧ Forall rule_good rules.
Proof.
  unfold normalizeVirtualRedirectRules. destruct (_ <? _); [done|].
  destruct (fold_err _ _ _) as [[[targets ports] rs]|] eqn:E; [|done]. cbn. intros [= <-] Ht.
  destruct (add_rules_ok _ _ _ E Ht) as (_ & H1 & H2).
  { split_and!; [done|apply NoDup_nil_2|done]. }
  cbn in H1, H2. split.
  - eapply NoDup_Permutation_proper; [|exact H1]. apply Permutation_map, merge_sort_Permutation.
  - by rewrite merge_sort_Permutation.
Qed.

Lemma fold_insert_elem {K} `{Countable K} (key : virtualRedirectRule → K) rules k r :
  foldl (λ m r, <[key r := r]> m) (∅ : gmap K _) rules !! k = Some r → r ∈ rules ∧ key r = k.
Proof.
  induction rules as [|x rules IH] using rev_ind; cbn; [by rewrite lookup_empty|].
  rewrite foldl_snoc. intros [[<- <-]|[_ Hl]]%lookup_insert_Some; set_solver.
Qed.

Lemma fold_insert_unique {K} `{Countable K} (key : virtualRedirectRule → K) rules r :
  NoDup (map key rules) → r ∈ rules → foldl (λ m r, <[key r := r]> m) (∅ : gmap K _) rules !! key r = Some r.
Proof.
  induction rules as [|x rules IH] using rev_ind; [by intros _ []%not_elem_of_nil|].
  rewrite map_app, foldl_snoc. intros (Hnd & Hne & _)%NoDup_app [Hr| ->%list_elem_of_singleton]%elem_of_app.
  - rewrite lookup_insert_ne; [by apply IH|]. intros E. apply (Hne (key r)).
    + apply list_elem_of_fmap. by exists r.
    + apply list_elem_of_singleton. done.
  - apply lookup_insert_eq.
Qed.

Lemma usable_ip_ne b : usable b → ip_value b ≠ virtualRedirectLoopbackIPv4.
Proof.
  intros (x & y & z & w & -> & Hx & Hy & Hz & Hw & Hr & Hl & _). unfold ip_value, virtualRedirectLoopbackIPv4, octet in *.
  cbn [foldl]. lia.
Qed.

Lemma rule_ip_usable r b : usable b → rule_VirtualIP r = ipv4_text b → rule_ip r = ip_value b.
Proof.
  intros (x & y & z & w & -> & Hx & Hy & Hz & Hw & _) E. unfold rule_ip. rewrite E.
  change (ipv4_text [x; y; z; w]) with (dotted x y z w). rewrite ParseIP_dotted by done. unfold To4.
  change (take 12 (v4InV6Prefix ++ [x; y; z; w])) with v4InV6Prefix. by rewrite bool_decide_true.
Qed.

Lemma newTable_ok values start t :
  newVirtualRedirectTable values start = Ok t → Forall rule_typed values → table_ok t.
Proof.
  unfold newVirtualRedirectTable. destruct (normalizeVirtualRedirectRules values) as [rules|] eqn:E; [|done].
  cbn. intros [= <-] Ht. destruct (normalize_rules_ok _ _ E Ht) as [Hnd Hgood].
  constructor; cbn.
  - intros ip port r [Hr Hk]%fold_insert_elem. injection Hk as <- <-.
    rewrite Forall_forall in Hgood. destruct (Hgood r Hr) as [(b & Hb & Eb) [_ Hport]].
    split_and!; [done|by apply fold_insert_unique| |lia..].
    rewrite (rule_ip_usable r b Hb Eb). by apply usable_ip_ne.
  - constructor; cbn; try (intros k p; by rewrite lookup_empty).
    + intros k f (p & Hp & _). cbn in Hp. by rewrite lookup_empty in Hp.
    + intros p [f Hp]. by rewrite lookup_empty in Hp.
  - unfold maxVirtualRedirectFlows. rewrite map_size_empty. lia.
  - lia.
Qed.

(** ** Runs *)

Section Runs.
Variable rg : FlowRange.

Lemma steps_refl t : table_ok t → steps_to t t.
Proof. intros H. split; [done|split; [done|]]. intros p f Hf. by exists f. Qed.
Lemma steps_trans t1 t2 t3 : steps_to t1 t2 → steps_to t2 t3 → steps_to t1 t3.
Proof.
  intros (_ & A1 & A2) (B & B1 & B2). split; [done|split; [by etrans|]]. by eapply flows_kept_trans.
Qed.

Definition packet_key (packet : chars) (ihl : nat) : targetFlowKey :=
  let e := read_endpoints packet ihl in mkTargetKey (ep_srcIP e) (ep_srcPort e) (ep_dstIP e) (ep_dstPort e).

(** A packet to an endpoint is always sent on, under the port of its flow. *)
Lemma outgoing_rewritten t packet route now later ihl rule :
  table_ok t → parseVirtualRedirectIPv4TCP packet = Some ihl → rt_Outbound route = true →
  let e := read_endpoints packet ihl in
  tb_targets t !! (ep_dstIP e, ep_dstPort e) = Some rule →
  ∃ p f t',
    rewriteVirtualRedirectPacket rg packet route (Some t) now later =
      (mkRoute true true 1 0, redirectInject,
       write_endpoints packet ihl (mkEndpoints virtualRedirectLoopbackIPv4 (rk_NATPort (fl_responseKey f))
                                     virtualRedirectLoopbackIPv4 (rule_LocalPort rule)), Some t') ∧
    steps_to t t' ∧ fl_targetKey f = packet_key packet ihl ∧ fl_rule f = rule ∧
    rk_LocalPort (fl_responseKey f) = rule_LocalPort rule ∧ 0 ≤ rk_NATPort (fl_responseKey f) < 2 ^ 16 ∧
    (Z.land (byte_of packet (ihl + 13)) 4 = 0 →
     tb_targetFlows t' !! packet_key packet ihl = Some p ∧
     ∃ g, tb_flows t' !! p = Some g ∧ same_keys f g ∧ fl_ifIdx g = rt_IfIdx route ∧ fl_subIfIdx g = rt_SubIfIdx route).
Proof.
  intros Hok Hp Hout e Ht. unfold rewriteVirtualRedirectPacket. rewrite Hp, Hout. cbn [negb]. fold e. rewrite Ht.
  destruct (read_endpoints_ok _ _ Hp) as (He1 & He2 & He3 & He4). fold e in He1, He2, He3, He4.
  destruct (ensureTargetFlow_ok rg t (packet_key packet ihl) rule (rt_IfIdx route) (rt_SubIfIdx route) now Hok)
    as (p & t1 & f & E & (Hok1 & Hr1 & Hk1) & Hp1 & Hf1 & Hkey & Hrule & Hif & Hsub); [done|done|].
  change (mkTargetKey _ _ _ _) with (packet_key packet ihl). rewrite E. cbn. rewrite Hf1. cbn.
  rewrite <-Hkey in Hp1.
  destruct (updateFlowState_ok t1 p f (byte_of packet (ihl + 13)) later Hok1 Hf1 Hp1) as (Hs2 & Hrst).
  destruct (fo_flow t1 (to_flows t1 Hok1) (fl_targetKey f) f) as (_ & Hlp & Hnat & _); [by exists p|].
  exists p, f, (updateFlowState t1 p (byte_of packet (ihl + 13)) later). split; [done|].
  split; [eapply steps_trans; [|done]; by split|]. split_and!; try done; try congruence; try lia.
  intros Hflag. destruct (Hrst Hflag) as (Hm & g & Hg & Hi & Hsi). rewrite Hm, <-Hkey. split; [done|].
  exists g. destruct Hs2 as (_ & _ & Hk2). destruct (Hk2 p f Hf1) as (g' & Hg' & Hsame). assert (g' = g) as -> by congruence. split_and!; (done || congruence).
Qed.

Lemma rewrite_ok t packet route now later :
  table_ok t →
  let '(_, action, _, t') := rewriteVirtualRedirectPacket rg packet route (Some t) now later in
  action ≠ redirectDrop ∧ ∃ t1, t' = Some t1 ∧ steps_to t t1.
Proof.
  intros Hok. pose proof (outgoing_rewritten t packet route now later) as Hout.
  destruct (parseVirtualRedirectIPv4TCP packet) as [ihl|] eqn:Hp.
  2: { unfold rewriteVirtualRedirectPacket. rewrite Hp. eauto using steps_refl. }
  destruct (rt_Outbound route) eqn:Ho.
  2: { unfold rewriteVirtualRedirectPacket. rewrite Hp, Ho. cbn. eauto using steps_refl. }
  destruct (tb_targets t !! (ep_dstIP (read_endpoints packet ihl), ep_dstPort (read_endpoints packet ihl))) as [rule|] eqn:Ht.
  { destruct (Hout ihl rule Hok eq_refl eq_refl Ht) as (p & f & t' & -> & Hs & _). eauto. }
  unfold rewriteVirtualRedirectPacket. rewrite Hp, Ho. cbn [negb]. rewrite Ht.
  destruct (tb_responses t !! _) as [rule|]; [|eauto using steps_refl].
  destruct (negb _); [eauto using steps_refl|].
  destruct (tb_responseFlows t !! _) as [p|] eqn:Er; [|cbn; eauto using steps_refl]. cbn.
  destruct (fo_response t (to_flows t Hok) _ _ Er) as (f & Hf & _ & Htf). rewrite Hf. cbn.
  destruct (negb _); [eauto using steps_refl|]. split; [done|]. eexists. split; [done|].
  by eapply updateFlowState_ok.
Qed.

(** What WinDivert hands over, with two clock readings. *)
Record redirect_event := mkRedirectEvent {
  rv_packet : chars; rv_route : packetRoute; rv_now : Time; rv_later : Time
}.

Definition redirect_step (t : virtualRedirectTable) (ev : redirect_event) : virtualRedirectTable :=
  default t (rewriteVirtualRedirectPacket rg (rv_packet ev) (rv_route ev) (Some t) (rv_now ev) (rv_later ev)).2.
Definition redirect_run (t : virtualRedirectTable) (evs : list redirect_event) : virtualRedirectTable :=
  foldl redirect_step t evs.

Lemma redirect_run_ok t evs : table_ok t → steps_to t (redirect_run t evs).
Proof.
  intros Hok. unfold redirect_run. induction evs as [|ev evs IH] using rev_ind; [by apply steps_refl|].
  rewrite foldl_snoc. eapply steps_trans; [exact IH|]. unfold redirect_step at 2.
  pose proof (rewrite_ok (foldl redirect_step t evs) (rv_packet ev) (rv_route ev) (rv_now ev) (rv_later ev)) as H.
  destruct (rewriteVirtualRedirectPacket _ _ _ _ _ _) as [[[r a] packet'] t'].
  destruct H as (_ & t1 & -> & Hs); [apply IH|done].
Qed.

(** C9: A table made from rules with ports of sixteen bits stays right whatever
    packets come, at whatever times: it holds at most 8192 flows, flows to the same
    local port have different NAT ports, so an answer belongs to one flow, and a
    packet is never dropped for want of a port: there is always a free one. *)
Theorem redirect_never_drops rules start t0 evs :
  newVirtualRedirectTable rules start = Ok t0 → Forall rule_typed rules →
  let t := redirect_run t0 evs in
  Z.of_nat (size (tb_targetFlows t)) ≤ maxVirtualRedirectFlows ∧
  (∀ k f k' f', flow_of t k f → flow_of t k' f' → fl_responseKey f = fl_responseKey f' → k = k') ∧
  (∀ packet route now later,
     (rewriteVirtualRedirectPacket rg packet route (Some t) now later).1.1.2 ≠ redirectDrop).
Proof.
  intros Hnew Ht t. assert (table_ok t) as Hok by (by eapply redirect_run_ok, newTable_ok).
  split_and!.
  - by apply to_size.
  - intros k f k' f' (p & Hp & Hf) (p' & Hp' & Hf') E. destruct (to_flows t Hok) as [F1 _ _ _].
    destruct (F1 _ _ Hp) as (g & ? & <- & Hr), (F1 _ _ Hp') as (g' & ? & <- & Hr'). simplify_eq.
    rewrite E in Hr. congruence.
  - intros packet route now later. pose proof (rewrite_ok t packet route now later Hok) as H.
    destruct (rewriteVirtualRedirectPacket _ _ _ _ _ _) as [[[r a] packet'] t']. by destruct H.
Qed.

Definition swap (e : endpoints) : endpoints := mkEndpoints (ep_dstIP e) (ep_dstPort e) (ep_srcIP e) (ep_srcPort e).

(** C20: The answer comes back to where the packet came from: a packet to a virtual
    endpoint (one that does not reset the connection) is sent to the local port
    with its payload, and any later answer to it, while its flow is in the table
    and whatever other packets came between, leaves as if the virtual endpoint had
    answered, with the payload of the answer. *)
Theorem replies_come_back rules start t0 evs packet route now later ihl between reply route' now' later' ihl' :
  newVirtualRedirectTable rules start = Ok t0 → Forall rule_typed rules →
  parseVirtualRedirectIPv4TCP packet = Some ihl → parseVirtualRedirectIPv4TCP reply = Some ihl' →
  let e := read_endpoints packet ihl in
  is_Some (tb_targets t0 !! (ep_dstIP e, ep_dstPort e)) → rt_Outbound route = true →
  Z.land (byte_of packet (ihl + 13)) 4 = 0 →
  let '(_, action, packet', t1) :=
    rewriteVirtualRedirectPacket rg packet route (Some (redirect_run t0 evs)) now later in
  action = redirectInject ∧ drop (ihl + 4) packet' = drop (ihl + 4) packet ∧
  ∃ t1', t1 = Some t1' ∧
    let t2 := redirect_run t1' between in
    (tb_targetFlows t2 !! packet_key packet ihl = tb_targetFlows t1' !! packet_key packet ihl →
     read_endpoints reply ihl' = swap (read_endpoints packet' ihl) →
     rt_Outbound route' = true → rt_Loopback route' = true →
     let '(_, action', reply', _) := rewriteVirtualRedirectPacket rg reply route' (Some t2) now' later' in
     action' = redirectInject ∧ read_endpoints reply' ihl' = swap e ∧
     drop (ihl' + 4) reply' = drop (ihl' + 4) reply).
Proof.
  intros Hnew Htyped Hp Hp' e [rule Ht] Hout Hrst.
  destruct (redirect_run_ok t0 evs (newTable_ok _ _ _ Hnew Htyped)) as (Hok & Hr & _).
  set (t := redirect_run t0 evs) in *. rewrite <-(proj1 Hr) in Ht.
  destruct (outgoing_rewritten t packet route now later ihl rule Hok Hp Hout Ht)
    as (p & f & t1 & -> & (Hok1 & Hr1 & Hk1) & Hkey & Hrule & Hlp & Hnat & Hlive).
  destruct (to_rules t Hok _ _ _ Ht) as (Evp & Hresp & Hnl & Hlport).
  destruct (write_endpoints_ok packet ihl (mkEndpoints virtualRedirectLoopbackIPv4 (rk_NATPort (fl_responseKey f))
              virtualRedirectLoopbackIPv4 (rule_LocalPort rule)) Hp) as (Hre & _ & _ & Hpay).
  { by split_and!; cbn; try lia. }
  split; [done|]. split; [done|]. exists t1. split; [done|]. cbv zeta. rewrite Hre.
  destruct (Hlive Hrst) as (Hp1 & g & Hg & (Eg1 & Eg2 & Eg3) & _).
  destruct (redirect_run_ok t1 between Hok1) as (Hok2 & Hr2 & Hk2). set (t2 := redirect_run t1 between) in *.
  rewrite Hp1. intros Hp2 Hreply Hout' Hloop.
  destruct (fo_target t2 (to_flows t2 Hok2) _ _ Hp2) as (h & Hh & Hhk & Hhr).
  destruct (Hk2 p g Hg) as (h' & Hh' & Eh1 & Eh2 & Eh3). assert (h' = h) as -> by congruence.
  assert (tb_targets t2 = tb_targets t ∧ tb_responses t2 = tb_responses t) as [Et2 Er2].
  { destruct Hr1, Hr2. split; congruence. }
  assert (Hdst : endpoints_ok (swap e)).
  { destruct (read_endpoints_ok _ _ Hp) as (? & ? & ? & ?). by split; [|split; [|split]]. }
  unfold rewriteVirtualRedirectPacket. rewrite Hp', Hout', Hreply. cbn [swap ep_srcIP ep_srcPort ep_dstIP ep_dstPort negb].
  rewrite Et2, Er2. destruct (tb_targets t !! (virtualRedirectLoopbackIPv4, _)) as [r'|] eqn:El.
  { by destruct (to_rules t Hok _ _ _ El) as (_ & _ & ? & _). }
  rewrite Hresp, Hloop, !Z.eqb_refl. cbn [andb negb].
  replace (mkResponseKey (rule_LocalPort rule) (rk_NATPort (fl_responseKey f))) with (fl_responseKey h)
    by (rewrite Eh2, Eg2; destruct (fl_responseKey f); cbn in *; congruence).
  rewrite Hhr. cbn. rewrite Hh. cbn. rewrite bool_decide_true by congruence. cbn.
  rewrite Eh1, Eg1, Hkey. cbn [packet_key tk_SourceIP tk_SourcePort tk_TargetIP].
  destruct (write_endpoints_ok reply ihl' (swap e) Hp' Hdst) as (Hr' & _ & _ & Hpay').
  split; [done|]. unfold swap in *. cbn in *. rewrite <-Evp. done.
Qed.
End Runs.

(** ** A sample endpoint *)

Definition sampleRules : list virtualRedirectRule := [mkRule "10.0.0.7" 443 50000].
Definition blankPacket : chars := map of_code (0x45 :: replicate 8 0 ++ [6] ++ replicate 32 0).
(** 192.168.1.2:40000 to 10.0.0.7:443. *)
Definition samplePacket : chars := write_endpoints blankPacket 20 (mkEndpoints 0xC0A80102 40000 0x0A000007 443).
Definition sampleReply : chars :=
  write_endpoints blankPacket 20 (mkEndpoints virtualRedirectLoopbackIPv4 50000 virtualRedirectLoopbackIPv4 40000).
Definition sampleRoute : packetRoute := mkRoute true false 7 0.
Definition replyRoute : packetRoute := mkRoute true true 1 0.
Definition sampleEvent : redirect_event := mkRedirectEvent samplePacket sampleRoute 5 6.

Definition sampleTrip : option (endpoints * endpoints * packetRoute) :=
  match newVirtualRedirectTable sampleRules 0 with
  | Ok t0 =>
      let '(_, _, packet', t1) := rewriteVirtualRedirectPacket canonicalFlowRange samplePacket sampleRoute (Some t0) 5 6 in
      let '(route', _, reply', _) := rewriteVirtualRedirectPacket canonicalFlowRange sampleReply replyRoute t1 7 8 in
      Some (read_endpoints packet' 20, read_endpoints reply' 20, route')
  | Err _ => None
  end.
Example sample_trip :
  sampleTrip = Some (mkEndpoints virtualRedirectLoopbackIPv4 40000 virtualRedirectLoopbackIPv4 50000,
                     mkEndpoints 0x0A000007 443 0xC0A80102 40000, mkRoute false false 7 0).
Proof. vm_compute. reflexivity. Qed.

Example sample_filter :
  buildVirtualRedirectFilter sampleRules
  = Ok ("ip and tcp and outbound and ((ip.DstAddr == 10.0.0.7 and tcp.DstPort == 443) or "
        +:+ "(loopback and ip.SrcAddr == 127.0.0.1 and ip.DstAddr == 127.0.0.1 and tcp.SrcPort == 50000))") ∧
  newVirtualRedirectRule "10.0.0.7:443" 50000 = Ok (mkRule "10.0.0.7" 443 50000) ∧
  normalizeVirtualRedirectRules (sampleRules ++ sampleRules) = Err "duplicate virtual redirect endpoint 10.0.0.7:443".
Proof. vm_compute. repeat split; reflexivity. Qed.

Lemma sampleRules_typed : Forall rule_typed sampleRules.
Proof. apply Forall_singleton. by vm_compute. Qed.

Lemma redirect_never_drops_witness :
  match newVirtualRedirectTable sampleRules 0 with
  | Ok t0 => Z.of_nat (size (tb_targetFlows (redirect_run canonicalFlowRange t0 [sampleEvent]))) ≤ maxVirtualRedirectFlows
  | Err _ => False
  end.
Proof.
  destruct (newVirtualRedirectTable sampleRules 0) as [t0|e] eqn:E; [|vm_compute in E; discriminate].
  apply (redirect_never_drops canonicalFlowRange sampleRules 0 t0 [sampleEvent] E sampleRules_typed).
Defined.

Lemma replies_come_back_witness :
  match newVirtualRedirectTable sampleRules 0 with
  | Ok t0 =>
      let '(_, action, packet', _) :=
        rewriteVirtualRedirectPacket canonicalFlowRange samplePacket sampleRoute (Some t0) 5 6 in
      action = redirectInject ∧ drop 24 packet' = drop 24 samplePacket
  | Err _ => False
  end.
Proof.
  destruct (newVirtualRedirectTable sampleRules 0) as [t0|e] eqn:E; [|vm_compute in E; discriminate].
  pose proof (replies_come_back canonicalFlowRange sampleRules 0 t0 [] samplePacket sampleRoute 5 6 20 [] sampleReply
    replyRoute 7 8 20 E sampleRules_typed eq_refl eq_refl) as H.
  cbv zeta in H. specialize (H ltac:(vm_compute in E; injection E as <-; vm_compute; eauto) eq_refl eq_refl).
  change (redirect_run canonicalFlowRange t0 []) with t0 in H.
  destruct (rewriteVirtualRedirectPacket _ _ _ _ _ _) as [[[r a] packet'] t1].
  split; [apply H|apply H].
Defined.
