(* ===== verification/ClientErrors.v ===== *)
(** * What the client makes of an error (src/client/tunnel/virtual_errors.go,
    status.go)

    Errors reach the client as texts, of its own calls and of the answers of the
    server. The texts decide what the user is told, whether a forward is given up
    and how long the client waits. This file models the classification and the
    delays, and shows how the refusals of the server are understood.

    [strings.ToLower] is modelled for ASCII letters; the only other letters it
    turns into ASCII are U+0130 and U+212A. *)

From S2P Require Import Prelude.
From S2P Require Import GoStd.
From S2P Require Import Netaddr.
From S2P Require Import Protocol.
From S2P Require Import ConfigData.
From S2P Require Import Authorization.
From S2P Require Import VirtualRedirect.

#[local] Open Scope Z_scope.

(** A Go [switch] over conditions: the first case that holds. *)
Fixpoint switch {A} (cases : list (bool * A)) (default : A) : A :=
  match cases with
  | [] => default
  | (true, a) :: _ => a
  | (false, _) :: cases => switch cases default
  end.

(** ** Texts *)

Definition HealthChecking : string := "checking".
Definition HealthOK : string := "ok".
Definition HealthServerUnavailable : string := "server_unavailable".
Definition HealthAuthError : string := "auth_error".

Definition isTemporaryAuthBlockText (text : string) : bool :=
  containsAny text ["auth_blocked"; "too many login failures"].

Definition isMissingServerCertError (text : string) : bool :=
  if negb (containsAny text ["server.crt"; "ca_cert_file"]) then false
  else containsAny text ["no such file"; "cannot find"; "找不到"; "系统找不到"].

(** Errors are optional texts, [None] for nil. *)
Definition isVirtualAuthorizationCancelled (err : option string) : bool :=
  match err with
  | None => false
  | Some e =>
      containsAny (ToLower e) ["administrator authorization for virtual forwarding was cancelled";
                               "administrator authorization for virtual forwarding was canceled"]
  end.

(** The message and whether it is permanent; [None] for an unrelated error. *)
Definition classifyVirtualForwardError (raw : string) : option (string * bool) :=
  let text := ToLower (TrimSpace raw) in
  let has := containsAny text in
  switch [
    (String.eqb text "", None);
    (has ["virtual listen_addr must use :port or ipv4:port"], Some ("虚拟入口格式不正确，请填写 :端口 或 IPv4:端口", true));
    (has ["virtual listen_addr port must be between 1 and 65535"], Some ("虚拟入口端口必须在 1 到 65535 之间", true));
    (has ["virtual listen_addr does not support domain names"],
      Some ("虚拟入口不支持域名，请填写 :端口，或填写服务端证书中的 IPv4:端口", true));
    (has ["virtual listen_addr host must be an ipv4 address"],
      Some ("虚拟入口不支持 IPv6，请填写 :端口，或填写服务端证书中的 IPv4:端口", true));
    (has ["virtual listen_addr host must be a usable non-local ipv4 address"],
      Some ("虚拟入口必须使用可用的非本地 IPv4，不能使用回环、链路本地或保留地址", true));
    (has ["server_addr must include a valid port before virtual forwarding"],
      Some ("服务端地址必须包含有效端口，配置虚拟转发前请先修正 server_addr", true));
    (has ["virtual listen_addr cannot use the server_addr port"], Some ("虚拟入口端口不能与客户端连接服务端的端口相同，请更换业务端口", true));
    (Contains text "virtual endpoint" &&
      Contains text "duplicates forward", Some ("存在重复的虚拟入口 IP:端口，请为每条虚拟转发配置不同端点", true));
    (has ["virtual forwarding supports at most"],
      Some ("虚拟转发最多支持 " +:+ Itoa maxVirtualRedirectEndpoints +:+ " 个端点，请减少配置数量", true));
    (has ["multiple usable ipv4 sans"], Some ("服务端证书包含多个可用 IPv4，请将虚拟 listen_addr 填写为完整的 IPv4:端口", true));
    (has ["no usable non-local ipv4 san"], Some ("服务端证书没有可用于虚拟入口的非本地 IPv4 SAN，请重新下发证书", true));
    (has ["no ipv4 san for virtual forwarding"], Some ("服务端证书没有 IPv4 SAN，无法配置虚拟入口，请重新下发证书", true));
    (has ["not authorized by the server certificate ipv4 san"],
      Some ("填写的虚拟 IP 不在服务端证书 IPv4 SAN 中，请修正 listen_addr 或重新下发证书", true));
    (has ["tls.ca_cert_file is required to authorize virtual forwarding"],
      Some ("缺少服务端信任证书，无法校验虚拟 IP，请重新下发客户端安装包", true));
    (Contains text "read virtual forwarding certificate policy" && has ["no such file"; "cannot find"; "找不到";
      "系统找不到"], Some ("缺少服务端信任证书 server.crt，无法校验虚拟 IP，请重新下发客户端安装包", true));
    (has ["read virtual forwarding certificate policy"], Some ("无法读取服务端信任证书，无法校验虚拟 IP，请检查证书文件和权限", true));
    (has ["parse virtual forwarding certificate policy";
      "no certificate found in tls.ca_cert_file for virtual forwarding"],
      Some ("服务端信任证书格式无效，无法校验虚拟 IP，请重新下发证书", true));
    (has ["virtual address resolver is unavailable"], Some ("虚拟入口地址解析失败，请重新连接；若持续出现请重新安装客户端", true));
    (has ["virtual forwarding is only supported by the standard 64-bit windows client"],
      Some ("虚拟 IP 接管仅支持标准 64 位 Windows 客户端", true));
    (has ["administrator authorization for virtual forwarding was cancelled"],
      Some ("IP 接管需要管理员授权，本次授权已取消", false));
    (has ["virtual redirect is inactive"], Some ("IP 接管未启用，请断开后重新连接并授权", false));
    (has ["windivert.dll is missing"; "windivert64.sys is missing"], Some ("虚拟端点接管组件缺失，请修复或重新安装标准客户端", true));
    (has ["windivert.dll integrity check failed"; "windivert64.sys integrity check failed"],
      Some ("虚拟端点接管组件完整性校验失败，请修复或重新安装标准客户端", true));
    (has ["unsupported windivert address layout"; "load windivert.dll"; " from windivert.dll"],
      Some ("虚拟端点接管组件加载失败，请修复或重新安装标准客户端", true));
    (has ["windivertopen failed"], Some ("无法启动虚拟端点接管，请检查管理员权限、安全软件和 WinDivert 驱动状态", false));
    (has ["windivertrecv failed"; "windivertsend failed"; "windivert checksum update failed"],
      Some ("虚拟流量接管已中断，请重新连接；若持续出现请检查 WinDivert 驱动状态", false));
    (has ["allocate virtual local redirect listener"; "did not allocate a valid local redirect port"],
      Some ("无法分配虚拟转发的本地桥接端口，请关闭占用大量端口的程序后重新连接", false));
    (Contains text "virtual forward" &&
      Contains text "listener already exists", Some ("虚拟转发名称重复，请为每条转发配置不同的 name", true));
    (has ["parse virtual redirect endpoint"; "virtual redirect port must be between";
      "local virtual redirect port must be between"; "virtual redirect ports must be between";
      "duplicate virtual redirect endpoint"; "duplicate local virtual redirect port";
      "at least one virtual redirect rule is required"; "decode virtual redirect rules";
      "parse virtual redirect rules"], Some ("虚拟端点接管规则无效，请检查虚拟转发配置并重新连接", true));
    (has ["virtual redirect"], Some ("虚拟端点接管进程异常，请重新连接；若持续出现请检查管理员权限和 WinDivert 驱动状态", false));
    (has ["windivert"], Some ("虚拟端点接管异常，请重新连接；若持续出现请检查 WinDivert 组件和驱动状态", false));
    (has ["virtual listen_addr"; "virtual endpoint"; "virtual forwarding"; "virtual ip"; "virtual-ip"],
      Some ("虚拟转发配置无效，请检查 listen_addr 和证书配置", true))
  ] None.

Definition VirtualForwardErrorText (raw : string) : string * bool :=
  match classifyVirtualForwardError raw with Some (message, _) => (message, true) | None => ("", false) end.

(** The health state and the message of an error. *)
Definition classifyHealthError (err : option string) : string * string :=
  match err with
  | None => (HealthOK, "服务端连接正常")
  | Some e =>
  let text := ToLower e in
  let has := containsAny text in
  switch [
    (has ["client_version_unsupported"], (HealthAuthError, "客户端版本不在服务端允许范围内，请联系管理员确认两端版本"));
    (has ["protocol_version_unsupported"; "invalid tunnel request"; "unsupported request"; "bad_request"],
      (HealthAuthError, "客户端与服务端协议版本不一致，请联系管理员升级对应一端"));
    (has ["auth_failed"; "username or password"], (HealthAuthError, "账号或密码不正确，需要重新登录"));
    (has ["credential_expired"; "saved login has expired"], (HealthAuthError, "保存的登录凭据已过期，需要重新登录"));
    (isTemporaryAuthBlockText text, (HealthAuthError, "登录失败次数过多，当前来源 IP 已被临时封禁"));
    (has ["no server tls trust data"; "appendcertsfrompem"], (HealthAuthError, "服务端信任证书无效，请联系管理员重新下发"));
    (isMissingServerCertError text, (HealthAuthError, "缺少服务端信任证书 server.crt，请联系管理员重新下发客户端安装包"));
    (has ["ca_cert_file"; "server verification"], (HealthAuthError, "缺少服务端信任证书 server.crt，请联系管理员重新下发客户端安装包"));
    (has ["certificate is valid for"; "cannot validate certificate"; "doesn't contain any ip sans"],
      (HealthAuthError, "服务端证书和当前地址不匹配，请检查服务端地址或重新下发证书"));
    (has ["certificate has expired"; "certificate is not yet valid"; "has expired or is not yet valid"],
      (HealthAuthError, "服务端证书已过期或尚未生效，请联系管理员重新下发有效证书"));
    (has ["unknown authority"; "not trusted"], (HealthAuthError, "服务端证书不受信任，请联系管理员重新下发证书"));
    (has ["missing port in address"; "too many colons in address"; "unknown port"],
      (HealthAuthError, "服务端地址格式不正确，请填写 地址:端口"));
    (has ["no such host"], (HealthServerUnavailable, "服务端地址无法解析，请检查域名或网络"));
    (has ["connection refused"; "actively refused"; "connectex"],
      (HealthServerUnavailable, "连接不上服务端，请检查服务端是否启动或地址端口是否正确"));
    (has ["timeout"; "deadline"; "i/o timeout"], (HealthServerUnavailable, "连接超时，请检查网络或服务端防火墙"));
    (has ["network is unreachable"; "no route to host"], (HealthServerUnavailable, "网络不可达，请检查本机网络"));
    (has ["connection reset"; "forcibly closed"; "wsarecv"; "eof"],
      (HealthServerUnavailable, "连接被服务端断开，请稍后重试或联系管理员"));
    (has ["connection aborted"; "broken pipe"; "closed network connection"],
      (HealthServerUnavailable, "连接已中断，请稍后重试或联系管理员"));
    (has ["x509"], (HealthAuthError, "服务端证书校验失败，请联系管理员检查证书"));
    (has ["tls handshake after certificate possession gate"], (HealthServerUnavailable, "TLS 握手失败，请检查服务端状态及两端版本"));
    (has ["certificate"], (HealthAuthError, "服务端证书校验失败，请联系管理员检查证书"));
    (has ["tls"], (HealthServerUnavailable, "TLS 握手失败，请检查服务端状态及两端版本"))
  ] (HealthServerUnavailable, "服务端暂时不可达")
  end.

Definition ForwardErrorMessage (err : option string) : string :=
  match err with
  | None => ""
  | Some e =>
  let text := ToLower e in
  let has := containsAny text in
  match classifyVirtualForwardError text with
  | Some (message, _) => message
  | None =>
  switch [
    (has ["client_version_unsupported"], "客户端版本不在服务端允许范围内，请联系管理员确认两端版本");
    (has ["protocol_version_unsupported"; "invalid tunnel request"; "unsupported request"; "bad_request"],
      "客户端与服务端协议版本不一致，请联系管理员升级对应一端");
    (has ["auth_failed"; "username or password"], "账号或密码不正确，请重新登录");
    (has ["credential_expired"; "saved login has expired"], "保存的登录凭据已过期，请重新输入密码");
    (has ["user_stream_limit"; "too many concurrent streams"], "当前账号并发连接数已达到上限，请关闭部分连接后重试");
    (isTemporaryAuthBlockText text, "登录失败次数过多，当前来源 IP 已被临时封禁，请稍后再试");
    (has ["certificate has expired"; "certificate is not yet valid"; "has expired or is not yet valid"],
      "服务端证书已过期或尚未生效，请联系管理员重新下发有效证书");
    (has ["certificate is valid for"; "cannot validate certificate"; "doesn't contain any ip sans"],
      "服务端证书和当前地址不匹配，请检查服务端地址或重新下发证书");
    (has ["unknown authority"; "not trusted"], "服务端证书不受信任，请联系管理员重新下发证书");
    (has ["reverse listen address is not configured on server"], "反向监听地址未在服务端配置，请联系管理员检查保留端口");
    (has ["not allowed to activate this reverse listen address"], "当前账号无权使用该反向端口，请联系管理员检查端口授权");
    (has ["target_denied"; "not allowed"], "当前账号没有访问该端口的权限，请联系管理员检查端口授权");
    (has ["already activated"], "该被动端口已被其他客户端占用");
    (has ["server passive port is unavailable"; "listen reverse"], "服务端被动端口不可用，客户端会自动重试，请联系管理员检查服务端端口占用");
    (has ["already in use"; "only one usage"; "bind:"], "本地端口已被占用，请关闭占用程序或调整端口");
    (has ["connect client target"], "客户端目标服务不可达，请确认对应服务已启动并监听配置端口");
    (has ["target_unreachable"; "target service is unreachable"], "服务端无法访问目标服务，请联系管理员检查目标服务或防火墙");
    (has ["connection refused"; "actively refused"; "connectex"], "服务端暂时不可达，客户端会自动重试");
    (has ["timeout"; "deadline"; "i/o timeout"], "连接超时，客户端会自动重试");
    (has ["network is unreachable"; "no route to host"; "no such host"], "网络不可达，请检查本机网络或服务端地址");
    (has ["connection reset"; "forcibly closed"; "wsarecv"; "eof"], "连接被断开，客户端会自动重试");
    (has ["connection aborted"; "broken pipe"; "closed network connection"], "连接已中断，客户端会自动重试");
    (has ["x509"], "服务端证书校验失败，请联系管理员检查证书");
    (has ["tls handshake after certificate possession gate"], "TLS 握手失败，客户端会自动重试；若持续出现请确认两端版本");
    (has ["certificate"], "服务端证书校验失败，请联系管理员检查证书");
    (has ["tls"], "TLS 握手失败，客户端会自动重试；若持续出现请确认两端版本")
  ] "规则连接异常，客户端会自动重试；若持续出现请查看客户端日志"
  end
  end.

Definition IsPermanentForwardError (err : option string) : bool :=
  match err with
  | None => false
  | Some e =>
  let text := ToLower e in
  let has := containsAny text in
  match classifyVirtualForwardError text with
  | Some (_, permanent) => permanent
  | None =>
      if has
     ["connection refused"; "actively refused"; "connectex"; "timeout"; "deadline"; "i/o timeout";
      "network is unreachable"; "no route to host"; "no such host"; "connection reset"; "forcibly closed";
      "wsarecv"; "eof"; "connection aborted"; "broken pipe"; "closed network connection"]
      then false
      else if has ["tls handshake after certificate possession gate"] && negb (has ["x509"]) then false
      else has
     ["auth_failed"; "username or password"; "credential_expired"; "saved login has expired";
      "client_version_unsupported"; "protocol_version_unsupported"; "certificate"; "x509"; "target_denied";
      "not allowed"; "not configured on server"]
  end
  end.

(** ** Delays *)

Definition healthOKInterval : Duration := 30 * nsecond.
Definition healthReconnectInitialInterval : Duration := 2 * nsecond.
Definition healthReconnectMaxInterval : Duration := 30 * nsecond.
Definition healthMaxReconnectFailures : Z := 6.

Definition ReverseRetryDelay (err : option string) (failures : Z) : Duration :=
  let failures := if failures <? 1 then 1 else failures in
  let held := match err with
              | Some e => isTemporaryAuthBlockText (ToLower e) || containsAny (ToLower e) ["already activated"]
              | None => false
              end in
  if held then 5 * nminute
  else
    let delay := wrap_i64 (wrap_i64 (failures * 2) * nsecond) in
    if delay <? 2 * nsecond then 2 * nsecond else if 30 * nsecond <? delay then 30 * nsecond else delay.

(** The doubling loop, with the number of rounds it has left. *)
Fixpoint double_delay (rounds : nat) (delay : Duration) : Duration :=
  match rounds with
  | O => if healthReconnectMaxInterval <? delay then healthReconnectMaxInterval else delay
  | S rounds =>
      let delay := wrap_i64 (delay * 2) in
      if healthReconnectMaxInterval <=? delay then healthReconnectMaxInterval else double_delay rounds delay
  end.

Definition ReconnectDelay (failures : Z) : Duration :=
  let failures := if failures <? 1 then 1 else failures in
  double_delay (Z.to_nat (failures - 1)) healthReconnectInitialInterval.

(** [responseError] of client.go. *)
Definition responseError (resp : OpenResponse) (fallback : string) : string :=
  let message := if String.eqb (rs_Message resp) "" then fallback else rs_Message resp in
  if negb (String.eqb (rs_Code resp) "") then rs_Code resp +:+ ": " +:+ message else message.

(** ** The refusals of the server *)

(** What the client does with an error of a forward: gives it up or not, and what
    the user is told. *)
Definition reaction (code message : string) : bool * string :=
  let err := Some (responseError (mkOpenResponse false code message "" "" "" None) "server rejected the connection") in
  (IsPermanentForwardError err, ForwardErrorMessage err).

Definition noAccess : string := "当前账号没有访问该端口的权限，请联系管理员检查端口授权".
Definition noReversePort : string := "当前账号无权使用该反向端口，请联系管理员检查端口授权".
Definition unreserved : string := "反向监听地址未在服务端配置，请联系管理员检查保留端口".

(** The other refusals of a stream or a reverse listener, with the reaction. *)
Definition refusals : list (string * string * bool * string) := [
  ("auth_failed", "username or password is incorrect", true, "账号或密码不正确，请重新登录");
  ("auth_blocked", "too many login failures, temporarily blocked; try later", false,
   "登录失败次数过多，当前来源 IP 已被临时封禁，请稍后再试");
  ("user_stream_limit", "too many concurrent streams for account", false,
   "当前账号并发连接数已达到上限，请关闭部分连接后重试");
  ("target_unreachable", "target service is unreachable", false,
   "服务端无法访问目标服务，请联系管理员检查目标服务或防火墙");
  ("reverse_failed", "reverse listen address is not configured on server", true, unreserved);
  ("reverse_failed", "reverse listen address is already activated", false, "该被动端口已被其他客户端占用");
  ("reverse_failed", "server passive port is unavailable", false,
   "服务端被动端口不可用，客户端会自动重试，请联系管理员检查服务端端口占用");
  ("reverse_failed", "reverse stream has expired", false,
   "规则连接异常，客户端会自动重试；若持续出现请查看客户端日志");
  ("reverse_failed", "reverse listen is not active", false,
   "规则连接异常，客户端会自动重试；若持续出现请查看客户端日志");
  ("reverse_failed", "use of closed network connection", false, "连接已中断，客户端会自动重试");
  ("bad_request", "invalid tunnel request", false, "客户端与服务端协议版本不一致，请联系管理员升级对应一端")].

Definition understood (r : string * string * bool * string) : bool :=
  let '(code, message, permanent, text) := r in bool_decide (reaction code message = (permanent, text)).

Lemma authorizeTarget_errors cfg user target e :
  authorizeTarget cfg user target = Err e →
  e ∈ ["target address is invalid"; "user is not allowed to access this target"; "target is not allowed"].
Proof.
  unfold authorizeTarget. destruct (splitHostPort target) as [[host port]|]; [|intros [= <-]; set_solver].
  destruct (allowedConfiguredForward _ _ _); [destruct (IsForwardTargetHost host)|]; intros [= <-]; set_solver.
Qed.


(** ** The delays *)

Lemma double_delay_spec rounds delay :
  0 < delay ≤ healthReconnectMaxInterval →
  double_delay rounds delay = healthReconnectMaxInterval `min` (delay * 2 ^ Z.of_nat rounds).
Proof.
  unfold healthReconnectMaxInterval, nsecond. revert delay. induction rounds as [|n IH]; intros delay Hd.
  { cbn [double_delay]. unfold healthReconnectMaxInterval, nsecond. change (2 ^ Z.of_nat 0) with 1.
    destruct (Z.ltb_spec (30 * 1000000000) delay); lia. }
  cbn [double_delay]. unfold healthReconnectMaxInterval, nsecond. rewrite wrap_s_id by lia.
  assert (0 < 2 ^ Z.of_nat n) by (apply Z.pow_pos_nonneg; lia).
  replace (delay * 2 ^ Z.of_nat (S n)) with (delay * 2 * 2 ^ Z.of_nat n)
    by (rewrite Nat2Z.inj_succ, Z.pow_succ_r by lia; ring).
  destruct (Z.leb_spec (30 * 1000000000) (delay * 2)); [nia|]. apply IH. lia.
Qed.

(** The reconnect delay is two seconds doubled with every further failure, up
    to thirty seconds; the delay of a reverse forward is five minutes when the
    server holds the client off, and else never below two nor above thirty seconds,
    whatever the number of failures, also when the product wraps around. *)
Theorem delays_bounded failures err :
  ReconnectDelay failures = (30 * nsecond) `min` (2 * nsecond * 2 ^ (failures `max` 1 - 1)) ∧
  (ReverseRetryDelay err failures = 5 * nminute ∨
   2 * nsecond ≤ ReverseRetryDelay err failures ≤ 30 * nsecond) ∧
  (failures ≤ 2 ^ 32 → ReverseRetryDelay None failures = (30 * nsecond) `min` (2 * nsecond * (failures `max` 1))).
Proof.
  split_and!.
  - unfold ReconnectDelay. rewrite double_delay_spec by (unfold healthReconnectInitialInterval, healthReconnectMaxInterval, nsecond; lia).
    unfold healthReconnectMaxInterval, healthReconnectInitialInterval. do 3 f_equal.
    destruct (Z.ltb_spec failures 1); lia.
  - unfold ReverseRetryDelay. destruct (match err with Some _ => _ | None => _ end); [by left|right].
    generalize (wrap_i64 (wrap_i64 ((if failures <? 1 then 1 else failures) * 2) * nsecond)). intros delay.
    destruct (Z.ltb_spec delay (2 * nsecond)), (Z.ltb_spec (30 * nsecond) delay); unfold nsecond in *; lia.
  - intros Hf. unfold ReverseRetryDelay, nsecond. set (n := if failures <? 1 then 1 else failures).
    assert (n = failures `max` 1) as En by (subst n; destruct (Z.ltb_spec failures 1); lia). rewrite <-En.
    assert (1 ≤ n ≤ 2 ^ 32) by lia. rewrite !wrap_s_id by (rewrite ?wrap_s_id; lia).
    destruct (Z.ltb_spec (n * 2 * 1000000000) (2 * 1000000000)); [lia|].
    destruct (Z.ltb_spec (30 * 1000000000) (n * 2 * 1000000000)); lia.
Qed.
