(* ===== verification/ClientConfig.v ===== *)
(** * The client configuration (src/client/tunnel/config.go, config_compat.go,
    credential.go)

    Defaults, validation, decoding by version, loading and saving, and the checks
    an installation makes of a configuration that is already there. The name of
    the machine, its environment variables and the YAML library are parameters.
    A slice that Go changes in place through a copy of the record is a value here:
    the only such change, of a direction by [ApplyDefaults], gives every caller the
    direction it would compute itself. *)

From S2P Require Import Prelude.
From S2P Require Import GoStd.
From S2P Require Import Disk.
From S2P Require Import Version.
From S2P Require Import Netaddr.
From S2P Require Import Protocol.
From S2P Require Import GoCrypto.
From S2P Require Import Credseal.
From S2P Require Import Yaml.
From S2P Require Import VirtualAddress.
From S2P Require Import VirtualRedirect.

#[local] Open Scope Z_scope.

(** ** Data *)

Record RequiresConfig := mkRequires { rc_MinClientVersion : string }.
Record TLSConfig := mkTLS {
  tl_CACertFile : string; tl_ServerName : string; tl_MinVersion : string; tl_InsecureSkipVerify : bool
}.
Record ConnectionConfig := mkConnection { cn_DialTimeoutSec : Z }.
Record ForwardConfig := mkForward {
  fd_Name : string; fd_Direction : string; fd_ListenAddr : string; fd_ServerTarget : string
}.

Definition DirectionClientToServer : string := "client_to_server".
Definition DirectionServerToClient : string := "server_to_client".
Definition DirectionVirtual : string := "virtual".

Record Config := mkClientConfig {
  cl_ConfigVersion : Z;
  cl_Requires : RequiresConfig;
  cl_ServerAddr : string;
  cl_Remark : string;
  cl_Username : string;
  cl_Password : string;
  cl_PasswordEnv : string;
  cl_PasswordFile : string;
  cl_SavedCredential : SealedCredential;
  cl_ClientID : string;
  cl_LogLevel : string;
  cl_TLS : TLSConfig;
  cl_Connection : ConnectionConfig;
  cl_Forwards : list ForwardConfig
}.

#[export] Instance RequiresConfig_eq_dec : EqDecision RequiresConfig.
Proof. solve_decision. Defined.
#[export] Instance TLSConfig_eq_dec : EqDecision TLSConfig.
Proof. solve_decision. Defined.
#[export] Instance ConnectionConfig_eq_dec : EqDecision ConnectionConfig.
Proof. solve_decision. Defined.
#[export] Instance ForwardConfig_eq_dec : EqDecision ForwardConfig.
Proof. solve_decision. Defined.
#[export] Instance ClientConfig_eq_dec : EqDecision Config.
Proof. solve_decision. Defined.

Definition emptyCredential : SealedCredential := mkSealedCredential "" "" "" "".

Definition set_tls (cfg : Config) (t : TLSConfig) : Config :=
  mkClientConfig (cl_ConfigVersion cfg) (cl_Requires cfg) (cl_ServerAddr cfg) (cl_Remark cfg) (cl_Username cfg)
    (cl_Password cfg) (cl_PasswordEnv cfg) (cl_PasswordFile cfg) (cl_SavedCredential cfg) (cl_ClientID cfg)
    (cl_LogLevel cfg) t (cl_Connection cfg) (cl_Forwards cfg).
Definition set_login (cfg : Config) (username password passwordFile : string) : Config :=
  mkClientConfig (cl_ConfigVersion cfg) (cl_Requires cfg) (cl_ServerAddr cfg) (cl_Remark cfg) username
    password (cl_PasswordEnv cfg) passwordFile (cl_SavedCredential cfg) (cl_ClientID cfg)
    (cl_LogLevel cfg) (cl_TLS cfg) (cl_Connection cfg) (cl_Forwards cfg).
Definition with_ca (t : TLSConfig) (path : string) : TLSConfig :=
  mkTLS path (tl_ServerName t) (tl_MinVersion t) (tl_InsecureSkipVerify t).

Definition blank (s : string) : bool := String.eqb (TrimSpace s) "".

Definition forwardName (fwd : ForwardConfig) : string :=
  if negb (String.eqb (fd_Name fwd) "") then fd_Name fwd else fd_ListenAddr fwd.

(** [UnmarshalYAML] of a forward; [decode] is the library's decoding of the node. *)
Definition forwardUnmarshalYAML (decode : yamlNode → result ForwardConfig) (node : option yamlNode)
    : result ForwardConfig :=
  match node with
  | None => Err "forward must be a mapping"
  | Some node =>
      if negb (is_kind MappingNode node) then Err "forward must be a mapping"
      else
        raw ← decode node;
        let direction := TrimSpace (fd_Direction raw) in
        let name := TrimSpace (fd_Name raw) in
        let name := if String.eqb name "" then "<unnamed>" else name in
        _ ← each (λ kv,
              let field := Value kv.1 in
              if bool_decide (field ∈ ["name"; "direction"; "listen_addr"; "server_target"]) then Ok tt
              else if String.eqb field "listen_port" && String.eqb direction DirectionServerToClient
              then Err ("forward " +:+ quote name
                        +:+ " server_to_client client config must not include listen_port; use listen_addr and server_target")
              else Err ("forward " +:+ quote name +:+ " contains unknown field " +:+ quote field))
            (pairs (Content node));
        Ok raw
  end.

(** ** Defaults *)

Section Defaults.
Variable Hostname : result string.

Definition ApplyDefaults (cfg : Config) : Config :=
  let t := cl_TLS cfg in
  mkClientConfig
    (if cl_ConfigVersion cfg =? 0 then ClientConfigVersion else cl_ConfigVersion cfg)
    (if blank (rc_MinClientVersion (cl_Requires cfg)) then mkRequires ClientConfigRequiresClientVersion
     else cl_Requires cfg)
    (cl_ServerAddr cfg) (cl_Remark cfg) (cl_Username cfg) (cl_Password cfg) (cl_PasswordEnv cfg)
    (cl_PasswordFile cfg) (cl_SavedCredential cfg)
    (if blank (cl_ClientID cfg) then
       match Hostname with
       | Ok hostname => if negb (blank hostname) then TrimSpace hostname else cl_ClientID cfg
       | Err _ => cl_ClientID cfg
       end
     else cl_ClientID cfg)
    (cl_LogLevel cfg)
    (mkTLS (tl_CACertFile t) (tl_ServerName t) (if String.eqb (tl_MinVersion t) "" then "1.3" else tl_MinVersion t)
       (tl_InsecureSkipVerify t))
    (mkConnection (if cn_DialTimeoutSec (cl_Connection cfg) <=? 0 then 5 else cn_DialTimeoutSec (cl_Connection cfg)))
    (map (λ f, let direction := TrimSpace (fd_Direction f) in
               mkForward (fd_Name f) (if String.eqb direction "" then DirectionClientToServer else direction)
                 (fd_ListenAddr f) (fd_ServerTarget f)) (cl_Forwards cfg)).
End Defaults.

(** ** Validation *)

Definition ValidateConfigVersion (cfg : Config) : result unit :=
  let version := cl_ConfigVersion cfg in
  _ ← guard_err (version <? 0) "client config_version must be >= 0";
  _ ← guard_err (ClientConfigVersion <? version)
        ("client config_version " +:+ Itoa version
         +:+ " requires a newer client; current client supports config_version " +:+ Itoa ClientConfigVersion);
  _ ← (if 2 <=? version then
         let minimum := TrimSpace (rc_MinClientVersion (cl_Requires cfg)) in
         _ ← guard_err (String.eqb minimum "")
               ("client config_version " +:+ Itoa version +:+ " requires requires.min_client_version");
         less ← wrap_err ("client config requires invalid minimum version " +:+ quote minimum)
                  (Less minimum ClientConfigRequiresClientVersion);
         guard_err less ("client config_version " +:+ Itoa version +:+ " requires min_client_version >= "
                         +:+ ClientConfigRequiresClientVersion)
       else Ok tt);
  CheckMin AppVersion (rc_MinClientVersion (cl_Requires cfg)) "client config".

Definition validateLoopbackAddresses (cfg : Config) : result unit :=
  _ ← wrap_err "server_addr" (CheckLoopbackEndpoint (cl_ServerAddr cfg));
  _ ← wrap_err "tls.server_name" (CheckLoopbackHost (tl_ServerName (cl_TLS cfg)));
  each (λ fwd,
    let q := "forward " +:+ quote (fd_Name fwd) in
    _ ← (if negb (String.eqb (TrimSpace (fd_Direction fwd)) DirectionVirtual)
         then wrap_err (q +:+ " listen_addr") (CheckLoopbackEndpoint (fd_ListenAddr fwd)) else Ok tt);
    wrap_err (q +:+ " server_target") (CheckLoopbackEndpoint (fd_ServerTarget fwd))) (cl_Forwards cfg).

(** [port, err := strconv.Atoi(text)] with [err == nil] and [lo <= port <= 65535]. *)
Definition port_from (lo : Z) (text : string) : bool :=
  match Atoi text with Some port => (lo <=? port) && (port <=? 65535) | None => false end.

Definition validateReverseForward (fwd : ForwardConfig) : result unit :=
  let q := "forward " +:+ quote (fd_Name fwd) in
  if negb (String.eqb (TrimSpace (fd_Direction fwd)) DirectionServerToClient) then Ok tt
  else
    let listenAddr := TrimSpace (fd_ListenAddr fwd) in
    if String.eqb listenAddr "" then Err (q +:+ " server_to_client requires listen_addr")
    else
      let bad := Err (q +:+ " reverse listen_addr must include a loopback host and port (127.0.0.1:port)") in
      match SplitHostPort listenAddr with
      | Err _ => bad
      | Ok (host, portText) =>
          if String.eqb (Trim (TrimSpace host) "[]") "" then bad
          else if negb (port_from 1 portText)
          then Err (q +:+ " reverse listen_addr port must be between 1 and 65535")
          else guard_err (negb (String.eqb host LoopbackIPv4))
                 (q +:+ " reverse listen_addr must use a loopback address (127.0.0.1)")
      end.

Definition validateReverseForwardFields (forwards : list ForwardConfig) : result unit :=
  each validateReverseForward forwards.

Section Validate.
Context `{PEM} `{CertificateIPs}.

(** What the loop over the forwards carries: the names and virtual endpoints it
    has seen, and the resolver once a virtual forward needed it. *)
Record validation := mkValidation {
  va_names : gset string;
  va_seenEndpoints : gmap string string;
  va_endpoints : list string;
  va_resolver : option virtualAddressResolver
}.

(** The port of the server; [Atoi] gives a number outside the ports, or 0, with
    its errors. *)
Definition server_port (cfg : Config) : Z :=
  match SplitHostPort (TrimSpace (cl_ServerAddr cfg)) with
  | Ok (_, portText) => default 0 (Atoi portText)
  | Err _ => 0
  end.

Definition validateVirtualForward (d : Disk) (cfg : Config) (v : validation) (fwd : ForwardConfig)
    : result validation :=
  let q := "forward " +:+ quote (fd_Name fwd) in
  '(virtualHost, virtualPort) ← wrap_err q (parseVirtualListenAddr (fd_ListenAddr fwd));
  resolver ← match va_resolver v with
             | Some r => Ok r
             | None => wrap_err q (newVirtualAddressResolver d (tl_CACertFile (cl_TLS cfg)) (cl_ServerAddr cfg))
             end;
  virtualAddr ← wrap_err q (resolve (Some resolver) virtualHost virtualPort);
  let serverPort := server_port cfg in
  if (serverPort <=? 0) || (65535 <? serverPort)
  then Err "server_addr must include a valid port before virtual forwarding is configured"
  else if virtualPort =? serverPort then Err (q +:+ " virtual listen_addr cannot use the server_addr port")
  else
    let key := ToLower virtualAddr in
    match va_seenEndpoints v !! key with
    | Some existing => Err (q +:+ " virtual endpoint " +:+ virtualAddr +:+ " duplicates forward " +:+ quote existing)
    | None => Ok (mkValidation (va_names v) (<[key := fd_Name fwd]> (va_seenEndpoints v))
                    (va_endpoints v ++ [virtualAddr]) (Some resolver))
    end.

Definition validateListenForward (fwd : ForwardConfig) : result unit :=
  let q := "forward " +:+ quote (fd_Name fwd) in
  if blank (fd_ListenAddr fwd) then Err (q +:+ " requires listen_addr and server_target")
  else match SplitHostPort (TrimSpace (fd_ListenAddr fwd)) with
  | Err _ => Err (q +:+ " listen_addr must include a host and port")
  | Ok (_, portText) =>
      guard_err (negb (port_from 0 portText)) (q +:+ " listen_addr port must be between 0 and 65535")
  end.

Definition validateForward (d : Disk) (cfg : Config) (v : validation) (fwd : ForwardConfig) : result validation :=
  let direction := TrimSpace (fd_Direction fwd) in
  let name := forwardName fwd in
  let q := "forward " +:+ quote (fd_Name fwd) in
  if decide (name ∈ va_names v)
  then Err ("forward " +:+ quote name +:+ " has duplicate runtime name; use unique names within this client")
  else
    let v := mkValidation ({[ name ]} ∪ va_names v) (va_seenEndpoints v) (va_endpoints v) (va_resolver v) in
    if negb (bool_decide (direction ∈ [DirectionClientToServer; DirectionServerToClient; DirectionVirtual]))
    then Err (q +:+ " has unsupported direction")
    else if blank (fd_ServerTarget fwd) then Err (q +:+ " requires server_target")
    else
      let bad := Err (q +:+ " server_target must include a host and port") in
      match SplitHostPort (TrimSpace (fd_ServerTarget fwd)) with
      | Err _ => bad
      | Ok (targetHost, targetPort) =>
          if String.eqb (Trim (TrimSpace targetHost) "[]") "" then bad
          else if negb (port_from 1 targetPort)
          then Err (q +:+ " server_target port must be between 1 and 65535")
          else if String.eqb direction DirectionServerToClient then
            if negb (String.eqb targetHost LoopbackIPv4)
            then Err (q +:+ " reverse server_target must use a loopback address (127.0.0.1)")
            else Ok v
          else if negb (IsForwardTargetHost targetHost)
          then Err (q +:+ " server_target must use 127.0.0.1 or a private IP address")
          else if String.eqb direction DirectionVirtual then validateVirtualForward d cfg v fwd
          else _ ← validateListenForward fwd; Ok v
      end.

Definition ValidateConfig (d : Disk) (cfg : Config) : result unit :=
  _ ← ValidateConfigVersion cfg;
  _ ← validateLoopbackAddresses cfg;
  _ ← guard_err (blank (cl_ServerAddr cfg)) "server_addr is required";
  _ ← guard_err (blank (cl_Username cfg)
                 || String.eqb (cl_Password cfg) "" && blank (sc_Ciphertext (cl_SavedCredential cfg)))
        "username and password are required";
  _ ← guard_err (length (cl_Forwards cfg) =? 0)%nat "at least one forward is required";
  _ ← validateReverseForwardFields (cl_Forwards cfg);
  v ← fold_err (validateForward d cfg) (mkValidation ∅ ∅ [] None) (cl_Forwards cfg);
  _ ← guard_err (maxVirtualRedirectEndpoints <? Z.of_nat (length (va_endpoints v)))
        ("virtual forwarding supports at most " +:+ Itoa maxVirtualRedirectEndpoints +:+ " endpoints");
  guard_err (blank (tl_CACertFile (cl_TLS cfg)))
    "tls.ca_cert_file is required for certificate possession gate and server verification".
End Validate.

Definition resolveConfigPath (base p : string) : string :=
  let p := TrimSpace p in
  if String.eqb p "" || IsAbs p then p else Clean (JoinPath base p).

(** ** Decoding by version *)

(** A decoder that refuses unknown fields: the value of the first document, and
    what decoding a second one gives: nothing at the end of the file, a document
    or an error. *)
Class StrictYAML (A : Type) := {
  strict_decode : string → result A;
  strict_next : string → option (result unit)
}.

Definition client_top : list string :=
  ["config_version"; "requires"; "server_addr"; "username"; "password"; "password_env";
   "password_file"; "saved_credential"; "client_id"; "log_level"; "tls"; "connection"; "forwards"].
Definition client_scalars : list string :=
  ["config_version"; "server_addr"; "username"; "password"; "password_env"; "password_file"; "client_id"; "log_level"].
Definition credential_fields : list string := ["type"; "key_id"; "expires_at"; "ciphertext"].
Definition client_tls : list string := ["ca_cert_file"; "server_name"; "min_version"; "insecure_skip_verify"].
Definition client_forward : list string := ["name"; "direction"; "listen_addr"; "server_target"].

Definition validateClientSavedCredentialStructure (node : option yamlNode) : result unit :=
  let path := "client config.saved_credential" in
  m ← clientYAMLMappingFields node path;
  if (size m =? 0)%nat then Ok tt else each (clientYAMLRequireScalar m path) credential_fields.

Definition validateClientForwardsStructure (node : option yamlNode) : result unit :=
  match node with
  | None => Err "client config.forwards must be a list"
  | Some node =>
      if negb (is_kind SequenceNode node) then Err "client config.forwards must be a list"
      else each_item (λ index forward,
             let path := index_path "client config.forwards" index in
             m ← clientYAMLMappingFields (Some forward) path;
             each (clientYAMLRequireScalar m path) client_forward) node
  end.

Section Decode.
Context `{YAMLTree} `{StrictYAML Config}.

Definition decodeStrictClientYAML (data : string) : result Config :=
  out ← strict_decode data;
  match strict_next data with
  | None => Ok out
  | Some (Ok _) => Err "client config must contain exactly one YAML document"
  | Some (Err e) => Err e
  end.

Definition clientYAMLRootMapping (data : string) : result yamlNode := yamlRootMapping "client config" data.

(** The version and whether there is one. *)
Definition clientConfigSchemaVersion (data : string) : result (Z * bool) :=
  root ← clientYAMLRootMapping data;
  m ← clientYAMLMappingFields (Some root) "client config";
  match m !! "config_version" with
  | None => Ok (0, false)
  | Some node =>
      if negb (is_value node) then Err "client config config_version must be a number"
      else match node_int node with
           | Err e => Err ("client config config_version is invalid: " +:+ e)
           | Ok version => Ok (version, true)
           end
  end.

Definition validateVersionedClientConfigStructure (data : string) : result unit :=
  root ← clientYAMLRootMapping data;
  top ← clientYAMLMappingFields (Some root) "client config";
  _ ← each (λ name, _ ← clientYAMLRequiredField top "client config" name; Ok tt) client_top;
  _ ← each (clientYAMLRequireScalar top "client config") client_scalars;
  _ ← clientYAMLRequireOptionalScalar top "client config" "remark";
  _ ← validateClientScalarMapping (top !! "requires") "client config.requires" ["min_client_version"];
  _ ← validateClientSavedCredentialStructure (top !! "saved_credential");
  _ ← validateClientScalarMapping (top !! "tls") "client config.tls" client_tls;
  _ ← validateClientScalarMapping (top !! "connection") "client config.connection" ["dial_timeout_sec"];
  validateClientForwardsStructure (top !! "forwards").

Definition zeroConfig : Config :=
  mkClientConfig 0 (mkRequires "") "" "" "" "" "" "" emptyCredential "" "" (mkTLS "" "" "" false)
    (mkConnection 0) [].

Definition set_version (cfg : Config) (version : Z) : Config :=
  mkClientConfig version (cl_Requires cfg) (cl_ServerAddr cfg) (cl_Remark cfg) (cl_Username cfg)
    (cl_Password cfg) (cl_PasswordEnv cfg) (cl_PasswordFile cfg) (cl_SavedCredential cfg) (cl_ClientID cfg)
    (cl_LogLevel cfg) (cl_TLS cfg) (cl_Connection cfg) (cl_Forwards cfg).

Definition decodeClientConfig (data : string) : result Config :=
  '(version, hasVersion) ← clientConfigSchemaVersion data;
  if hasVersion && negb (version =? 0) && negb (version =? 1) && negb (version =? ClientConfigVersion)
  then _ ← ValidateConfigVersion (set_version zeroConfig version); Ok zeroConfig
  else
    cfg ← decodeStrictClientYAML data;
    _ ← (if hasVersion && (0 <? version) then validateVersionedClientConfigStructure data else Ok tt);
    Ok cfg.
End Decode.

(** ** Loading and saving *)

Section Files.
Context `{PEM} `{CertificateIPs} `{YAMLTree} `{StrictYAML Config} `{YAMLCodec Config} `{LocalTime}.
Variable Hostname : result string.
Variable Getenv : string → string.

Definition LoadConfigRaw (d : Disk) (path : string) : result Config :=
  data ← read_file d path;
  cfg ← decodeClientConfig data;
  let cfg := ApplyDefaults Hostname cfg in
  _ ← validateLoopbackAddresses cfg;
  Ok cfg.

(** The password of the configuration, else of the environment, else of the file. *)
Definition resolve_password (d : Disk) (cfg : Config) : result Config :=
  let cfg := if String.eqb (cl_Password cfg) "" && negb (blank (cl_PasswordEnv cfg))
             then set_login cfg (cl_Username cfg) (Getenv (TrimSpace (cl_PasswordEnv cfg))) (cl_PasswordFile cfg)
             else cfg in
  if String.eqb (cl_Password cfg) "" && negb (blank (cl_PasswordFile cfg)) then
    data ← wrap_err "read password_file" (read_file d (cl_PasswordFile cfg));
    Ok (set_login cfg (cl_Username cfg) (TrimRight data (cr +:+ nl)) (cl_PasswordFile cfg))
  else Ok cfg.

Definition LoadConfig (d : Disk) (path : string) : result Config :=
  cfg ← LoadConfigRaw d path;
  let base := Dir path in
  let cfg := set_tls cfg (with_ca (cl_TLS cfg) (resolveConfigPath base (tl_CACertFile (cl_TLS cfg)))) in
  let cfg := set_login cfg (cl_Username cfg) (cl_Password cfg) (resolveConfigPath base (cl_PasswordFile cfg)) in
  cfg ← resolve_password d cfg;
  _ ← ValidateConfig d cfg;
  Ok cfg.

Definition SaveConfig (d : Disk) (path : string) (cfg : Config) : Disk * result unit :=
  match data ← (_ ← validateLoopbackAddresses cfg; yaml_marshal (ApplyDefaults Hostname cfg));
        _ ← MkdirAll d (Dir path); Ok data with
  | Err e => (d, Err e)
  | Ok data => WriteFile d path data
  end.

(** [caCertFile] is empty when the configuration's own certificate is meant. *)
Definition checkConfigUpgradeCompatible (d : Disk) (path caCertFile : string) : result unit :=
  data ← wrap_err "read installed client config" (read_file d path);
  cfg ← wrap_err "installed client config is not compatible with this client version" (decodeClientConfig data);
  let cfg := ApplyDefaults Hostname cfg in
  let ca := if negb (blank caCertFile) then caCertFile else tl_CACertFile (cl_TLS cfg) in
  let cfg := set_tls cfg (with_ca (cl_TLS cfg) (resolveConfigPath (Dir path) ca)) in
  let cfg := set_login cfg "compatibility-check" "compatibility-check" (cl_PasswordFile cfg) in
  wrap_err "installed client config is not valid for this client version" (ValidateConfig d cfg).

Definition CheckConfigUpgradeCompatible (d : Disk) (path : string) : result unit :=
  checkConfigUpgradeCompatible d path "".

Definition CheckConfigUpgradeCompatibleWithCACert (d : Disk) (path caCertFile : string) : result unit :=
  if blank caCertFile then Err "client config compatibility check requires a CA certificate file"
  else checkConfigUpgradeCompatible d path caCertFile.
End Files.

(** ** Credentials *)

Section Credentials.
Context `{SealCrypto} `{PEM} `{LocalTime} `{JSONCodec PlainCredential} `{JSONCodec encryptedEnvelope}.

(** [issuedAt] and [now] are two readings of the clock. *)
Definition SealSavedCredential (key : CredentialPublicKey) (cfg : Config) (password : string) (issuedAt now : Time)
    (plainNonce contentKey nonce : chars) : result SealedCredential :=
  Seal key (mkPlainCredential (cl_Username cfg) password (cl_ClientID cfg) (FormatRFC3339 issuedAt)
              (cp_ExpiresAt key) "") now plainNonce contentKey nonce.

Definition credentialFromConfig (cfg : Config) : option SealedCredential :=
  if blank (sc_Ciphertext (cl_SavedCredential cfg)) then None else Some (cl_SavedCredential cfg).
End Credentials.

(** ** What validation promises *)

Definition is_virtual (f : ForwardConfig) : Prop := TrimSpace (fd_Direction f) = DirectionVirtual.

(** An endpoint with a port from [lo] on. *)
Definition endpoint_from (lo : Z) (text host : string) (port : Z) : Prop :=
  ∃ portText, SplitHostPort (TrimSpace text) = Ok (host, portText) ∧ Atoi portText = Some port ∧ lo ≤ port ≤ 65535.

Lemma port_from_spec lo text : port_from lo text = true ↔ ∃ port, Atoi text = Some port ∧ lo ≤ port ≤ 65535.
Proof.
  unfold port_from. destruct (Atoi text) as [n|]; [|naive_solver].
  rewrite andb_true_iff, !Z.leb_le. naive_solver.
Qed.

Definition forward_ok (f : ForwardConfig) : Prop :=
  ∃ host port, endpoint_from 1 (fd_ServerTarget f) host port ∧
    (TrimSpace (fd_Direction f) = DirectionClientToServer ∧ IsForwardTargetHost host = true ∧
       (∃ h p, endpoint_from 0 (fd_ListenAddr f) h p)
     ∨ TrimSpace (fd_Direction f) = DirectionServerToClient ∧ host = LoopbackIPv4 ∧
       (∃ p, endpoint_from 1 (fd_ListenAddr f) LoopbackIPv4 p)
     ∨ is_virtual f ∧ IsForwardTargetHost host = true).

Section Valid.
Context `{PEM} `{CertificateIPs}.
Variable d : Disk.
Variable cfg : Config.

Definition virtual_addr (f : ForwardConfig) : result string :=
  VirtualForwardAddr d (tl_CACertFile (cl_TLS cfg)) (cl_ServerAddr cfg) (fd_ListenAddr f).

(** The endpoint of a virtual forward, on another port than the server's. *)
Definition virtual_ok (f : ForwardConfig) (addr : string) : Prop :=
  virtual_addr f = Ok addr ∧ 1 ≤ server_port cfg ≤ 65535 ∧
  ∃ host port, parseVirtualListenAddr (fd_ListenAddr f) = Ok (host, port) ∧ port ≠ server_port cfg.

Definition resolver_ok (v : validation) : Prop :=
  ∀ r, va_resolver v = Some r →
    newVirtualAddressResolver d (tl_CACertFile (cl_TLS cfg)) (cl_ServerAddr cfg) = Ok r.

Lemma no_resolver names seen endpoints : resolver_ok (mkValidation names seen endpoints None).
Proof. intros r Hr. discriminate Hr. Qed.

(** What a forward adds to what the loop has seen. *)
Definition adds (v : validation) (f : ForwardConfig) (v' : validation) : Prop :=
  (forwardName f ∉ va_names v) ∧ va_names v' = {[ forwardName f ]} ∪ va_names v ∧ resolver_ok v' ∧
  (is_virtual f ∧ (∃ addr, virtual_ok f addr ∧ va_seenEndpoints v !! ToLower addr = None ∧
     va_seenEndpoints v' = <[ToLower addr := fd_Name f]> (va_seenEndpoints v) ∧
     va_endpoints v' = va_endpoints v ++ [addr])
   ∨ ¬ is_virtual f ∧ va_seenEndpoints v' = va_seenEndpoints v ∧ va_endpoints v' = va_endpoints v).

Lemma validateVirtualForward_ok v f v' :
  resolver_ok v → validateVirtualForward d cfg v f = Ok v' →
  va_names v' = va_names v ∧ resolver_ok v' ∧
  ∃ addr, virtual_ok f addr ∧ va_seenEndpoints v !! ToLower addr = None ∧
    va_seenEndpoints v' = <[ToLower addr := fd_Name f]> (va_seenEndpoints v) ∧
    va_endpoints v' = va_endpoints v ++ [addr].
Proof.
  intros Hr. unfold validateVirtualForward, virtual_ok, virtual_addr, VirtualForwardAddr.
  destruct (parseVirtualListenAddr (fd_ListenAddr f)) as [[host port]|] eqn:Ep; [|done].
  cbn [mbind result_bind wrap_err].
  intros (r & Er & H1)%bind_ok.
  assert (newVirtualAddressResolver d (tl_CACertFile (cl_TLS cfg)) (cl_ServerAddr cfg) = Ok r) as Er'.
  { destruct (va_resolver v) as [r'|] eqn:Ev; [injection Er as <-; by apply Hr|].
    by destruct (newVirtualAddressResolver _ _ _). }
  rewrite Er'. cbn [mbind result_bind].
  destruct (resolve (Some r) host port) as [addr|] eqn:Ea; [|done]. cbn [mbind result_bind wrap_err] in H1.
  destruct ((server_port cfg <=? 0) || (65535 <? server_port cfg)) eqn:E1; [done|].
  destruct (Z.eqb_spec port (server_port cfg)); [done|].
  destruct (va_seenEndpoints v !! ToLower addr) eqn:Es; [done|]. injection H1 as <-.
  split; [done|]. split; [intros r' [= <-]; done|]. exists addr.
  split_and!; try done; [bool_lia..|]. by exists host, port.
Qed.

Lemma validateForward_ok v f v' :
  resolver_ok v → validateReverseForward f = Ok tt → validateForward d cfg v f = Ok v' → forward_ok f ∧ adds v f v'.
Proof.
  intros Hr Hrev. unfold validateForward. case_decide as Hname; [done|].
  destruct (bool_decide _) eqn:Ed; [|done]. apply bool_decide_eq_true in Ed. cbn [negb].
  destruct (blank (fd_ServerTarget f)); [done|].
  destruct (SplitHostPort (TrimSpace (fd_ServerTarget f))) as [[host portText]|] eqn:Et; [|done].
  destruct (String.eqb (Trim _ _) ""); [done|].
  destruct (port_from 1 portText) eqn:Ep; [|done]. cbn [negb].
  apply port_from_spec in Ep as (port & Ep & Hport).
  assert (endpoint_from 1 (fd_ServerTarget f) host port) as Htgt by (by exists portText).
  unfold forward_ok, adds, is_virtual.
  destruct (String.eqb_spec (TrimSpace (fd_Direction f)) DirectionServerToClient) as [Es|Es].
  { destruct (String.eqb_spec host LoopbackIPv4) as [->|]; [|done]. cbn [negb]. intros [= <-]. rewrite Es. split.
    - exists LoopbackIPv4, port. split; [done|]. right. left. split; [done|]. split; [done|].
      unfold validateReverseForward in Hrev. rewrite Es, String.eqb_refl in Hrev. cbn [negb] in Hrev.
      destruct (String.eqb _ "") in Hrev; [done|].
      destruct (SplitHostPort (TrimSpace (fd_ListenAddr f))) as [[h p]|] eqn:El; [|done].
      destruct (String.eqb _ "") in Hrev; [done|]. destruct (port_from 1 p) eqn:Epp; [|done]. cbn [negb] in Hrev.
      apply guard_err_ok in Hrev. destruct (String.eqb_spec h LoopbackIPv4) as [->|]; [|done].
      apply port_from_spec in Epp as (p' & ? & ?). by exists p', p.
    - split_and!; [done|done|done|]. right. split; [done|done]. }
  destruct (IsForwardTargetHost host) eqn:Eh; [|done]. cbn [negb].
  destruct (String.eqb_spec (TrimSpace (fd_Direction f)) DirectionVirtual) as [Ev|Ev].
  - intros (Hn & Hr' & Hadd)%validateVirtualForward_ok; [|done]. split; [|by split_and!; [..|left]].
    exists host, port. split; [done|]. right. right. done.
  - destruct (validateListenForward f) as [[]|] eqn:El; [|done]. cbn. intros [= <-]. split.
    + exists host, port. split; [done|]. left. split_and!; [set_solver|done|].
      unfold validateListenForward in El. destruct (blank _); [done|].
      destruct (SplitHostPort (TrimSpace (fd_ListenAddr f))) as [[h p]|] eqn:Esp; [|done].
      apply guard_err_ok, negb_false_iff, port_from_spec in El as (p' & ? & ?).
      by exists h, p', p.
    + split_and!; [done|done|done|]. right. done.
Qed.

(** The loop, from the start of the forwards that are left. *)
Lemma validateForwards_ok fs v v' :
  resolver_ok v → each validateReverseForward fs = Ok tt → fold_err (validateForward d cfg) v fs = Ok v' →
  Forall forward_ok fs ∧ NoDup (map forwardName fs) ∧ (∀ f, f ∈ fs → forwardName f ∉ va_names v) ∧
  ∃ addrs, va_endpoints v' = va_endpoints v ++ addrs ∧ Forall2 virtual_ok (filter is_virtual fs) addrs ∧
    NoDup (map ToLower addrs) ∧ ∀ a, a ∈ addrs → va_seenEndpoints v !! ToLower a = None.
Proof.
  revert v. induction fs as [|f fs IH]; intros v Hr; cbn [fold_err each].
  { intros _ [= <-]. split_and!; [done|constructor|by intros ? []%not_elem_of_nil|].
    exists []. rewrite app_nil_r. split_and!; [done|constructor|constructor|by intros ? []%not_elem_of_nil]. }
  destruct (validateReverseForward f) as [[]|] eqn:Erev; [|done]. intros Hrev.
  destruct (validateForward d cfg v f) as [v1|] eqn:E; [|done]. intros Hf.
  apply validateForward_ok in E as [Hok (Hnew & Hnames & Hr1 & Hadd)]; [|done|done].
  destruct (IH v1 Hr1 Hrev Hf) as (Hall & Hnd & Hfresh & addrs & He & H2 & Hnd2 & Hs).
  split; [by constructor|]. split.
  { cbn [map]. apply NoDup_cons. split; [|done]. intros (g & Hg & Hin)%list_elem_of_fmap.
    apply (Hfresh g Hin). rewrite Hnames, <-Hg. set_solver. }
  split.
  { intros g [->|Hg]%elem_of_cons; [done|]. specialize (Hfresh g Hg). rewrite Hnames in Hfresh. set_solver. }
  rewrite filter_cons. destruct Hadd as [[Hv (addr & Ha & Hn & Hs1 & He1)]|(Hv & Hs1 & He1)].
  - exists (addr :: addrs). rewrite decide_True by done. rewrite He, He1, <-app_assoc.
    split; [done|]. split; [by constructor|].
    assert (∀ a, a ∈ addrs → va_seenEndpoints v !! ToLower a = None ∧ ToLower a ≠ ToLower addr) as Hs'.
    { intros a Hin. specialize (Hs a Hin). rewrite Hs1 in Hs. by apply lookup_insert_None in Hs as [? ?]. }
    split.
    + cbn [map]. apply NoDup_cons. split; [|done]. intros (a & Haa & Hin)%list_elem_of_fmap. by destruct (Hs' a Hin).
    + intros a [->|Hin]%elem_of_cons; [done|]. by apply Hs'.
  - exists addrs. rewrite decide_False by done. rewrite He, He1. split_and!; try done.
    intros a Hin. rewrite <-Hs1. by apply Hs.
Qed.

Record client_valid : Prop := {
  cv_version : 0 ≤ cl_ConfigVersion cfg ≤ ClientConfigVersion;
  cv_login : TrimSpace (cl_Username cfg) ≠ "" ∧
    (cl_Password cfg ≠ "" ∨ TrimSpace (sc_Ciphertext (cl_SavedCredential cfg)) ≠ "");
  cv_some : cl_Forwards cfg ≠ [];
  cv_names : NoDup (map forwardName (cl_Forwards cfg));
  cv_forwards : Forall forward_ok (cl_Forwards cfg);
  cv_virtual : ∃ addrs, Forall2 virtual_ok (filter is_virtual (cl_Forwards cfg)) addrs ∧ NoDup addrs ∧
    Z.of_nat (length addrs) ≤ maxVirtualRedirectEndpoints;
  cv_ca : TrimSpace (tl_CACertFile (cl_TLS cfg)) ≠ ""
}.

Lemma blank_false s : blank s = false ↔ TrimSpace s ≠ "".
Proof. unfold blank. by rewrite String.eqb_neq. Qed.

Lemma ValidateConfig_client_valid : ValidateConfig d cfg = Ok tt → client_valid.
Proof.
  unfold ValidateConfig. intros H1. apply seq_ok in H1 as [Hv H1]. apply seq_ok in H1 as [_ H1].
  apply seq_ok in H1 as [_ H1]. apply seq_ok in H1 as [Hlogin%guard_err_ok H1].
  apply seq_ok in H1 as [Hsome%guard_err_ok H1]. apply seq_ok in H1 as [Hrev H1].
  apply bind_ok in H1 as (v & Hf & H1). apply seq_ok in H1 as [Hmax%guard_err_ok Hca%guard_err_ok].
  destruct (validateForwards_ok (cl_Forwards cfg) _ v (no_resolver _ _ _) Hrev Hf) as (Hall & Hnd & _ & addrs & He & H2 & Hnd2 & _).
  cbn [va_endpoints app] in He. rewrite He in Hmax.
  apply orb_false_iff in Hlogin as [Hu Hp]. apply blank_false in Hu, Hca. split; try done.
  - unfold ValidateConfigVersion in Hv. apply seq_ok in Hv as [H3%guard_err_ok Hv].
    apply seq_ok in Hv as [H4%guard_err_ok _]. bool_lia.
  - split; [done|]. apply andb_false_iff in Hp as [Hp|Hp]; [left; by apply String.eqb_neq|right; by apply blank_false].
  - intros E. by rewrite E in Hsome.
  - exists addrs. apply Z.ltb_ge in Hmax. split_and!; [done| |exact Hmax]. exact (NoDup_fmap_1 ToLower addrs Hnd2).
Qed.
End Valid.

(** ** Saved configurations *)

(** The tree of the text the YAML library writes for a value, by the tags of the
    fields: [remark] and [listen_addr] are left out when empty. *)
Definition text_node (s : string) : yamlNode := mkNode ScalarNode "!!str" s [].
Definition int_node (z : Z) : yamlNode := mkNode ScalarNode "!!int" (Itoa z) [].
Definition bool_node (b : bool) : yamlNode := mkNode ScalarNode "!!bool" (if b then "true" else "false") [].
Definition mapping_node (kvs : list (string * yamlNode)) : yamlNode :=
  mkNode MappingNode "!!map" "" (flat_map (λ kv, [text_node kv.1; kv.2]) kvs).
Definition omit_empty (name value : string) : list (string * yamlNode) :=
  if String.eqb value "" then [] else [(name, text_node value)].

Definition forward_fields (f : ForwardConfig) : list (string * yamlNode) :=
  [("name", text_node (fd_Name f)); ("direction", text_node (fd_Direction f))]
  ++ omit_empty "listen_addr" (fd_ListenAddr f) ++ [("server_target", text_node (fd_ServerTarget f))].

Definition requires_fields (r : RequiresConfig) : list (string * yamlNode) :=
  [("min_client_version", text_node (rc_MinClientVersion r))].
Definition saved_fields (c : SealedCredential) : list (string * yamlNode) :=
  [("type", text_node (sc_Type c)); ("key_id", text_node (sc_KeyID c));
   ("expires_at", text_node (sc_ExpiresAt c)); ("ciphertext", text_node (sc_Ciphertext c))].
Definition tls_fields (t : TLSConfig) : list (string * yamlNode) :=
  [("ca_cert_file", text_node (tl_CACertFile t)); ("server_name", text_node (tl_ServerName t));
   ("min_version", text_node (tl_MinVersion t)); ("insecure_skip_verify", bool_node (tl_InsecureSkipVerify t))].
Definition connection_fields (c : ConnectionConfig) : list (string * yamlNode) :=
  [("dial_timeout_sec", int_node (cn_DialTimeoutSec c))].
Definition forwards_node (fs : list ForwardConfig) : yamlNode :=
  mkNode SequenceNode "!!seq" "" (map (λ f, mapping_node (forward_fields f)) fs).

Definition config_fields (cfg : Config) : list (string * yamlNode) :=
  [("config_version", int_node (cl_ConfigVersion cfg));
   ("requires", mapping_node (requires_fields (cl_Requires cfg)));
   ("server_addr", text_node (cl_ServerAddr cfg))]
  ++ omit_empty "remark" (cl_Remark cfg) ++
  [("username", text_node (cl_Username cfg)); ("password", text_node (cl_Password cfg));
   ("password_env", text_node (cl_PasswordEnv cfg)); ("password_file", text_node (cl_PasswordFile cfg));
   ("saved_credential", mapping_node (saved_fields (cl_SavedCredential cfg)));
   ("client_id", text_node (cl_ClientID cfg)); ("log_level", text_node (cl_LogLevel cfg));
   ("tls", mapping_node (tls_fields (cl_TLS cfg)));
   ("connection", mapping_node (connection_fields (cl_Connection cfg)));
   ("forwards", forwards_node (cl_Forwards cfg))].

Definition config_tree (cfg : Config) : yamlNode :=
  mkNode DocumentNode "" "" [mapping_node (config_fields cfg)].

Lemma pairs_mapping (kvs : list (string * yamlNode)) :
  pairs (flat_map (λ kv, [text_node kv.1; kv.2]) kvs) = map (λ kv, (text_node kv.1, kv.2)) kvs.
Proof. induction kvs as [|kv kvs IH]; [done|]. cbn. by rewrite IH. Qed.

Lemma mapping_fields (kvs : list (string * yamlNode)) path :
  NoDup kvs.*1 → ∃ m, clientYAMLMappingFields (Some (mapping_node kvs)) path = Ok m ∧
    ∀ k v, m !! k = Some v ↔ (k, v) ∈ kvs.
Proof.
  intros Hnd. set (m := foldl (λ (m : fields) kv, <[Value kv.1 := kv.2]> m) ∅ (map (λ kv, (text_node kv.1, kv.2)) kvs)).
  exists m. split.
  - apply clientYAMLMappingFields_ok. unfold maps_to, distinct_keys. split.
    + eexists. split; [done|]. cbn. rewrite pairs_mapping. split_and!; try done.
      intros kv (x & -> & _)%list_elem_of_fmap. done.
    + eexists. split; [done|]. cbn. rewrite pairs_mapping, map_map. exact Hnd.
  - subst m. intros k v. revert Hnd. induction kvs as [|[k' v'] kvs IH] using rev_ind; intros Hnd.
    { cbn. rewrite lookup_empty. set_solver. }
    rewrite fmap_app in Hnd. apply NoDup_app in Hnd as (Hnd & Hdis & _).
    assert (k' ∉ kvs.*1) as Hk' by (intros Hin; apply (Hdis k' Hin); set_solver).
    rewrite map_app, foldl_app. cbn. rewrite lookup_insert_Some, IH, elem_of_app, list_elem_of_singleton by done.
    split; [naive_solver|]. intros [Hin|[= -> ->]]; [|auto]. right. split; [|done].
    intros ->. apply Hk', list_elem_of_fmap. by exists (k, v).
Qed.

Lemma text_value (kvs : list (string * yamlNode)) (m : fields) name v :
  (∀ k v, m !! k = Some v ↔ (k, v) ∈ kvs) → (name, text_node v) ∈ kvs → has_value m name.
Proof. intros Hm Hin. exists (text_node v). split; [by apply Hm|done]. Qed.

Ltac in_fields := cbn [app]; repeat first [by left|right].

Lemma saved_mapping_ok (kvs : list (string * yamlNode)) path names :
  NoDup kvs.*1 → (∀ name, name ∈ names → ∃ v, (name, v) ∈ kvs ∧ is_value v = true) →
  validateClientScalarMapping (Some (mapping_node kvs)) path names = Ok tt.
Proof.
  intros Hnd Hv. unfold validateClientScalarMapping. destruct (mapping_fields kvs path Hnd) as (m & -> & Hm).
  cbn [mbind result_bind]. apply each_ok_elem. intros name Hin. apply clientYAMLRequireScalar_ok.
  destruct (Hv name Hin) as (v & Hvin & [? ?]%is_value_spec). exists v. by split; [apply Hm|].
Qed.

Lemma saved_forward_ok f path :
  (m ← clientYAMLMappingFields (Some (mapping_node (forward_fields f))) path;
   each (clientYAMLRequireScalar m path) client_forward) = Ok tt ↔ fd_ListenAddr f ≠ "".
Proof.
  assert (NoDup (forward_fields f).*1) as Hnd.
  { unfold forward_fields, omit_empty. destruct (String.eqb _ ""); cbn; apply (bool_decide_unpack _); by vm_compute. }
  destruct (mapping_fields (forward_fields f) path Hnd) as (m & -> & Hm). cbn [mbind result_bind].
  rewrite each_ok_elem. setoid_rewrite clientYAMLRequireScalar_ok. unfold forward_fields, omit_empty in Hm.
  destruct (String.eqb_spec (fd_ListenAddr f) "") as [E|E].
  - split; [|by intros []]. intros Hall. destruct (Hall "listen_addr") as (n & Hn%Hm & _); [set_solver|].
    cbn in Hn. rewrite !elem_of_cons, elem_of_nil in Hn. naive_solver.
  - split; [done|]. intros _ name Hin. unfold client_forward in Hin.
    repeat (apply elem_of_cons in Hin as [->|Hin]); [..|by apply not_elem_of_nil in Hin];
      (eapply text_value; [exact Hm|]; in_fields).
Qed.

(** The fields of a saved configuration: most are the fixed ones. *)
Ltac config_lookup Hm :=
  apply Hm; unfold config_fields, omit_empty;
  match goal with |- context [String.eqb ?r ""] => destruct (String.eqb r "") end; in_fields.

Lemma config_scalars cfg (m : fields) :
  (∀ k v, m !! k = Some v ↔ (k, v) ∈ config_fields cfg) → ∀ name, name ∈ client_scalars → has_value m name.
Proof.
  intros Hm name Hin. unfold client_scalars in Hin.
  repeat (apply elem_of_cons in Hin as [->|Hin]); [..|by apply not_elem_of_nil in Hin];
    (eexists; split; [config_lookup Hm|done]).
Qed.

Lemma config_top cfg (m : fields) :
  (∀ k v, m !! k = Some v ↔ (k, v) ∈ config_fields cfg) → ∀ name, name ∈ client_top → is_Some (m !! name).
Proof.
  intros Hm name Hin. unfold client_top in Hin.
  repeat (apply elem_of_cons in Hin as [->|Hin]); [..|by apply not_elem_of_nil in Hin];
    (eexists; config_lookup Hm).
Qed.

Lemma config_remark cfg (m : fields) path :
  (∀ k v, m !! k = Some v ↔ (k, v) ∈ config_fields cfg) → clientYAMLRequireOptionalScalar m path "remark" = Ok tt.
Proof.
  intros Hm. unfold clientYAMLRequireOptionalScalar. destruct (m !! "remark") as [n|] eqn:E; [|done].
  apply Hm in E. unfold config_fields, omit_empty in E. destruct (String.eqb (cl_Remark cfg) ""); cbn in E;
    rewrite !elem_of_cons, elem_of_nil in E; naive_solver.
Qed.

Lemma credential_saved_ok c path :
  (m ← clientYAMLMappingFields (Some (mapping_node (saved_fields c))) path;
   if (size m =? 0)%nat then Ok tt else each (clientYAMLRequireScalar m path) credential_fields) = Ok tt.
Proof.
  destruct (mapping_fields (saved_fields c) path) as (m & -> & Hm).
  { cbn. apply (bool_decide_unpack _). by vm_compute. }
  cbn [mbind result_bind]. destruct (_ =? 0)%nat; [done|]. apply each_ok_elem. intros name Hin.
  apply clientYAMLRequireScalar_ok. unfold credential_fields in Hin.
  repeat (apply elem_of_cons in Hin as [->|Hin]); [..|by apply not_elem_of_nil in Hin];
    (eapply text_value; [exact Hm|]; in_fields).
Qed.

Ltac named := cbn; apply (bool_decide_unpack _); by vm_compute.
Ltac fielded := unfold requires_fields, tls_fields, connection_fields; repeat first [apply Forall_cons_2; [eexists; split; [in_fields|done]|]|apply Forall_nil_2].

Section Saved.
Context `{PEM} `{CertificateIPs} `{YAMLTree} `{StrictYAML Config} `{YAMLCodec Config} `{LocalTime}.
Variable Hostname : result string.

Lemma saved_structure cfg data :
  yaml_tree data = Ok (config_tree cfg) →
  validateVersionedClientConfigStructure data = Ok tt ↔ Forall (λ f, fd_ListenAddr f ≠ "") (cl_Forwards cfg).
Proof.
  intros Hdata. assert (NoDup (config_fields cfg).*1) as Hnd.
  { unfold config_fields, omit_empty. destruct (String.eqb _ ""); cbn; apply (bool_decide_unpack _); by vm_compute. }
  destruct (mapping_fields (config_fields cfg) "client config" Hnd) as (m & Em & Hm).
  assert (clientYAMLRootMapping data = Ok (mapping_node (config_fields cfg))) as Hroot.
  { unfold clientYAMLRootMapping, yamlRootMapping. by rewrite Hdata. }
  unfold validateVersionedClientConfigStructure. rewrite Hroot. cbn [mbind result_bind]. rewrite Em.
  cbn [mbind result_bind].
  assert (∀ kvs path names, NoDup kvs.*1 → Forall (λ name, ∃ v, (name, v) ∈ kvs ∧ is_value v = true) names →
            validateClientScalarMapping (Some (mapping_node kvs)) path names = Ok tt) as Hsub.
  { intros kvs path names Hk Hv. apply saved_mapping_ok; [done|by apply Forall_forall]. }
  rewrite (proj2 (each_ok_elem _ client_top)).
  2: { intros name Hin. apply required_field_ok. by apply (config_top cfg). }
  rewrite (proj2 (each_ok_elem _ client_scalars)).
  2: { intros name Hin. apply clientYAMLRequireScalar_ok. by apply (config_scalars cfg). }
  cbn [mbind result_bind]. rewrite (config_remark cfg) by done. cbn [mbind result_bind].
  assert (m !! "requires" = Some (mapping_node (requires_fields (cl_Requires cfg)))) as -> by config_lookup Hm. rewrite Hsub; [|named|fielded].
  cbn [mbind result_bind]. assert (m !! "saved_credential" = Some (mapping_node (saved_fields (cl_SavedCredential cfg)))) as -> by config_lookup Hm.
  unfold validateClientSavedCredentialStructure. rewrite credential_saved_ok. cbn [mbind result_bind].
  assert (m !! "tls" = Some (mapping_node (tls_fields (cl_TLS cfg)))) as -> by config_lookup Hm. rewrite Hsub; [|named|fielded]. cbn [mbind result_bind].
  assert (m !! "connection" = Some (mapping_node (connection_fields (cl_Connection cfg)))) as -> by config_lookup Hm. rewrite Hsub; [|named|fielded].
  cbn [mbind result_bind]. assert (m !! "forwards" = Some (forwards_node (cl_Forwards cfg))) as -> by config_lookup Hm.
  unfold validateClientForwardsStructure, forwards_node, is_kind. cbn [Kind]. rewrite bool_decide_true by done. cbn [negb].
  rewrite each_item_ok, Forall_forall. cbn [Content]. setoid_rewrite list_lookup_fmap. split.
  - intros Hall f [i Hi]%list_elem_of_lookup. specialize (Hall i (mapping_node (forward_fields f))).
    rewrite Hi in Hall. by eapply saved_forward_ok, Hall.
  - intros Hall i n Hi. destruct (cl_Forwards cfg !! i) as [f|] eqn:E; [|done]. injection Hi as <-.
    apply saved_forward_ok, Hall. by eapply list_elem_of_lookup_2.
Qed.

Lemma ApplyDefaults_twice cfg : ApplyDefaults Hostname (ApplyDefaults Hostname cfg) = ApplyDefaults Hostname cfg.
Proof.
  unfold ApplyDefaults at 1. cbn. unfold ApplyDefaults. f_equal.
  - destruct (Z.eqb_spec (cl_ConfigVersion cfg) 0); [done|]. by destruct (Z.eqb_spec (cl_ConfigVersion cfg) 0).
  - destruct (blank (rc_MinClientVersion (cl_Requires cfg))) eqn:E; [done|by rewrite E].
  - destruct (blank (cl_ClientID cfg)) eqn:E; [|by rewrite E]. destruct Hostname as [h|]; [|by rewrite E].
    destruct (blank h) eqn:Eh; cbn [negb]; [by rewrite E|].
    assert (blank (TrimSpace h) = false) as ->; [|done]. unfold blank in *. by rewrite TrimSpace_idemp.
  - f_equal. destruct (String.eqb (tl_MinVersion (cl_TLS cfg)) "") eqn:E; [done|by rewrite E].
  - f_equal. destruct (Z.leb_spec (cn_DialTimeoutSec (cl_Connection cfg)) 0); [done|].
    by destruct (Z.leb_spec (cn_DialTimeoutSec (cl_Connection cfg)) 0); [lia|].
  - rewrite map_map. apply map_ext. intros f. cbn.
    destruct (String.eqb_spec (TrimSpace (fd_Direction f)) "") as [E|E]; [done|].
    rewrite TrimSpace_idemp. by destruct (String.eqb_spec (TrimSpace (fd_Direction f)) "").
Qed.

(** The loopback checks do not depend on the defaults. *)
Lemma loopback_defaults cfg : validateLoopbackAddresses (ApplyDefaults Hostname cfg) = validateLoopbackAddresses cfg.
Proof.
  unfold validateLoopbackAddresses. cbn. destruct (wrap_err _ _) as [u|]; [|done]. cbn.
  destruct (wrap_err _ _) as [u'|]; [|done]. cbn. induction (cl_Forwards cfg) as [|f fs IH]; [done|].
  cbn [map each]. rewrite IH. cbn [fd_Direction fd_Name fd_ListenAddr fd_ServerTarget].
  assert (String.eqb (TrimSpace (if String.eqb (TrimSpace (fd_Direction f)) "" then DirectionClientToServer
                                 else TrimSpace (fd_Direction f))) DirectionVirtual
          = String.eqb (TrimSpace (fd_Direction f)) DirectionVirtual) as ->; [|done].
  destruct (String.eqb_spec (TrimSpace (fd_Direction f)) "") as [->|_]; [done|by rewrite TrimSpace_idemp].
Qed.

Lemma other_version_refused cfg :
  ¬ 0 ≤ cl_ConfigVersion cfg ≤ ClientConfigVersion → ValidateConfigVersion cfg ≠ Ok tt.
Proof.
  intros Hv Hc. unfold ValidateConfigVersion in Hc. apply seq_ok in Hc as [Hlo%guard_err_ok Hc].
  apply seq_ok in Hc as [Hhi%guard_err_ok _]. bool_lia.
Qed.

(** The YAML library writes a value as its tree, and reads back what it wrote. *)
Hypothesis tree_law : ∀ cfg data, yaml_marshal cfg = Ok data → yaml_tree data = Ok (config_tree cfg).
Hypothesis int_law : ∀ cfg data,
  yaml_marshal cfg = Ok data → node_int (int_node (cl_ConfigVersion cfg)) = Ok (cl_ConfigVersion cfg).
Hypothesis strict_law : ∀ cfg data,
  yaml_marshal cfg = Ok data → strict_decode data = Ok cfg ∧ strict_next data = None.

Lemma saved_version cfg data :
  yaml_marshal cfg = Ok data → clientConfigSchemaVersion data = Ok (cl_ConfigVersion cfg, true).
Proof.
  intros Hdata. assert (NoDup (config_fields cfg).*1) as Hnd.
  { unfold config_fields, omit_empty. destruct (String.eqb _ ""); cbn; apply (bool_decide_unpack _); by vm_compute. }
  destruct (mapping_fields (config_fields cfg) "client config" Hnd) as (m & Em & Hm).
  assert (clientYAMLRootMapping data = Ok (mapping_node (config_fields cfg))) as Hroot.
  { unfold clientYAMLRootMapping, yamlRootMapping. by rewrite (tree_law _ _ Hdata). }
  unfold clientConfigSchemaVersion. rewrite Hroot. cbn [mbind result_bind]. rewrite Em. cbn [mbind result_bind].
  assert (m !! "config_version" = Some (int_node (cl_ConfigVersion cfg))) as -> by config_lookup Hm.
  change (negb (is_value (int_node (cl_ConfigVersion cfg)))) with false. cbv iota. by rewrite (int_law _ _ Hdata).
Qed.

Lemma saved_decoded cfg data :
  yaml_marshal cfg = Ok data → cl_ConfigVersion cfg ≠ 0 →
  (decodeClientConfig data = Ok cfg ↔
     0 < cl_ConfigVersion cfg ≤ ClientConfigVersion ∧ Forall (λ f, fd_ListenAddr f ≠ "") (cl_Forwards cfg)) ∧
  (∀ cfg', decodeClientConfig data = Ok cfg' → cfg' = cfg).
Proof.
  intros Hdata Hne. unfold decodeClientConfig. rewrite (saved_version _ _ Hdata). cbn [mbind result_bind].
  pose proof (other_version_refused (set_version zeroConfig (cl_ConfigVersion cfg))) as Hother.
  cbn [set_version cl_ConfigVersion] in Hother.
  destruct (Z.eqb_spec (cl_ConfigVersion cfg) 0); [done|]. cbn [negb andb].
  destruct (negb (cl_ConfigVersion cfg =? 1) && negb (cl_ConfigVersion cfg =? ClientConfigVersion)) eqn:Ev.
  - assert (¬ 0 ≤ cl_ConfigVersion cfg ≤ ClientConfigVersion) as Hv by (unfold ClientConfigVersion in *; bool_lia).
    destruct (ValidateConfigVersion _) as [[]|]; [by destruct (Hother Hv)|]. cbn. split; [split; [done|lia]|done].
  - assert (0 < cl_ConfigVersion cfg ≤ ClientConfigVersion) as Hv by (unfold ClientConfigVersion in *; bool_lia).
    destruct (Z.ltb_spec 0 (cl_ConfigVersion cfg)); [|lia].
    destruct (strict_law _ _ Hdata) as [E1 E2]. unfold decodeStrictClientYAML. rewrite E1. cbn [mbind result_bind].
    rewrite E2. cbn [mbind result_bind]. pose proof (saved_structure cfg data (tree_law _ _ Hdata)) as Hs.
    destruct (validateVersionedClientConfigStructure data) as [[]|]; cbn; [naive_solver|].
    split; [|done]. split; [done|]. intros [_ Hl]. by apply Hs in Hl.
Qed.

(** C26: A saved configuration is loaded again, with its defaults, exactly when
    this client knows its version and every forward has a listen address: saving
    leaves out an empty listen address, and loading a versioned file without one is
    refused. Nothing else is lost, and nothing else is ever loaded instead. *)
Theorem saved_config_reloads d path cfg d' :
  dk_readErr d path = None → SaveConfig Hostname d path cfg = (d', Ok tt) →
  (LoadConfigRaw Hostname d' path = Ok (ApplyDefaults Hostname cfg) ↔
     0 ≤ cl_ConfigVersion cfg ≤ ClientConfigVersion ∧ Forall (λ f, fd_ListenAddr f ≠ "") (cl_Forwards cfg)) ∧
  (∀ cfg', LoadConfigRaw Hostname d' path = Ok cfg' → cfg' = ApplyDefaults Hostname cfg).
Proof.
  intros Hr. unfold SaveConfig. destruct (validateLoopbackAddresses cfg) as [[]|] eqn:El; [|done]. cbn [mbind result_bind].
  destruct (yaml_marshal (ApplyDefaults Hostname cfg)) as [data|] eqn:Em; [|done]. cbn [mbind result_bind].
  destruct (MkdirAll d (Dir path)); [|done]. cbn [mbind result_bind]. unfold WriteFile.
  destruct (dk_writeErr d path) as [[? ?]|]; [done|]. intros [= <-].
  unfold LoadConfigRaw, read_file, ReadFile. cbn. rewrite Hr, lookup_partial_alter_eq. cbn [mbind result_bind].
  assert (cl_ConfigVersion (ApplyDefaults Hostname cfg) ≠ 0) as Hne.
  { cbn. by destruct (Z.eqb_spec (cl_ConfigVersion cfg) 0). }
  destruct (saved_decoded (ApplyDefaults Hostname cfg) data Em Hne) as [Hd Hu].
  assert (0 < cl_ConfigVersion (ApplyDefaults Hostname cfg) ≤ ClientConfigVersion ↔
          0 ≤ cl_ConfigVersion cfg ≤ ClientConfigVersion) as Hv.
  { cbn. unfold ClientConfigVersion. destruct (Z.eqb_spec (cl_ConfigVersion cfg) 0); lia. }
  rewrite Hv in Hd. cbn [cl_Forwards ApplyDefaults] in Hd. rewrite Forall_fmap in Hd.
  destruct (decodeClientConfig data) as [cfg'|e]; cbn [mbind result_bind].
  - rewrite (Hu _ eq_refl), ApplyDefaults_twice, loopback_defaults, El. cbn [mbind result_bind].
    split; [|by intros ? [= <-]]. rewrite <-(Hu _ eq_refl) in *. split; [|done]. intros _. by apply Hd.
  - split; [|done]. rewrite <-Hd. split; done.
Qed.
End Saved.

(** ** What is loaded is valid *)

Section Loaded.
Context `{PEM} `{CertificateIPs} `{YAMLTree} `{StrictYAML Config}.
Variable Hostname : result string.
Variable Getenv : string → string.

(** C21: A configuration [LoadConfig] gives to the client is valid: this client
    knows its version, it has a user and a password or a saved login, a certificate
    and at least one forward; the forwards have different names, each has a
    direction, a target in reach and a place to listen of the kind its direction
    asks for; the virtual ones have different endpoints that the certificate
    allows, on other ports than the server's. *)
Theorem loaded_client_valid d path cfg :
  LoadConfig Hostname Getenv d path = Ok cfg → client_valid d cfg.
Proof.
  unfold LoadConfig. intros (c & _ & (c' & _ & H6)%bind_ok)%bind_ok.
  apply seq_ok in H6 as [Hv [= <-]]. by apply ValidateConfig_client_valid.
Qed.
End Loaded.

(** ** A concrete configuration *)

Definition sampleClient : Config :=
  mkClientConfig 2 (mkRequires "2.1.0") "203.0.113.9:3443" "" "alice" "secret" "" "" emptyCredential "pc" ""
    (mkTLS "server.crt" "" "1.3" false) (mkConnection 5)
    [mkForward "db" "client_to_server" "127.0.0.1:5432" "10.0.0.5:5432";
     mkForward "web" "server_to_client" "127.0.0.1:8080" "127.0.0.1:80";
     mkForward "rdp" "virtual" ":3389" "10.0.0.6:3389";
     mkForward "ssh" "virtual" "203.0.113.9:22" "10.0.0.6:22"].

(** A decoder that knows one text, and a certificate of the server. *)
Definition sampleTree : YAMLTree := {|
  yaml_tree data := if String.eqb data "sample" then Ok (config_tree sampleClient) else Err "unknown";
  node_int n := if String.eqb (Value n) "2" then Ok 2 else Err "unknown"
|}.
Definition sampleStrict : StrictYAML Config := {|
  strict_decode data := if String.eqb data "sample" then Ok sampleClient else Err "unknown";
  strict_next _ := None
|}.
Definition sampleCodec : YAMLCodec Config := {|
  yaml_marshal cfg := if decide (cfg = sampleClient) then Ok "sample" else Err "unknown";
  yaml_unmarshal data := if String.eqb data "sample" then Ok sampleClient else Err "unknown"
|}.
Definition samplePEM : PEM := {|
  pem_Decode data := Some ("CERTIFICATE", data, []);
  pem_EncodeToMemory _ bytes := bytes
|}.
Definition sampleIPs : CertificateIPs := λ _, Ok [[10; 1; 2; 3]; [203; 0; 113; 9]; [127; 0; 0; 1]].

Definition sampleClientDisk : Disk :=
  goodDisk (<["conf/client.yaml" := "sample"]> {[ "conf/server.crt" := "certificate" ]}).

Lemma sampleCodec_known cfg data : @yaml_marshal _ sampleCodec cfg = Ok data → cfg = sampleClient ∧ data = "sample".
Proof. cbn. case_decide; [|done]. by intros [= <-]. Qed.

Lemma loaded_client_valid_witness :
  match @LoadConfig samplePEM sampleIPs sampleTree sampleStrict (Err "") (λ _, "") sampleClientDisk "conf/client.yaml" with
  | Ok cfg => NoDup (map forwardName (cl_Forwards cfg))
  | Err _ => False
  end.
Proof.
  destruct (LoadConfig _ _ _ _) as [cfg|e] eqn:E; [|vm_compute in E; discriminate E].
  exact (@cv_names samplePEM sampleIPs _ _ (@loaded_client_valid samplePEM sampleIPs sampleTree sampleStrict _ _ _ _ _ E)).
Defined.

Lemma saved_config_reloads_witness :
  let d := (@SaveConfig sampleCodec (Err "") (goodDisk ∅) "client.yaml" sampleClient).1 in
  @LoadConfigRaw sampleTree sampleStrict (Err "") d "client.yaml" = Ok (ApplyDefaults (Err "") sampleClient).
Proof.
  intros d. destruct (@saved_config_reloads sampleTree sampleStrict sampleCodec (Err "")) with
    (d := goodDisk ∅) (path := "client.yaml") (cfg := sampleClient) (d' := d) as [Hr _].
  - intros cfg data [-> ->]%sampleCodec_known. reflexivity.
  - intros cfg data [-> ->]%sampleCodec_known. reflexivity.
  - intros cfg data [-> ->]%sampleCodec_known. done.
  - reflexivity.
  - vm_compute. reflexivity.
  - apply Hr. split; [split; vm_compute; discriminate|]. repeat constructor; vm_compute; discriminate.
Defined.
