(* ===== verification/VirtualRules.v ===== *)
(** * From a validated configuration to the redirect rules
    (src/client/tunnel/config.go, client.go, virtual_redirect.go)

    The client validates its virtual forwards as texts; starting them turns each
    into a rule, and the process that redirects checks the rules again. What the
    first check accepts the second never refuses. *)

From stdpp Require Import sorting.
From S2P Require Import Prelude.
From S2P Require Import GoStd.
From S2P Require Import Disk.
From S2P Require Import Netaddr.
From S2P Require Import Protocol.
From S2P Require Import GoCrypto.
From S2P Require Import Yaml.
From S2P Require Import Version.
From S2P Require Import VirtualAddress.
From S2P Require Import VirtualRedirect.
From S2P Require Import ClientConfig.

#[local] Open Scope Z_scope.

(** ** The address of a virtual forward is in canonical form *)

Lemma ipv4_text_no_char c b :
  Forall octet b → is_digit c = false → Ascii.eqb c dot = false → has_char c (to_chars (ipv4_text b)) = false.
Proof.
  intros Hb Hc Hd. unfold ipv4_text. induction Hb as [|x b Hx Hb IH]; [done|].
  assert (has_char c (to_chars (Itoa x)) = false) as Hx'.
  { apply digits_no_char; [done|apply Itoa_digits, Hx]. }
  cbn [map Join]. destruct b as [|y b]; [done|]. cbn [map] in *. rewrite !to_chars_app, !has_char_app, Hx', IH.
  change (to_chars ".") with [dot]. cbn [has_char existsb]. by rewrite Hd.
Qed.

Lemma plain_digit c : is_digit c = true → plain_char c = true.
Proof. intros Hc. by pose proof (digits_plain [c] ltac:(by repeat constructor)) as [? _]%Forall_cons. Qed.

Lemma ipv4_text_plain b : Forall octet b → Forall (λ c, plain_char c = true) (to_chars (ipv4_text b)).
Proof.
  intros Hb. unfold ipv4_text. induction Hb as [|x b Hx Hb IH]; [constructor|].
  assert (Forall (λ c, plain_char c = true) (to_chars (Itoa x))) as Hx'.
  { eapply Forall_impl; [apply Itoa_digits, Hx|]. apply plain_digit. }
  cbn [map Join]. destruct b as [|y b]; [done|]. cbn [map] in *.
  rewrite !to_chars_app, !Forall_app. split_and!; [done|by repeat constructor|done].
Qed.

Lemma usable_octets b : usable b → Forall octet b.
Proof. intros (x & y & z & w & -> & ? & ? & ? & ? & _). do 4 (constructor; [done|]). constructor. Qed.

(** The endpoint of an address and a port, as a text. *)
Definition endpoint (b : list Z) (port : Z) : string := JoinHostPort (ipv4_text b) (Itoa port).

Lemma endpoint_split b port :
  Forall octet b → 0 ≤ port → SplitHostPort (TrimSpace (endpoint b port)) = Ok (ipv4_text b, Itoa port).
Proof.
  intros Hb Hp. assert (TrimSpace (endpoint b port) = endpoint b port) as ->.
  { apply TrimSpace_plain. unfold endpoint, JoinHostPort. rewrite ipv4_text_no_char by done.
    rewrite !to_chars_app, !Forall_app. split_and!; [by apply ipv4_text_plain|by repeat constructor|].
    eapply Forall_impl; [by apply Itoa_digits|apply plain_digit]. }
  apply SplitHostPort_JoinHostPort; [done|by apply ipv4_text_no_char..].
Qed.

Lemma newVirtualRedirectRule_endpoint b port localPort :
  usable b → 1 ≤ port ≤ 65535 → 1 ≤ localPort ≤ 65535 →
  newVirtualRedirectRule (endpoint b port) localPort = Ok (mkRule (ipv4_text b) port localPort).
Proof.
  intros Hb Hp Hl. unfold newVirtualRedirectRule.
  rewrite endpoint_split by (lia || by apply usable_octets). rewrite normalizeVirtualIPv4_text by done.
  cbn [mbind result_bind]. rewrite Atoi_Itoa by (unfold max_i64; lia).
  destruct (Z.ltb_spec port 1); [lia|]. destruct (Z.ltb_spec 65535 port); [lia|].
  destruct (Z.ltb_spec localPort 1); [lia|]. destruct (Z.ltb_spec 65535 localPort); [lia|]. cbn [orb].
  by rewrite !wrap_u_id by lia.
Qed.

(** ** Rules with different endpoints and ports are accepted *)

Definition rule_of (e : list Z * Z * Z) : virtualRedirectRule :=
  let '(b, port, localPort) := e in mkRule (ipv4_text b) port localPort.
Definition entry_ok (e : list Z * Z * Z) : Prop :=
  let '(b, port, localPort) := e in usable b ∧ 1 ≤ port ≤ 65535 ∧ 1 ≤ localPort ≤ 65535.
Definition entry_endpoint (e : list Z * Z * Z) : string := let '(b, port, _) := e in endpoint b port.
Definition entry_local (e : list Z * Z * Z) : Z := let '(_, _, localPort) := e in localPort.

Lemma add_rules_accept es targets localPorts rules :
  Forall entry_ok es → NoDup (map entry_endpoint es) → NoDup (map entry_local es) →
  (∀ e, e ∈ es → entry_endpoint e ∉ targets) → (∀ e, e ∈ es → entry_local e ∉ localPorts) →
  ∃ targets' localPorts',
    fold_err add_rule (targets, localPorts, rules) (map rule_of es) = Ok (targets', localPorts', rules ++ map rule_of es).
Proof.
  revert targets localPorts rules. induction es as [|[[b port] lp] es IH]; intros targets localPorts rules Hok Hnd Hnd' Ht Hl.
  { exists targets, localPorts. cbn. by rewrite app_nil_r. }
  apply Forall_cons in Hok as [(Hb & Hp & Hlp) Hok]. cbn [map] in Hnd, Hnd'.
  apply NoDup_cons in Hnd as [Hn Hnd], Hnd' as [Hn' Hnd'].
  assert (endpoint b port ∉ targets) as Ht1 by (apply (Ht (b, port, lp)); set_solver).
  assert (lp ∉ localPorts) as Hl1 by (apply (Hl (b, port, lp)); set_solver).
  edestruct (IH ({[endpoint b port]} ∪ targets) ({[lp]} ∪ localPorts) (rules ++ [mkRule (ipv4_text b) port lp]))
    as (t' & l' & E); [done..| | |].
  { intros e He. rewrite not_elem_of_union, not_elem_of_singleton. split; [|apply Ht; set_solver].
    intros E. apply Hn. cbn. rewrite <-E. by apply list_elem_of_fmap_2. }
  { intros e He. rewrite not_elem_of_union, not_elem_of_singleton. split; [|apply Hl; set_solver].
    intros E. apply Hn'. cbn. rewrite <-E. by apply list_elem_of_fmap_2. }
  exists t', l'. cbn [map fold_err]. unfold add_rule at 1. cbn [rule_of rule_VirtualIP rule_VirtualPort rule_LocalPort].
  rewrite normalizeVirtualIPv4_text by done. cbn [mbind result_bind].
  destruct (Z.eqb_spec port 0); [lia|]. destruct (Z.eqb_spec lp 0); [lia|]. cbn [orb].
  fold (endpoint b port). rewrite decide_False by done. rewrite decide_False by done.
  rewrite E. by rewrite <-app_assoc.
Qed.

Lemma filter_accepts es :
  es ≠ [] → Z.of_nat (length es) ≤ maxVirtualRedirectEndpoints →
  Forall entry_ok es → NoDup (map entry_endpoint es) → NoDup (map entry_local es) →
  ∃ filter, buildVirtualRedirectFilter (map rule_of es) = Ok filter.
Proof.
  intros Hne Hlen Hok Hnd Hnd'. unfold buildVirtualRedirectFilter, normalizeVirtualRedirectRules.
  rewrite length_map. destruct (Z.ltb_spec maxVirtualRedirectEndpoints (Z.of_nat (length es))); [lia|].
  destruct (add_rules_accept es ∅ ∅ [] Hok Hnd Hnd') as (t & l & ->); [set_solver..|]. cbn [mbind result_bind app].
  destruct (merge_sort rule_le (map rule_of es)) as [|r rs] eqn:E; [|by eexists].
  exfalso. pose proof (merge_sort_Permutation rule_le (map rule_of es)) as Hp. rewrite E in Hp.
  apply Permutation_nil_l in Hp. by destruct es.
Qed.

(** Endpoints with their local ports. *)
Definition entries (es : list (list Z * Z)) (ports : list Z) : list (list Z * Z * Z) :=
  zip_with (λ e p, (e.1, e.2, p)) es ports.
Definition endpoint_ok (e : list Z * Z) : Prop := usable e.1 ∧ 1 ≤ e.2 ≤ 65535.

Lemma entries_ok es ports :
  length ports = length es → Forall endpoint_ok es → Forall (λ p, 1 ≤ p ≤ 65535) ports →
  map entry_endpoint (entries es ports) = map (λ e, endpoint e.1 e.2) es ∧
  map entry_local (entries es ports) = ports ∧ Forall entry_ok (entries es ports) ∧
  Forall2 (λ ap rule, newVirtualRedirectRule ap.1 ap.2 = Ok rule)
    (zip (map (λ e, endpoint e.1 e.2) es) ports) (map rule_of (entries es ports)).
Proof.
  intros Hl Hes. revert ports Hl. induction Hes as [|e es [Hb Hp] _ IH]; intros [|p ports] Hl Hps; try done.
  apply Forall_cons in Hps as [Hp' Hps]. destruct (IH ports ltac:(by injection Hl) Hps) as (E1 & E2 & E3 & E4).
  cbn. split_and!; [by f_equal|by f_equal|by constructor|].
  constructor; [by apply newVirtualRedirectRule_endpoint|done].
Qed.

(** ** What validation gives *)

Section Rules.
Context `{PEM} `{CertificateIPs}.
(** The addresses in a certificate are lists of bytes. *)
Hypothesis ips_bytes : ∀ bytes ips, ParseCertificateIPs bytes = Ok ips → Forall (Forall octet) ips.

Definition text_of_octets (value : string) : Prop := ∃ b, Forall octet b ∧ length b = 4%nat ∧ value = ipv4_text b.

Lemma add_ipv4_octets seen ip :
  Forall octet ip → (∀ v, v ∈ seen → text_of_octets v) → ∀ v, v ∈ add_ipv4 seen ip → text_of_octets v.
Proof.
  intros Hip Hs v. unfold add_ipv4, to4. destruct (Nat.eqb_spec (length ip) 4) as [E|E].
  { intros [->%elem_of_singleton|Hv]%elem_of_union; [by exists ip|by apply Hs]. }
  destruct (Nat.eqb_spec (length ip) 16) as [E'|E']; [|by apply Hs]. unfold To4. case_bool_decide; [|by apply Hs].
  intros [->%elem_of_singleton|Hv]%elem_of_union; [|by apply Hs].
  exists (drop 12 ip). split_and!; [by apply Forall_drop|rewrite length_drop; lia|done].
Qed.

Lemma certificate_loop_octets fuel data n seen m seen' :
  (∀ v, v ∈ seen → text_of_octets v) → certificate_loop fuel data n seen = Ok (m, seen') →
  ∀ v, v ∈ seen' → text_of_octets v.
Proof.
  revert data n seen. induction fuel as [|fuel IH]; intros data n seen Hs; [by intros [= _ <-]|].
  cbn [certificate_loop]. destruct data as [|c data]; [by intros [= _ <-]|].
  destruct (pem_Decode _) as [[[type bytes] rest]|]; [|by intros [= _ <-]].
  destruct (negb _); [by apply IH|]. destruct (ParseCertificateIPs bytes) as [ips|] eqn:E; [|done].
  apply IH. apply ips_bytes in E. clear -Hs E. revert seen Hs.
  induction E as [|ip ips Hip _ IH]; intros seen Hs; [done|]. cbn [foldl]. apply IH. by apply add_ipv4_octets.
Qed.

Lemma sans_octets d path sans : certificateIPv4SANs d path = Ok sans → ∀ v, v ∈ sans → text_of_octets v.
Proof.
  unfold certificateIPv4SANs. destruct (String.eqb _ _); [done|]. destruct (read_file _ _) as [text|]; [|done].
  destruct (certificate_loop _ _ _ _) as [[n seen]|] eqn:E; [|done]. cbn.
  destruct (n =? 0); [done|]. case_decide; [done|]. intros [= <-] v.
  rewrite merge_sort_Permutation, elem_of_elements.
  eapply certificate_loop_octets; [|exact E]. set_solver.
Qed.

Lemma usable_text v : text_of_octets v → names_usable v → ∃ b, usable b ∧ v = ipv4_text b.
Proof.
  intros (b & Hb & Hl & ->) (b' & Hn & Hu). exists b'. split; [done|].
  destruct b as [|x [|y [|z [|w [|]]]]]; try done.
  do 4 (apply Forall_cons in Hb as [? Hb]).
  change (ipv4_text [x; y; z; w]) with (dotted x y z w) in *. unfold normalizeVirtualIPv4 in Hn.
  destruct (dotted_text x y z w) as (Et & _); [done..|]. rewrite Et, ParseIP_dotted in Hn by done.
  unfold To4 in Hn. change (take 12 (v4InV6Prefix ++ [x; y; z; w])) with v4InV6Prefix in Hn.
  rewrite bool_decide_true in Hn by done. destruct (Contains _ _); [done|]. destruct (_ || _); [done|].
  by injection Hn as <-.
Qed.

Lemma virtual_addr_endpoint d cfg f addr :
  virtual_addr d cfg f = Ok addr → ∃ b port, usable b ∧ 1 ≤ port ≤ 65535 ∧ addr = endpoint b port.
Proof.
  unfold virtual_addr, VirtualForwardAddr.
  destruct (parseVirtualListenAddr (fd_ListenAddr f)) as [[host port]|] eqn:Ep; [|done].
  apply parseVirtualListenAddr_ok in Ep as [Hport Hhost]. cbn [mbind result_bind]. unfold newVirtualAddressResolver.
  destruct (certificateIPv4SANs d (tl_CACertFile (cl_TLS cfg))) as [sans|] eqn:Es; [|done]. cbn [mbind result_bind].
  pose proof (sans_octets _ _ _ Es) as Ho. apply certificateIPv4SANs_nodup in Es. unfold resolve.
  destruct (String.eqb_spec host "") as [->|Hne].
  - destruct (automaticIP _) as [v|] eqn:Ea; [|done]. cbn. intros [= <-].
    apply automaticIP_spec in Ea as [Hin Ha]; [|done].
    destruct (usable_text v (Ho v Hin)) as (b & Hb & ->); [by eapply automatic_usable|]. by exists b, port.
  - destruct Hhost as [?|(b & Hb & ->)]; [done|]. case_decide; [|done]. intros [= <-]. by exists b, port.
Qed.

(** C25: The virtual forwards of a validated configuration can always be started:
    given different local ports, their addresses give rules that the redirecting
    process accepts as they are, without a duplicate or a wrong address, and never
    more of them than it supports. *)
Theorem virtual_rules_accepted d cfg :
  ValidateConfig d cfg = Ok tt →
  ∃ addrs, Forall2 (λ f addr, virtual_addr d cfg f = Ok addr) (filter is_virtual (cl_Forwards cfg)) addrs ∧
    ∀ ports, length ports = length addrs → NoDup ports → Forall (λ p, 1 ≤ p ≤ 65535) ports →
    ∃ rules, Forall2 (λ ap rule, newVirtualRedirectRule ap.1 ap.2 = Ok rule) (zip addrs ports) rules ∧
      (addrs ≠ [] → ∃ filter, buildVirtualRedirectFilter rules = Ok filter).
Proof.
  intros Hv. destruct (cv_virtual _ _ (ValidateConfig_client_valid d cfg Hv)) as (addrs & H2 & Hnd & Hlen).
  exists addrs. split; [eapply Forall2_impl; [exact H2|by intros f a [? _]]|].
  assert (∃ es, addrs = map (λ e, endpoint e.1 e.2) es ∧ Forall endpoint_ok es) as (es & -> & Hes).
  { clear Hnd Hlen. induction H2 as [|f a fs addrs [Ha _] _ IH]; [by exists []|].
    destruct IH as (es & -> & Hes). destruct (virtual_addr_endpoint d cfg f a Ha) as (b & port & Hb & Hp & ->).
    exists ((b, port) :: es). split; [done|]. by constructor. }
  intros ports Hl Hndp Hp. rewrite length_map in *.
  destruct (entries_ok es ports Hl Hes Hp) as (E1 & E2 & E3 & E4).
  exists (map rule_of (entries es ports)). split; [done|]. intros Hne.
  apply filter_accepts; [| |done|by rewrite E1|by rewrite E2].
  - intros E. rewrite E in E1. by destruct es.
  - assert (length (entries es ports) = length es) as ->; [|done].
    rewrite <-(length_map entry_endpoint), E1. apply length_map.
Qed.
End Rules.

Lemma virtual_rules_accepted_witness :
  let cfg := set_tls sampleClient (mkTLS "conf/server.crt" "" "1.3" false) in
  ∃ addrs, length addrs = 2%nat ∧ ∀ ports, length ports = length addrs → NoDup ports →
    Forall (λ p, 1 ≤ p ≤ 65535) ports → ∃ rules filter,
      Forall2 (λ ap rule, newVirtualRedirectRule ap.1 ap.2 = Ok rule) (zip addrs ports) rules ∧
      buildVirtualRedirectFilter rules = Ok filter.
Proof.
  intros cfg. destruct (@virtual_rules_accepted samplePEM sampleIPs) with (d := sampleClientDisk) (cfg := cfg)
    as (addrs & H2 & Hrules).
  - intros bytes ips [= <-]. repeat constructor; vm_compute; discriminate.
  - vm_compute. reflexivity.
  - apply Forall2_length in H2. change (length (filter is_virtual (cl_Forwards cfg))) with 2%nat in H2.
    exists addrs. split; [done|]. intros ports Hl Hnd Hp. destruct (Hrules ports Hl Hnd Hp) as (rules & Hr & Hf).
    destruct Hf as [filter Hf]; [by intros ->|]. by exists rules, filter.
Defined.
