(* ===== verification/ClientState.v ===== *)
(** * The state of the client (src/client/tunnel/client.go, status.go)

    The record [Client] and the critical sections of its methods: everything a
    method does under [forwardsMu], the mutex of a forward or [healthMu] is one
    function here, so that [ClientPrograms] can interleave them. Listeners and
    redirect sessions are numbers; [c_sockets] and [c_processes] are the listeners
    and sessions the machine has open, whether the client knows them or not.

    Methods that start with a nil client return at once; a client is never nil
    here. Lines given to the log callback are left out. *)

From S2P Require Import Prelude.
From S2P Require Import GoStd.
From S2P Require Import Disk.
From S2P Require Import Protocol.
From S2P Require Import GoCrypto.
From S2P Require Import Yaml.
From S2P Require Import VirtualAddress.
From S2P Require Import VirtualRedirect.
From S2P Require Import ClientErrors.
From S2P Require Import ClientConfig.

#[local] Open Scope Z_scope.

(** ** Data *)

Definition ForwardStarting : string := "starting".
Definition ForwardListening : string := "listening".
Definition ForwardListenFailed : string := "listen_failed".
Definition ForwardReverseWait : string := "reverse_waiting".
Definition ForwardReverseActive : string := "reverse_active".
Definition ForwardRetrying : string := "retrying".
Definition ForwardRejected : string := "rejected".

Record HealthStatus := mkHealth {
  hs_State : string; hs_Message : string; hs_LastChecked : string; hs_LastOK : string; hs_LastError : string;
  hs_ConsecutiveFailures : Z; hs_RetryDelaySec : Z; hs_NextRetryAt : string; hs_Terminal : bool
}.
Definition zeroHealth : HealthStatus := mkHealth "" "" "" "" "" 0 0 "" false.

Record ForwardStatus := mkForwardStatus {
  fs_Name : string; fs_Direction : string; fs_VirtualIP : string; fs_VirtualAddr : string; fs_ListenAddr : string;
  fs_ServerTarget : string; fs_State : string; fs_Message : string; fs_Active : Z; fs_Total : Z;
  fs_LastOpen : string; fs_LastClose : string; fs_LastError : string
}.

Record ClientStats := mkClientStats {
  st_Health : HealthStatus; st_ServerVersion : string; st_Active : Z; st_Total : Z; st_Items : list ForwardStatus
}.

Record ForwardCheckSummary := mkSummary { su_Checked : Z; su_Allowed : Z; su_Rejected : Z; su_Failed : Z }.

Record forwardRuntime := mkForwardRuntime {
  fr_name : string; fr_direction : string; fr_virtualIP : string; fr_virtualAddr : string; fr_listenAddr : string;
  fr_serverTarget : string; fr_active : Z; fr_total : Z; fr_state : string; fr_message : string;
  fr_lastOpen : string; fr_lastClose : string; fr_lastError : string
}.

Record Client := mkClient {
  c_listeners : gmap string nat;
  c_virtualAddrs : gmap string string;
  c_virtualResolver : option virtualAddressResolver;
  c_session : option nat;
  c_members : gset string;
  c_forwards : gmap string forwardRuntime;
  c_health : HealthStatus;
  c_serverVersion : string;
  c_closed : bool;
  c_active : Z;
  c_total : Z;
  c_sockets : gset nat;
  c_processes : gset nat
}.

Definition newClient : Client := mkClient ∅ ∅ None None ∅ ∅ zeroHealth "" false 0 0 ∅ ∅.

(** Replacing parts of the record. *)
Definition set_listeners (c : Client) (ls : gmap string nat) (vs : gmap string string) : Client :=
  mkClient ls vs (c_virtualResolver c) (c_session c) (c_members c) (c_forwards c) (c_health c) (c_serverVersion c)
    (c_closed c) (c_active c) (c_total c) (c_sockets c) (c_processes c).
Definition set_session (c : Client) (session : option nat) (members : gset string) : Client :=
  mkClient (c_listeners c) (c_virtualAddrs c) (c_virtualResolver c) session members (c_forwards c) (c_health c)
    (c_serverVersion c) (c_closed c) (c_active c) (c_total c) (c_sockets c) (c_processes c).
Definition set_resolver (c : Client) (r : option virtualAddressResolver) : Client :=
  mkClient (c_listeners c) (c_virtualAddrs c) r (c_session c) (c_members c) (c_forwards c) (c_health c)
    (c_serverVersion c) (c_closed c) (c_active c) (c_total c) (c_sockets c) (c_processes c).
Definition set_forwards (c : Client) (fs : gmap string forwardRuntime) : Client :=
  mkClient (c_listeners c) (c_virtualAddrs c) (c_virtualResolver c) (c_session c) (c_members c) fs (c_health c)
    (c_serverVersion c) (c_closed c) (c_active c) (c_total c) (c_sockets c) (c_processes c).
Definition set_health (c : Client) (h : HealthStatus) : Client :=
  mkClient (c_listeners c) (c_virtualAddrs c) (c_virtualResolver c) (c_session c) (c_members c) (c_forwards c) h
    (c_serverVersion c) (c_closed c) (c_active c) (c_total c) (c_sockets c) (c_processes c).
Definition set_serverVersion (c : Client) (v : string) : Client :=
  mkClient (c_listeners c) (c_virtualAddrs c) (c_virtualResolver c) (c_session c) (c_members c) (c_forwards c)
    (c_health c) v (c_closed c) (c_active c) (c_total c) (c_sockets c) (c_processes c).
Definition set_closed (c : Client) : Client :=
  mkClient (c_listeners c) (c_virtualAddrs c) (c_virtualResolver c) (c_session c) (c_members c) (c_forwards c)
    (c_health c) (c_serverVersion c) true (c_active c) (c_total c) (c_sockets c) (c_processes c).
Definition set_counts (c : Client) (active total : Z) : Client :=
  mkClient (c_listeners c) (c_virtualAddrs c) (c_virtualResolver c) (c_session c) (c_members c) (c_forwards c)
    (c_health c) (c_serverVersion c) (c_closed c) active total (c_sockets c) (c_processes c).
Definition set_open (c : Client) (sockets processes : gset nat) : Client :=
  mkClient (c_listeners c) (c_virtualAddrs c) (c_virtualResolver c) (c_session c) (c_members c) (c_forwards c)
    (c_health c) (c_serverVersion c) (c_closed c) (c_active c) (c_total c) sockets processes.

(** ** Forwards *)

(** [time.Now().Format(time.RFC3339)] is a text, [now]. *)

Definition snapshot (f : forwardRuntime) : ForwardStatus :=
  mkForwardStatus (fr_name f) (fr_direction f) (fr_virtualIP f) (fr_virtualAddr f) (fr_listenAddr f)
    (fr_serverTarget f) (fr_state f) (fr_message f) (fr_active f) (fr_total f) (fr_lastOpen f) (fr_lastClose f)
    (fr_lastError f).

Definition initForward (c : Client) (name : string) (fwd : ForwardConfig) (state message : string) : Client :=
  set_forwards c (<[name := mkForwardRuntime name (fd_Direction fwd) "" "" (fd_ListenAddr fwd) (fd_ServerTarget fwd)
                              0 0 state message "" "" ""]> (c_forwards c)).

(** A change of the forward with the name, when there is one. *)
Definition on_forward (c : Client) (name : string) (change : forwardRuntime → forwardRuntime) : Client :=
  set_forwards c (alter change name (c_forwards c)).

Definition setForwardAddresses (c : Client) (name listenAddr virtualAddr : string) : Client :=
  on_forward c name (λ f,
    mkForwardRuntime (fr_name f) (fr_direction f)
      (match SplitHostPort virtualAddr with Ok (host, _) => Trim host "[]" | Err _ => "" end)
      virtualAddr listenAddr (fr_serverTarget f) (fr_active f) (fr_total f) (fr_state f) (fr_message f)
      (fr_lastOpen f) (fr_lastClose f) (fr_lastError f)).

Definition setForwardState (c : Client) (name state message : string) : Client :=
  on_forward c name (λ f,
    mkForwardRuntime (fr_name f) (fr_direction f) (fr_virtualIP f) (fr_virtualAddr f) (fr_listenAddr f)
      (fr_serverTarget f) (fr_active f) (fr_total f) state message (fr_lastOpen f) (fr_lastClose f)
      (if bool_decide (state ∈ [ForwardListening; ForwardReverseWait; ForwardReverseActive])
       then "" else fr_lastError f)).

Definition recordForwardError (c : Client) (name : string) (err : option string) : Client :=
  match err with
  | None => c
  | Some e =>
      on_forward c name (λ f,
        mkForwardRuntime (fr_name f) (fr_direction f) (fr_virtualIP f) (fr_virtualAddr f) (fr_listenAddr f)
          (fr_serverTarget f) (fr_active f) (fr_total f) (fr_state f) (ForwardErrorMessage err) (fr_lastOpen f)
          (fr_lastClose f) e)
  end.

(** The function that ends the stream changes the forward only if it was there. *)
Definition beginForwardStream (c : Client) (name now : string) : Client * bool :=
  let c' := on_forward c name (λ f,
    mkForwardRuntime (fr_name f) (fr_direction f) (fr_virtualIP f) (fr_virtualAddr f) (fr_listenAddr f)
      (fr_serverTarget f) (wrap_i64 (fr_active f + 1)) (wrap_i64 (fr_total f + 1)) (fr_state f) (fr_message f)
      now (fr_lastClose f) "") in
  (set_counts c' (wrap_i64 (c_active c + 1)) (wrap_i64 (c_total c + 1)), bool_decide (is_Some (c_forwards c !! name))).

Definition endForwardStream (c : Client) (name : string) (found : bool) (closedAt : string) : Client :=
  let c' := if found then on_forward c name (λ f,
    mkForwardRuntime (fr_name f) (fr_direction f) (fr_virtualIP f) (fr_virtualAddr f) (fr_listenAddr f)
      (fr_serverTarget f) (wrap_i64 (fr_active f - 1)) (fr_total f) (fr_state f) (fr_message f)
      (fr_lastOpen f) closedAt (fr_lastError f)) else c in
  set_counts c' (wrap_i64 (c_active c - 1)) (c_total c).

Definition SetServerVersion (c : Client) (version : string) : Client :=
  let version := TrimSpace version in
  if String.eqb version "" then c else set_serverVersion c version.

(** Names are distinct, so any way of sorting by name gives the same list. *)
Definition name_le (a b : ForwardStatus) : Prop := string_le (fs_Name a) (fs_Name b).
#[export] Instance name_le_dec a b : Decision (name_le a b) := bool_eq_dec _ _.

Definition Stats (rg : MapRange forwardRuntime) (c : Client) : ClientStats :=
  mkClientStats (c_health c) (c_serverVersion c) (c_active c) (c_total c)
    (sorting.merge_sort name_le (map (λ kf, snapshot kf.2) (range_entries rg (c_forwards c)))).

(** ** Health *)

Definition setHealth (c : Client) (state message errText : string) (terminal : bool) (now : string)
    : Client * HealthStatus :=
  let h := c_health c in
  let next :=
    if String.eqb state HealthOK then
      mkHealth state message now now "" 0 0 "" terminal
    else if String.eqb state HealthChecking then
      mkHealth state message now (hs_LastOK h) "" (hs_ConsecutiveFailures h) (hs_RetryDelaySec h) (hs_NextRetryAt h)
        terminal
    else
      mkHealth state message now (hs_LastOK h) (if String.eqb errText "" then hs_LastError h else errText)
        (wrap_i64 (hs_ConsecutiveFailures h + 1)) (hs_RetryDelaySec h) (hs_NextRetryAt h) terminal in
  (set_health c next, next).

(** [int(delay.Round(time.Second).Seconds())] of a positive delay: halves go up. *)
Definition round_seconds (delay : Duration) : Z := (delay + nsecond / 2) `div` nsecond.

Definition setHealthRetry (c : Client) (delay : Duration) (next_at : string) : Client * HealthStatus :=
  let h := c_health c in
  let idle := String.eqb (hs_State h) HealthOK || hs_Terminal h || (delay <=? 0) in
  let next := mkHealth (hs_State h) (hs_Message h) (hs_LastChecked h) (hs_LastOK h) (hs_LastError h)
                (hs_ConsecutiveFailures h) (if idle then 0 else round_seconds delay) (if idle then "" else next_at)
                (hs_Terminal h) in
  (set_health c next, next).

Definition markHealthTerminal (c : Client) (message : string) : Client * HealthStatus :=
  let h := c_health c in
  let next := mkHealth (hs_State h) (if String.eqb message "" then hs_Message h else message) (hs_LastChecked h)
                (hs_LastOK h) (hs_LastError h) (hs_ConsecutiveFailures h) 0 "" true in
  (set_health c next, next).

Definition nextHealthDelay (c : Client) : Duration :=
  let h := c_health c in
  if String.eqb (hs_State h) HealthOK then healthOKInterval
  else if String.eqb (hs_State h) HealthServerUnavailable then ReconnectDelay (hs_ConsecutiveFailures h)
  else healthReconnectInitialInterval.

Definition finalizeHealthStatus (c : Client) (status : HealthStatus) : Client * HealthStatus :=
  if String.eqb (hs_State status) HealthAuthError then
    markHealthTerminal c (if String.eqb (hs_Message status) "" then "认证异常，已取消连接状态，请重新连接"
                          else hs_Message status)
  else if String.eqb (hs_State status) HealthServerUnavailable
          && (healthMaxReconnectFailures <=? hs_ConsecutiveFailures status)
  then markHealthTerminal c "多次重连失败，已取消连接状态，请确认服务端恢复后重新连接"
  else (c, status).

Definition shouldStopAfterHealth (c : Client) (status : HealthStatus) : Client * bool :=
  if hs_Terminal status then (c, true)
  else let '(c, status) := finalizeHealthStatus c status in (c, hs_Terminal status).

(** ** Listeners and the redirect session *)

Definition ForwardAddr (c : Client) (addr_of : nat → string) (name : string) : string :=
  let virtualAddr := default "" (c_virtualAddrs c !! name) in
  if negb (String.eqb virtualAddr "") then virtualAddr
  else match c_listeners c !! name with Some ln => addr_of ln | None => "" end.

(** Closing a listener or a session. *)
Definition closeSocket (c : Client) (ln : nat) : Client := set_open c (c_sockets c ∖ {[ ln ]}) (c_processes c).
Definition closeProcess (c : Client) (session : nat) : Client := set_open c (c_sockets c) (c_processes c ∖ {[ session ]}).

Definition hasListener (c : Client) (name : string) : bool := bool_decide (is_Some (c_listeners c !! name)).

(** The second lock of [ensureForwardListener]; [false] when there is a listener. *)
Definition addListener (c : Client) (name : string) (ln : nat) : Client * bool :=
  if hasListener c name then (c, false)
  else (set_listeners c (<[name := ln]> (c_listeners c)) (c_virtualAddrs c), true).

(** The lock of [prepareVirtualForwardListener]. *)
Definition addVirtualListener (c : Client) (name : string) (ln : nat) (virtualAddr : string) : Client * bool :=
  if hasListener c name then (c, false)
  else (set_listeners c (<[name := ln]> (c_listeners c)) (<[name := virtualAddr]> (c_virtualAddrs c)), true).

Record preparedVirtualForward := mkPrepared {
  pv_name : string; pv_fwd : ForwardConfig; pv_listener : nat; pv_virtualAddr : string; pv_rule : virtualRedirectRule
}.

Definition attachVirtualRedirectSession (c : Client) (prepared : list preparedVirtualForward) (session : option nat)
    : Client * bool :=
  match session with
  | None => (c, false)
  | Some session =>
      if bool_decide (is_Some (c_session c)) then (c, false)
      else if negb (forallb (λ p, bool_decide (c_listeners c !! pv_name p = Some (pv_listener p))) prepared)
      then (c, false)
      else (set_session c (Some session) (list_to_set (map pv_name prepared) ∪ c_members c), true)
  end.

(** The names come in the order of a range over the members. *)
Definition detachVirtualRedirectSession (rg : SetRange) (c : Client) (session : nat) : Client * list string :=
  if bool_decide (c_session c = Some session) then (set_session c None ∅, set_entries rg (c_members c)) else (c, []).

Definition virtualForwardActive (c : Client) (name : string) : bool :=
  bool_decide (name ∈ c_members c) && bool_decide (is_Some (c_session c)) && hasListener c name &&
  negb (String.eqb (default "" (c_virtualAddrs c !! name)) "").

Definition closeVirtualRedirectSession (c : Client) : Client * option nat := (set_session c None ∅, c_session c).

Definition closeAllListeners (rg : MapRange nat) (c : Client) : Client * list nat :=
  (set_listeners c ∅ ∅, map snd (range_entries rg (c_listeners c))).

(** The lock of [stopForwardListener]: the session and the listener to close. *)
Definition takeForwardListener (c : Client) (name : string) : Client * option nat * option nat :=
  let member := bool_decide (name ∈ c_members c) in
  let members := c_members c ∖ {[ name ]} in
  let last := member && bool_decide (members = ∅) in
  let c' := set_session c (if last then None else c_session c) (if member then members else c_members c) in
  (set_listeners c' (delete name (c_listeners c)) (delete name (c_virtualAddrs c)),
   if last then c_session c else None, c_listeners c !! name).

Definition close_opt (close : Client → nat → Client) (c : Client) (x : option nat) : Client :=
  match x with Some x => close c x | None => c end.

Definition stopForwardListener (c : Client) (name : string) : Client :=
  let '(c, session, ln) := takeForwardListener c name in
  close_opt closeSocket (close_opt closeProcess c session) ln.

Definition forwardListenerActive (c : Client) (name : string) (ln : nat) : bool :=
  bool_decide (c_listeners c !! name = Some ln).

(** [Close]: the first call closes the channel, then the session, then the listeners. *)
Definition Close (rg : MapRange nat) (c : Client) : Client :=
  if c_closed c then c
  else
    let '(c, session) := closeVirtualRedirectSession (set_closed c) in
    let c := close_opt closeProcess c session in
    let '(c, listeners) := closeAllListeners rg c in
    foldl closeSocket c listeners.

Definition forwardDirection (fwd : ForwardConfig) : string :=
  let direction := TrimSpace (fd_Direction fwd) in
  if String.eqb direction "" || String.eqb direction DirectionVirtual then DirectionClientToServer else direction.

(** ** Checks of all forwards *)

Definition zeroSummary : ForwardCheckSummary := mkSummary 0 0 0 0.

Definition count_result (s : ForwardCheckSummary) (res : string) : ForwardCheckSummary :=
  if String.eqb res "allowed"
  then mkSummary (su_Checked s + 1) (su_Allowed s + 1) (su_Rejected s) (su_Failed s)
  else if String.eqb res "rejected"
  then mkSummary (su_Checked s + 1) (su_Allowed s) (su_Rejected s + 1) (su_Failed s)
  else mkSummary (su_Checked s + 1) (su_Allowed s) (su_Rejected s) (su_Failed s + 1).

Definition ForwardCheckMessage (s : ForwardCheckSummary) : string :=
  if su_Checked s =? 0 then "服务端连接正常"
  else if (0 <? su_Rejected s) || (0 <? su_Failed s)
  then "服务端连接正常，已检查 " +:+ Itoa (su_Checked s) +:+ " 个端口，" +:+ Itoa (su_Rejected s + su_Failed s) +:+ " 个异常"
  else "服务端连接正常，已检查 " +:+ Itoa (su_Checked s) +:+ " 个端口".
