(* ===== verification/ClientPrograms.v ===== *)
(** * The client as programs (src/client/tunnel/client.go, status.go)

    Every method of the client that talks to the network or is run as a goroutine,
    as a program over the critical sections of [ClientState] and what the client
    asks of the machine. A [defer] is what follows the body. Loops have a number of
    rounds. *)

From S2P Require Import Prelude.
From S2P Require Import Programs.
From S2P Require Import GoStd.
From S2P Require Import Disk.
From S2P Require Import Version.
From S2P Require Import Protocol.
From S2P Require Import GoCrypto.
From S2P Require Import Yaml.
From S2P Require Import VirtualAddress.
From S2P Require Import VirtualRedirect.
From S2P Require Import ClientErrors.
From S2P Require Import ClientConfig.
From S2P Require Import ClientState.

#[local] Open Scope Z_scope.

(** ** Calls *)

(** What the client starts as a goroutine; a guard closes a connection when the
    client ends before the connection is done. *)
Inductive clientWorker :=
  | WAcceptLoop (ln : nat) (name : string) (fwd : ForwardConfig)
  | WHandleLocal (conn : nat) (name : string) (fwd : ForwardConfig)
  | WReverseLoop (name : string) (fwd : ForwardConfig)
  | WReverseStream (name : string) (fwd : ForwardConfig) (streamID : string)
  | WWatchSession (session : nat)
  | WHealthLoop (delayInitialCheck : bool)
  | WCloseOnCancel
  | WGuard (conn : nat).

(** How a wait of a loop ends. *)
Inductive wakeup := wakeTimer | wakeCancelled | wakeClosed.

(** Each call with the type of its answer. A listener comes with its address and
    its TCP port. *)
Inductive clientOp : Type → Type :=
  (* critical sections *)
  | CInitForward (name : string) (fwd : ForwardConfig) (state message : string) : clientOp unit
  | CSetState (name state message : string) : clientOp unit
  | CSetAddresses (name listenAddr virtualAddr : string) : clientOp unit
  | CRecordError (name : string) (err : option string) : clientOp unit
  | CForwardState (name : string) : clientOp (option string)
  | CBeginStream (name : string) : clientOp bool
  | CEndStream (name : string) (found : bool) : clientOp unit
  | CServerVersion (version : string) : clientOp unit
  | CSetHealth (state message errText : string) (terminal : bool) : clientOp HealthStatus
  | CFinalize (status : HealthStatus) : clientOp HealthStatus
  | CNextDelay : clientOp Duration
  | CSetRetry (delay : Duration) : clientOp unit
  | CHasListener (name : string) : clientOp bool
  | CAddListener (name : string) (ln : nat) : clientOp bool
  | CAddVirtualListener (name : string) (ln : nat) (virtualAddr : string) : clientOp bool
  | CListenerActive (name : string) (ln : nat) : clientOp bool
  | CVirtualActive (name : string) : clientOp bool
  | CTakeListener (name : string) : clientOp (option nat * option nat)
  | CAttach (prepared : list preparedVirtualForward) (session : option nat) : clientOp bool
  | CDetach (session : nat) : clientOp (list string)
  | CCloseOnce : clientOp bool
  | CTakeSession : clientOp (option nat)
  | CTakeListeners : clientOp (list nat)
  | CResolver : clientOp (result virtualAddressResolver)
  (* the machine *)
  | CClosed : clientOp bool
  | CCancelled : clientOp bool
  | CTLSConfig : clientOp (option string)
  | CListen (addr : string) : clientOp (result (nat * string * option Z))
  | CAccept (ln : nat) : clientOp (result nat)
  | CCloseSocket (ln : nat) : clientOp unit
  | CStartRedirect (rules : list virtualRedirectRule) : clientOp (result (option nat))
  | CCloseProcess (session : nat) : clientOp unit
  | CProcessDone (session : nat) : clientOp unit
  | CProcessErr (session : nat) : clientOp (option string)
  | CDial (timeout : Duration) : clientOp (result nat)
  | CSend (conn : nat) (req : OpenRequest) : clientOp (result unit)
  | CReceive (conn : nat) : clientOp (result OpenResponse)
  | CDeadline (conn : nat) (which : deadlineKind) (timeout : option Duration) : clientOp unit
  | CKeepAlive (conn : nat) (period : Duration) : clientOp unit
  | CCloseConn (conn : nat) : clientOp unit
  | CDialTarget (target : string) (timeout : Duration) : clientOp (result nat)
  | CProxy (left right : nat) : clientOp unit
  | CWait (delay : Duration) : clientOp wakeup
  | CGo (w : clientWorker) : clientOp unit
  | CStopGuard (conn : nat) : clientOp unit.

Abbreviation cprog := (Programs.prog clientOp).
Abbreviation ccall := (Programs.done_call clientOp).

(** A loop over a list. *)
Fixpoint for_each {A} (f : A → cprog unit) (xs : list A) : cprog unit :=
  match xs with [] => mret tt | x :: xs => _ ← f x; for_each f xs end.

Section ClientPrograms.
Variable cfg : Config.
(** [errors.Is(err, net.ErrClosed)]. *)
Variable isErrClosed : string → bool.

Definition dialTimeout : Duration := seconds (cn_DialTimeoutSec (cl_Connection cfg)).
(** The timeout of every connection but that of a local one. *)
Definition handshakeTimeout : Duration := if dialTimeout <=? 0 then 5 * nsecond else dialTimeout.

(** ** Requests *)

Definition newOpenRequest (reqType : string) : OpenRequest :=
  mkOpenRequest reqType (cl_Username cfg) (cl_Password cfg) (credentialFromConfig cfg) (cl_ClientID cfg)
    AppVersion ProtocolVersion "" "" "" "" "".

(** A request about a forward. *)
Definition forwardRequest (reqType name direction listenAddr streamID target : string) : OpenRequest :=
  let r := newOpenRequest reqType in
  mkOpenRequest (rq_Type r) (rq_Username r) (rq_Password r) (rq_Credential r) (rq_ClientID r) (rq_ClientVersion r)
    (rq_ProtocolVersion r) name direction listenAddr streamID target.

(** [clientTLSConfig] gave no error, a connection was dialled. *)
Definition dialServer (timeout : Duration) : cprog (result nat) :=
  tls ← call CTLSConfig;
  match tls with
  | Some e => mret (Err e)
  | None => call (CDial timeout)
  end.

(** ** Asking the server *)

(** An answer that is not [OK] is an error with the code and the message. *)
Definition checkServerResponse (reqType : string) : cprog (result OpenResponse) :=
  conn ← dialServer handshakeTimeout;
  match conn with
  | Err e => mret (Err e)
  | Ok conn =>
      _ ← call (CDeadline conn deadlineBoth (Some handshakeTimeout));
      sent ← call (CSend conn (newOpenRequest reqType));
      resp ← (match sent with
              | Err e => mret (Err e)
              | Ok _ =>
                  resp ← call (CReceive conn);
                  mret (resp ← resp;
                        if rs_OK resp then Ok resp else Err (responseError resp (reqType +:+ " failed")))
              end);
      _ ← call (CCloseConn conn);
      mret resp
  end.

Definition CheckHealthNow : cprog HealthStatus :=
  resp ← checkServerResponse "health";
  match resp with
  | Err e =>
      let '(state, message) := classifyHealthError (Some e) in
      status ← call (CSetHealth state message e (String.eqb state HealthAuthError));
      call (CFinalize status)
  | Ok resp =>
      _ ← call (CServerVersion (rs_ServerVersion resp));
      status ← call (CSetHealth HealthOK "服务端连接正常" "" false);
      call (CFinalize status)
  end.

(** ** Listeners *)

Definition stopForwardListener (name : string) : cprog unit :=
  '(session, ln) ← call (CTakeListener name);
  _ ← match session with Some session => call (CCloseProcess session) | None => mret tt end;
  match ln with Some ln => call (CCloseSocket ln) | None => mret tt end.

Definition Close : cprog unit :=
  first ← call CCloseOnce;
  if negb first then mret tt
  else
    session ← call CTakeSession;
    _ ← match session with Some session => call (CCloseProcess session) | None => mret tt end;
    listeners ← call CTakeListeners;
    for_each (λ ln, call (CCloseSocket ln)) listeners.

Definition ensureForwardListener (name : string) (fwd : ForwardConfig) : cprog (result unit) :=
  closed ← call CClosed;
  if closed : bool then mret (Err "client is closed")
  else
    has ← call (CHasListener name);
    if has : bool then mret (Ok tt)
    else
      listener ← call (CListen (fd_ListenAddr fwd));
      match listener with
      | Err e => _ ← call (CSetState name ForwardListenFailed (ForwardErrorMessage (Some e))); mret (Err e)
      | Ok (ln, addr, _) =>
          added ← call (CAddListener name ln);
          if negb added then _ ← call (CCloseSocket ln); mret (Ok tt)
          else
            _ ← call (CSetAddresses name addr "");
            _ ← call (CSetState name ForwardListening "本地端口监听中");
            _ ← call (CGo (WAcceptLoop ln name fwd));
            mret (Ok tt)
      end.

Definition listen_failed {A} (name e : string) : cprog (result A) :=
  _ ← call (CSetState name ForwardListenFailed (ForwardErrorMessage (Some e))); mret (Err e).

Definition prepareVirtualForwardListener (name : string) (fwd : ForwardConfig) : cprog (result preparedVirtualForward) :=
  match parseVirtualListenAddr (fd_ListenAddr fwd) with
  | Err e => listen_failed name e
  | Ok (virtualHost, virtualPort) =>
      resolver ← call CResolver;
      match resolver with
      | Err e => listen_failed name e
      | Ok resolver =>
          match resolve (Some resolver) virtualHost virtualPort with
          | Err e => listen_failed name e
          | Ok virtualAddr =>
              internal ← call (CListen "127.0.0.1:0");
              match internal with
              | Err e => listen_failed name ("allocate virtual local redirect listener: " +:+ e)
              | Ok (ln, addr, port) =>
                  let port := default 0 port in
                  if (port <=? 0) || (65535 <? port)
                  then _ ← call (CCloseSocket ln);
                       listen_failed name ("forward " +:+ name +:+ " did not allocate a valid local redirect port")
                  else match newVirtualRedirectRule virtualAddr port with
                  | Err e => _ ← call (CCloseSocket ln); listen_failed name e
                  | Ok rule =>
                      added ← call (CAddVirtualListener name ln virtualAddr);
                      if negb added
                      then _ ← call (CCloseSocket ln);
                           mret (Err ("virtual forward " +:+ name +:+ " listener already exists"))
                      else
                        _ ← call (CSetAddresses name addr virtualAddr);
                        mret (Ok (mkPrepared name fwd ln virtualAddr rule))
                  end
              end
          end
      end
  end.

Definition activateVirtualForward (p : preparedVirtualForward) : cprog unit :=
  _ ← call (CSetState (pv_name p) ForwardListening "虚拟端点已接管");
  call (CGo (WAcceptLoop (pv_listener p) (pv_name p) (pv_fwd p))).

Definition watchVirtualRedirectSession (session : nat) : cprog unit :=
  _ ← call (CProcessDone session);
  closed ← call CClosed;
  if closed : bool then mret tt
  else
    names ← call (CDetach session);
    match names with
    | [] => mret tt
    | _ =>
        err ← call (CProcessErr session);
        let err := default "virtual redirect helper stopped unexpectedly" err in
        for_each (λ name,
          _ ← stopForwardListener name;
          call (CSetState name ForwardListenFailed (ForwardErrorMessage (Some err)))) names
    end.

(** [true] when the loop has ended. *)
Fixpoint acceptLoop (rounds : nat) (ln : nat) (name : string) (fwd : ForwardConfig) : cprog bool :=
  match rounds with
  | O => mret false
  | S rounds =>
      conn ← call (CAccept ln);
      match conn with
      | Ok conn => _ ← call (CGo (WHandleLocal conn name fwd)); acceptLoop rounds ln name fwd
      | Err e =>
          cancelled ← call CCancelled;
          if cancelled : bool then mret true
          else
            closed ← call CClosed;
            if closed : bool then mret true
            else
              active ← (if isErrClosed e then mret false else call (CListenerActive name ln));
              if negb active then mret true else acceptLoop rounds ln name fwd
      end
  end.

(** ** A local connection *)

(** The rest of [handleLocal] with the connection to the server. *)
Definition serveLocal (local remote : nat) (name : string) (fwd : ForwardConfig) : cprog unit :=
  sent ← call (CSend remote (forwardRequest "open" name DirectionClientToServer "" "" (fd_ServerTarget fwd)));
  match sent with
  | Err e => call (CRecordError name (Some e))
  | Ok _ =>
      resp ← call (CReceive remote);
      match resp with
      | Err e => call (CRecordError name (Some e))
      | Ok resp =>
          _ ← call (CServerVersion (rs_ServerVersion resp));
          if negb (rs_OK resp) then
            let err := Some (responseError resp "server rejected the connection") in
            _ ← call (CRecordError name err);
            if IsPermanentForwardError err then
              _ ← call (CSetState name ForwardRejected (ForwardErrorMessage err));
              stopForwardListener name
            else mret tt
          else
            _ ← call (CSetState name ForwardListening "本地端口监听中");
            found ← call (CBeginStream name);
            _ ← call (CProxy remote local);
            call (CEndStream name found)
      end
  end.

Definition handleLocal (local : nat) (name : string) (fwd : ForwardConfig) : cprog unit :=
  remote ← dialServer dialTimeout;
  _ ← match remote with
      | Err e => call (CRecordError name (Some e))
      | Ok remote => _ ← serveLocal local remote name fwd; call (CCloseConn remote)
      end;
  call (CCloseConn local).

(** ** Reverse forwards *)

Definition openReverseStreamOn (remote : nat) (name : string) (fwd : ForwardConfig) (streamID : string) : cprog unit :=
  _ ← call (CDeadline remote deadlineBoth (Some handshakeTimeout));
  sent ← call (CSend remote (forwardRequest "reverse_stream" name DirectionServerToClient (fd_ListenAddr fwd) streamID
                               (fd_ServerTarget fwd)));
  match sent with
  | Err e => call (CRecordError name (Some e))
  | Ok _ =>
      resp ← call (CReceive remote);
      match resp with
      | Err e => call (CRecordError name (Some e))
      | Ok resp =>
          _ ← call (CServerVersion (rs_ServerVersion resp));
          if negb (rs_OK resp) then
            let err := Some (responseError resp "server rejected reverse stream") in
            _ ← call (CRecordError name err);
            if IsPermanentForwardError err
            then call (CSetState name ForwardRejected (ForwardErrorMessage err)) else mret tt
          else
            _ ← call (CDeadline remote deadlineBoth None);
            target ← call (CDialTarget (fd_ServerTarget fwd) handshakeTimeout);
            match target with
            | Err e => call (CRecordError name (Some ("connect client target " +:+ fd_ServerTarget fwd +:+ ": " +:+ e)))
            | Ok target =>
                found ← call (CBeginStream name);
                _ ← call (CProxy remote target);
                _ ← call (CEndStream name found);
                call (CCloseConn target)
            end
      end
  end.

Definition openReverseStream (name : string) (fwd : ForwardConfig) (streamID : string) : cprog unit :=
  remote ← dialServer handshakeTimeout;
  match remote with
  | Err e => call (CRecordError name (Some e))
  | Ok remote =>
      _ ← call (CKeepAlive remote handshakeTimeout);
      _ ← call (CGo (WGuard remote));
      _ ← openReverseStreamOn remote name fwd streamID;
      _ ← call (CStopGuard remote);
      call (CCloseConn remote)
  end.

Definition pongRequest (name : string) (fwd : ForwardConfig) : OpenRequest :=
  let r := forwardRequest "reverse_pong" name DirectionServerToClient (fd_ListenAddr fwd) "" (fd_ServerTarget fwd) in
  mkOpenRequest (rq_Type r) (rq_Username r) "" None (rq_ClientID r) (rq_ClientVersion r)
    (rq_ProtocolVersion r) (rq_ForwardName r) (rq_Direction r) (rq_ListenAddr r) (rq_StreamID r) (rq_Target r).

(** The loop over the events of an activated listener, one round an event; the
    error that ended it. *)
Fixpoint reverseEvents (rounds : nat) (remote : nat) (name : string) (fwd : ForwardConfig) : cprog (option string) :=
  match rounds with
  | O => mret None
  | S rounds =>
      event ← call (CReceive remote);
      match event with
      | Err e => mret (Some ("reverse listen disconnected: " +:+ e))
      | Ok event =>
          if String.eqb (rs_Code event) "reverse_ping" then
            _ ← call (CDeadline remote deadlineWrite (Some handshakeTimeout));
            sent ← call (CSend remote (pongRequest name fwd));
            _ ← call (CDeadline remote deadlineWrite None);
            match sent with
            | Err e => mret (Some ("send reverse heartbeat failed: " +:+ e))
            | Ok _ => reverseEvents rounds remote name fwd
            end
          else if negb (String.eqb (rs_Code event) "reverse_connect") || String.eqb (rs_StreamID event) ""
          then reverseEvents rounds remote name fwd
          else _ ← call (CGo (WReverseStream name fwd (rs_StreamID event))); reverseEvents rounds remote name fwd
      end
  end.

Definition activateReverse (rounds : nat) (remote : nat) (name : string) (fwd : ForwardConfig) : cprog (option string) :=
  _ ← call (CDeadline remote deadlineBoth (Some handshakeTimeout));
  sent ← call (CSend remote (forwardRequest "reverse_listen" name DirectionServerToClient (fd_ListenAddr fwd) ""
                               (fd_ServerTarget fwd)));
  match sent with
  | Err e => mret (Some ("send reverse listen request failed: " +:+ e))
  | Ok _ =>
      resp ← call (CReceive remote);
      match resp with
      | Err e => mret (Some ("read reverse listen response failed: " +:+ e))
      | Ok resp =>
          _ ← call (CServerVersion (rs_ServerVersion resp));
          if negb (rs_OK resp) then mret (Some (responseError resp "server rejected reverse forward"))
          else
            _ ← call (CSetState name ForwardReverseActive "服务端被动端口已激活");
            _ ← call (CDeadline remote deadlineBoth None);
            reverseEvents rounds remote name fwd
      end
  end.

(** The error it ended with; [None] when the rounds ran out. *)
Definition maintainReverseListen (rounds : nat) (name : string) (fwd : ForwardConfig) : cprog (option string) :=
  tls ← call CTLSConfig;
  match tls with
  | Some e => mret (Some e)
  | None =>
      remote ← call (CDial handshakeTimeout);
      match remote with
      | Err e => mret (Some ("connect server failed: " +:+ e))
      | Ok remote =>
          _ ← call (CKeepAlive remote handshakeTimeout);
          _ ← call (CGo (WGuard remote));
          err ← activateReverse rounds remote name fwd;
          _ ← call (CStopGuard remote);
          _ ← call (CCloseConn remote);
          mret err
      end
  end.

(** How the loop ended, if it did; [rounds] bounds its rounds and, in each, the
    events of the listener. *)
Inductive reverseEnd := reverseCancelled | reverseGaveUp (err : string) | reverseUnfinished.

Fixpoint reverseLoop (rounds events : nat) (failures : Z) (name : string) (fwd : ForwardConfig) : cprog reverseEnd :=
  match rounds with
  | O => mret reverseUnfinished
  | S rounds =>
      cancelled ← call CCancelled;
      if cancelled : bool then mret reverseCancelled
      else
        closed ← call CClosed;
        if closed : bool then mret reverseCancelled
        else
          err ← maintainReverseListen events name fwd;
          match err with
          | None => mret reverseUnfinished
          | Some e =>
              let failures := wrap_i64 (failures + 1) in
              let message := ForwardErrorMessage err in
              _ ← call (CRecordError name err);
              if IsPermanentForwardError err then
                _ ← call (CSetState name ForwardRejected message); mret (reverseGaveUp e)
              else
                _ ← call (CSetState name ForwardRetrying message);
                w ← call (CWait (ReverseRetryDelay err failures));
                match w with
                | wakeTimer => reverseLoop rounds events failures name fwd
                | wakeCancelled | wakeClosed => mret reverseCancelled
                end
          end
  end.

(** ** Checks of the forwards *)

Definition checkForwardResponse (name : string) (fwd : ForwardConfig) : cprog (result OpenResponse) :=
  conn ← dialServer handshakeTimeout;
  match conn with
  | Err e => mret (Err e)
  | Ok conn =>
      _ ← call (CDeadline conn deadlineBoth (Some handshakeTimeout));
      let direction := forwardDirection fwd in
      let listenAddr := if String.eqb direction DirectionServerToClient then fd_ListenAddr fwd else "" in
      sent ← call (CSend conn (forwardRequest "forward_check" name direction listenAddr "" (fd_ServerTarget fwd)));
      resp ← (match sent with
              | Err e => mret (Err e)
              | Ok _ =>
                  resp ← call (CReceive conn);
                  match resp with
                  | Err e => mret (Err e)
                  | Ok resp =>
                      _ ← call (CServerVersion (rs_ServerVersion resp));
                      mret (if rs_OK resp then Ok resp
                            else Err (responseError resp "server rejected forward check"))
                  end
              end);
      _ ← call (CCloseConn conn);
      mret resp
  end.

Definition restoreCheckedForward (name : string) (fwd : ForwardConfig) : cprog (result unit) :=
  let direction := TrimSpace (fd_Direction fwd) in
  if String.eqb direction DirectionVirtual then
    active ← call (CVirtualActive name);
    mret (guard_err (negb active)
            "virtual redirect is inactive; disconnect and reconnect to request administrator authorization")
  else if String.eqb direction "" || String.eqb direction DirectionClientToServer then ensureForwardListener name fwd
  else if String.eqb direction DirectionServerToClient then
    state ← call (CForwardState name);
    if bool_decide (state = Some ForwardRejected) then
      _ ← call (CSetState name ForwardReverseWait "等待服务端被动端口激活");
      _ ← call (CGo (WReverseLoop name fwd));
      mret (Ok tt)
    else mret (Ok tt)
  else mret (Ok tt).

(** [checkForwardResponse] gives no answer that is not [OK] without an error. *)
Definition checkForwardNow (name : string) (fwd : ForwardConfig) : cprog string :=
  resp ← checkForwardResponse name fwd;
  match resp with
  | Err e =>
      _ ← call (CRecordError name (Some e));
      if IsPermanentForwardError (Some e) then
        _ ← call (CSetState name ForwardRejected (ForwardErrorMessage (Some e)));
        _ ← (if String.eqb (forwardDirection fwd) DirectionClientToServer then stopForwardListener name else mret tt);
        mret "rejected"
      else mret "failed"
  | Ok _ =>
      restored ← restoreCheckedForward name fwd;
      match restored with
      | Ok _ => mret "allowed"
      | Err e =>
          _ ← call (CRecordError name (Some e));
          _ ← (if String.eqb (fd_Direction fwd) DirectionVirtual
               then call (CSetState name ForwardListenFailed (ForwardErrorMessage (Some e))) else mret tt);
          mret "failed"
      end
  end.

(** The checks run at the same time; here one after the other, in the order in
    which they end. *)
Fixpoint checkForwards (fwds : list ForwardConfig) (s : ForwardCheckSummary) : cprog ForwardCheckSummary :=
  match fwds with
  | [] => mret s
  | fwd :: fwds => res ← checkForwardNow (forwardName fwd) fwd; checkForwards fwds (count_result s res)
  end.
Definition CheckForwardsNow : cprog ForwardCheckSummary := checkForwards (cl_Forwards cfg) zeroSummary.

(** ** The health loop *)

(** [shouldStopAfterHealth]. *)
Definition stopAfterHealth (status : HealthStatus) : cprog bool :=
  if hs_Terminal status then mret true else status ← call (CFinalize status); mret (hs_Terminal status).

(** [true] when the loop has ended. *)
Fixpoint healthRounds (rounds : nat) : cprog bool :=
  match rounds with
  | O => mret false
  | S rounds =>
      status ← CheckHealthNow;
      stop ← stopAfterHealth status;
      if stop : bool then _ ← Close; mret true
      else
        delay ← call CNextDelay;
        _ ← call (CSetRetry delay);
        w ← call (CWait delay);
        match w with wakeTimer => healthRounds rounds | wakeCancelled | wakeClosed => mret true end
  end.

Definition healthLoop (rounds : nat) (delayInitialCheck : bool) : cprog bool :=
  if delayInitialCheck then
    w ← call (CWait healthOKInterval);
    match w with wakeTimer => healthRounds rounds | wakeCancelled | wakeClosed => mret true end
  else healthRounds rounds.

(** ** Starting *)

(** [errors.Join(unusableErr, err)], as a text. *)
Definition join_err (unusableErr : option string) (e : string) : option string :=
  Some (match unusableErr with Some u => u +:+ nl +:+ e | None => e end).

Record startup := mkStartup {
  su_usableForwards : Z;
  su_blockingStartupFailures : Z;
  su_unusableErr : option string;
  su_virtualForwards : list preparedVirtualForward
}.

Definition startup_failed (s : startup) (e : string) : startup :=
  mkStartup (su_usableForwards s) (su_blockingStartupFailures s + 1) (join_err (su_unusableErr s) e)
    (su_virtualForwards s).
Definition startup_usable (s : startup) : startup :=
  mkStartup (su_usableForwards s + 1) (su_blockingStartupFailures s) (su_unusableErr s) (su_virtualForwards s).

(** One forward of the loop in [start]. *)
Definition startForward (s : startup) (fwd : ForwardConfig) : cprog startup :=
  let name := forwardName fwd in
  if String.eqb (fd_Direction fwd) DirectionServerToClient then
    _ ← call (CInitForward name fwd ForwardReverseWait "等待服务端被动端口激活");
    _ ← call (CGo (WReverseLoop name fwd));
    mret (startup_usable s)
  else
    _ ← call (CInitForward name fwd ForwardStarting "正在监听客户端入口");
    if String.eqb (fd_Direction fwd) DirectionVirtual then
      prepared ← prepareVirtualForwardListener name fwd;
      match prepared with
      | Err e => mret (startup_failed s e)
      | Ok p => mret (mkStartup (su_usableForwards s) (su_blockingStartupFailures s) (su_unusableErr s)
                        (su_virtualForwards s ++ [p]))
      end
    else
      listening ← ensureForwardListener name fwd;
      match listening with
      | Err e => mret (startup_failed s e)
      | Ok _ => mret (startup_usable s)
      end.

Fixpoint startForwards (s : startup) (fwds : list ForwardConfig) : cprog startup :=
  match fwds with [] => mret s | fwd :: fwds => s ← startForward s fwd; startForwards s fwds end.

(** The listeners of virtual forwards that cannot be redirected to are given up. *)
Definition dropVirtualForwards (prepared : list preparedVirtualForward) (e : string) : cprog unit :=
  for_each (λ p,
    _ ← stopForwardListener (pv_name p);
    call (CSetState (pv_name p) ForwardListenFailed (ForwardErrorMessage (Some e)))) prepared.

(** The virtual forwards together; whether the user refused the authorization. *)
Definition startVirtualForwards (s : startup) : cprog (startup * bool) :=
  let prepared := su_virtualForwards s in
  match prepared with
  | [] => mret (s, false)
  | _ =>
      session ← call (CStartRedirect (map pv_rule prepared));
      match (match session with Ok None => Err "virtual redirect helper did not start" | _ => session end) with
      | Err e =>
          let refused := isVirtualAuthorizationCancelled (Some e) in
          let s' := if refused
                    then mkStartup (su_usableForwards s) (su_blockingStartupFailures s)
                           (join_err (su_unusableErr s) e) (su_virtualForwards s)
                    else startup_failed s e in
          _ ← dropVirtualForwards prepared e;
          mret (s', refused)
      | Ok session =>
          attached ← call (CAttach prepared session);
          let session := default O session in
          if negb attached then
            _ ← call (CCloseProcess session);
            let e := "virtual forward listeners are no longer active" in
            _ ← dropVirtualForwards prepared e;
            mret (startup_failed s e, false)
          else
            _ ← for_each activateVirtualForward prepared;
            _ ← call (CGo (WWatchSession session));
            mret (mkStartup (su_usableForwards s + Z.of_nat (length prepared)) (su_blockingStartupFailures s)
                    (su_unusableErr s) prepared, false)
      end
  end.

(** [start] after the TLS materials: [Ok tt] is a client that runs. *)
Definition startClient (serverVersion : string) (verified : bool) : cprog (result unit) :=
  _ ← (if verified then
         _ ← call (CSetHealth HealthOK "服务端连接正常" "" false); call (CServerVersion serverVersion)
       else _ ← call (CSetHealth HealthChecking "等待服务端健康检查" "" false); mret tt);
  s ← startForwards (mkStartup 0 0 None []) (cl_Forwards cfg);
  '(s, virtualAuthorizationCancelled) ← startVirtualForwards s;
  let allowConnectedWithoutForward := virtualAuthorizationCancelled && (su_blockingStartupFailures s =? 0) in
  if (su_usableForwards s =? 0) && negb allowConnectedWithoutForward then
    _ ← Close;
    mret (Err ("no usable forward is available" +:+ match su_unusableErr s with Some e => ": " +:+ e | None => "" end))
  else
    _ ← call (CGo WCloseOnCancel);
    _ ← call (CGo (WHealthLoop verified));
    mret (Ok tt).
End ClientPrograms.

(** ** TLS materials *)

Section TLS.
Context `{PEM}.
(** [CertificateGateKeyFromPEM], and whether [AppendCertsFromPEM] found a certificate. *)
Variable gateKeyFromPEM : chars → result chars.
Variable appendCertsFromPEM : chars → bool.

(** The settings of the connection: the server name, whether the chain is checked,
    the key of the gate; the certificates of the file are the roots. *)
Definition clientTLSMaterials (d : Disk) (t : TLSConfig) : result (string * bool * chars) :=
  if String.eqb (tl_CACertFile t) ""
  then Err "tls.ca_cert_file is required for certificate possession gate and server verification"
  else
    pemData ← read_file d (tl_CACertFile t);
    key ← gateKeyFromPEM (to_chars pemData);
    if negb (appendCertsFromPEM (to_chars pemData))
    then Err ("no server TLS trust data found in " +:+ tl_CACertFile t)
    else Ok (tl_ServerName t, tl_InsecureSkipVerify t, key).
End TLS.
