(* ===== verification/ClientRun.v ===== *)
(** * Runs of the client's programs

    The meaning of the client's calls as a relation: a critical section is the
    function of [ClientState], what the machine does is anything it may do. A step of
    the pool is one call of any goroutine, or the user's start of another program.
    Theorem: no listening socket is lost or closed twice. Two runs show what the
    client gets wrong when goroutines meet. *)

From S2P Require Import Prelude.
From S2P Require Import Programs.
From S2P Require Import Ownership.
From S2P Require Import GoStd.
From S2P Require Import Disk.
From S2P Require Import Version.
From S2P Require Import Protocol.
From S2P Require Import GoCrypto.
From S2P Require Import Yaml.
From S2P Require Import VirtualAddress.
From S2P Require Import VirtualRedirect.
From S2P Require Import ClientErrors.
From S2P Require Import ClientConfig.
From S2P Require Import ClientState.
From S2P Require Import ClientPrograms.

#[local] Open Scope Z_scope.

Section Meaning.
Context `{PEM} `{CertificateIPs}.
Variable d : Disk.
Variable cfg : Config.

(** A critical section: what it makes of the client and answers; the other texts
    are the clock's, the other functions the order of ranges over maps. *)
Definition resolver_section (c : Client) : Client * result virtualAddressResolver :=
  match c_virtualResolver c with
  | Some r => (c, Ok r)
  | None =>
      let r := newVirtualAddressResolver d (tl_CACertFile (cl_TLS cfg)) (cl_ServerAddr cfg) in
      (set_resolver c (match r with Ok r => Some r | Err _ => None end), r)
  end.

(** [client_sem o c x c'] : the call [o] on [c] may answer [x] and leave [c']. *)
Definition client_sem {X} (o : clientOp X) (c : Client) : X → Client → Prop :=
  match o in clientOp X return X → Client → Prop with
  | CInitForward name fwd state message => λ _ c', c' = initForward c name fwd state message
  | CSetState name state message => λ _ c', c' = setForwardState c name state message
  | CSetAddresses name listenAddr virtualAddr => λ _ c', c' = setForwardAddresses c name listenAddr virtualAddr
  | CRecordError name err => λ _ c', c' = recordForwardError c name err
  | CForwardState name => λ x c', c' = c ∧ x = fr_state <$> c_forwards c !! name
  | CBeginStream name => λ x c', ∃ now, beginForwardStream c name now = (c', x)
  | CEndStream name found => λ _ c', ∃ now, c' = endForwardStream c name found now
  | CServerVersion version => λ _ c', c' = SetServerVersion c version
  | CSetHealth state message errText terminal => λ x c', ∃ now, setHealth c state message errText terminal now = (c', x)
  | CFinalize status => λ x c', finalizeHealthStatus c status = (c', x)
  | CNextDelay => λ x c', c' = c ∧ x = nextHealthDelay c
  | CSetRetry delay => λ _ c', ∃ at_time, c' = (setHealthRetry c delay at_time).1
  | CHasListener name => λ x c', c' = c ∧ x = hasListener c name
  | CAddListener name ln => λ x c', addListener c name ln = (c', x)
  | CAddVirtualListener name ln virtualAddr => λ x c', addVirtualListener c name ln virtualAddr = (c', x)
  | CListenerActive name ln => λ x c', c' = c ∧ x = forwardListenerActive c name ln
  | CVirtualActive name => λ x c', c' = c ∧ x = virtualForwardActive c name
  | CTakeListener name => λ x c', takeForwardListener c name = (c', x.1, x.2)
  | CAttach prepared session => λ x c', attachVirtualRedirectSession c prepared session = (c', x)
  | CDetach session => λ x c', ∃ rg, detachVirtualRedirectSession rg c session = (c', x)
  | CCloseOnce => λ x c', x = negb (c_closed c) ∧ c' = set_closed c
  | CTakeSession => λ x c', closeVirtualRedirectSession c = (c', x)
  | CTakeListeners => λ x c', ∃ rg, closeAllListeners rg c = (c', x)
  | CResolver => λ x c', resolver_section c = (c', x)
  | CClosed => λ x c', c' = c ∧ x = c_closed c
  | CListen _ => λ x c',
      match x with
      | Ok (ln, _, _) => (ln ∉ c_sockets c) ∧ c' = set_open c ({[ ln ]} ∪ c_sockets c) (c_processes c)
      | Err _ => c' = c
      end
  | CCloseSocket ln => λ _ c', c' = closeSocket c ln
  | CStartRedirect _ => λ x c',
      match x with
      | Ok (Some s) => (s ∉ c_processes c) ∧ c' = set_open c (c_sockets c) ({[ s ]} ∪ c_processes c)
      | _ => c' = c
      end
  | CCloseProcess session => λ _ c', c' = closeProcess c session
  | _ => λ _ c', c' = c
  end.

(** ** The goroutines of the client *)

Variable isErrClosed : string → bool.
(** The rounds of the loops. *)
Variables rounds events : nat.

Definition ignore {A} (p : cprog A) : cprog unit := _ ← p; mret tt.

(** What a goroutine runs. *)
Definition work (w : clientWorker) : cprog unit :=
  match w with
  | WAcceptLoop ln name fwd => ignore (acceptLoop isErrClosed rounds ln name fwd)
  | WHandleLocal conn name fwd => handleLocal cfg conn name fwd
  | WReverseLoop name fwd => ignore (reverseLoop cfg rounds events 0 name fwd)
  | WReverseStream name fwd streamID => openReverseStream cfg name fwd streamID
  | WWatchSession session => watchVirtualRedirectSession session
  | WHealthLoop delayInitialCheck => ignore (healthLoop cfg rounds delayInitialCheck)
  | WCloseOnCancel => Close
  | WGuard conn => call (CCloseConn conn)
  end.

Definition spawned {X} (o : clientOp X) : list (cprog unit) :=
  match o with CGo w => [work w] | _ => [] end.

(** What the user of the client may call at any time; the checks that
    [CheckForwardsNow] starts run at the same time, so that each is also a call of
    its own. *)
Inductive user_call : cprog unit → Prop :=
  | user_close : user_call Close
  | user_health : user_call (ignore (CheckHealthNow cfg))
  | user_forwards : user_call (ignore (CheckForwardsNow cfg))
  | user_check fwd : user_call (ignore (checkForwardNow cfg (forwardName fwd) fwd)).

(** One step of the client: a goroutine makes its next call, or the user calls. *)
Definition pool_step : Client * list (cprog unit) → Client * list (cprog unit) → Prop :=
  Ownership.pool_step (@client_sem) (@spawned) user_call.

Definition start_pool (serverVersion : string) (verified : bool) : Client * list (cprog unit) :=
  (newClient, [ignore (startClient cfg serverVersion verified)]).

(** ** Who owns a listening socket *)

(** The sockets a call must own, and those the program owns after it. *)
Definition needs {X} (o : clientOp X) : gset nat :=
  match o with CAddListener _ ln | CAddVirtualListener _ ln _ | CCloseSocket ln => {[ ln ]} | _ => ∅ end.

Definition owns {X} (o : clientOp X) (mine : gset nat) : X → gset nat :=
  match o in clientOp X return X → gset nat with
  | CListen _ => λ x, match x with Ok (ln, _, _) => {[ ln ]} ∪ mine | Err _ => mine end
  | CTakeListener _ => λ x, match x.2 with Some ln => {[ ln ]} ∪ mine | None => mine end
  | CTakeListeners => λ x, list_to_set x ∪ mine
  | CAddListener _ ln => λ added : bool, if added then mine ∖ {[ ln ]} else mine
  | CAddVirtualListener _ ln _ => λ added : bool, if added then mine ∖ {[ ln ]} else mine
  | CCloseSocket ln => λ _, mine ∖ {[ ln ]}
  | _ => λ _, mine
  end.

(** What is known of an answer. *)
Definition possible {X} (o : clientOp X) : X → Prop :=
  match o in clientOp X return X → Prop with CTakeListeners => λ x, NoDup x | _ => λ _, True end.

Abbreviation owned := (Ownership.owned (@needs) (@owns) (@possible)).
Abbreviation balanced := (Ownership.balanced (@needs) (@owns) (@possible)).
Abbreviation holds := (Ownership.holds (@needs) (@owns) (@possible)).

Lemma balanced_ignore {A} (p : cprog A) : balanced p → balanced (ignore p).
Proof. intros Hp. by apply balanced_bind. Qed.

Lemma balanced_for_each {A} (f : A → cprog unit) xs : (∀ x, balanced (f x)) → balanced (for_each f xs).
Proof. intros Hf. induction xs as [|x xs IH]; [done|]. by apply balanced_bind. Qed.

Lemma owned_close_opt (ln : option nat) mine :
  match ln with Some ln => {[ ln ]} | None => ∅ end = mine →
  owned (match ln with Some ln => call (CCloseSocket ln) | None => mret tt end) mine (λ _ mine, mine = ∅).
Proof. intros <-. destruct ln as [ln|]; [|done]. split; [done|]. intros x _. cbn. set_solver. Qed.

Lemma balanced_stop name : balanced (stopForwardListener name).
Proof.
  unfold stopForwardListener. apply owned_call; [done|]. intros [session ln] _. cbn [owns snd].
  apply owned_bind. destruct session as [s|]; [split; [done|intros [] _]|]; apply owned_close_opt; destruct ln; set_solver.
Qed.

(** Closing every socket one owns. *)
Lemma owned_close_all lns mine :
  list_to_set lns = mine → NoDup lns → owned (for_each (λ ln, call (CCloseSocket ln)) lns) mine (λ _ mine, mine = ∅).
Proof.
  revert mine. induction lns as [|ln lns IH]; intros mine <- Hnd; [done|]. cbn [for_each list_to_set].
  apply NoDup_cons in Hnd as [Hln Hnd]. apply owned_call; [cbn; set_solver|]. intros [] _. cbn [owns]. apply IH; [|done].
  assert (ln ∉ (list_to_set lns : gset nat)) by (by rewrite elem_of_list_to_set). set_solver.
Qed.

Lemma balanced_Close : balanced Close.
Proof.
  unfold Close. apply owned_call; [done|]. intros first _. destruct (negb first); [done|].
  apply owned_call; [done|]. intros session _. apply owned_bind.
  destruct session as [s|]; [split; [done|intros [] _]|]; (apply owned_call; [done|]); intros lns Hnd;
    apply owned_close_all; (done || set_solver).
Qed.

Create HintDb client discriminated.
#[local] Hint Resolve balanced_stop balanced_Close : client.

(** Programs that take no socket. *)
Ltac balanced :=
  try match goal with |- owned ?p _ _ => change (balanced p) end;
  repeat first
    [ solve [auto with client]
    | match goal with
      | |- balanced (match ?x with _ => _ end) => destruct x
      | |- balanced (let _ := _ in _) => cbv zeta
      | |- balanced (mret _) => reflexivity
      | |- balanced (call _) => apply balanced_call; [reflexivity|intros; reflexivity]
      | |- balanced (for_each _ _) => apply balanced_for_each; intros
      | |- balanced (_ ≫= _) => apply balanced_bind; [|intros ?]
      | |- balanced ?p => let h := head_of p in unfold h; cbv beta
      end ].

(** A call whose socket is closed or handed over at once. *)
Lemma balanced_ensure name fwd : balanced (ensureForwardListener name fwd).
Proof.
  unfold ensureForwardListener. apply balanced_bind; [balanced|]. intros closed. destruct closed; [done|].
  apply balanced_bind; [balanced|]. intros has. destruct has; [done|].
  apply owned_call; [done|]. intros [[[ln addr] port]|e] _; [|balanced].
  cbn [owns]. apply owned_call; [cbn; set_solver|]. intros added _. cbn [owns]. destruct added; cbn [negb].
  - replace (({[ln]} ∪ ∅) ∖ {[ln]}) with (∅ : gset nat) by set_solver. balanced.
  - apply owned_call; [cbn; set_solver|]. intros [] _. cbn. set_solver.
Qed.

Lemma balanced_failed {A} ln name e :
  owned (_ ← call (CCloseSocket ln); listen_failed (A := A) name e) ({[ ln ]} ∪ ∅) (λ _ mine, mine = ∅).
Proof.
  apply owned_call; [cbn; set_solver|]. intros [] _. cbn [owns].
  replace (({[ln]} ∪ ∅) ∖ {[ln]}) with (∅ : gset nat) by set_solver. balanced.
Qed.

Lemma balanced_prepare name fwd : balanced (prepareVirtualForwardListener name fwd).
Proof.
  unfold prepareVirtualForwardListener. destruct (parseVirtualListenAddr _) as [[host port]|e]; [|balanced].
  apply balanced_bind; [balanced|]. intros [resolver|e]; [|balanced].
  destruct (resolve _ _ _) as [virtualAddr|e]; [|balanced].
  apply owned_call; [done|]. intros [[[ln addr] tcp]|e] _; [|balanced]. cbn [owns]. cbv zeta.
  destruct (_ || _); [apply balanced_failed|].
  destruct (newVirtualRedirectRule _ _) as [rule|e]; [|apply balanced_failed].
  apply owned_call; [cbn; set_solver|]. intros added _. cbn [owns]. destruct added; cbn [negb].
  - replace (({[ln]} ∪ ∅) ∖ {[ln]}) with (∅ : gset nat) by set_solver. balanced.
  - apply owned_call; [cbn; set_solver|]. intros [] _. cbn. set_solver.
Qed.

#[local] Hint Resolve balanced_ensure balanced_prepare : client.

Lemma balanced_accept n ln name fwd : balanced (acceptLoop isErrClosed n ln name fwd).
Proof. induction n as [|n IH]; [done|]. cbn [acceptLoop]. balanced. Qed.

Lemma balanced_events n remote name fwd : balanced (reverseEvents cfg n remote name fwd).
Proof. induction n as [|n IH]; [done|]. cbn [reverseEvents]. balanced. Qed.

#[local] Hint Resolve balanced_accept balanced_events : client.

Lemma balanced_reverse n m failures name fwd : balanced (reverseLoop cfg n m failures name fwd).
Proof. revert failures. induction n as [|n IH]; intros failures; [done|]. cbn [reverseLoop]. balanced. Qed.

Lemma balanced_health n : balanced (healthRounds cfg n).
Proof. induction n as [|n IH]; [done|]. cbn [healthRounds]. balanced. Qed.

Lemma balanced_checks fwds s : balanced (checkForwards cfg fwds s).
Proof. revert s. induction fwds as [|f fwds IH]; intros s; [done|]. cbn [checkForwards]. balanced. Qed.

Lemma balanced_startForwards s fwds : balanced (startForwards s fwds).
Proof. revert s. induction fwds as [|f fwds IH]; intros s; [done|]. cbn [startForwards]. balanced. Qed.

#[local] Hint Resolve balanced_reverse balanced_health balanced_checks balanced_startForwards : client.

Lemma balanced_work w : balanced (work w).
Proof. destruct w; cbn [work]; try apply balanced_ignore; balanced. Qed.

Lemma balanced_user p : user_call p → balanced p.
Proof. intros []; try apply balanced_ignore; balanced. Qed.

Lemma balanced_start serverVersion verified : balanced (startClient cfg serverVersion verified).
Proof. balanced. Qed.

(** ** Every open socket is accounted for *)

Definition registered (c : Client) : gset nat := map_img (c_listeners c).

(** The open sockets are those of the registered listeners and the [held] ones,
    and no socket is there twice. *)
Record accounted (held : gset nat) (c : Client) : Prop := {
  ac_open : c_sockets c = registered c ∪ held;
  ac_apart : registered c ## held;
  ac_once : ∀ n n' ln, c_listeners c !! n = Some ln → c_listeners c !! n' = Some ln → n = n'
}.

Lemma accounted_same held c c' :
  c_listeners c' = c_listeners c → c_sockets c' = c_sockets c → accounted held c → accounted held c'.
Proof. intros E1 E2 [A1 A2 A3]. unfold registered in *. split; unfold registered; rewrite ?E1, ?E2; done. Qed.

Lemma elem_of_registered c ln : ln ∈ registered c ↔ ∃ n, c_listeners c !! n = Some ln.
Proof. unfold registered. apply elem_of_map_img. Qed.

(** Registering a held socket under a free name. *)
Lemma accounted_insert held c c' name ln :
  c_listeners c !! name = None → ln ∈ held → c_listeners c' = <[name := ln]> (c_listeners c) →
  c_sockets c' = c_sockets c → accounted held c → accounted (held ∖ {[ ln ]}) c'.
Proof.
  intros Hn Hln E1 E2 [A1 A2 A3].
  assert (registered c' = {[ ln ]} ∪ registered c) as Er.
  { apply set_eq. intros l. rewrite elem_of_union, elem_of_singleton, !elem_of_registered, E1. split.
    - intros [n [[-> ->]|[? ?]]%lookup_insert_Some]; eauto.
    - intros [->|[n Hl]]; [exists name; apply lookup_insert_eq|]. exists n. rewrite lookup_insert_ne; [done|congruence]. }
  assert (∀ n, c_listeners c !! n ≠ Some ln) as Hfree.
  { intros n Hl. assert (ln ∈ registered c) by (apply elem_of_registered; eauto). set_solver. }
  split.
  - rewrite E2, A1, Er. assert (∀ l, l ∈ held → l = ln ∨ l ∈ held ∖ {[ln]}) by (intros l Hl; destruct (decide (l = ln)); set_solver).
    apply set_eq. set_solver.
  - rewrite Er. set_solver.
  - rewrite E1. intros n n' l [[-> ->]|[? Hl]]%lookup_insert_Some [[-> ?]|[? Hl']]%lookup_insert_Some; simplify_eq; try done.
    + by destruct (Hfree n').
    + by destruct (Hfree n).
    + by eapply A3.
Qed.

Lemma accounted_delete held c c' name :
  c_listeners c' = delete name (c_listeners c) → c_sockets c' = c_sockets c → accounted held c →
  accounted (match c_listeners c !! name with Some ln => {[ ln ]} ∪ held | None => held end) c' ∧
  ∀ ln, c_listeners c !! name = Some ln → ln ∉ held.
Proof.
  intros E1 E2 [A1 A2 A3]. split.
  - destruct (c_listeners c !! name) as [ln|] eqn:El.
    + assert (registered c' = registered c ∖ {[ ln ]}) as Er.
      { apply set_eq. intros l. rewrite elem_of_difference, elem_of_singleton, !elem_of_registered, E1. split.
        - intros [n [Hne Hl]%lookup_delete_Some]. split; [eauto|]. intros ->. by destruct Hne; eapply A3.
        - intros [[n Hl] Hne]. exists n. rewrite lookup_delete_ne; [done|]. intros <-. congruence. }
      assert (ln ∈ registered c) by (apply elem_of_registered; eauto).
      split.
      * rewrite E2, A1, Er. apply set_eq. intros l. destruct (decide (l = ln)); set_solver.
      * rewrite Er. set_solver.
      * rewrite E1. intros n n' l [_ ?]%lookup_delete_Some [_ ?]%lookup_delete_Some. by eapply A3.
    + apply accounted_same with (c := c); [|done|by split]. rewrite E1. by apply delete_id.
  - intros ln El. assert (ln ∈ registered c) by (apply elem_of_registered; eauto). set_solver.
Qed.

Lemma accounted_clear held c c' :
  c_listeners c' = ∅ → c_sockets c' = c_sockets c → accounted held c → accounted (registered c ∪ held) c'.
Proof.
  intros E1 E2 [A1 A2 A3]. assert (registered c' = ∅) as Er by (unfold registered; by rewrite E1, map_img_empty_L).
  split; [rewrite E2, A1, Er; set_solver|rewrite Er; set_solver|rewrite E1; intros n n' l; by rewrite lookup_empty].
Qed.

(** A call that changes neither the listeners nor the sockets. *)
Definition keeps_sockets (c c' : Client) : Prop :=
  c_listeners c' = c_listeners c ∧ c_sockets c' = c_sockets c.

Lemma finalize_keeps c status : keeps_sockets c (finalizeHealthStatus c status).1.
Proof. unfold finalizeHealthStatus. repeat case_match; done. Qed.

Lemma SetServerVersion_keeps c version : keeps_sockets c (SetServerVersion c version).
Proof. unfold SetServerVersion. by case_match. Qed.

Lemma resolver_keeps c : keeps_sockets c (resolver_section c).1.
Proof. unfold resolver_section. by case_match. Qed.

Lemma attach_keeps c prepared session : keeps_sockets c (attachVirtualRedirectSession c prepared session).1.
Proof. unfold attachVirtualRedirectSession. repeat case_match; done. Qed.

Lemma detach_keeps rg c session : keeps_sockets c (detachVirtualRedirectSession rg c session).1.
Proof. unfold detachVirtualRedirectSession. by case_match. Qed.

Lemma endStream_keeps c name found now : keeps_sockets c (endForwardStream c name found now).
Proof. unfold endForwardStream. by destruct found. Qed.

Lemma recordForwardError_keeps c name err : keeps_sockets c (recordForwardError c name err).
Proof. by destruct err. Qed.

(** The sockets of the listeners, in any order. *)
Lemma registered_entries (rg : MapRange nat) c :
  list_to_set (map snd (range_entries rg (c_listeners c))) = registered c.
Proof.
  apply set_eq. intros ln. rewrite elem_of_list_to_set, elem_of_registered, list_elem_of_fmap. split.
  - intros [[n l] [-> Hl]]. exists n. by apply range_elem in Hl.
  - intros [n Hl]. exists (n, ln). split; [done|]. by apply range_elem.
Qed.

Lemma registered_once (rg : MapRange nat) held c :
  accounted held c → NoDup (map snd (range_entries rg (c_listeners c))).
Proof.
  intros Hc. apply NoDup_fmap_2_strong.
  - intros [n l] [n' l'] Hl Hl' E. cbn in E. subst l'. apply range_elem in Hl, Hl'.
    f_equal. by eapply (ac_once _ _ Hc).
  - rewrite range_complete. apply NoDup_map_to_list.
Qed.

(** Opening and closing a socket, and taking those of a forward. *)
Lemma accounted_open held c ln :
  ln ∉ c_sockets c → accounted held c →
  (ln ∉ held) ∧ accounted ({[ ln ]} ∪ held) (set_open c ({[ ln ]} ∪ c_sockets c) (c_processes c)).
Proof.
  intros Hln [A1 A2 A3]. split; [set_solver|]. split; unfold registered in *; cbn in *; [rewrite A1|..]; set_solver.
Qed.

Lemma accounted_close held c ln : ln ∈ held → accounted held c → accounted (held ∖ {[ ln ]}) (closeSocket c ln).
Proof.
  intros Hln [A1 A2 A3]. split; unfold registered in *; cbn in *; [rewrite A1; set_solver|set_solver|done].
Qed.

Lemma accounted_take held c name c' session ln :
  takeForwardListener c name = (c', session, ln) → accounted held c →
  accounted (match ln with Some ln => {[ ln ]} ∪ held | None => held end) c' ∧ (∀ l, ln = Some l → l ∉ held).
Proof. intros [= <- _ <-] Hc. by apply (accounted_delete held c _ name). Qed.

Lemma accounted_add held c name ln c' added :
  addListener c name ln = (c', added) → ln ∈ held → accounted held c →
  accounted (if added then held ∖ {[ ln ]} else held) c'.
Proof.
  unfold addListener, hasListener. case_bool_decide as Hl; intros [= <- <-] Hln Hc; [done|].
  apply (accounted_insert held c _ name); try done. by apply eq_None_not_Some.
Qed.

Lemma accounted_addVirtual held c name ln virtualAddr c' added :
  addVirtualListener c name ln virtualAddr = (c', added) → ln ∈ held → accounted held c →
  accounted (if added then held ∖ {[ ln ]} else held) c'.
Proof.
  unfold addVirtualListener, hasListener. case_bool_decide as Hl; intros [= <- <-] Hln Hc; [done|].
  apply (accounted_insert held c _ name); try done. by apply eq_None_not_Some.
Qed.

Lemma keeps_fst {X} (c c' : Client) (p : Client * X) x : p = (c', x) → keeps_sockets c p.1 → keeps_sockets c c'.
Proof. by intros ->. Qed.

#[local] Hint Resolve finalize_keeps SetServerVersion_keeps resolver_keeps attach_keeps detach_keeps endStream_keeps
  recordForwardError_keeps : client.

(** A call that owns what it needs keeps the account. *)
Lemma sem_accounted {X} (o : clientOp X) c x c' mine held :
  client_sem o c x c' → needs o ⊆ mine → mine ## held → accounted (mine ∪ held) c →
  possible o x ∧ owns o mine x ## held ∧ accounted (owns o mine x ∪ held) c'.
Proof.
  intros Hsem Hn Hd Hc.
  assert (∀ c1, keeps_sockets c c1 → True ∧ mine ## held ∧ accounted (mine ∪ held) c1) as Hkeep.
  { intros c1 [E1 E2]. split_and!; [done|done|by eapply accounted_same]. }
  assert (∀ ln, ln ∈ mine → (mine ∪ held) ∖ {[ ln ]} = mine ∖ {[ ln ]} ∪ held) as Hdiff.
  { intros ln Hln. apply set_eq. set_solver. }
  destruct o; cbn [client_sem needs owns possible] in *.
  all: try (apply Hkeep; subst; done).
  all: try (destruct_and?; subst; apply Hkeep; done).
  all: try (apply Hkeep; subst; solve [auto with client]).
  all: try (match type of Hsem with ex _ => destruct Hsem as [? Hsem]; apply Hkeep; subst; solve [auto with client | done] end).
  all: try (apply Hkeep; eapply keeps_fst; [exact Hsem|]; solve [auto with client | done]).
  all: try (match type of Hsem with ex _ => destruct Hsem as [? Hsem]; apply Hkeep; eapply keeps_fst; [exact Hsem|]; solve [auto with client | done] end).
  - apply singleton_subseteq_l in Hn. pose proof (accounted_add _ _ _ _ _ _ Hsem (elem_of_union_l _ _ _ Hn) Hc) as Ha.
    destruct x; rewrite ?(Hdiff _ Hn) in Ha; split_and!; solve [done | set_solver].
  - apply singleton_subseteq_l in Hn. pose proof (accounted_addVirtual _ _ _ _ _ _ _ Hsem (elem_of_union_l _ _ _ Hn) Hc) as Ha.
    destruct x; rewrite ?(Hdiff _ Hn) in Ha; split_and!; solve [done | set_solver].
  - destruct (accounted_take _ _ _ _ _ _ Hsem Hc) as [Ha Hl]. destruct x as [session [ln|]]; cbn in *; [|done].
    specialize (Hl ln eq_refl). rewrite <- union_assoc_L. split_and!; [done|set_solver|done].
  - destruct Hsem as [rg Hsem]. injection Hsem as <- <-. split_and!; [by eapply registered_once|..].
    + rewrite registered_entries. pose proof (ac_apart _ _ Hc). set_solver.
    + rewrite registered_entries, <- union_assoc_L. by apply accounted_clear.
  - destruct x as [[[ln la] port]|e]; [|subst; by apply Hkeep]. destruct Hsem as [Hln ->].
    destruct (accounted_open _ _ _ Hln Hc). rewrite <- union_assoc_L. split_and!; [done|set_solver|done].
  - apply singleton_subseteq_l in Hn. subst c'. rewrite <- (Hdiff _ Hn). split_and!; [done|set_solver|].
    apply accounted_close; [set_solver|done].
  - apply Hkeep. destruct x as [[s|]|e]; destruct_and?; by subst.
Qed.
(** ** All the goroutines together *)

Lemma spawned_balanced X (o : clientOp X) : Forall balanced (spawned o).
Proof. destruct o; constructor; [apply balanced_work|constructor]. Qed.

(** C10: however the goroutines of a client and its user interleave, the listening
    sockets that are open are exactly those of the registered listeners and those
    a goroutine holds between opening or taking one and registering or closing it;
    no two forwards share one, no two goroutines hold one, and no goroutine ends
    holding one. So when every goroutine has ended, nothing is open that the client
    does not know. *)
Theorem listeners_accounted serverVersion verified c ps :
  rtc pool_step (start_pool serverVersion verified) (c, ps) →
  (∃ held, Forall2 holds ps held ∧ apart held ∧ accounted (⋃ held) c) ∧
  (Forall (λ p, ∃ a, p = Ret a) ps → c_sockets c = registered c).
Proof.
  intros Hrun. edestruct (pool_run_accounted (@needs) (@owns) (@possible) (@client_sem) (@spawned) user_call accounted)
    as [(held & Hf & Ha & Hc) Hend]; [apply spawned_balanced|apply balanced_user| | | |exact Hrun|].
  - intros X o w x w' mine held. apply sem_accounted.
  - constructor; [|constructor]. apply balanced_ignore, balanced_start.
  - split; [done|set_solver|]. intros n n' ln Hl. cbn in Hl. by rewrite lookup_empty in Hl.
  - split; [by exists held|]. intros Hdone. rewrite (ac_open _ _ (Hend Hdone)). set_solver.
Qed.
End Meaning.

Abbreviation holds := (Ownership.holds (@needs) (@owns) (@possible)).

(** ** Concrete runs *)

(** The goroutine at position [n] makes its next call, which answers [x] and leaves
    [c']. *)
Lemma run_at `{PEM} `{CertificateIPs} d cfg isErrClosed rounds events s s' ps ps' c X (o : clientOp X) k x c' :
  client_sem d cfg o c x c' →
  rtc (pool_step d cfg isErrClosed rounds events) (c', ps ++ k x :: ps' ++ spawned cfg isErrClosed rounds events o) s' →
  s = (c, ps ++ Do o k :: ps') → rtc (pool_step d cfg isErrClosed rounds events) s s'.
Proof. intros Hsem Hrun ->. eapply rtc_l; [|exact Hrun]. by constructor. Qed.

Ltac at_pos n ps k :=
  lazymatch n with
  | O => k (@nil (cprog unit)) ps
  | S ?n => lazymatch ps with ?p :: ?ps => at_pos n ps ltac:(fun pre post => k (p :: pre) post) end
  end.

(** The next call of the goroutine at position [n], with its answer. *)
Tactic Notation "step" constr(n) uconstr(x) :=
  cbn [app spawned];
  lazymatch goal with
  | |- rtc _ (?c, ?ps) _ =>
      at_pos n ps ltac:(fun pre rest => lazymatch rest with _ :: ?post =>
        eapply (run_at _ _ _ _ _ _ _ pre post c _ _ _ x); [| |reflexivity] end)
  end.

Section Races.
Context `{PEM} `{CertificateIPs}.
Variable d : Disk.
Variable cfg : Config.
Variable isErrClosed : string → bool.

(** A check of the forwards opens a listener while the client is closed: when both
    are done the listener is still open and no call of [Close] will close it. *)
Lemma close_leaves_listener name fwd rounds events :
  ∃ c ps, rtc (pool_step d cfg isErrClosed rounds events) (newClient, [ignore (ensureForwardListener name fwd); Close])
            (c, [Ret tt; Ret tt] ++ ps) ∧
    c_closed c = true ∧ c_sockets c = {[ 7%nat ]} ∧ c_listeners c = {[ name := 7%nat ]}.
Proof.
  eexists _, _. split.
  - step 0%nat false; [done|]. step 1%nat true; [done|]. step 1%nat None; [done|].
    step 1%nat []; [by exists canonicalRange|]. step 0%nat false; [done|].
    step 0%nat (Ok (7%nat, "", None)); [done|]. step 0%nat true; [done|].
    step 0%nat tt; [done|]. step 0%nat tt; [done|]. step 0%nat tt; [done|].
    apply rtc_refl.
  - done.
Qed.

Lemma run_user s s' c ps p rounds events :
  user_call cfg p → rtc (pool_step d cfg isErrClosed rounds events) (c, ps ++ [p]) s' →
  s = (c, ps) → rtc (pool_step d cfg isErrClosed rounds events) s s'.
Proof. intros Hp Hrun ->. eapply rtc_l; [|exact Hrun]. by constructor. Qed.
End Races.

Section SecondLoop.
Context `{PEM} `{CertificateIPs}.
Variable d : Disk.
Variable isErrClosed : string → bool.
Variables rounds events : nat.

Definition sampleReverse : ForwardConfig := mkForward "web" DirectionServerToClient ":8080" "127.0.0.1:80".
Definition sampleReverseClient : Config :=
  mkClientConfig 2 (mkRequires "2.1.0") "203.0.113.9:3443" "" "alice" "secret" "" "" emptyCredential "pc" ""
    (mkTLS "server.crt" "" "1.3" false) (mkConnection 5) [sampleReverse].
Definition sampleDenied : OpenResponse :=
  mkOpenResponse false "target_denied" "user is not allowed to activate this reverse listen address" "" "" "" None.
Definition sampleAllowed : OpenResponse := mkOpenResponse true "ok" "" "" "" "" None.

Abbreviation loop := (work sampleReverseClient isErrClosed rounds events (WReverseLoop "web" sampleReverse)).

(** A check that is denied marks the forward as rejected but leaves its loop
    running; the next check that is allowed starts a second loop beside it. *)
Lemma second_reverse_loop :
  ∃ c, rtc (pool_step d sampleReverseClient isErrClosed rounds events)
         (initForward newClient "web" sampleReverse ForwardReverseWait "", [loop])
         (c, [loop; Ret tt; Ret tt; loop]).
Proof.
  eexists.
  eapply run_user; [apply user_forwards| |reflexivity].
  step 1%nat None; [done|]. step 1%nat (Ok 3%nat); [done|]. step 1%nat tt; [done|]. step 1%nat (Ok tt); [done|].
  step 1%nat (Ok sampleDenied); [done|]. step 1%nat tt; [done|]. step 1%nat tt; [done|]. step 1%nat tt; [done|].
  step 1%nat tt; [done|].
  eapply run_user; [apply user_forwards| |reflexivity].
  step 2%nat None; [done|]. step 2%nat (Ok 4%nat); [done|]. step 2%nat tt; [done|]. step 2%nat (Ok tt); [done|].
  step 2%nat (Ok sampleAllowed); [done|]. step 2%nat tt; [done|]. step 2%nat tt; [done|].
  step 2%nat (Some ForwardRejected); [split; [reflexivity|by vm_compute]|].
  step 2%nat tt; [done|]. step 2%nat tt; [done|]. apply rtc_refl.
Qed.
End SecondLoop.


(** A client that starts, while its listener is open and not yet registered. *)
Lemma listeners_accounted_witness :
  ∃ c ps, c_sockets c = {[ 7%nat ]} ∧ c_listeners c = ∅ ∧
    ∃ held, Forall2 holds ps held ∧ apart held ∧ accounted (⋃ held) c.
Proof.
  assert (∃ c ps, c_sockets c = {[ 7%nat ]} ∧ c_listeners c = ∅ ∧
    rtc (@pool_step samplePEM sampleIPs sampleClientDisk sampleClient (λ _, false) 1 1) (start_pool sampleClient "" false)
      (c, ps)) as (c & ps & Hs & Hl & Hrun).
  { eexists _, _. split_and!; cycle 2.
    - unfold start_pool. step 0%nat _; [by exists ""|]. step 0%nat tt; [done|]. step 0%nat false; [done|].
      step 0%nat false; [done|]. step 0%nat (Ok (7%nat, "127.0.0.1:5432", None)); [done|]. apply rtc_refl.
    - done.
    - done. }
  exists c, ps. split_and!; [done..|].
  exact (proj1 (@listeners_accounted samplePEM sampleIPs sampleClientDisk sampleClient (λ _, false) 1 1 "" false c ps Hrun)).
Defined.
