(* ===== verification/ClientHealth.v ===== *)
(** * The health loop of the client (src/client/tunnel/status.go, client.go)

    [healthLoop] asks the server again and again. Here the loop runs against a
    script that says how each check of it ends, while nothing else disturbs the
    client, and is compared with a reference function of the errors: how long it
    waits after each check and whether it closes the client. *)

From S2P Require Import Prelude.
From S2P Require Import Programs.
From S2P Require Import GoStd.
From S2P Require Import Disk.
From S2P Require Import Version.
From S2P Require Import Protocol.
From S2P Require Import GoCrypto.
From S2P Require Import Yaml.
From S2P Require Import VirtualAddress.
From S2P Require Import VirtualRedirect.
From S2P Require Import ClientErrors.
From S2P Require Import ClientConfig.
From S2P Require Import ClientState.
From S2P Require Import ClientPrograms.

#[local] Open Scope Z_scope.

(** ** The machine of a script *)

(** How a check ends: where it fails, or the answer of the server. *)
Inductive checkOutcome :=
  | noTLS (e : string)
  | noDial (e : string)
  | noSend (e : string)
  | noAnswer (e : string)
  | answered (resp : OpenResponse).

(** The error of the check. *)
Definition outcomeError (o : checkOutcome) : option string :=
  match o with
  | noTLS e | noDial e | noSend e | noAnswer e => Some e
  | answered resp => if rs_OK resp then None else Some (responseError resp "health failed")
  end.

Record healthWorld := mkWorld {
  hw_client : Client;
  hw_script : list checkOutcome;
  hw_clock : nat;
  hw_waits : list Duration
}.

Section Health.
Variable cfg : Config.
(** The texts of the clock. *)
Variable clock : nat → string.

Definition on_client {X} (w : healthWorld) (p : Client * X) : healthWorld * X :=
  (mkWorld p.1 (hw_script w) (S (hw_clock w)) (hw_waits w), p.2).
Definition pop {X} (w : healthWorld) (x : X) : healthWorld * X :=
  (mkWorld (hw_client w) (tail (hw_script w)) (hw_clock w) (hw_waits w), x).
Definition next (w : healthWorld) : string := clock (hw_clock w).

(** What a call does: the check at the head of the script fails where it says, no
    wait is cut short. The calls that neither a check nor [Close] makes fail. *)
Definition script_exec {X} (o : clientOp X) (w : healthWorld) : healthWorld * X :=
  let c := hw_client w in
  match o in clientOp X return healthWorld * X with
  | CServerVersion version => on_client w (SetServerVersion c version, tt)
  | CSetHealth state message errText terminal => on_client w (setHealth c state message errText terminal (next w))
  | CFinalize status => on_client w (finalizeHealthStatus c status)
  | CNextDelay => (w, nextHealthDelay c)
  | CSetRetry delay => on_client w ((setHealthRetry c delay (next w)).1, tt)
  | CCloseOnce => on_client w (set_closed c, negb (c_closed c))
  | CTakeSession => on_client w (closeVirtualRedirectSession c)
  | CTakeListeners => on_client w (closeAllListeners canonicalRange c)
  | CCloseSocket ln => on_client w (closeSocket c ln, tt)
  | CCloseProcess session => on_client w (closeProcess c session, tt)
  | CTLSConfig => match hw_script w with noTLS e :: _ => pop w (Some e) | _ => (w, None) end
  | CDial _ => match hw_script w with noDial e :: _ => pop w (Err e) | _ => (w, Ok O) end
  | CSend _ _ => match hw_script w with noSend e :: _ => pop w (Err e) | _ => (w, Ok tt) end
  | CReceive _ =>
      match hw_script w with
      | noAnswer e :: _ => pop w (Err e)
      | answered resp :: _ => pop w (Ok resp)
      | _ => (w, Err "")
      end
  | CWait delay => (mkWorld c (hw_script w) (hw_clock w) (hw_waits w ++ [delay]), wakeTimer)
  | CClosed => (w, c_closed c)
  | CCancelled => (w, false)
  | CHasListener name => (w, hasListener c name)
  | CListenerActive name ln => (w, forwardListenerActive c name ln)
  | CVirtualActive name => (w, virtualForwardActive c name)
  | CForwardState name => (w, fr_state <$> c_forwards c !! name)
  | CBeginStream name => (w, false)
  | CAddListener _ _ | CAddVirtualListener _ _ _ | CAttach _ _ => (w, false)
  | CTakeListener _ => (w, (None, None))
  | CDetach _ => (w, [])
  | CResolver | CListen _ | CAccept _ | CStartRedirect _ | CDialTarget _ _ => (w, Err "")
  | CProcessErr _ => (w, None)
  | CInitForward _ _ _ _ | CSetState _ _ _ | CSetAddresses _ _ _ | CRecordError _ _ | CEndStream _ _
  | CProcessDone _ | CDeadline _ _ _ | CKeepAlive _ _ | CCloseConn _ | CProxy _ _ | CGo _ | CStopGuard _ => (w, tt)
  end.

Abbreviation run p w := (run_with (@script_exec) p w).

(** ** The reference *)

(** Whether the error of a check cannot heal. *)
Definition authError (e : string) : bool := String.eqb (classifyHealthError (Some e)).1 HealthAuthError.

(** The waits of the loop after [failures] failures in a row, and whether it ends
    before the script does: at the first error that cannot heal, or when
    [healthMaxReconnectFailures] checks have failed in a row. *)
Fixpoint healthReference (failures : Z) (script : list checkOutcome) : list Duration * bool :=
  match script with
  | [] => ([], false)
  | o :: script =>
      match outcomeError o with
      | None => let '(waits, ended) := healthReference 0 script in (healthOKInterval :: waits, ended)
      | Some e =>
          if authError e || (healthMaxReconnectFailures <=? failures + 1) then ([], true)
          else let '(waits, ended) := healthReference (failures + 1) script in
               (ReconnectDelay (failures + 1) :: waits, ended)
      end
  end.

(** ** One check *)

(** The parts of the client that checks leave alone. *)
Definition opened (c : Client) :=
  (c_closed c, c_session c, c_members c, c_listeners c, c_virtualAddrs c, c_sockets c, c_processes c).

Lemma opened_Close rg c c' :
  opened c = opened c' → opened (ClientState.Close rg c) = opened (ClientState.Close rg c').
Proof.
  intros E. unfold opened in E. injection E as E7 E6 E5 E4 E3 E2 E1. unfold ClientState.Close. rewrite E7.
  destruct (c_closed c') eqn:Ec; [unfold opened; congruence|]. cbn. rewrite E6.
  assert (∀ lns a b, opened a = opened b → opened (foldl closeSocket a lns) = opened (foldl closeSocket b lns)) as Hfold.
  { intros lns. induction lns as [|ln lns IH]; intros a b Eab; [done|]. cbn. apply IH.
    unfold opened in *. injection Eab as ? ? ? ? ? ? ?. cbn. congruence. }
  destruct (c_session c'); cbn; rewrite E4; apply Hfold; unfold opened; cbn; congruence.
Qed.

(** The program [Close] does what the function does. *)
Lemma run_close_all lns w :
  hw_client (run (for_each (λ ln, call (CCloseSocket ln)) lns) w).1.1 = foldl closeSocket (hw_client w) lns ∧
  hw_waits (run (for_each (λ ln, call (CCloseSocket ln)) lns) w).1.1 = hw_waits w.
Proof.
  revert w. induction lns as [|ln lns IH]; intros w; [done|]. cbn [for_each].
  rewrite run_with_bind. cbn. specialize (IH (on_client w (closeSocket (hw_client w) ln, tt)).1).
  cbn in IH. by destruct (run_with _ _ _) as [[w' t] u].
Qed.

Lemma run_Close w :
  hw_client (run Close w).1.1 = ClientState.Close canonicalRange (hw_client w) ∧
  hw_waits (run Close w).1.1 = hw_waits w.
Proof.
  unfold Close, ClientState.Close. rewrite run_with_bind. cbn. destruct (c_closed (hw_client w)) eqn:Ec; cbn.
  { split; [|done]. destruct w as [[] ? ? ?]. cbn in *. by subst. }
  set (c := set_session _ _ _). destruct (c_session (hw_client w)) as [session|]; cbn;
    match goal with |- context [run_with _ (for_each ?f ?lns) ?w'] => specialize (run_close_all lns w') end;
    cbn; set (r := run_with _ _ _); clearbody r; destruct r as [[w' t] []]; cbn; auto.
Qed.

(** The request of a check ends as the script says. *)
Lemma run_request c o script n ws :
  let r := run (checkServerResponse cfg "health") (mkWorld c (o :: script) n ws) in
  r.1.1 = mkWorld c script n ws ∧
  (match r.2 with Ok _ => None | Err e => Some e end) = outcomeError o.
Proof.
  destruct o as [e|e|e|e|resp]; try (split; reflexivity). cbn. by destruct (rs_OK resp).
Qed.

Lemma switch_ind {A} (P : A → Prop) cases (default : A) :
  Forall (λ ba, P ba.2) cases → P default → P (switch cases default).
Proof. intros Hc Hd. induction Hc as [|[[] a] cases Ha _ IH]; done. Qed.

Lemma classify_states e :
  (classifyHealthError (Some e)).1 = HealthAuthError ∨ (classifyHealthError (Some e)).1 = HealthServerUnavailable.
Proof.
  unfold classifyHealthError. cbv zeta. apply switch_ind; [|by right].
  repeat (apply Forall_cons; split; [cbn; auto|]). by apply Forall_nil.
Qed.

(** What a check makes of the health. *)
Definition checked (failures : Z) (o : checkOutcome) (h : HealthStatus) : Prop :=
  match outcomeError o with
  | None => hs_State h = HealthOK ∧ hs_ConsecutiveFailures h = 0 ∧ hs_Terminal h = false
  | Some e =>
      if authError e || (healthMaxReconnectFailures <=? failures + 1) then hs_Terminal h = true
      else hs_State h = HealthServerUnavailable ∧ hs_ConsecutiveFailures h = failures + 1 ∧ hs_Terminal h = false
  end.

Lemma run_check c o script n ws :
  0 ≤ hs_ConsecutiveFailures (c_health c) < healthMaxReconnectFailures →
  let r := run (CheckHealthNow cfg) (mkWorld c (o :: script) n ws) in
  ∃ c' n', r.1.1 = mkWorld c' script n' ws ∧ opened c' = opened c ∧ r.2 = c_health c' ∧
           checked (hs_ConsecutiveFailures (c_health c)) o (c_health c').
Proof.
  intros Hf. unfold CheckHealthNow, checked. rewrite run_with_bind.
  destruct (run_request c o script n ws) as [E1 E2].
  destruct (run_with _ (checkServerResponse cfg "health") _) as [[w t] resp]. cbn in E1, E2. subst w. rewrite <- E2.
  destruct resp as [resp|e].
  - cbn. unfold SetServerVersion. case_match; by eexists _, _.
  - unfold authError. destruct (classifyHealthError (Some e)) as [state message] eqn:Ee. cbn [fst].
    pose proof (classify_states e) as Hs. rewrite Ee in Hs. cbn [fst] in Hs.
    assert (wrap_i64 (hs_ConsecutiveFailures (c_health c) + 1) = hs_ConsecutiveFailures (c_health c) + 1) as Ew.
    { unfold healthMaxReconnectFailures in Hf. rewrite wrap_s_id; lia. }
    destruct Hs as [->| ->]; cbn.
    + eexists _, _. done.
    + rewrite Ew. unfold finalizeHealthStatus. cbn.
      destruct (healthMaxReconnectFailures <=? _); by eexists _, _.
Qed.

(** ** The loop *)

Lemma run_stop c script n ws :
  let r := run (stopAfterHealth (c_health c)) (mkWorld c script n ws) in
  let h := c_health c in
  (hs_Terminal h = true → r.1.1 = mkWorld c script n ws ∧ r.2 = true) ∧
  (hs_Terminal h = false → hs_State h ≠ HealthAuthError → hs_ConsecutiveFailures h < healthMaxReconnectFailures →
   (∃ n', r.1.1 = mkWorld c script n' ws) ∧ r.2 = false).
Proof.
  cbv zeta. unfold stopAfterHealth. destruct (hs_Terminal (c_health c)) eqn:Et; [done|]. split; [done|].
  intros _ Hs Hf. cbn. unfold finalizeHealthStatus.
  destruct (String.eqb_spec (hs_State (c_health c)) HealthAuthError) as [?|_]; [done|].
  destruct (Z.leb_spec healthMaxReconnectFailures (hs_ConsecutiveFailures (c_health c))) as [?|_]; [lia|].
  rewrite andb_false_r. cbn. eauto.
Qed.

Lemma run_rounds script c n ws :
  0 ≤ hs_ConsecutiveFailures (c_health c) < healthMaxReconnectFailures →
  let r := run (healthRounds cfg (length script)) (mkWorld c script n ws) in
  let ref := healthReference (hs_ConsecutiveFailures (c_health c)) script in
  r.2 = ref.2 ∧ hw_waits r.1.1 = ws ++ ref.1 ∧
  opened (hw_client r.1.1) = opened (if ref.2 then ClientState.Close canonicalRange c else c).
Proof.
  cbv zeta. revert c n ws. induction script as [|o script IH]; intros c n ws Hf; [by rewrite app_nil_r|].
  cbn [length healthRounds healthReference]. rewrite run_with_bind.
  destruct (run_check c o script n ws Hf) as (c1 & n1 & E1 & Ho & E2 & Hc).
  destruct (run_with _ (CheckHealthNow cfg) _) as [[w t] status]. cbn in E1, E2. subst w status.
  destruct (run_stop c1 script n1 ws) as [Hstop Hgo]. rewrite run_with_bind.
  destruct (run_with _ (stopAfterHealth _) _) as [[w t'] stop]. cbn in Hstop, Hgo.
  set (go := if stop : bool then _ else _).
  assert (hs_Terminal (c_health c1) = true →
            let r := run go w in
            r.2 = true ∧ hw_waits r.1.1 = ws ∧ opened (hw_client r.1.1) = opened (ClientState.Close canonicalRange c)) as Hend.
  { intros Ht. destruct (Hstop Ht) as [-> ->]. subst go. cbv zeta. rewrite run_with_bind.
    destruct (run_Close (mkWorld c1 script n1 ws)) as [Ec Ew]. destruct (run_with _ Close _) as [[w2 t2] []]. cbn in *.
    rewrite Ec. split_and!; [done..|]. by apply opened_Close. }
  assert (∀ d f, hs_Terminal (c_health c1) = false → hs_State (c_health c1) ≠ HealthAuthError →
            hs_ConsecutiveFailures (c_health c1) = f → 0 ≤ f < healthMaxReconnectFailures →
            nextHealthDelay c1 = d →
            let ref := healthReference f script in
            let r := run go w in
            r.2 = ref.2 ∧ hw_waits r.1.1 = ws ++ d :: ref.1 ∧
            opened (hw_client r.1.1) = opened (if ref.2 then ClientState.Close canonicalRange c else c)) as Hagain.
  { intros d f Ht Hs Ef Hf1 <-. destruct (Hgo Ht Hs ltac:(lia)) as [[n2 ->] ->]. cbv zeta. subst go. cbn.
    set (c2 := set_health c1 _).
    assert (hs_ConsecutiveFailures (c_health c2) = f ∧ opened c2 = opened c) as [Ec2 Ho2] by done. clearbody c2.
    specialize (IH c2 (S n2) (ws ++ [nextHealthDelay c1])). rewrite Ec2 in IH. specialize (IH Hf1).
    destruct (run_with _ (healthRounds _ _) _) as [[w2 t2] b]. cbn in *. destruct IH as (-> & -> & ->).
    split_and!; [done|by rewrite <-app_assoc|]. destruct (healthReference f script) as [waits []]; cbn; [|done].
    by apply opened_Close. }
  clearbody go. destruct (run_with _ go w) as [[w3 t3] b]. cbn [fst snd] in *.
  unfold checked in Hc. destruct (outcomeError o) as [e|] eqn:Eo.
  - destruct (authError e || _) eqn:Ee.
    + cbn. rewrite app_nil_r. by apply Hend.
    + destruct Hc as (Hs & Hk & Ht). apply orb_false_iff in Ee as [_ Ee%Z.leb_gt].
      specialize (Hagain (ReconnectDelay (hs_ConsecutiveFailures (c_health c) + 1)) _ Ht ltac:(by rewrite Hs) Hk ltac:(lia)).
      destruct (healthReference _ script) as [waits ended]. apply Hagain. unfold nextHealthDelay. by rewrite Hs, Hk.
  - destruct Hc as (Hs & Hk & Ht).
    specialize (Hagain healthOKInterval 0 Ht ltac:(by rewrite Hs) Hk ltac:(done)).
    destruct (healthReference 0 script) as [waits ended]. apply Hagain. unfold nextHealthDelay. by rewrite Hs.
Qed.

(** Checks that fail in a row end the loop. *)
Lemma reference_ends f errs script :
  0 ≤ f < healthMaxReconnectFailures → healthMaxReconnectFailures ≤ f + Z.of_nat (length errs) →
  Forall (λ o, is_Some (outcomeError o)) errs → (healthReference f (errs ++ script)).2 = true.
Proof.
  intros Hf Hn He. revert f Hf Hn. induction He as [|o errs [e Ee] _ IH]; intros f Hf Hn; [cbn in *; lia|].
  cbn [app healthReference length] in *. rewrite Ee. destruct (authError e); [done|].
  destruct (Z.leb_spec healthMaxReconnectFailures (f + 1)); [done|].
  specialize (IH (f + 1) ltac:(lia) ltac:(lia)). by destruct (healthReference _ _).
Qed.

Lemma reference_window f pre errs post :
  0 ≤ f < healthMaxReconnectFailures → healthMaxReconnectFailures ≤ Z.of_nat (length errs) →
  Forall (λ o, is_Some (outcomeError o)) errs → (healthReference f (pre ++ errs ++ post)).2 = true.
Proof.
  intros Hf Hn He. revert f Hf. induction pre as [|o pre IH]; intros f Hf; [apply (reference_ends f errs); [done|lia|done]|].
  cbn [app healthReference]. destruct (outcomeError o) as [e|].
  - destruct (authError e); [done|]. destruct (Z.leb_spec healthMaxReconnectFailures (f + 1)); [done|].
    specialize (IH (f + 1) ltac:(lia)). by destruct (healthReference _ _).
  - specialize (IH 0 ltac:(done)). by destruct (healthReference _ _).
Qed.

(** C17: the health loop waits thirty seconds after a check that succeeds and the
    reconnect delay after one that fails, counting from the last success; it ends,
    and closes the client with all its listeners, at the first error that cannot
    heal (a refused login, a bad certificate, a wrong address) or at the sixth
    failure in a row, and not before. So a server that stays away is given up after
    six checks, whatever happened before. *)
Theorem health_loop_stops c script late :
  0 ≤ hs_ConsecutiveFailures (c_health c) < healthMaxReconnectFailures →
  let r := run (healthLoop cfg (length script) late) (mkWorld c script 0 []) in
  let '(waits, ended) := healthReference (hs_ConsecutiveFailures (c_health c)) script in
  r.2 = ended ∧ hw_waits r.1.1 = (if late : bool then [healthOKInterval] else []) ++ waits ∧
  opened (hw_client r.1.1) = opened (if ended then ClientState.Close canonicalRange c else c) ∧
  (∀ pre errs post, script = pre ++ errs ++ post → length errs = 6%nat →
     Forall (λ o, is_Some (outcomeError o)) errs → ended = true).
Proof.
  intros Hf r. destruct (healthReference _ script) as [waits ended] eqn:Eref.
  assert (∀ pre errs post, script = pre ++ errs ++ post → length errs = 6%nat →
            Forall (λ o, is_Some (outcomeError o)) errs → ended = true) as Hsix.
  { intros pre errs post -> Hn He. change ended with ((waits, ended).2). rewrite <- Eref.
    apply reference_window; [done|by rewrite Hn|done]. }
  subst r. destruct late.
  - destruct (run_rounds script c 0 ([] ++ [healthOKInterval]) Hf) as (E1 & E2 & E3). rewrite Eref in *. cbn in *.
    destruct (run_with _ (healthRounds _ _) _) as [[w t] b]. cbn in *. auto.
  - destruct (run_rounds script c 0 [] Hf) as (E1 & E2 & E3). rewrite Eref in *. cbn in *. auto.
Qed.
End Health.

(** Two failures, a success, an expired credential. *)
Lemma health_loop_stops_witness :
  let ok := answered (mkOpenResponse true "ok" "" "" "" "" None) in
  let expired := answered (mkOpenResponse false "credential_expired" "saved login has expired" "" "" "" None) in
  let cfg := sampleClient in
  let script := [noDial "connection refused"; noAnswer "EOF"; ok; expired; ok] in
  healthReference 0 script = ([2 * nsecond; 4 * nsecond; 30 * nsecond], true) ∧
  (run_with (@script_exec (λ _, "")) (healthLoop cfg 5 false) (mkWorld newClient script 0 [])).2 = true.
Proof.
  intros ok expired cfg script. split; [by vm_compute|].
  by destruct (health_loop_stops cfg (λ _, "") newClient script false) as (E & _); [done|].
Defined.
