(* ===== verification/ClientTraces.v ===== *)
(** * What the client does with its connections (src/client/tunnel/client.go)

    Every trace of [handleLocal], of the exchanges with the server and of the
    reverse loop, whatever the machine and the other goroutines answer: connections
    are closed, streams counted, deadlines set, and errors retried as they should. *)

From S2P Require Import Prelude.
From S2P Require Import Programs.
From S2P Require Import GoStd.
From S2P Require Import Disk.
From S2P Require Import Version.
From S2P Require Import Protocol.
From S2P Require Import GoCrypto.
From S2P Require Import Yaml.
From S2P Require Import VirtualAddress.
From S2P Require Import VirtualRedirect.
From S2P Require Import ClientErrors.
From S2P Require Import ClientConfig.
From S2P Require Import ClientState.
From S2P Require Import ClientPrograms.

#[local] Open Scope Z_scope.

(** ** Reading a trace *)

(** The connection a call dialled. *)
Definition dialled (c : ccall) : option nat :=
  match c with
  | @Called _ X o x =>
      match o in clientOp X return X → option nat with
      | CDial _ => λ x, match x with Ok conn => Some conn | Err _ => None end
      | _ => λ _, None
      end x
  end.

(** The answer a call received. *)
Definition received (c : ccall) : option OpenResponse :=
  match c with
  | @Called _ X o x =>
      match o in clientOp X return X → option OpenResponse with
      | CReceive _ => λ x, match x with Ok resp => Some resp | Err _ => None end
      | _ => λ _, None
      end x
  end.

(** The error a call recorded, the wait it made, the forward it stopped. *)
Definition recorded (c : ccall) : option string :=
  match c with
  | @Called _ X o _ => match o with CRecordError _ err => err | _ => None end
  end.
Definition waited (c : ccall) : option Duration :=
  match c with @Called _ X o _ => match o with CWait delay => Some delay | _ => None end end.
Definition stopped (c : ccall) : option string :=
  match c with @Called _ X o _ => match o with CTakeListener name => Some name | _ => None end end.
Definition proxied (c : ccall) : option (nat * nat) :=
  match c with @Called _ X o _ => match o with CProxy l r => Some (l, r) | _ => None end end.

Definition closing (conn : nat) : ccall := Called (CCloseConn conn) tt.

#[local] Arguments IsPermanentForwardError : simpl never.
#[local] Arguments ForwardErrorMessage : simpl never.
#[local] Arguments responseError : simpl never.
#[local] Arguments forwardRequest : simpl never.
#[local] Arguments newOpenRequest : simpl never.

(** Turns the conditions met on the way into rewriting, and answers without
    content into [tt]. *)
Ltac settle :=
  repeat match goal with
    | x : unit |- _ => destruct x
    | H : negb _ = true |- _ => apply negb_true_iff in H
    | H : negb _ = false |- _ => apply negb_false_iff in H
    | H : ?b = _ |- context [if ?b then _ else _] => rewrite H
    end.

Section Traces.
Variable cfg : Config.

(** ** A local connection *)

(** What [handleLocal] may have done: how it ends, by the connection and the answer
    it got. *)
Definition local_handled (local : nat) (name : string) (t : list ccall) : Prop :=
  let remotes := omap dialled t in
  let answers := omap received t in
  let ending := map closing remotes ++ [closing local] in
  t = take (length t - length ending) t ++ ending ∧
  match answers with
  | [] => omap proxied t = [] ∧ omap stopped t = [] ∧ ∃ e, omap recorded t = [e]
  | [resp] =>
      if rs_OK resp then
        omap recorded t = [] ∧ omap stopped t = [] ∧
        ∃ remote found, remotes = [remote] ∧ omap proxied t = [(remote, local)] ∧
          drop (length t - 5) t = [Called (CBeginStream name) found; Called (CProxy remote local) tt;
                                   Called (CEndStream name found) tt; closing remote; closing local]
      else
        let err := responseError resp "server rejected the connection" in
        omap recorded t = [err] ∧ omap proxied t = [] ∧
        omap stopped t = if IsPermanentForwardError (Some err) then [name] else []
  | _ => False
  end.

(** C18: a local connection is closed last, and before it the connection to the
    server when one was dialled. Data is forwarded only when the server answered OK,
    between the two calls that count the stream and on the two connections at hand;
    otherwise exactly one error is recorded, the error of the answer if there was
    one, and the forward is stopped exactly when that error is permanent. *)
Theorem local_connection_handled local name fwd :
  always (handleLocal cfg local name fwd) (λ t _, local_handled local name t).
Proof.
  unfold local_handled. walk; cbn; settle; split; (done || naive_solver).
Qed.

(** ** Exchanges with the server *)

(** What is known of the connection of an exchange: whether it is open, whether its
    reads and writes have a deadline, whether the server has answered OK. *)
Record exchange := mkExchange { x_conn : option nat; x_reads : bool; x_writes : bool; x_ok : bool }.
Definition noExchange : exchange := mkExchange None false false false.

(** One call of an exchange; [None] when it should not be made: a write without a
    deadline, a read without one before the server answered OK, a deadline that has
    passed when it is set, one lifted from both directions before that answer, a
    call on another connection. *)
Definition exchange_call (s : exchange) (c : ccall) : option exchange :=
  match c with
  | @Called _ X o x =>
      match o in clientOp X return X → option exchange with
      | CDial _ => λ x,
          match x_conn s, x with
          | None, Ok conn => Some (mkExchange (Some conn) false false false)
          | None, Err _ => Some s
          | Some _, _ => None
          end
      | CDeadline conn which timeout => λ _,
          if negb (bool_decide (x_conn s = Some conn)) then None
          else match which, timeout with
          | deadlineBoth, Some d => if 0 <? d then Some (mkExchange (Some conn) true true (x_ok s)) else None
          | deadlineBoth, None => if x_ok s then Some (mkExchange (Some conn) false false true) else None
          | deadlineWrite, Some d => if 0 <? d then Some (mkExchange (Some conn) (x_reads s) true (x_ok s)) else None
          | deadlineWrite, None => Some (mkExchange (Some conn) (x_reads s) false (x_ok s))
          | deadlineRead, _ => None
          end
      | CSend conn _ => λ _, if bool_decide (x_conn s = Some conn) && x_writes s then Some s else None
      | CReceive conn => λ x,
          if bool_decide (x_conn s = Some conn) && (x_reads s || x_ok s)
          then Some (mkExchange (x_conn s) (x_reads s) (x_writes s)
                       (x_ok s || match x with Ok resp => rs_OK resp | Err _ => false end))
          else None
      | CProxy conn _ => λ _, if bool_decide (x_conn s = Some conn) && x_ok s then Some s else None
      | CCloseConn conn => λ _, Some (if bool_decide (x_conn s = Some conn) then noExchange else s)
      | _ => λ _, Some s
      end x
  end.

Fixpoint exchange_calls (s : exchange) (t : list ccall) : option exchange :=
  match t with [] => Some s | c :: t => s ← exchange_call s c; exchange_calls s t end.

(** The calls are allowed, and the connection is closed in the end. *)
Definition exchange_ok (t : list ccall) : Prop := exchange_calls noExchange t = Some noExchange.

Lemma exchange_calls_app s t t' : exchange_calls s (t ++ t') = exchange_calls s t ≫= λ s, exchange_calls s t'.
Proof. revert s. induction t as [|c t IH]; intros s; [done|]. cbn. destruct (exchange_call s c); [apply IH|done]. Qed.

Lemma handshakeTimeout_pos : (0 <? handshakeTimeout cfg) = true.
Proof. unfold handshakeTimeout. destruct (Z.leb_spec (dialTimeout cfg) 0); [done|]. by apply Z.ltb_lt. Qed.

#[local] Opaque handshakeTimeout.

(** The calls of a concrete trace. *)
Ltac exchange_steps :=
  cbn; settle; repeat first [rewrite bool_decide_true by done | rewrite handshakeTimeout_pos | progress settle | progress cbn].
Ltac exchange_done := exchange_steps; first [done | repeat case_bool_decide; done].

(** The events of an active listener leave the exchange as it is. *)
Lemma events_ok rounds remote name fwd :
  always (reverseEvents cfg rounds remote name fwd)
    (λ t _, exchange_calls (mkExchange (Some remote) false false true) t = Some (mkExchange (Some remote) false false true)).
Proof.
  induction rounds as [|n IH]; [done|]. cbn [reverseEvents].
  apply always_do. intros [event|e]; [|exchange_done].
  destruct (String.eqb (rs_Code event) "reverse_ping"); [|destruct (_ || _)].
  - apply always_do. intros []. apply always_do. intros sent. apply always_do. intros [].
    destruct sent as [u|e]; [|exchange_done]. eapply always_impl; [|exact IH]. intros t r E. exchange_done.
  - eapply always_impl; [|exact IH]. intros t r E. exchange_done.
  - apply always_do. intros []. eapply always_impl; [|exact IH]. intros t r E. exchange_done.
Qed.

#[local] Opaque reverseEvents.

(** The four exchanges of the client with the server but that of a local
    connection. *)
Inductive exchangeProgram := checkExchange (reqType : string) | forwardExchange (name : string) (fwd : ForwardConfig)
  | streamExchange (name : string) (fwd : ForwardConfig) (streamID : string)
  | listenExchange (events : nat) (name : string) (fwd : ForwardConfig).
Definition exchangeOf (p : exchangeProgram) : cprog unit :=
  match p with
  | checkExchange reqType => _ ← checkServerResponse cfg reqType; mret tt
  | forwardExchange name fwd => _ ← checkForwardResponse cfg name fwd; mret tt
  | streamExchange name fwd streamID => openReverseStream cfg name fwd streamID
  | listenExchange events name fwd => _ ← maintainReverseListen cfg events name fwd; mret tt
  end.

(** C19: in every exchange with the server but that of a local connection (checks of
    the login, the health and the forwards, reverse listeners and streams) each
    write happens under a deadline and so does each read until the server has
    answered OK; the deadline lies in the future whatever timeout is configured,
    is lifted only after that answer, data is forwarded only after it, and the
    connection is closed in the end, on every path. *)
Theorem exchanges_bounded p : always (exchangeOf p) (λ t _, exchange_ok t).
Proof.
  unfold exchange_ok. destruct p as [reqType|name fwd|name fwd streamID|events name fwd]; cbn [exchangeOf].
  - walk; exchange_done.
  - walk; exchange_done.
  - walk; exchange_done.
  - apply always_seq. unfold maintainReverseListen. apply always_do. intros [e|]; [exchange_done|].
    apply always_do. intros [remote|e]; [|exchange_done]. unfold activateReverse.
    walk; try exchange_done.
    eapply always_impl; [|apply events_ok]. intros t r E. cbv beta in E. walk. rewrite app_nil_r. exchange_steps.
    rewrite exchange_calls_app, E. exchange_done.
Qed.

(** The connection of a local one has no deadline: a server that accepts the
    connection and then says nothing holds [handleLocal] for ever. *)
Lemma local_exchange_unbounded local remote name fwd :
  ∃ t, traces (handleLocal cfg local name fwd) t tt ∧ ¬ exchange_ok t ∧ omap dialled t = [remote].
Proof.
  eexists. split_and!.
  - apply (traces_do _ CTLSConfig _ None), (traces_do _ _ _ (Ok remote)), (traces_do _ _ _ (Err "broken pipe")).
    do 3 apply traces_do with (x := tt). constructor.
  - unfold exchange_ok. cbn. by rewrite bool_decide_true.
  - done.
Qed.

(** ** The reverse loop *)

(** A connection that ends records no error and waits for nothing by itself. *)
Definition quiet (t : list ccall) : Prop := omap recorded t = [] ∧ omap waited t = [].

Lemma quiet_app t t' : quiet t → quiet t' → quiet (t ++ t').
Proof. unfold quiet. rewrite !omap_app. by intros [-> ->] [-> ->]. Qed.

Lemma events_quiet rounds remote name fwd : always (reverseEvents cfg rounds remote name fwd) (λ t _, quiet t).
Proof.
  #[local] Transparent reverseEvents.
  induction rounds as [|n IH]; [done|]. cbn [reverseEvents].
  assert (∀ ts, quiet ts → always (reverseEvents cfg n remote name fwd) (λ t _, quiet (ts ++ t))) as Hts.
  { intros ts Hts. eapply always_impl; [|exact IH]. intros t r. by apply quiet_app. }
  apply always_do. intros [event|e]; [|done].
  destruct (String.eqb (rs_Code event) "reverse_ping"); [|destruct (_ || _)].
  - apply always_do. intros []. apply always_do. intros sent. apply always_do. intros [].
    destruct sent as [u|e]; [|done]. by apply (Hts [_; _; _; _]).
  - by apply (Hts [_]).
  - apply always_do. intros []. by apply (Hts [_; _]).
Qed.

Lemma maintain_quiet events name fwd : always (maintainReverseListen cfg events name fwd) (λ t _, quiet t).
Proof.
  #[local] Opaque reverseEvents.
  unfold maintainReverseListen. apply always_do. intros [e|]; [done|]. apply always_do. intros [remote|e]; [|done].
  unfold activateReverse. walk; try done.
  eapply always_impl; [|apply events_quiet]. intros t r [E1 E2]. walk. unfold quiet. cbn.
  by rewrite !omap_app, E1, E2.
Qed.

Lemma wrap_next k : wrap_i64 (wrap_i64 k + 1) = wrap_i64 (k + 1).
Proof.
  assert ((wrap_i64 k + 1) `mod` 2 ^ 64 = (k + 1) `mod` 2 ^ 64) as E; [|unfold wrap_s in *; by rewrite E].
  unfold wrap_s. destruct (_ <? _); [by rewrite Zplus_mod_idemp_l|].
  rewrite <- Zplus_mod_idemp_l, Zminus_mod_idemp_l.
  replace (k - 2 ^ 64) with (k + (-1) * 2 ^ 64) by lia. by rewrite Z_mod_plus_full, Zplus_mod_idemp_l.
Qed.

(** The errors a run of the loop recorded: [retried] and then waited for, and the
    last one when it gave up. *)
Definition reverse_run (k : Z) (retried : list string) (t : list ccall) (ending : reverseEnd) : Prop :=
  omap recorded t = retried ++ match ending with reverseGaveUp e => [e] | _ => [] end ∧
  Forall (λ e, IsPermanentForwardError (Some e) = false) retried ∧
  omap waited t = imap (λ i e, ReverseRetryDelay (Some e) (wrap_i64 (k + 1 + Z.of_nat i))) retried ∧
  match ending with reverseGaveUp e => IsPermanentForwardError (Some e) = true | _ => True end.

Lemma reverse_loop_runs rounds events k name fwd :
  always (reverseLoop cfg rounds events (wrap_i64 k) name fwd) (λ t ending, ∃ retried, reverse_run k retried t ending).
Proof.
  revert k. induction rounds as [|n IH]; intros k; [by exists []|]. cbn [reverseLoop].
  apply always_do. intros [|]; [by exists []|]. apply always_do. intros [|]; [by exists []|].
  apply always_seq. eapply always_impl; [|apply maintain_quiet]. intros t [e|] [Er Ew].
  2: { apply always_ret. exists []. unfold reverse_run. cbn. rewrite app_nil_r. by rewrite Er, Ew. }
  cbv zeta. rewrite wrap_next. apply always_do. intros [].
  destruct (IsPermanentForwardError (Some e)) eqn:Ep.
  - apply always_do. intros []. apply always_ret. exists []. unfold reverse_run. cbn. rewrite !omap_app, Er, Ew. done.
  - apply always_do. intros []. apply always_do. intros w.
    destruct w; [eapply always_impl; [|apply (IH (k + 1))]|apply always_ret; exists [e]..].
    + intros t' ending [retried (E1 & E2 & E3 & E4)]. exists (e :: retried). unfold reverse_run. cbn.
      rewrite !omap_app, Er, Ew. cbn. rewrite E1, E3. split_and!; [done|by constructor| |done].
      f_equal; [by rewrite Z.add_0_r|]. apply imap_ext. intros i x _. cbn. do 2 f_equal. lia.
    + unfold reverse_run. cbn. rewrite !omap_app, Er, Ew. cbn. rewrite Z.add_0_r. by repeat constructor.
    + unfold reverse_run. cbn. rewrite !omap_app, Er, Ew. cbn. rewrite Z.add_0_r. by repeat constructor.
Qed.

(** The loop of a reverse forward records every error that ends its connection.
    It gives up exactly at the first one that is permanent; after every other it
    waits, the i-th time for the delay of the error and i failures: the count never
    starts over, however long the listener was active in between. *)
Theorem reverse_loop_retries rounds events name fwd :
  always (reverseLoop cfg rounds events 0 name fwd) (λ t ending,
    ∃ retried,
      omap recorded t = retried ++ (match ending with reverseGaveUp e => [e] | _ => [] end) ∧
      Forall (λ e, IsPermanentForwardError (Some e) = false) retried ∧
      omap waited t = imap (λ i e, ReverseRetryDelay (Some e) (wrap_i64 (1 + Z.of_nat i))) retried ∧
      match ending with reverseGaveUp e => IsPermanentForwardError (Some e) = true | _ => True end).
Proof. exact (reverse_loop_runs rounds events 0 name fwd). Qed.
End Traces.
