(* ===== verification/SavedLogin.v ===== *)
(** * A saved login, from the client to the server

    The server keeps seal keys and hands out the public one that is active
    (CredentialSeal.v); the client seals its password under it and later sends the
    sealed record in its requests (ClientConfig.v, ClientPrograms.v). This file
    follows a login the whole way: from the keys a server loaded, through its
    rotations, the answer to a login and the saved record, to the password the
    server finds in a request. *)

From S2P Require Import Prelude.
From S2P Require Import GoStd.
From S2P Require Import Disk.
From S2P Require Import GoCrypto.
From S2P Require Import Protocol.
From S2P Require Import Credseal.
From S2P Require Import ConfigData.
From S2P Require Import ServerConfig.
From S2P Require Import CredentialSeal.
From S2P Require Import ClientConfig.
From S2P Require Import ClientPrograms.

#[local] Open Scope Z_scope.

Section SavedLogin.
Context `{SealLaws} `{PlainCodec : JSONCodec PlainCredential}
  `{EnvelopeCodec : JSONCodec encryptedEnvelope} `{ConfigCodec : YAMLCodec ConfigData.Config} `{LocalTime}.

(** ** The active key of the server *)

(** The public text of a key is that of its private part. *)
Definition key_pair (key : credentialSealKey) : Prop :=
  ∀ k, sk_private key = Some k → ParsePublicKeyPEM (to_chars (sk_publicPEM key)) = Ok (public k).

(** A time that was read from a text, or is the zero time for want of one. *)
Definition read_time (t : Time) : Prop := t = zeroTime ∨ ∃ text, ParseRFC3339 text = Some t.

(** The active key is found under its id, is a pair, and its expiry was read. *)
Definition active_ok (s : credentialState) : Prop :=
  ∀ key, cs_activeCredentialKey s = Some key →
    cs_credentialKeys s !! sk_id key = Some key ∧ key_pair key ∧ read_time (sk_expiresAt key).

Lemma EnsureKeyFiles_pair d privatePath publicPath bits d' k text :
  EnsureKeyFiles d privatePath publicPath bits = (d', Ok (k, text)) →
  ParsePublicKeyPEM (to_chars text) = Ok (public k).
Proof.
  assert (∀ k text, public_pem k = Ok text → ParsePublicKeyPEM (to_chars text) = Ok (public k)) as Hpem.
  { intros key pem. unfold public_pem, ParsePublicKeyPEM.
    destruct (MarshalPKIXPublicKey (public key)) as [der|e] eqn:Ed; [|done]. intros [= <-]. rewrite to_of_chars.
    destruct (pem_law "PUBLIC KEY" der) as (rest & ->). by rewrite (pkix_law _ _ Ed). }
  assert (∀ r, (match GenerateKeyPair bits with
                | Err e => (d, Err e)
                | Ok (key, privatePEM, publicPEM) =>
                    match writeFileSecure d privatePath privatePEM with
                    | (d, Err e) => (d, Err e)
                    | (d, Ok _) =>
                        match writeFileSecure d publicPath publicPEM with
                        | (d, Err e) => (d, Err e)
                        | (d, Ok _) => (d, Ok (key, publicPEM))
                        end
                    end
                end) = r → r = (d', Ok (k, text)) → ParsePublicKeyPEM (to_chars text) = Ok (public k)) as Hgen.
  { intros r <-. unfold GenerateKeyPair. destruct (GenerateKey _) as [key|e]; [|done]. cbn.
    destruct (public_pem key) as [pem|e] eqn:Epub; [|done]. cbn.
    destruct (writeFileSecure d _ _) as [d1 [u|e]]; [|done]. destruct (writeFileSecure d1 _ _) as [d2 [u'|e]]; [|done].
    intros [= <- <- <-]. by apply Hpem. }
  unfold EnsureKeyFiles. destruct (ReadFile d privatePath) as [|e|data]; [by eapply Hgen..|].
  destruct (ParsePrivateKeyPEM (to_chars data)) as [key|e]; [|done].
  destruct (kept_public d publicPath key) as [pub|] eqn:Ek.
  - intros [= <- <- <-]. unfold kept_public in Ek. destruct (ReadFile d publicPath) as [|e|pubData]; [done..|].
    destruct (ParsePublicKeyPEM (to_chars pubData)) as [p|e] eqn:Ep; [|done].
    destruct (_ && _) eqn:Eb; [|done]. injection Ek as <-. rewrite Ep.
    apply andb_true_iff in Eb as [En%Z.eqb_eq Ee%Z.eqb_eq]. destruct p, (public key). cbn in *. congruence.
  - destruct (public_pem key) as [pub|e] eqn:Epub; [|done].
    destruct (writeFileSecure _ _ _) as [d1 [u|e]]; [|done]. intros [= <- <- <-]. by apply Hpem.
Qed.

Lemma mustParse_read text : read_time (mustParseRFC3339 text).
Proof. unfold mustParseRFC3339. destruct (ParseRFC3339 text) as [t|] eqn:E; [right; by exists text|by left]. Qed.

(** A rotation keeps an active key that is in order, or makes one. *)
Lemma rotate_active_ok now s d : active_ok s → active_ok (rotateExpiredCredentialSealKeyLocked now s d).1.1.
Proof.
  intros Hok. unfold rotateExpiredCredentialSealKeyLocked.
  destruct (cs_activeCredentialKey s) as [cur|] eqn:Ea; [|done]. destruct (After _ now); [done|].
  destruct (nextCredentialSealKeyConfigLocked _ _ _) as [newCfg existing].
  destruct (EnsureKeyFiles _ _ _ _) as [d1 [[k pem]|e]] eqn:Ee; [|done]. apply EnsureKeyFiles_pair in Ee.
  destruct (persistCredentialSealRotationLocked _ _ _) as [d2 r].
  destruct r; intros key; cbn; intros [= <-];
    (split_and!; [apply lookup_insert_eq|by intros ? [= <-]|apply mustParse_read]).
Qed.

Lemma load_active_ok now items s d :
  NoDup (trimmed_ids items) → active_ok s →
  (∀ key, cs_activeCredentialKey s = Some key → sk_id key ∉ trimmed_ids items) →
  active_ok (load_keys now items s d).1.1.
Proof.
  revert s d. induction items as [|item items IH]; intros s d Hnd Hok Hid; [done|]. cbn [load_keys].
  apply NoDup_cons in Hnd as [Hni Hnd].
  destruct (ParseRFC3339 _) as [e|] eqn:Eparse; [|done].
  assert (∀ private pem d1, (∀ k, private = Some k → ParsePublicKeyPEM (to_chars pem) = Ok (public k)) →
    let key := mkCredentialSealKey (TrimSpace (ck_KeyID item)) e private pem (ck_Active item) in
    active_ok (load_keys now items
      (mkCredentialState (cs_ConfigPath s) (cs_Keys s) (<[sk_id key := key]> (cs_credentialKeys s))
         (if ck_Active item then Some key else cs_activeCredentialKey s) (cs_log s)) d1).1.1) as Hnext.
  { intros private pem d1 Hpair. cbv zeta. apply IH; [done|..]; cbn.
    - intros key. destruct (ck_Active item).
      + intros [= <-]. split_and!; [apply lookup_insert_eq|exact Hpair|right; eexists; exact Eparse].
      + intros Ha. destruct (Hok key Ha) as (Hl & Hp). split; [|done]. cbn.
        rewrite lookup_insert_ne; [done|]. intros E. apply (Hid key Ha). rewrite <- E. apply elem_of_cons. by left.
    - intros key. destruct (ck_Active item); [by intros [= <-]|].
      intros Ha Hin. apply (Hid key Ha). apply elem_of_cons. by right. }
  destruct (After e now); [|by apply Hnext].
  destruct (EnsureKeyFiles _ _ _ _) as [d1 [[k pem]|err]] eqn:Ee; [|done].
  apply Hnext. intros ? [= <-]. by eapply EnsureKeyFiles_pair.
Qed.

(** The keys of a server: loaded at [loaded] from a configuration with distinct ids,
    and rotated any number of times, while the disk changes as it likes. *)
Inductive key_history (loaded : Time) : credentialState → Prop :=
  | history_load s0 d0 s d :
      cs_activeCredentialKey s0 = None → NoDup (trimmed_ids (cs_Keys s0)) →
      loadCredentialSealKeys loaded s0 d0 = (s, d, Ok tt) → key_history loaded s
  | history_tick s now d : key_history loaded s → key_history loaded (rotationTick now s d).1.

Lemma history_ok loaded s : key_history loaded s → keys_ok loaded s ∧ active_ok s.
Proof.
  induction 1 as [s0 d0 s d Ha Hnd Hload|s now d _ [IH1 IH2]].
  - split; [by pose proof (loadCredentialSealKeys_ok loaded s0 d0) as E; rewrite Hload in E|].
    unfold loadCredentialSealKeys in Hload. set (s1 := mkCredentialState _ _ ∅ _ _) in Hload.
    pose proof (load_active_ok loaded (cs_Keys s0) s1 d0 Hnd) as Hl.
    destruct (load_keys _ _ _ _) as [[s2 d2] [u|e]]; [|done].
    pose proof (rotate_active_ok loaded s2 d2) as Hr. rewrite Hload in Hr. apply Hr, Hl; intros key; cbn; by rewrite Ha.
  - unfold rotationTick. pose proof (rotate_keys_ok loaded now s d IH1) as E1. pose proof (rotate_active_ok now s d IH2) as E2.
    by destruct (rotateExpiredCredentialSealKeyLocked now s d) as [[s1 d1] [u|e]].
Qed.

(** ** The login *)

Lemma base64_trim l : TrimSpace (base64 l) = base64 l.
Proof.
  apply TrimSpace_plain. unfold base64. rewrite to_of_chars.
  destruct (base64_encode_chars l) as (vs & -> & Hs & _). apply Forall_fmap. eapply Forall_impl; [exact Hs|].
  intros i Hi. by apply sextet_char.
Qed.

Lemma base64_nonempty l : l ≠ [] → base64 l ≠ "".
Proof. destruct l as [|a [|b [|c l]]]; done. Qed.

(** A sealed record is not blank. *)
Lemma seal_text key plain now plainNonce contentKey nonce sealed :
  (∀ (x : encryptedEnvelope) data, marshal x = Ok data → data ≠ []) →
  Seal key plain now plainNonce contentKey nonce = Ok sealed →
  blank (sc_Ciphertext sealed) = false ∧ TrimSpace (sc_Ciphertext sealed) ≠ "".
Proof.
  intros Hne. unfold Seal. destruct (ParsePublicKeyPEM _) as [pub|e]; [|done]. cbn.
  destruct (marshal (complete_plain _ _ _ _)) as [payload|e]; [|done]. cbn.
  destruct (EncryptOAEP _ _ _) as [ek|e]; [|done]. cbn.
  destruct (marshal (mkEnvelope _ _ _ _)) as [env|e] eqn:Ee; [|done]. cbn. intros [= <-]. cbn.
  unfold blank. rewrite base64_trim. apply Hne, base64_nonempty in Ee. split; [|done]. by apply String.eqb_neq.
Qed.

(** C7: a password the client seals under the key the server handed out is the
    password the server finds in every later request of that client, until the
    expiry the key was handed out with has passed: whatever keys the server had
    loaded and rotated before, and with no write to the disk. *)
Theorem saved_login_accepted loaded s d t0 t1 s1 d1 pub cfg password issuedAt sealedAt plainNonce contentKey nonce sealed :
  (∀ (x : PlainCredential) data, marshal x = Ok data → unmarshal data zeroPlain = Ok x) →
  (∀ (x : encryptedEnvelope) data, marshal x = Ok data → data ≠ [] ∧ unmarshal data zeroEnvelope = Ok x) →
  (∀ text t, ParseRFC3339 text = Some t →
     FormatRFC3339 t ≠ "" ∧ ∃ t', ParseRFC3339 (FormatRFC3339 t) = Some t' ∧ t' ≤ t) →
  key_history loaded s → zeroTime ≤ loaded ≤ t1 →
  activeCredentialPublicKey t0 t1 s d = (s1, d1, Some pub) → TrimSpace (cp_KeyID pub) = cp_KeyID pub →
  SealSavedCredential pub cfg password issuedAt sealedAt plainNonce contentKey nonce = Ok sealed →
  ∃ expires, ParseRFC3339 (cp_ExpiresAt pub) = Some expires ∧
    ∀ cfg' reqType now later final d2,
      cl_Username cfg' = cl_Username cfg → cl_Password cfg' = "" → cl_SavedCredential cfg' = sealed →
      now < expires → later < expires → final < expires →
      passwordFromRequest now later final s1 d2 (newOpenRequest cfg' reqType) = (s1, d2, Some (password, "", "")).
Proof.
  intros Hplain Henv Htime Hhist Hle Hpub Hid Hseal.
  assert (key_history loaded s1 ∧ ∃ key, cs_activeCredentialKey s1 = Some key ∧ t1 < sk_expiresAt key ∧
            pub = mkCredentialPublicKey TypeServerSealed (sk_id key) (FormatRFC3339 (sk_expiresAt key)) (sk_publicPEM key))
    as (Hh1 & key & Ha & Hexp & ->).
  { unfold activeCredentialPublicKey in Hpub. pose proof (history_tick loaded s t0 d Hhist) as Ht. unfold rotationTick in Ht.
    destruct (rotateExpiredCredentialSealKeyLocked t0 s d) as [[s2 d2] [u|e]]; [|done].
    destruct (cs_activeCredentialKey s2) as [key|] eqn:Ea; [|done]. unfold After in Hpub.
    destruct (Z.ltb_spec t1 (sk_expiresAt key)); [|done]. injection Hpub as <- <- <-. split; [done|]. by exists key. }
  destruct (history_ok _ _ Hh1) as [Hkeys Hact]. destruct (Hact key Ha) as (Hl & Hpair & [?|[text Htext]]); [lia|].
  destruct (Hkeys _ _ Hl) as [[private Hpriv]|?]; [|lia].
  destruct (Htime text (sk_expiresAt key) Htext) as [Hne (expires & Hparse & Hexpires)].
  exists expires. split; [done|]. intros cfg' reqType now later final d2 Hu Hp Hs Hnow Hlater Hfinal.
  unfold SealSavedCredential in Hseal.
  destruct (seal_text _ _ _ _ _ _ _ (λ x data E, proj1 (Henv x data E)) Hseal) as [Hb Hct].
  destruct (open_seal private (mkCredentialPublicKey _ _ _ (sk_publicPEM key)) _ _ _ _ _ _ Hplain (λ x data E, proj2 (Henv x data E)) (Hpair _ Hpriv) Hseal)
    as (Hopen & Htype & Hkid & _).
  unfold passwordFromRequest, newOpenRequest, credentialFromConfig. cbn [rq_Password rq_Credential rq_Username].
  rewrite Hp, Hs, Hb. change (negb (String.eqb "" "")) with false. cbv iota.
  destruct (String.eqb_spec (TrimSpace (sc_Ciphertext sealed)) ""); [done|].
  rewrite Htype. change (negb (String.eqb TypeServerSealed TypeServerSealed)) with false. cbv iota.
  unfold rotationTick, rotateExpiredCredentialSealKeyLocked. rewrite Ha. unfold After.
  destruct (Z.ltb_spec now (sk_expiresAt key)); [|lia]. cbv iota. rewrite Hkid. cbn [cp_KeyID] in *. rewrite Hid, Hl.
  cbn [open_credential]. unfold After. destruct (Z.ltb_spec later (sk_expiresAt key)); [|lia]. cbn [negb].
  rewrite Hpriv, Hopen. cbn [complete_plain pc_Username pc_Password pc_ExpiresAt cp_ExpiresAt].
  rewrite Hu, String.eqb_refl. cbn [negb].
  destruct (String.eqb_spec (FormatRFC3339 (sk_expiresAt key)) ""); [done|].
  destruct (String.eqb_spec (FormatRFC3339 (sk_expiresAt key)) ""); [done|]. rewrite Hparse.
  destruct (Z.ltb_spec final expires); [done|lia].
Qed.
End SavedLogin.

(** ** A concrete login *)

#[local] Existing Instances Toy.toyPEM Toy.toyCrypto Toy.toyLaws Toy.plainCodec Toy.envelopeCodec sampleYAML.

(** Times of whole seconds written in decimal. *)
#[local] Instance decimalTime : LocalTime :=
  Build_LocalTime Itoa (λ s, t ← Atoi s; if 0 <=? t then Some t else None) (λ _, "") (λ _, "") (λ _, "")
    (λ _, (0, 0, 0)) (λ _ _ _, 0) (λ t n, t + n) (λ t n, t + n).

Lemma decimalTime_law text t :
  ParseRFC3339 text = Some t → FormatRFC3339 t ≠ "" ∧ ∃ t', ParseRFC3339 (FormatRFC3339 t) = Some t' ∧ t' ≤ t.
Proof.
  cbn. destruct (Atoi text) as [n|] eqn:E; [|done]. cbn. destruct (Z.leb_spec 0 n) as [Hn|]; [|done]. intros [= <-].
  apply Atoi_range in E. split.
  - destruct (Itoa_head n Hn) as (c & l & Hl & _). by intros E0; rewrite E0 in Hl.
  - rewrite Atoi_Itoa by lia. cbn. destruct (Z.leb_spec 0 n); [|lia]. by exists n.
Qed.

Definition sampleKeys : credentialState :=
  mkCredentialState "" [mkCredentialSealKeyConfig "a" "certs/a.key" "certs/a.pub" "50" true] ∅ None [].

Definition savedClient (sealed : SealedCredential) : Config :=
  mkClientConfig 2 (mkRequires "2.1.0") "203.0.113.9:3443" "" "alice" "" "" "" sealed "pc" ""
    (mkTLS "server.crt" "" "1.3" false) (mkConnection 5) [].

Lemma saved_login_accepted_witness :
  let '(s, d, _) := loadCredentialSealKeys 10 sampleKeys (goodDisk ∅) in
  ∃ pub sealed, (activeCredentialPublicKey 11 11 s d).2 = Some pub ∧
    SealSavedCredential pub sampleClient "secret" 12 12 (to_chars "nn") (to_chars "kk") (to_chars "n") = Ok sealed ∧
    (passwordFromRequest 20 20 20 s d (newOpenRequest (savedClient sealed) "open")).2 = Some ("secret", "", "").
Proof.
  destruct (loadCredentialSealKeys 10 sampleKeys (goodDisk ∅)) as [[s d] r] eqn:El.
  assert (r = Ok tt) as -> by (vm_compute in El; injection El as _ _ <-; reflexivity).
  destruct (activeCredentialPublicKey 11 11 s d) as [[s1 d1] p] eqn:Ep.
  assert (s1 = s ∧ ∃ pub, p = Some pub ∧ ParseRFC3339 (cp_ExpiresAt pub) = Some 50 ∧
            TrimSpace (cp_KeyID pub) = cp_KeyID pub) as (-> & pub & -> & Hexp & Hid).
  { vm_compute in El. injection El as <- <-. vm_compute in Ep. injection Ep as <- <- <-.
    split; [reflexivity|]. eexists. split_and!; [reflexivity|vm_compute; reflexivity..]. }
  destruct (SealSavedCredential pub sampleClient "secret" 12 12 (to_chars "nn") (to_chars "kk") (to_chars "n"))
    as [sealed|e] eqn:Es.
  2: { exfalso. vm_compute in El. injection El as <- <-. vm_compute in Ep. injection Ep as <- <-.
       vm_compute in Es. discriminate Es. }
  exists pub, sealed. split_and!; [done..|].
  destruct (saved_login_accepted 10 s d 11 11 s d1 pub sampleClient "secret" 12 12 (to_chars "nn") (to_chars "kk")
    (to_chars "n") sealed) as (expires & He & Hok).
  - apply Toy.plainCodec_law.
  - intros x data E. split; [|by apply Toy.envelopeCodec_law]. intros ->. apply Toy.envelopeCodec_law in E. vm_compute in E. discriminate E.
  - apply decimalTime_law.
  - eapply (history_load 10 sampleKeys); [reflexivity| |exact El]. apply NoDup_singleton.
  - vm_compute. split; discriminate.
  - exact Ep.
  - exact Hid.
  - exact Es.
  - rewrite Hexp in He. injection He as <-.
    by rewrite (Hok (savedClient sealed) "open" 20 20 20 d).
Defined.
