(* ===== verification/ServerStart.v ===== *)
(** * Starting the server (src/server/tunnel/server.go)

    [Start] checks the configuration, loads the identity, opens the port and puts
    the components together: the trackers with what the disk has for them, the
    logs, the keys, the limiters. Everything the other files assume of a server
    that has started is established here. Loading the key pair, opening the port
    and making a path are parameters. *)

From S2P Require Import Prelude.
From S2P Require Import GoStd.
From S2P Require Import Disk.
From S2P Require Import Protocol.
From S2P Require Import GoCrypto.
From S2P Require Import Credseal.
From S2P Require Import CertificateGate.
From S2P Require Import EventRing.
From S2P Require Import LogEntries.
From S2P Require Import ConfigData.
From S2P Require Import EntrySecurity.
From S2P Require Import StreamLimiter.
From S2P Require Import ConnLimiter.
From S2P Require Import PermanentBlocks.
From S2P Require Import FailTracker.
From S2P Require Import ServerConfig.
From S2P Require Import Authorization.
From S2P Require Import CredentialSeal.
From S2P Require Import Reverse.
From S2P Require Import Lifecycle.
From S2P Require Import Server.
From S2P Require Import SavedLogin.

#[local] Open Scope Z_scope.

(** The goroutines [Start] begins, in order. *)
Inductive serverWorker :=
  | WorkAccept | WorkSealRotation | WorkBlockHits | WorkTrackerCleanup | WorkLimiterCleanup | WorkMonitor | WorkAudit.

Section Start.
Context `{SealCrypto} `{PEM} `{X509} `{PlainCodec : JSONCodec PlainCredential}
  `{EnvelopeCodec : JSONCodec encryptedEnvelope} `{ConfigCodec : YAMLCodec Config} `{LocalTime}
  `{StateCodec : JSONCodec (list persistedBlockedIP)} `{LogCodec : JSONCodec RequestLogEntry}.
Variable emptyEntry : RequestLogEntry.
Variable srg : SetRange.
(** [tls.LoadX509KeyPair]: the certificates of the chain. *)
Variable LoadX509KeyPair : Disk → string → string → result (list chars).
(** [net.Listen]: an error, if any. *)
Variable Listen : string → option string.

Record startedServer := mkStarted {
  ss_server : Server;
  ss_config : Config;
  ss_users : gmap string UserConfig;
  ss_configuredReverse : gset string;
  ss_certificateGateKey : CertificateGateKey;
  ss_workers : list serverWorker
}.

(** The list of permanent blocks beside the state file, unless configured. *)
Definition with_permanent_file (cfg : Config) : Config :=
  let r := cfg_Runtime cfg in
  let file := if String.eqb (TrimSpace (rt_PermanentBlockFile r)) "" && negb (String.eqb (TrimSpace (rt_StateFile r)) "")
              then JoinPath (Dir (rt_StateFile r)) "server-permanent-block.txt" else rt_PermanentBlockFile r in
  mkConfig (cfg_ConfigPath cfg) (cfg_ConfigVersion cfg) (cfg_Requires cfg) (cfg_Compatibility cfg)
    (cfg_ListenAddr cfg) (cfg_MonitorAddr cfg) (cfg_LogLevel cfg) (cfg_TLS cfg) (cfg_Users cfg)
    (cfg_Forwards cfg) (cfg_Security cfg) (cfg_CredentialSealKeys cfg)
    (mkRuntimeConfig (rt_StateFile r) file (rt_RequestLogFile r) (rt_BusinessLogFile r) (rt_EntryTrafficLogFile r)
       (rt_FlowTrafficLogFile r) (rt_RecentEvents r)).

Definition server_users (cfg : Config) : gmap string UserConfig :=
  foldl (λ m u, <[us_Username u := u]> m) ∅ (cfg_Users cfg).

(** The listener with nothing started yet, and [Close] run to its end. *)
Definition idleLifecycle : serverLifecycle := mkLifecycle false false true ∅ 0 AcceptDone CloseNot ∅ [] true.
Definition close_now (s : serverLifecycle) : serverLifecycle := Nat.iter 12 (λ s, default s (closeServer s)) s.

(** The workers of a server, after the accept loop. *)
Definition server_workers (cfg : Config) : list serverWorker :=
  [WorkSealRotation; WorkBlockHits; WorkTrackerCleanup; WorkLimiterCleanup]
  ++ (if String.eqb (TrimSpace (cfg_MonitorAddr cfg)) "" then [] else [WorkMonitor]) ++ [WorkAudit].
Definition begin_workers (workers : list serverWorker) (s : serverLifecycle) : serverLifecycle :=
  foldl (λ s _, (beginWorker s).2) s workers.

(** The tracker with what the disk has for it; errors are only logged. [clk] gives
    the readings of the clock. *)
Definition load_tracker (cfg : Config) (clk : nat → Time) (d : Disk) : failTracker * Disk * list string :=
  let r := cfg_Runtime cfg in
  let '(f, d, loaded) := load srg (newFailTracker (cfg_Security cfg) (rt_StateFile r) (rt_PermanentBlockFile r)) (clk 0%nat) d in
  let '(f, d, reconciled) :=
    reconcileSuccessfulIPHistory emptyEntry srg f (rt_RequestLogFile r) (clk 1%nat) (clk 2%nat) d in
  (f, d, match loaded with Ok _ => [] | Err e => ["load runtime state failed: " +:+ e] end
         ++ match reconciled with Ok _ => [] | Err e => ["reconcile successful IP history failed: " +:+ e] end).

(** The server, and the lifecycle of the listener: [None] when the port was never
    opened. *)
Definition Start (hasLogf : bool) (cfg : Config) (clk : nat → Time) (d : Disk)
    : Disk * option serverLifecycle * result startedServer :=
  let cfg := ApplyDefaults cfg in
  match ValidateConfig cfg with
  | Err e => (d, None, Err e)
  | Ok _ =>
  match LoadX509KeyPair d (tc_CertFile (cfg_TLS cfg)) (tc_KeyFile (cfg_TLS cfg)) with
  | Err e => (d, None, Err ("load server TLS identity files: " +:+ e))
  | Ok [] => (d, None, Err "load server TLS identity files: certificate chain is empty")
  | Ok (cert :: _) =>
  match CertificateGateKeyFromDER cert with
  | Err e => (d, None, Err e)
  | Ok key =>
  match Listen (cfg_ListenAddr cfg) with
  | Some e => (d, None, Err e)
  | None =>
      let cfg := with_permanent_file cfg in
      let r := cfg_Runtime cfg in
      let '(fails, d, lines) := load_tracker cfg clk d in
      let credential := mkCredentialState (cfg_ConfigPath cfg) (cfg_CredentialSealKeys cfg) ∅ None [] in
      match loadCredentialSealKeys (clk 3%nat) credential d with
      | (_, d, Err e) => (d, Some (close_now idleLifecycle), Err e)
      | (credential, d, Ok _) =>
          let workers := server_workers cfg in
          let lifecycle := begin_workers workers startedLifecycle in
          let server :=
            mkServer lifecycle fails credential emptyStore (Some (newRuntimeEventRing (rt_RecentEvents r)))
              (newJSONLLog (rt_RequestLogFile r)) (newJSONLLog (rt_BusinessLogFile r))
              (newJSONLLog (rt_EntryTrafficLogFile r))
              (Some (newAsyncEntryTrafficLog (sec_EntryTrafficLogQueueSize (cfg_Security cfg))))
              (newJSONLLog (rt_FlowTrafficLogFile r)) 0
              (Some (newPermanentBlockHitAggregator defaultPermanentBlockHitLogInterval))
              (Some (newConnectionLimiter (cfg_Security cfg))) (Some (newUserStreamLimiter (cfg_Security cfg)))
              zeroCounters d (if hasLogf then lines else []) in
          (d, Some lifecycle,
           Ok (mkStarted server cfg (server_users cfg) (prepareConfiguredForwards cfg) key (WorkAccept :: workers)))
      end
  end end end end.

(** ** What is ready *)

Lemma reconcile_inv n f path now clock d :
  fail_inv n f → fail_inv n (reconcileSuccessfulIPHistory emptyEntry srg f path now clock d).1.1.
Proof.
  intros Hf. unfold reconcileSuccessfulIPHistory.
  destruct (scanRecentSuccessfulRequestIPs _ _ _ _ _) as [visits scanErr].
  assert (∀ s, fail_inv n s.1 → fail_inv n (foldl (reconcile_visit (localMidnight now) clock) s visits).1) as Hv.
  { induction visits as [|v visits IH]; intros [g recent] Hg; [done|]. cbn [foldl]. apply IH. cbn.
    destruct (negb _); [by apply markSuccessful_inv|done]. }
  specialize (Hv (f, ∅) Hf). destruct (foldl _ _ visits) as [g recent]. cbn in Hv.
  unfold removePermanentSuccessful. destruct (size recent =? 0)%nat; [done|].
  destruct (removePermanentBlockedIPs _ _ _ _) as [d' [removed|e]]; [|done].
  apply shrink_permanent_inv; [done|set_solver].
Qed.

Lemma load_tracker_inv cfg clk d : ∃ n, fail_inv n (load_tracker cfg clk d).1.1.
Proof.
  unfold load_tracker.
  pose proof (load_ok srg (cfg_Security cfg) (rt_StateFile (cfg_Runtime cfg)) (rt_PermanentBlockFile (cfg_Runtime cfg))
                (clk 0%nat) d) as Hl.
  destruct (load _ _ _ _) as [[f d1] loaded]. apply loaded_inv in Hl. cbn in Hl.
  pose proof (reconcile_inv _ f (rt_RequestLogFile (cfg_Runtime cfg)) (clk 1%nat) (clk 2%nat) d1 Hl) as Hr.
  destruct (reconcileSuccessfulIPHistory _ _ _ _ _ _ _) as [[f' d2] reconciled]. by eexists.
Qed.

(** The table of users has every user under its name. *)
Lemma server_users_lookup cfg name u :
  NoDup (map us_Username (cfg_Users cfg)) →
  server_users cfg !! name = Some u ↔ u ∈ cfg_Users cfg ∧ us_Username u = name.
Proof.
  unfold server_users. set (users := cfg_Users cfg). clearbody users. intros Hnd.
  induction users as [|v users IH] using rev_ind.
  { cbn. rewrite lookup_empty. set_solver. }
  rewrite map_app in Hnd. apply NoDup_app in Hnd as (Hnd & Hv & _). specialize (IH Hnd).
  rewrite foldl_snoc, lookup_insert_Some, IH, elem_of_app, list_elem_of_singleton.
  assert (∀ w, w ∈ users → us_Username w ≠ us_Username v) as Hne.
  { intros w Hw E. apply (Hv (us_Username w)); [apply list_elem_of_fmap; by exists w|rewrite E; cbn; by left]. }
  naive_solver.
Qed.

Lemma begin_workers_spec workers s :
  lifecycle_inv s → lc_closing s = false →
  lifecycle_inv (begin_workers workers s) ∧ lc_closing (begin_workers workers s) = false ∧
  lc_listening (begin_workers workers s) = lc_listening s ∧
  lc_workers (begin_workers workers s) = (length workers + lc_workers s)%nat.
Proof.
  revert s. unfold begin_workers. induction workers as [|w workers IH]; intros s Hi Hc; [done|]. cbn [foldl].
  assert (lc_closing (beginWorker s).2 = false ∧ lc_listening (beginWorker s).2 = lc_listening s ∧
          lc_workers (beginWorker s).2 = S (lc_workers s)) as (E1 & E2 & E3) by (unfold beginWorker; by rewrite Hc).
  destruct (IH (beginWorker s).2 (begin_inv s Hi) E1) as (I1 & I2 & I3 & I4).
  split_and!; [done|done|by rewrite I3|]. rewrite I4, E3. cbn. lia.
Qed.

End Start.

(** ** A server that starts *)

Section Sample.
#[local] Existing Instances Toy.toyPEM Toy.toyCrypto Toy.toyLaws Toy.plainCodec Toy.envelopeCodec sampleYAML decimalTime.
#[local] Instance rawX509 : X509 := λ der, Ok der.
#[local] Instance noState : JSONCodec (list persistedBlockedIP) :=
  {| marshal _ := Ok (to_chars "state"); unmarshal _ _ := Err "not read" |}.
#[local] Instance noLog : JSONCodec RequestLogEntry :=
  {| marshal _ := Ok (to_chars "entry"); unmarshal _ _ := Err "not read" |}.

Definition startSample (cfg : Config) : Disk * option serverLifecycle * result startedServer :=
  Start (mkRequestLogEntry "" "" "" "" "" (mkOpenRequest "" "" "" None "" "" 0 "" "" "" "" "") "" ""
       (mkOpenResponse false "" "" "" "" "" None) "" 0)
    canonicalSetRange (λ _ _ _, Ok [to_chars "certificate"]) (λ _, None) true cfg (λ i, Z.of_nat i) (goodDisk ∅).

Example sample_starts :
  match (startSample sampleConfig).2 with
  | Ok st => (ss_workers st, lc_workers (sv_lifecycle (ss_server st)), map_to_list (ss_users st))
  | Err e => ([], 0%nat, [])
  end = ([WorkAccept; WorkSealRotation; WorkBlockHits; WorkTrackerCleanup; WorkLimiterCleanup; WorkMonitor; WorkAudit], 7%nat,
         [("alice", mkUserConfig "alice" "hash" false); ("bob", mkUserConfig "bob" "" true)]).
Proof. vm_compute. reflexivity. Qed.
End Sample.
