(* ===== verification/AdminConfig.v ===== *)
(** * The configuration form of the server's interface (src/server/gui:
    admin_config_mapping, admin_forward_mapping, admin_forward_validation and
    the handler that saves the form)

    The page shows the configuration as a form ([adminConfigFromTunnel]); a
    form that is sent back is checked ([validateAdminForwardsForSave...]), turned
    into a configuration ([adminConfigToTunnel]) and saved. The sockets the
    check opens to see whether a port is free or a target answers are
    parameters, and so is whether the file can be written. The properties are in AdminSave.v and
    AdminRoundTrip.v. *)

From S2P Require Import Prelude.
From S2P Require Import GoStd.
From S2P Require Import Disk.
From S2P Require Import Netaddr.
From S2P Require Import ConfigData.
From S2P Require Import ServerConfig.
From S2P Require Import CredentialSeal.

#[local] Open Scope Z_scope.

(** ** The form *)

Record adminTLS := mkAdminTLS {
  at_CertFile : string;
  at_KeyFile : string;
  at_MinVersion : string
}.

Record adminUser := mkAdminUser {
  au_Username : string;
  au_PasswordHash : string;
  au_Disabled : bool
}.

Record adminForward := mkAdminForward {
  af_Name : string;
  af_Direction : string;
  af_Port : string;
  af_ListenAddr : string;
  af_ServerTarget : string;
  af_Owner : string;
  af_AllowedUsers : list string
}.

Record adminSecurity := mkAdminSecurity {
  as_HandshakeTimeoutSec : Z;
  as_DialTimeoutSec : Z;
  as_MaxHandshakeBytes : Z;
  as_MaxConcurrentConnections : Z;
  as_MaxConcurrentConnectionsPerIP : Z;
  as_ConnectionRateWindowSec : Z;
  as_MaxNewConnectionsPerIPWindow : Z;
  as_MaxConnectionsPerIPPerWindow : Z;
  as_MaxTrackedConnectionIPs : Z;
  as_ConnectionLimiterCleanupSec : Z;
  as_MaxTrackedFailureIPs : Z;
  as_FailureTrackerCleanupSec : Z;
  as_EntryTrafficLogQueueSize : Z;
  as_MaxConcurrentStreamsPerUser : Z;
  as_StreamRateLimitBytesPerSec : Z;
  as_AuthFailWindowSec : Z;
  as_AuthFailThreshold : Z;
  as_AuthFailBlockSec : Z
}.

Record adminCredential := mkAdminCredential {
  ac_KeyID : string;
  ac_PrivateKeyFile : string;
  ac_PublicKeyFile : string;
  ac_ExpiresAt : string;
  ac_Active : bool
}.

Record adminConfig := mkAdminConfig {
  adm_ListenAddr : string;
  adm_MonitorAddr : string;
  adm_LogLevel : string;
  adm_TLS : adminTLS;
  adm_Users : list adminUser;
  adm_Forwards : list adminForward;
  adm_Security : adminSecurity;
  adm_CredentialSeal : adminCredential
}.

(** ** Lists of names *)

(** [strings.FieldsFunc]; [cur] is the field under way, backwards. *)
Fixpoint fields_func (sep : Ascii.ascii → bool) (cur l : chars) : list chars :=
  let field := match cur with [] => [] | _ => [reverse cur] end in
  match l with
  | [] => field
  | c :: l => if sep c then field ++ fields_func sep [] l else fields_func sep (c :: cur) l
  end.
Definition FieldsFunc (s : string) (sep : Ascii.ascii → bool) : list string :=
  map of_chars (fields_func sep [] (to_chars s)).

Definition list_sep (c : Ascii.ascii) : bool :=
  Ascii.eqb c ","%char || Ascii.eqb c ";"%char || (code c =? 10) || (code c =? 13)
  || (code c =? 9) || (code c =? 32).

(** The loops that keep what they have not seen: [out] and [seen]. *)
Definition keep_new (s : list string * gset string) (item : string) : list string * gset string :=
  let '(out, seen) := s in
  if bool_decide (item ∈ seen) then s else (out ++ [item], {[ item ]} ∪ seen).

Definition keep_item (s : list string * gset string) (field : string) : list string * gset string :=
  let item := TrimSpace field in
  if String.eqb item "" then s else keep_new s item.

Definition splitList (text : string) : list string :=
  (foldl keep_item ([], ∅) (FieldsFunc text list_sep)).1.

Definition cleanAllowedUsers (items : list string) : list string :=
  (foldl (λ s item, foldl keep_new s (splitList item)) ([], ∅) items).1.

Fixpoint firstAllowedUser (users : list string) : string :=
  match users with
  | [] => ""
  | user :: users =>
      let user := TrimSpace user in
      if negb (String.eqb user "") then user else firstAllowedUser users
  end.

(** ** Forwards *)

Definition serverLocalForwardHost : string := "127.0.0.1".

Definition forwardDirectionOrDefault (direction : string) : string :=
  let direction := TrimSpace direction in
  if String.eqb direction DirectionServerToClient then DirectionServerToClient
  else DirectionClientToServer.

Definition parseForwardPort (portText : string) : result Z :=
  if String.eqb portText "" then Err "empty port"
  else if negb (forallb (λ c, (48 <=? code c) && (code c <=? 57)) (to_chars portText))
  then Err "port must be numeric"
  else match Atoi portText with
  | Some port => if (port <=? 0) || (65535 <? port) then Err "port out of range" else Ok port
  | None => Err "port out of range"
  end.

Definition adminForwardAddress (addr portText : string) : result string :=
  let addr := TrimSpace addr in
  if negb (String.eqb addr "") then
    match SplitHostPort addr with
    | Err _ => Err "invalid address"
    | Ok (host, port) =>
        if String.eqb (Trim host "[]") "" then Err "invalid address"
        else _ ← parseForwardPort port; Ok addr
    end
  else _ ← parseForwardPort portText; Ok (JoinHostPort serverLocalForwardHost portText).

Definition forwardDisplayName (fwd : adminForward) : string :=
  if negb (String.eqb (TrimSpace (af_Name fwd)) "") then TrimSpace (af_Name fwd)
  else if negb (String.eqb (TrimSpace (af_ListenAddr fwd)) "") then TrimSpace (af_ListenAddr fwd)
  else if negb (String.eqb (TrimSpace (af_ServerTarget fwd)) "") then TrimSpace (af_ServerTarget fwd)
  else "未命名转发".

(** [None] when the forward is empty. *)
Definition adminForwardToTunnel (item : adminForward) : result (option ForwardConfig) :=
  let name := TrimSpace (af_Name item) in
  let direction := forwardDirectionOrDefault (af_Direction item) in
  let portText := TrimSpace (af_Port item) in
  let q := "forward " +:+ quote (forwardDisplayName item) in
  if String.eqb name "" && String.eqb portText "" && String.eqb (TrimSpace (af_ListenAddr item)) ""
     && String.eqb (TrimSpace (af_ServerTarget item)) ""
  then Ok None
  else if String.eqb direction DirectionServerToClient then
    match adminForwardAddress (TrimSpace (af_ListenAddr item)) portText with
    | Err _ => Err (q +:+ " listen address is invalid")
    | Ok addr =>
        let port := match SplitHostPort addr with Ok (_, port) => port | Err _ => "" end in
        let listenPort := default 0 (Atoi port) in
        Ok (Some (mkForwardConfig name direction listenPort addr "" []))
    end
  else
    match adminForwardAddress (TrimSpace (af_ServerTarget item)) portText with
    | Err _ => Err (q +:+ " target address is invalid")
    | Ok addr => Ok (Some (mkForwardConfig name direction 0 "" addr []))
    end.

Definition forwardPortText (fwd : ForwardConfig) : string :=
  let reverse := String.eqb (forwardDirectionOrDefault (fw_Direction fwd)) DirectionServerToClient in
  if reverse && (0 <? fw_ListenPort fwd) then Itoa (fw_ListenPort fwd)
  else
    let target := if reverse then TrimSpace (fw_ListenAddr fwd) else TrimSpace (fw_ServerTarget fwd) in
    if String.eqb target "" then ""
    else match SplitHostPort target with
    | Err _ => ""
    | Ok (_, portText) => portText
    end.

(** ** From the configuration to the form *)

Definition activeCredential (keys : list CredentialSealKeyConfig) : adminCredential :=
  match keys with
  | [] => mkAdminCredential "" "" "" "" false
  | first :: _ =>
      let selected := default first (List.find ck_Active keys) in
      mkAdminCredential (ck_KeyID selected) (ck_PrivateKeyFile selected) (ck_PublicKeyFile selected)
        (ck_ExpiresAt selected) (ck_Active selected)
  end.

Definition forward_form (fwd : ForwardConfig) : adminForward :=
  let allowedUsers := cleanAllowedUsers (fw_AllowedUsers fwd) in
  mkAdminForward (fw_Name fwd) (forwardDirectionOrDefault (fw_Direction fwd)) (forwardPortText fwd)
    (fw_ListenAddr fwd) (fw_ServerTarget fwd) (firstAllowedUser allowedUsers) allowedUsers.

Definition adminConfigFromTunnel (cfg : Config) : adminConfig :=
  let cfg := ApplyDefaults cfg in
  let s := cfg_Security cfg in
  mkAdminConfig (cfg_ListenAddr cfg) (cfg_MonitorAddr cfg) (cfg_LogLevel cfg)
    (mkAdminTLS (tc_CertFile (cfg_TLS cfg)) (tc_KeyFile (cfg_TLS cfg)) (tc_MinVersion (cfg_TLS cfg)))
    (map (λ u, mkAdminUser (us_Username u) (us_PasswordHash u) (us_Disabled u)) (cfg_Users cfg))
    (map forward_form (cfg_Forwards cfg))
    (mkAdminSecurity (sec_HandshakeTimeoutSec s) (sec_DialTimeoutSec s) (sec_MaxHandshakeBytes s)
       (sec_MaxConcurrentConnections s) (sec_MaxConcurrentConnectionsPerIP s)
       (sec_ConnectionRateWindowSec s) (sec_MaxNewConnectionsPerIPWindow s) 0
       (sec_MaxTrackedConnectionIPs s) (sec_ConnectionLimiterCleanupSec s) (sec_MaxTrackedFailureIPs s)
       (sec_FailureTrackerCleanupSec s) (sec_EntryTrafficLogQueueSize s)
       (sec_MaxConcurrentStreamsPerUser s) (sec_StreamRateLimitBytesPerSec s)
       (sec_AuthFailWindowSec s) (sec_AuthFailThreshold s) (sec_AuthFailBlockSec s))
    (activeCredential (cfg_CredentialSealKeys cfg)).

(** ** From the form to the configuration *)

Definition form_users (users : list adminUser) : list UserConfig :=
  omap (λ item,
    let username := TrimSpace (au_Username item) in
    if String.eqb username "" && String.eqb (TrimSpace (au_PasswordHash item)) "" then None
    else Some (mkUserConfig username (TrimSpace (au_PasswordHash item)) (au_Disabled item))) users.

(** [append(item.AllowedUsers, item.Owner)] *)
Definition form_allowed (item : adminForward) : list string :=
  cleanAllowedUsers (af_AllowedUsers item ++ [af_Owner item]).

Definition form_forwards (items : list adminForward) : result (list ForwardConfig) :=
  fold_err (λ fwds item,
    fwd ← adminForwardToTunnel item;
    match fwd with
    | None => Ok fwds
    | Some f => Ok (fwds ++ [mkForwardConfig (fw_Name f) (fw_Direction f) (fw_ListenPort f)
                               (fw_ListenAddr f) (fw_ServerTarget f) (form_allowed item)])
    end) [] items.

Definition form_security (s : adminSecurity) : SecurityConfig :=
  mkSecurityConfig (as_HandshakeTimeoutSec s) (as_DialTimeoutSec s) (as_MaxHandshakeBytes s)
    (as_MaxConcurrentConnections s) (as_MaxConcurrentConnectionsPerIP s)
    (as_ConnectionRateWindowSec s) (as_MaxNewConnectionsPerIPWindow s)
    (as_MaxConnectionsPerIPPerWindow s) (as_MaxTrackedConnectionIPs s)
    (as_ConnectionLimiterCleanupSec s) (as_MaxTrackedFailureIPs s) (as_FailureTrackerCleanupSec s)
    (as_EntryTrafficLogQueueSize s) (as_MaxConcurrentStreamsPerUser s)
    (as_StreamRateLimitBytesPerSec s) (as_AuthFailWindowSec s) (as_AuthFailThreshold s)
    (as_AuthFailBlockSec s).

Section Forms.
Context `{LocalTime}.

Definition credentialSealFromAdmin (form : adminCredential) (existing : list CredentialSealKeyConfig)
    : result (list CredentialSealKeyConfig) :=
  let keyID := TrimSpace (ac_KeyID form) in
  let privateFile := TrimSpace (ac_PrivateKeyFile form) in
  let publicFile := TrimSpace (ac_PublicKeyFile form) in
  let expiresAt := TrimSpace (ac_ExpiresAt form) in
  if String.eqb keyID "" && String.eqb privateFile "" && String.eqb publicFile ""
     && String.eqb expiresAt ""
  then Ok []
  else if String.eqb keyID "" || String.eqb privateFile "" || String.eqb publicFile ""
          || String.eqb expiresAt ""
  then Err "密封凭据配置不完整，请填写密钥ID、私钥、公钥和过期时间"
  else match ParseRFC3339 expiresAt with
  | None => Err "密封凭据过期时间格式不正确，请使用 RFC3339"
  | Some _ =>
      Ok (map (set_active false) (filter (λ k, TrimSpace (ck_KeyID k) ≠ keyID) existing)
          ++ [mkCredentialSealKeyConfig keyID privateFile publicFile expiresAt true])
  end.

Definition adminConfigToTunnel (form : adminConfig) (existing : Config) : result Config :=
  let t := adm_TLS form in
  forwards ← form_forwards (adm_Forwards form);
  keys ← credentialSealFromAdmin (adm_CredentialSeal form) (cfg_CredentialSealKeys existing);
  Ok (ApplyDefaults (mkConfig (cfg_ConfigPath existing) (cfg_ConfigVersion existing)
        (cfg_Requires existing) (cfg_Compatibility existing)
        (TrimSpace (adm_ListenAddr form)) (TrimSpace (adm_MonitorAddr form))
        (TrimSpace (adm_LogLevel form))
        (mkTLSConfig (TrimSpace (at_CertFile t)) (TrimSpace (at_KeyFile t)) (TrimSpace (at_MinVersion t)))
        (form_users (adm_Users form)) forwards (form_security (adm_Security form)) keys
        (cfg_Runtime existing))).

End Forms.

(** ** Checking the form *)

Inductive issueLevel := adminIssueError | adminIssueWarning.
#[export] Instance issueLevel_eq_dec : EqDecision issueLevel.
Proof. solve_decision. Defined.

Record adminConfigIssue := mkIssue {
  is_Level : issueLevel;
  is_Field : string;
  is_Message : string
}.

Definition hasErrors (issues : list adminConfigIssue) : bool :=
  existsb (λ i, bool_decide (is_Level i = adminIssueError)) issues.

Definition issue_text (i : adminConfigIssue) : string :=
  if negb (String.eqb (is_Field i) "") then is_Field i +:+ ": " +:+ is_Message i else is_Message i.

Definition summary (issues : list adminConfigIssue) : string :=
  match List.find (λ i, bool_decide (is_Level i = adminIssueError)) issues with
  | Some i => issue_text i
  | None => match issues with [] => "" | i :: _ => issue_text i end
  end.

Definition addError (issues : list adminConfigIssue) (field message : string) : list adminConfigIssue :=
  issues ++ [mkIssue adminIssueError field message].

Definition adminForwardIsEmpty (item : adminForward) : bool :=
  String.eqb (TrimSpace (af_Name item)) "" && String.eqb (TrimSpace (af_Port item)) ""
  && String.eqb (TrimSpace (af_ListenAddr item)) "" && String.eqb (TrimSpace (af_ServerTarget item)) ""
  && (length (form_allowed item) =? 0)%nat.

Definition adminForwardTargetAddrForValidation (item : adminForward) : string :=
  if negb (String.eqb (TrimSpace (af_ServerTarget item)) "") then TrimSpace (af_ServerTarget item)
  else if negb (String.eqb (TrimSpace (af_Port item)) "")
  then JoinHostPort serverLocalForwardHost (TrimSpace (af_Port item))
  else TrimSpace (af_ServerTarget item).

Definition adminForwardListenAddrForValidation (item : adminForward) : string :=
  if negb (String.eqb (TrimSpace (af_ListenAddr item)) "") then TrimSpace (af_ListenAddr item)
  else if negb (String.eqb (TrimSpace (af_Port item)) "")
  then JoinHostPort serverLocalForwardHost (TrimSpace (af_Port item))
  else TrimSpace (af_ListenAddr item).

Definition adminForwardAddressHost (addr : string) : result string :=
  match SplitHostPort (TrimSpace addr) with
  | Err _ => Err "invalid address"
  | Ok (host, port) =>
      if String.eqb (Trim host "[]") "" then Err "invalid address"
      else _ ← parseForwardPort port; Ok (Trim host "[]")
  end.

Definition isAdminLoopbackHost (host : string) : bool := String.eqb host "127.0.0.1".

Definition adminUserSet (users : list adminUser) : gset string :=
  foldl (λ out user, let username := TrimSpace (au_Username user) in
           if String.eqb username "" then out else {[ username ]} ∪ out) ∅ users.

Definition normalizeAdminHostPort (addr : string) : string :=
  match SplitHostPort (TrimSpace addr) with
  | Err _ => ToLower (TrimSpace addr)
  | Ok (host, port) => JoinHostPort (ToLower (Trim host "[]")) port
  end.

Definition existingPassiveForwardPorts (forwards : list ForwardConfig) : gset string :=
  foldl (λ out fwd,
    if negb (String.eqb (forwardDirectionOrDefault (fw_Direction fwd)) DirectionServerToClient) then out
    else
      let listenAddr := TrimSpace (fw_ListenAddr fwd) in
      if String.eqb listenAddr "" then out else {[ normalizeAdminHostPort listenAddr ]} ∪ out)
    ∅ forwards.

(** The sockets the check opens. The [i]th forward's turn: what [net.Listen]
    answers for its address, with what closing gives, and what [net.DialTimeout]
    answers. *)
Record probes := mkProbes {
  pr_Listen : nat → string → result (result unit);
  pr_Dial : nat → string → Duration → result (result unit)
}.

Definition canListenOnTCP (net : probes) (i : nat) (addr : string) : result unit :=
  match pr_Listen net i addr with Err e => Err e | Ok closed => closed end.
Definition canConnectTCP (net : probes) (i : nat) (addr : string) (timeout : Duration) : result unit :=
  match pr_Dial net i addr timeout with Err e => Err e | Ok closed => closed end.

Record adminForwardValidationOptions := mkOptions {
  op_Existing : Config;
  op_ServiceRunning : bool;
  op_CheckForwardTargetReachability : bool;
  op_CheckPassivePortAvailability : bool;
  op_DialTimeout : Duration
}.

Definition shouldSkipPassivePortProbe (opts : adminForwardValidationOptions)
    (existingPassivePorts : gset string) (listenAddr : string) : bool :=
  if negb (op_ServiceRunning opts) then false
  else bool_decide (normalizeAdminHostPort listenAddr ∈ existingPassivePorts).

Section Validation.
Variable net : probes.
Variable opts : adminForwardValidationOptions.
Variable users : gset string.
Variable existingPassivePorts : gset string.
Variable dialTimeout : Duration.

(** The rest of a turn of the loop, for a reverse forward; the state is the
    issues and [passiveOwners]. *)
Definition validate_reverse (i : nat) (item : adminForward) (allowedUsers : list string)
    (issues : list adminConfigIssue) (passiveOwners : gmap string string)
    : list adminConfigIssue * gmap string string :=
  let fieldPrefix := "forwards[" +:+ Itoa (Z.of_nat i) +:+ "]" in
  let listenAddr := adminForwardListenAddrForValidation item in
  let bad := match adminForwardAddressHost listenAddr with
             | Err _ => true
             | Ok host => negb (isAdminLoopbackHost host)
             end in
  if bad then
    (addError issues (fieldPrefix +:+ ".listen_addr") "反向监听地址必须填写为 127.0.0.1:端口", passiveOwners)
  else
    let '(issues, passiveOwners) :=
      match allowedUsers with
      | [owner] =>
          let normalized := normalizeAdminHostPort listenAddr in
          match passiveOwners !! normalized with
          | Some previousOwner =>
              if negb (String.eqb previousOwner owner)
              then (addError issues (fieldPrefix +:+ ".allowed_users")
                      ("passive port is already assigned to " +:+ previousOwner), passiveOwners)
              else (issues, <[normalized := owner]> passiveOwners)
          | None => (issues, <[normalized := owner]> passiveOwners)
          end
      | _ => (addError issues (fieldPrefix +:+ ".allowed_users")
                "passive ports must belong to exactly one allowed user", passiveOwners)
      end in
    let issues :=
      if op_CheckPassivePortAvailability opts
         && negb (shouldSkipPassivePortProbe opts existingPassivePorts listenAddr)
      then match canListenOnTCP net i listenAddr with
           | Err e => addError issues (fieldPrefix +:+ ".port") ("passive port is already in use: " +:+ e)
           | Ok _ => issues
           end
      else issues in
    (issues, passiveOwners).

Definition validate_target (i : nat) (item : adminForward) (direction : string)
    (issues : list adminConfigIssue) : list adminConfigIssue :=
  let field := "forwards[" +:+ Itoa (Z.of_nat i) +:+ "]" +:+ ".server_target" in
  let target := adminForwardTargetAddrForValidation item in
  match adminForwardAddressHost target with
  | Err _ => addError issues field "target address must include a host and port"
  | Ok host =>
      if negb (IsForwardTargetHost host)
      then addError issues field "目标地址必须使用 127.0.0.1 或私有 IP"
      else if String.eqb direction DirectionClientToServer && op_CheckForwardTargetReachability opts
      then match canConnectTCP net i target dialTimeout with
           | Err e => addError issues field ("forward target is not reachable: " +:+ e)
           | Ok _ => issues
           end
      else issues
  end.

Definition validate_forward (s : list adminConfigIssue * gmap string string) (indexed : nat * adminForward)
    : list adminConfigIssue * gmap string string :=
  let '(issues, passiveOwners) := s in
  let '(i, item) := indexed in
  if adminForwardIsEmpty item then s
  else
    let fieldPrefix := "forwards[" +:+ Itoa (Z.of_nat i) +:+ "]" in
    let direction := TrimSpace (af_Direction item) in
    let direction := if String.eqb direction "" then DirectionClientToServer else direction in
    let issues :=
      if negb (String.eqb direction DirectionClientToServer)
         && negb (String.eqb direction DirectionServerToClient)
      then addError issues (fieldPrefix +:+ ".direction")
             "direction must be client_to_server or server_to_client"
      else issues in
    let allowedUsers := form_allowed item in
    if (length allowedUsers =? 0)%nat
    then (addError issues (fieldPrefix +:+ ".allowed_users") "at least one allowed user is required",
          passiveOwners)
    else
      let issues := foldl (λ issues username,
        if bool_decide (username ∈ users) then issues
        else addError issues (fieldPrefix +:+ ".allowed_users")
               ("allowed user " +:+ username +:+ " does not exist")) issues allowedUsers in
      if String.eqb direction DirectionServerToClient
      then validate_reverse i item allowedUsers issues passiveOwners
      else (validate_target i item direction issues, passiveOwners).

End Validation.

Definition validateAdminForwardsForSaveWithOptions (net : probes) (form : adminConfig)
    (opts : adminForwardValidationOptions) : list adminConfigIssue :=
  let users := adminUserSet (adm_Users form) in
  let existingPassivePorts := existingPassiveForwardPorts (cfg_Forwards (op_Existing opts)) in
  let dialTimeout := if op_DialTimeout opts <=? 0 then 800 * 1000000 else op_DialTimeout opts in
  (foldl (validate_forward net opts users existingPassivePorts dialTimeout) ([], ∅)
     (imap pair (adm_Forwards form))).1.

(** ** Saving the form *)

Definition MethodPost : string := "POST".

Record apiResult := mkApiResult {
  ar_OK : bool;
  ar_Message : string;
  ar_Issues : list adminConfigIssue
}.

(** What the page says for an error; [isNotExist] is [os.IsNotExist]. *)
Definition friendlyError (isNotExist : string → bool) (text : string) : string :=
  let lower := ToLower text in
  if Contains lower "listen_port conflicts with legacy listen_addr"
  then ReplaceAll text "listen_port conflicts with legacy listen_addr; keep only listen_port or use the same port"
         "反向 listen_port 与旧 listen_addr 端口冲突，请只保留 listen_port 或填写相同端口"
  else if Contains lower "loopback host " && Contains lower "is not supported; use 127.0.0.1"
  then ReplaceAll (ReplaceAll text "loopback host " "回环地址 ") "is not supported; use 127.0.0.1"
         "不再支持，请使用 127.0.0.1"
  else if Contains lower "monitor_addr must use a loopback address"
  then "monitor_addr 必须填写为 127.0.0.1:端口"
  else if Contains lower "access is denied" || Contains text "拒绝访问"
  then "没有权限执行该操作，请以管理员身份运行管理台或检查目录权限"
  else if Contains lower "global access grants"
  then "全局访问授权已废弃，请在“转发端口”页面按用户配置放通端口"
  else if Contains lower "duplicate auth user" then "用户名重复，请保留唯一用户"
  else if Contains lower "password_hash is required" then "用户缺少密码哈希，请重置密码后保存"
  else if Contains lower "port is invalid" then "端口格式不正确，请填写 1-65535 的数字"
  else if Contains lower "listen_addr must be a server-local loopback address"
  then "反向代理只能监听 127.0.0.1:端口，例如 127.0.0.1:18080"
  else if containsAny lower ["cert_file"; "key_file"; "tls identity"]
  then "TLS 证书或私钥配置不正确，请检查证书文件路径"
  else if containsAny lower ["actively refused"; "connection refused"; "connectex"]
  then "目标端口不可访问，请确认目标服务已启动且地址端口正确"
  else if containsAny lower ["timeout"; "timed out"]
  then "连接超时，请检查网络、防火墙或目标服务状态"
  else if isNotExist text then "文件不存在，请检查配置、证书或程序路径"
  else text.

Section Saving.
Context `{YAMLCodec Config} `{LocalTime}.

Definition zeroConfig : Config :=
  mkConfig "" 0 (mkRequiresConfig "") (mkCompatibilityConfig "" "" 0) "" "" "" (mkTLSConfig "" "" "")
    [] [] zeroSecurity [] (mkRuntimeConfig "" "" "" "" "" "" 0).

(** The configuration as far as it was read, and the error: [None] for none,
    [Some None] when there is no such file. A decoding error leaves the
    configuration as the decoder does; the callers do not use it then. *)
Definition readRawServerConfig (d : Disk) (path : string) : Config * option (option string) :=
  match ReadFile d (Clean path) with
  | ReadNotExist => (zeroConfig, Some None)
  | ReadErr e => (zeroConfig, Some (Some e))
  | ReadData data =>
      match yaml_unmarshal data with
      | Err e => (zeroConfig, Some (Some e))
      | Ok cfg => (ApplyDefaults cfg, None)
      end
  end.

Definition configNotWritable : string := "配置文件不可写，请以管理员身份运行或检查安装目录权限".
Definition configSaved : string := "配置已保存，重启服务后生效".

(** [body] is the decoded request, [running] what [isServerServiceRunning] says and
    [writable] what [configWriteStatus] says. The answer is the status and the
    result without the state of the page. *)
Definition handleAdminConfig (isNotExist : string → bool) (net : probes) (running : bool)
    (writable : bool * string) (configPath method : string) (body : option adminConfig) (d : Disk)
    : Disk * (Z * apiResult) :=
  let friendly := friendlyError isNotExist in
  let fail status message issues := (d, (status, mkApiResult false message issues)) in
  if negb (String.eqb method MethodPost) then fail 405 "请求方法不支持" []
  else match body with
  | None => fail 400 "配置请求格式不正确" []
  | Some form =>
      match readRawServerConfig d configPath with
      | (_, Some (Some e)) => fail 200 (friendly e) []
      | (existing, _) =>
          let issues := validateAdminForwardsForSaveWithOptions net form
                          (mkOptions existing running false true 0) in
          if hasErrors issues then fail 200 (summary issues) issues
          else match adminConfigToTunnel form existing with
          | Err e => fail 200 (friendly e) []
          | Ok cfg =>
              if negb writable.1
              then fail 200 (if String.eqb writable.2 "" then configNotWritable else writable.2) []
              else match SaveConfig d configPath cfg with
              | (d, Err e) => (d, (200, mkApiResult false (friendly e) []))
              | (d, Ok _) => (d, (200, mkApiResult true configSaved []))
              end
          end
      end
  end.

End Saving.
