(* ===== verification/AdminSave.v ===== *)
(** * Saving the configuration form of the server's interface (AdminConfig.v)

    A form that passes the check of the page has valid forwards; so a saved
    configuration loads exactly when the checks the page leaves to the server
    pass and no reverse port is used twice. *)

From S2P Require Import Prelude.
From S2P Require Import GoStd.
From S2P Require Import Disk.
From S2P Require Import Netaddr.
From S2P Require Import ConfigData.
From S2P Require Import ServerConfig.
From S2P Require Import CredentialSeal.
From S2P Require Import AdminConfig.

#[local] Open Scope Z_scope.

(** ** Texts *)

Lemma trimmed_right t :
  TrimSpace t = t → space_width (map reverse utf8_spaces) (reverse (to_chars t)) = 0%nat.
Proof.
  intros H. apply (f_equal to_chars) in H. unfold TrimSpace in H. rewrite to_of_chars in H.
  destruct (trim_front_suffix utf8_spaces (length (to_chars t)) (to_chars t)) as [p Hp].
  fold (trim_left (to_chars t)) in Hp. destruct (trim_right_prefix (trim_left (to_chars t))) as [r Hr].
  rewrite H in Hr. apply (f_equal length) in Hr as Hl1. apply (f_equal length) in Hp as Hl2.
  rewrite length_app in Hl1, Hl2. assert (p = []) as -> by (apply length_zero_iff_nil; lia).
  cbn in Hp. rewrite <-Hp in H. unfold trim_right in H.
  set (l := to_chars t) in *. clearbody l. clear -H.
  apply (f_equal reverse) in H. rewrite reverse_involutive in H. rewrite <-H.
  apply trim_front_trimmed. by rewrite length_reverse.
Qed.

Lemma chars_prefix_cut p l c m :
  Forall (λ d, 128 ≤ code d) p → code c < 128 →
  chars_prefix p (l ++ c :: m) = true → chars_prefix p l = true.
Proof.
  intros Hp Hc. revert l. induction Hp as [|d p Hd Hp IH]; intros [|x l]; cbn [app chars_prefix]; try done.
  - intros [E%Ascii.eqb_eq _]%andb_true_iff. subst d. lia.
  - intros [-> H]%andb_true_iff. by apply IH.
Qed.

Lemma spaces_multibyte :
  Forall (λ p, p ≠ [] ∧ Forall (λ d, 128 ≤ code d) p) (map reverse utf8_spaces).
Proof.
  apply Forall_forall. intros p Hp.
  assert (bool_decide (p ≠ []) && forallb (λ d, 128 <=? code d) p = true) as H.
  { revert p Hp. apply Forall_forall. vm_compute. repeat constructor. }
  apply andb_true_iff in H as [H1%bool_decide_eq_true H2]. split; [done|].
  apply Forall_forall. intros d Hd%list_elem_of_In. rewrite forallb_forall in H2. apply H2 in Hd. bool_lia.
Qed.

(** What follows an ASCII character is blank at its end only by itself. *)
Lemma space_width_cut l c m :
  l ≠ [] → code c < 128 →
  space_width (map reverse utf8_spaces) l = 0%nat →
  space_width (map reverse utf8_spaces) (l ++ c :: m) = 0%nat.
Proof.
  pose proof spaces_multibyte as Hs. rewrite Forall_forall in Hs.
  set (tbl := map reverse utf8_spaces) in *. clearbody tbl.
  destruct l as [|x l]; [done|]. intros _ Hc. cbn [app space_width].
  destruct (ascii_space x); [done|].
  destruct (List.find (λ p, chars_prefix p (x :: l ++ c :: m)) tbl) as [p|] eqn:E; [|done].
  apply List.find_some in E as [Hin Hp].
  destruct (List.find (λ p, chars_prefix p (x :: l)) tbl) as [q|] eqn:E'.
  - intros Hq. apply List.find_some in E' as [Hq'%list_elem_of_In _].
    apply Hs in Hq' as [Hq' _]. by destruct q.
  - pose proof (List.find_none _ _ E' p Hin) as Hn. cbn beta in Hn.
    rewrite app_comm_cons in Hp. apply list_elem_of_In, Hs in Hin as [_ Hin].
    apply chars_prefix_cut in Hp; [congruence|done..].
Qed.

Lemma TrimSpace_after a c t :
  Forall (λ d, plain_char d = true) (to_chars (a +:+ String c "")) →
  TrimSpace t = t → t ≠ "" → TrimSpace (a +:+ String c t) = a +:+ String c t.
Proof.
  intros Ha Ht Hne. apply trimmed_right in Ht.
  assert (to_chars (a +:+ String c t) = to_chars (a +:+ String c "") ++ to_chars t) as E.
  { rewrite !to_chars_app. cbn. by rewrite <-app_assoc. }
  apply to_chars_inj. unfold TrimSpace. rewrite to_of_chars, E.
  assert (trim_left (to_chars (a +:+ String c "") ++ to_chars t)
          = to_chars (a +:+ String c "") ++ to_chars t) as ->.
  { unfold trim_left. apply trim_front_plain; [reflexivity|].
    rewrite to_chars_app in *. cbn [to_chars String.list_ascii_of_string] in *.
    destruct (to_chars a) as [|x l]; cbn in *; by apply Forall_cons in Ha as [? _]. }
  unfold trim_right. rewrite trim_front_id; [by rewrite reverse_involutive|].
  rewrite reverse_app, to_chars_app. cbn [to_chars String.list_ascii_of_string].
  rewrite reverse_app. cbn [reverse app]. rewrite reverse_singleton. cbn [app].
  apply space_width_cut; [|rewrite to_chars_app, Forall_app in Ha; destruct Ha as [_ [Hc _]%Forall_cons];
    unfold plain_char in Hc; bool_lia|done].
  intros E'. apply (f_equal reverse) in E'. rewrite reverse_involutive in E'. apply Hne.
  apply to_chars_inj. exact E'.
Qed.

(** ** Ports and addresses *)

Lemma parseForwardPort_ok t p :
  parseForwardPort t = Ok p →
  t ≠ "" ∧ Forall (λ c, is_digit c = true) (to_chars t) ∧ Atoi t = Some p ∧ 1 ≤ p ≤ 65535.
Proof.
  unfold parseForwardPort. destruct (String.eqb_spec t ""); [done|].
  destruct (forallb _ _) eqn:Hd; [cbn [negb]|done]. destruct (Atoi t) as [m|]; [|done].
  destruct (_ || _) eqn:E; [done|]. intros [= ->]. split_and!; [done| |done|bool_lia|bool_lia].
  apply Forall_forall. intros c Hc%list_elem_of_In. rewrite forallb_forall in Hd. apply Hd in Hc.
  unfold is_digit, digit_of. rewrite Hc. reflexivity.
Qed.

Lemma parseForwardPort_Itoa p : 1 ≤ p ≤ 65535 → parseForwardPort (Itoa p) = Ok p.
Proof.
  intros Hp. unfold parseForwardPort. rewrite Itoa_neq_empty by lia.
  assert (forallb (λ c, (48 <=? code c) && (code c <=? 57)) (to_chars (Itoa p)) = true) as ->.
  { apply forallb_forall. intros c Hc%list_elem_of_In. pose proof (Itoa_digits p) as F.
    rewrite Forall_forall in F. apply F, digit_code in Hc; [bool_lia|lia]. }
  cbn [negb]. rewrite Atoi_Itoa by (unfold max_i64; lia).
  destruct (Z.leb_spec p 0); [lia|]. destruct (Z.ltb_spec 65535 p); [lia|]. done.
Qed.

Lemma digits_port t : t ≠ "" → Forall (λ c, is_digit c = true) (to_chars t) → TrimSpace t = t.
Proof. intros _ H. apply TrimSpace_plain. by apply digits_plain. Qed.

(** The address of a host without colons and a port. *)
Lemma adminForwardAddressHost_ok a host :
  adminForwardAddressHost a = Ok host →
  host ≠ "" ∧ ∃ port, splitHostPort a = Ok (host, port) ∧ 1 ≤ port ≤ 65535.
Proof.
  unfold adminForwardAddressHost, splitHostPort.
  destruct (SplitHostPort (TrimSpace a)) as [[h p]|]; [|done]. cbn [mbind result_bind].
  destruct (String.eqb_spec (Trim h "[]") ""); [done|].
  destruct (parseForwardPort p) as [port|] eqn:Ep; [|done]. cbn [mbind result_bind]. intros [= <-].
  apply parseForwardPort_ok in Ep as (_ & _ & -> & Hp). split; [done|]. exists port. split; [|done].
  destruct (Z.leb_spec port 0); [lia|]. destruct (Z.ltb_spec 65535 port); [lia|]. done.
Qed.

Lemma last_occurrence c l : has_char c l = true → ∃ u v, l = u ++ c :: v ∧ has_char c v = false.
Proof.
  induction l as [|d l IH]; [done|]. cbn [has_char existsb]. intros H.
  destruct (has_char c l) eqn:E.
  - destruct (IH eq_refl) as (u & v & -> & Hv). by exists (d :: u), v.
  - fold (has_char c l) in H. rewrite E, orb_false_r in H. apply Ascii.eqb_eq in H as <-. by exists [], l.
Qed.

(** Where the port of an address of this machine begins. *)
Lemma SplitHostPort_local t host port :
  SplitHostPort (JoinHostPort serverLocalForwardHost t) = Ok (host, port) →
  host = serverLocalForwardHost ∧ port = t.
Proof.
  change (JoinHostPort serverLocalForwardHost t) with (serverLocalForwardHost +:+ ":" +:+ t).
  set (h := to_chars serverLocalForwardHost).
  assert (to_chars (serverLocalForwardHost +:+ ":" +:+ t) = h ++ colon :: to_chars t) as El
    by (by rewrite !to_chars_app).
  unfold SplitHostPort. rewrite El.
  destruct (has_char colon (to_chars t)) eqn:Hc.
  - destruct (last_occurrence _ _ Hc) as (u & v & Et & Hv). rewrite Et.
    change (h ++ colon :: u ++ colon :: v) with (h ++ (colon :: u) ++ colon :: v). rewrite (assoc_L (++)).
    rewrite chars_last_index_app, take_app_length by done.
    rewrite has_char_app. change (has_char colon (colon :: u)) with true. rewrite orb_true_r.
    cbn. done.
  - rewrite chars_last_index_app, take_app_length by done. change (has_char colon h) with false. cbv iota.
    assert (drop (S (length h)) (h ++ colon :: to_chars t) = to_chars t) as ->.
    { change (h ++ colon :: to_chars t) with (h ++ [colon] ++ to_chars t). rewrite (assoc_L (++)).
      apply drop_app_length'. done. }
    unfold h. cbn [to_chars String.list_ascii_of_string serverLocalForwardHost app].
    change (Ascii.eqb "1"%char lbracket) with false. cbv iota.
    destruct (has_char lbracket _); [done|]. destruct (has_char rbracket _); [done|].
    intros [= <- <-]. split; [done|]. apply of_to_chars.
Qed.

(** The address of a forward: the one written, or this machine and the port. *)
Definition form_address (addr portText : string) : string :=
  if negb (String.eqb addr "") then addr
  else if negb (String.eqb portText "") then JoinHostPort serverLocalForwardHost portText
  else addr.

(** What the check accepts as an address is the address of the configuration. *)
Lemma form_address_agrees addr portText host :
  TrimSpace addr = addr → TrimSpace portText = portText →
  adminForwardAddressHost (form_address addr portText) = Ok host →
  adminForwardAddress addr portText = Ok (form_address addr portText).
Proof.
  unfold form_address, adminForwardAddressHost, adminForwardAddress. intros Ha Hp. rewrite Ha.
  destruct (String.eqb_spec addr "") as [->|Hne]; cbn [negb].
  - destruct (String.eqb_spec portText "") as [->|Hport]; cbn [negb]; [done|].
    assert (TrimSpace (JoinHostPort serverLocalForwardHost portText) = JoinHostPort serverLocalForwardHost portText) as ->.
    { apply (TrimSpace_after serverLocalForwardHost colon portText); [by repeat constructor|done..]. }
    destruct (SplitHostPort _) as [[h p]|] eqn:Es; [|done]. apply SplitHostPort_local in Es as [-> ->].
    destruct (String.eqb _ ""); [done|]. by destruct (parseForwardPort portText).
  - rewrite Ha. destruct (SplitHostPort addr) as [[h p]|]; [|done].
    destruct (String.eqb _ ""); [done|]. by destruct (parseForwardPort p).
Qed.

(** ** Lists of names *)

Definition kept (s : list string * gset string) : Prop :=
  NoDup s.1 ∧ (∀ x, x ∈ s.2 ↔ x ∈ s.1) ∧ Forall (λ x, TrimSpace x = x ∧ x ≠ "") s.1.

Lemma kept_nil : kept ([], ∅).
Proof. split_and!; [constructor|set_solver|constructor]. Qed.

Lemma keep_new_kept s x : kept s → TrimSpace x = x → x ≠ "" → kept (keep_new s x).
Proof.
  destruct s as [out seen]. intros (Hn & Hs & Hf) Hx Hne. unfold keep_new. cbn [fst snd] in *.
  case_bool_decide as Hin; [done|]. rewrite Hs in Hin. split_and!; cbn [fst snd].
  - apply NoDup_app. split; [done|]. split; [|apply NoDup_singleton].
    by intros y Hy ->%list_elem_of_singleton.
  - intros y. rewrite elem_of_union, elem_of_app, Hs, elem_of_singleton, list_elem_of_singleton. tauto.
  - apply Forall_app. by repeat constructor.
Qed.

Lemma keep_item_kept s x : kept s → kept (keep_item s x).
Proof.
  intros Hs. unfold keep_item. destruct (String.eqb_spec (TrimSpace x) ""); [done|].
  by apply keep_new_kept; [|apply TrimSpace_idemp|].
Qed.

Lemma foldl_kept {A} (f : list string * gset string → A → list string * gset string) s xs :
  (∀ s x, x ∈ xs → kept s → kept (f s x)) → kept s → kept (foldl f s xs).
Proof.
  revert s. induction xs as [|x xs IH]; intros s Hf Hs; [done|]. cbn [foldl].
  apply IH; [intros s' y Hy; apply Hf; by right|]. apply Hf; [by left|done].
Qed.

Lemma splitList_kept text : Forall (λ x, TrimSpace x = x ∧ x ≠ "") (splitList text).
Proof. apply (foldl_kept keep_item ([], ∅)); [intros; by apply keep_item_kept|apply kept_nil]. Qed.

Lemma cleanAllowedUsers_kept items :
  NoDup (cleanAllowedUsers items) ∧ Forall (λ x, TrimSpace x = x ∧ x ≠ "") (cleanAllowedUsers items).
Proof.
  assert (kept (foldl (λ s item, foldl keep_new s (splitList item)) ([], ∅) items)) as (Hn & _ & Hf);
    [|by split].
  apply foldl_kept; [|apply kept_nil]. intros s item _ Hs.
  pose proof (splitList_kept item) as Hi. rewrite Forall_forall in Hi.
  apply foldl_kept; [|done]. intros s' x Hx Hs'. by apply keep_new_kept; [|apply Hi..].
Qed.

(** ** Forwards that pass the check *)

(** The direction of a forward of the form. *)
Definition form_direction (item : adminForward) : string :=
  let direction := TrimSpace (af_Direction item) in
  if String.eqb direction "" then DirectionClientToServer else direction.

Definition item_passes (known : gset string) (item : adminForward) : Prop :=
  form_allowed item ≠ [] ∧ (∀ u, u ∈ form_allowed item → u ∈ known) ∧
  ((form_direction item = DirectionServerToClient ∧ length (form_allowed item) = 1%nat ∧
    adminForwardAddressHost (adminForwardListenAddrForValidation item) = Ok "127.0.0.1") ∨
   (form_direction item = DirectionClientToServer ∧
    ∃ host, adminForwardAddressHost (adminForwardTargetAddrForValidation item) = Ok host ∧
      IsForwardTargetHost host = true)).

(** The forward of the configuration, with its users. *)
Definition form_forward (item : adminForward) : ForwardConfig :=
  let name := TrimSpace (af_Name item) in
  if String.eqb (form_direction item) DirectionServerToClient then
    let addr := adminForwardListenAddrForValidation item in
    mkForwardConfig name DirectionServerToClient
      match splitHostPort addr with Ok (_, port) => port | Err _ => 0 end addr "" (form_allowed item)
  else mkForwardConfig name DirectionClientToServer 0 "" (adminForwardTargetAddrForValidation item)
         (form_allowed item).

Lemma empty_item item : adminForwardIsEmpty item = true → adminForwardToTunnel item = Ok None.
Proof.
  unfold adminForwardIsEmpty, adminForwardToTunnel. intros [H _]%andb_true_iff. by rewrite H.
Qed.

Lemma splitHostPort_port a host port :
  adminForwardAddressHost a = Ok host → splitHostPort a = Ok (host, port) → TrimSpace a = a →
  default 0 (Atoi match SplitHostPort a with Ok (_, p) => p | Err _ => "" end) = port.
Proof.
  unfold adminForwardAddressHost, splitHostPort. intros H1 H2 Ht. rewrite Ht in H1, H2. clear Ht. revert H1 H2.
  destruct (SplitHostPort a) as [[h p]|]; [|done]. cbn [mbind result_bind]. intros _.
  destruct (Atoi p); [|done]. destruct (_ || _); [done|]. by intros [= _ ->].
Qed.

Lemma form_address_trimmed addr portText :
  TrimSpace addr = addr → TrimSpace portText = portText →
  TrimSpace (form_address addr portText) = form_address addr portText.
Proof.
  intros Ha Hp. unfold form_address. destruct (String.eqb_spec addr ""); cbn [negb]; [|done].
  destruct (String.eqb_spec portText ""); cbn [negb]; [done|].
  by apply (TrimSpace_after serverLocalForwardHost colon portText); [by repeat constructor|..].
Qed.

Lemma item_configured known item :
  item_passes known item →
  ∃ f, adminForwardToTunnel item = Ok (Some f) ∧
    mkForwardConfig (fw_Name f) (fw_Direction f) (fw_ListenPort f) (fw_ListenAddr f) (fw_ServerTarget f)
      (form_allowed item) = form_forward item.
Proof.
  intros (Hne & Hk & Hcase). unfold adminForwardToTunnel.
  set (listen := adminForwardListenAddrForValidation item) in *.
  set (target := adminForwardTargetAddrForValidation item) in *.
  assert (listen = form_address (TrimSpace (af_ListenAddr item)) (TrimSpace (af_Port item))) as El by done.
  assert (target = form_address (TrimSpace (af_ServerTarget item)) (TrimSpace (af_Port item))) as Et by done.
  assert (forwardDirectionOrDefault (af_Direction item) = form_direction item) as ->.
  { unfold forwardDirectionOrDefault, form_direction in *.
    destruct (String.eqb_spec (TrimSpace (af_Direction item)) DirectionServerToClient) as [->|Hd]; [done|].
    destruct (String.eqb_spec (TrimSpace (af_Direction item)) ""); [done|].
    by destruct Hcase as [[E _]|[E _]]. }
  destruct (_ && _ && _ && _) eqn:Hempty.
  { apply andb_true_iff in Hempty as [[[_ Hp]%andb_true_iff Ha]%andb_true_iff Ht].
    apply String.eqb_eq in Hp, Ha, Ht. rewrite Hp, Ha in El. rewrite Hp, Ht in Et. cbn in El, Et.
    destruct Hcase as [(_ & _ & H)|(_ & host & H & _)]; [rewrite El in H|rewrite Et in H]; vm_compute in H; done. }
  unfold form_forward. fold listen target. destruct Hcase as [(Hd & _ & H)|(Hd & host & H & _)]; rewrite Hd.
  - change (String.eqb DirectionServerToClient DirectionServerToClient) with true. cbv iota.
    pose proof H as Ha. rewrite El in Ha. apply form_address_agrees in Ha; [|apply TrimSpace_idemp..].
    rewrite Ha, <-El. eexists. split; [done|]. cbn. f_equal.
    destruct (adminForwardAddressHost_ok _ _ H) as (_ & port & Hs & _). rewrite Hs.
    eapply splitHostPort_port; [exact H|exact Hs|]. rewrite El. apply form_address_trimmed; apply TrimSpace_idemp.
  - change (String.eqb DirectionClientToServer DirectionServerToClient) with false. cbv iota.
    pose proof H as Ha. rewrite Et in Ha. apply form_address_agrees in Ha; [|apply TrimSpace_idemp..].
    rewrite Ha, <-Et. by eexists.
Qed.

Lemma form_forward_valid known item :
  item_passes known item → forward_valid known (default_forward (form_forward item)).
Proof.
  intros (Hne & Hk & Hcase). destruct (cleanAllowedUsers_kept (af_AllowedUsers item ++ [af_Owner item])) as [Hn Hf].
  fold (form_allowed item) in Hn, Hf.
  assert (map TrimSpace (form_allowed item) = form_allowed item) as Ht.
  { rewrite <-(map_id (form_allowed item)) at 2. apply map_ext_in. intros x Hx%list_elem_of_In.
    rewrite Forall_forall in Hf. by apply Hf. }
  assert (∀ u, u ∈ form_allowed item → TrimSpace u ∈ known) as Hknown.
  { intros u Hu. rewrite Forall_forall in Hf. destruct (Hf u Hu) as [-> _]. by apply Hk. }
  unfold form_forward. destruct Hcase as [(Hd & Hlen & H)|(Hd & host & H & Hhost)]; rewrite Hd.
  - change (String.eqb DirectionServerToClient DirectionServerToClient) with true. cbv iota.
    destruct (adminForwardAddressHost_ok _ _ H) as (_ & port & Hs & Hp).
    set (addr := adminForwardListenAddrForValidation item) in *. clearbody addr. rewrite Hs.
    set (f := mkForwardConfig _ _ _ _ _ _).
    assert (validateReverseListenFields f = Ok tt) as Hv.
    { unfold validateReverseListenFields, f. cbn.
      destruct (Z.ltb_spec port 0); [lia|]. destruct (Z.ltb_spec 65535 port); [lia|]. cbn [orb].
      destruct (String.eqb _ ""); [done|]. rewrite Hs. cbn. rewrite Z.eqb_refl. by rewrite andb_false_r. }
    pose proof (normalize_normal f eq_refl Hv) as Hnorm.
    assert (default_forward f = normalizeReverseListenPort f) as -> by (by apply default_forward_directed).
    assert (normalizeReverseListenPort f = mkForwardConfig (TrimSpace (af_Name item)) DirectionServerToClient
              port (JoinHostPort "127.0.0.1" (Itoa port)) "" (form_allowed item)) as E.
    { unfold normalizeReverseListenPort. rewrite Hv. cbn.
      destruct (Z.eqb_spec port 0); [lia|]. cbn [andb]. destruct (Z.ltb_spec 0 port); [|lia].
      destruct (Z.leb_spec port 65535); [|lia]. done. }
    pose proof (reverse_normal_validates _ (f_equal TrimSpace (normalize_direction f)) Hnorm) as Hv'.
    rewrite E in *. unfold forward_valid. cbn [fw_AllowedUsers]. split_and!; [done|by rewrite Ht|done|].
    unfold reverse_port. cbn. destruct (Z.leb_spec port 0); [lia|].
    split_and!; [lia|lia|done|done|]. intros _. by apply splitHostPort_loopback.
  - change (String.eqb DirectionClientToServer DirectionServerToClient) with false. cbv iota.
    rewrite default_forward_directed by done. cbn.
    unfold forward_valid. cbn [fw_AllowedUsers]. split_and!; [done|by rewrite Ht|done|]. cbn. split; [done|].
    destruct (adminForwardAddressHost_ok _ _ H) as (_ & port & Hs & _). by exists host, port.
Qed.

(** ** Forms that pass the check *)

Section Passing.
Variable net : probes.
Variable opts : adminForwardValidationOptions.
Variable users : gset string.
Variable existing : gset string.
Variable timeout : Duration.

Abbreviation check := (validate_forward net opts users existing timeout).

(** A turn only adds issues, all of them errors. *)
Definition extends (issues issues' : list adminConfigIssue) : Prop :=
  ∃ more, issues' = issues ++ more ∧ Forall (λ i, is_Level i = adminIssueError) more.

#[local] Instance extends_preorder : PreOrder extends.
Proof.
  split.
  - intros l. exists []. by rewrite app_nil_r.
  - intros a b c (m & -> & Hm) (n & -> & Hn). exists (m ++ n). rewrite <-app_assoc. by rewrite Forall_app.
Qed.

Lemma extends_error issues f m : extends issues (addError issues f m).
Proof. exists [mkIssue adminIssueError f m]. split; [done|by repeat constructor]. Qed.

Lemma extends_nil issues : extends issues [] → issues = [].
Proof. intros (m & E & _). by destruct issues. Qed.
Lemma addError_not_nil issues f m : addError issues f m ≠ [].
Proof. by destruct issues. Qed.

Lemma check_users_extends field us issues :
  extends issues (foldl (λ issues username, if bool_decide (username ∈ users) then issues
    else addError issues field ("allowed user " +:+ username +:+ " does not exist")) issues us).
Proof.
  revert issues. induction us as [|u us IH]; intros issues; [done|]. cbn [foldl].
  etrans; [|apply IH]. case_bool_decide; [done|apply extends_error].
Qed.

Lemma validate_reverse_extends i item allowed issues owners :
  extends issues (validate_reverse net opts existing i item allowed issues owners).1.
Proof.
  unfold validate_reverse. destruct (match _ with Err _ => _ | Ok _ => _ end); [apply extends_error|].
  assert (∀ issues1, extends issues issues1 → extends issues
    (if op_CheckPassivePortAvailability opts && negb (shouldSkipPassivePortProbe opts existing
          (adminForwardListenAddrForValidation item))
     then match canListenOnTCP net i (adminForwardListenAddrForValidation item) with
          | Err e => addError issues1 (("forwards[" +:+ Itoa (Z.of_nat i) +:+ "]") +:+ ".port")
                       ("passive port is already in use: " +:+ e)
          | Ok _ => issues1 end else issues1)) as Hprobe.
  { intros issues1 H1. destruct (_ && _); [|done]. destruct (canListenOnTCP _ _ _); [done|].
    etrans; [done|apply extends_error]. }
  assert (∀ f m, extends issues (addError issues f m)) as Herr by (intros; apply extends_error).
  destruct allowed as [|owner [|]]; [cbn [fst]; by apply Hprobe| |cbn [fst]; by apply Hprobe].
  destruct (owners !! _) as [prev|]; [destruct (negb (String.eqb prev owner))|]; cbn [fst]; by apply Hprobe.
Qed.

Lemma validate_target_extends i item direction issues :
  extends issues (validate_target net opts timeout i item direction issues).
Proof.
  unfold validate_target. destruct (adminForwardAddressHost _); [|apply extends_error].
  destruct (negb _); [apply extends_error|]. destruct (_ && _); [|done].
  destruct (canConnectTCP _ _ _ _); [done|apply extends_error].
Qed.

Lemma check_extends s x : extends s.1 (check s x).1.
Proof.
  destruct s as [issues owners], x as [i item]. unfold validate_forward. cbn [fst].
  destruct (adminForwardIsEmpty item); [done|]. fold (form_direction item).
  assert (∀ issues1, extends issues issues1 →
    extends issues (if (length (form_allowed item) =? 0)%nat
      then (addError issues1 (("forwards[" +:+ Itoa (Z.of_nat i) +:+ "]") +:+ ".allowed_users")
              "at least one allowed user is required", owners)
      else
        let issues2 := foldl (λ issues username, if bool_decide (username ∈ users) then issues
            else addError issues (("forwards[" +:+ Itoa (Z.of_nat i) +:+ "]") +:+ ".allowed_users")
              ("allowed user " +:+ username +:+ " does not exist")) issues1 (form_allowed item) in
        if String.eqb (form_direction item) DirectionServerToClient
        then validate_reverse net opts existing i item (form_allowed item) issues2 owners
        else (validate_target net opts timeout i item (form_direction item) issues2, owners)).1) as H.
  { intros issues1 H1. destruct (_ =? 0)%nat; cbn [fst]; [etrans; [done|apply extends_error]|].
    etrans; [done|]. etrans; [apply check_users_extends|].
    destruct (String.eqb _ _); [apply validate_reverse_extends|apply validate_target_extends]. }
  apply H. destruct (_ && _); [apply extends_error|done].
Qed.

Lemma checks_extend s xs : extends s.1 (foldl check s xs).1.
Proof.
  revert s. induction xs as [|x xs IH]; intros s; [done|]. cbn [foldl].
  etrans; [apply check_extends|apply IH].
Qed.

Lemma check_users_passes field us :
  foldl (λ issues username, if bool_decide (username ∈ users) then issues
    else addError issues field ("allowed user " +:+ username +:+ " does not exist")) [] us = [] →
  ∀ u, u ∈ us → u ∈ users.
Proof.
  induction us as [|v us IH]; cbn [foldl]; [by intros _ u ?%not_elem_of_nil|].
  case_bool_decide as Hv; [by intros H u [->|Hu]%elem_of_cons; [|apply IH]|].
  intros H. pose proof (check_users_extends field us
    (addError [] field ("allowed user " +:+ v +:+ " does not exist"))) as Hx.
  rewrite H in Hx. by apply extends_nil, addError_not_nil in Hx.
Qed.

Lemma validate_reverse_passes i item allowed issues owners :
  (validate_reverse net opts existing i item allowed issues owners).1 = [] →
  issues = [] ∧ length allowed = 1%nat ∧
  adminForwardAddressHost (adminForwardListenAddrForValidation item) = Ok "127.0.0.1".
Proof.
  intros H. pose proof (validate_reverse_extends i item allowed issues owners) as Hx. rewrite H in Hx.
  apply extends_nil in Hx. split; [done|]. subst issues. revert H. unfold validate_reverse.
  destruct (adminForwardAddressHost _) as [host|]; [|done].
  unfold isAdminLoopbackHost. destruct (String.eqb_spec host "127.0.0.1") as [->|]; [cbn [negb]|done].
  assert (∀ issues1, (if op_CheckPassivePortAvailability opts && negb (shouldSkipPassivePortProbe opts existing
          (adminForwardListenAddrForValidation item))
     then match canListenOnTCP net i (adminForwardListenAddrForValidation item) with
          | Err e => addError issues1 (("forwards[" +:+ Itoa (Z.of_nat i) +:+ "]") +:+ ".port")
                       ("passive port is already in use: " +:+ e)
          | Ok _ => issues1 end else issues1) = [] → issues1 = []) as Hprobe.
  { intros issues1. destruct (_ && _); [|done]. destruct (canListenOnTCP _ _ _); [done|].
    by intros ?%addError_not_nil. }
  destruct allowed as [|owner [|]]; [| done |]; cbn [fst];
    by intros ?%Hprobe%addError_not_nil.
Qed.

Lemma validate_target_passes i item direction issues :
  validate_target net opts timeout i item direction issues = [] →
  issues = [] ∧ ∃ host, adminForwardAddressHost (adminForwardTargetAddrForValidation item) = Ok host ∧
    IsForwardTargetHost host = true.
Proof.
  unfold validate_target. destruct (adminForwardAddressHost _) as [host|]; [|by intros ?%addError_not_nil].
  destruct (IsForwardTargetHost host) eqn:Hh; cbn [negb]; [|by intros ?%addError_not_nil].
  destruct (_ && _); [destruct (canConnectTCP _ _ _ _)|]; [|by intros ?%addError_not_nil|];
    (intros H; split; [exact H|by exists host]).
Qed.

Lemma check_passes owners i item :
  (check ([], owners) (i, item)).1 = [] → adminForwardIsEmpty item = true ∨ item_passes users item.
Proof.
  unfold validate_forward. destruct (adminForwardIsEmpty item); [by left|]. fold (form_direction item).
  destruct (length (form_allowed item) =? 0)%nat eqn:Hl; [by intros ?%addError_not_nil|]. intros H. right.
  set (issues1 := if negb (String.eqb (form_direction item) DirectionClientToServer) && _ then _ else _) in H.
  assert (issues1 = [] ∧ (∀ u, u ∈ form_allowed item → u ∈ users) ∧
    ((form_direction item = DirectionServerToClient ∧ length (form_allowed item) = 1%nat ∧
      adminForwardAddressHost (adminForwardListenAddrForValidation item) = Ok "127.0.0.1") ∨
     (form_direction item ≠ DirectionServerToClient ∧
      ∃ host, adminForwardAddressHost (adminForwardTargetAddrForValidation item) = Ok host ∧
        IsForwardTargetHost host = true))) as (H1 & Hu & Hcase).
  { destruct (String.eqb_spec (form_direction item) DirectionServerToClient) as [Hd|Hd].
    - apply validate_reverse_passes in H as (H & Hlen & Ha).
      assert (issues1 = []) as E by (apply extends_nil; rewrite <-H; apply check_users_extends).
      split_and!; [done| |by left]. rewrite E in H. by eapply check_users_passes.
    - cbn [fst] in H. apply validate_target_passes in H as (H & Ha).
      assert (issues1 = []) as E by (apply extends_nil; rewrite <-H; apply check_users_extends).
      split_and!; [done| |by right]. rewrite E in H. by eapply check_users_passes. }
  split_and!; [intros E; by rewrite E in Hl|done|]. destruct Hcase as [?|[Hd Ha]]; [by left|right].
  split; [|done]. unfold issues1 in H1.
  destruct (String.eqb_spec (form_direction item) DirectionClientToServer); [done|].
  destruct (String.eqb_spec (form_direction item) DirectionServerToClient); [done|]. by apply addError_not_nil in H1.
Qed.

Lemma checks_pass owners xs :
  (foldl check ([], owners) xs).1 = [] →
  Forall (λ x, adminForwardIsEmpty x.2 = true ∨ item_passes users x.2) xs.
Proof.
  revert owners. induction xs as [|[i item] xs IH]; intros owners; [constructor|]. cbn [foldl]. intros H.
  pose proof (checks_extend (check ([], owners) (i, item)) xs) as Hx. rewrite H in Hx. apply extends_nil in Hx.
  constructor; [by eapply check_passes|].
  destruct (check ([], owners) (i, item)) as [issues owners'] eqn:E. cbn in Hx. subst issues. by apply IH in H.
Qed.

End Passing.

Lemma no_errors issues :
  extends [] issues → hasErrors issues = false → issues = [].
Proof.
  intros (m & -> & Hm). cbn [app]. unfold hasErrors. destruct m as [|i m]; [done|].
  apply Forall_cons in Hm as [Hi _]. cbn. by rewrite bool_decide_true.
Qed.

(** ** The configuration of a form that passes *)

Lemma passing_forwards known items fwds :
  Forall (λ x, adminForwardIsEmpty x = true ∨ item_passes known x) items →
  fold_err (λ fwds item,
    fwd ← adminForwardToTunnel item;
    match fwd with
    | None => Ok fwds
    | Some f => Ok (fwds ++ [mkForwardConfig (fw_Name f) (fw_Direction f) (fw_ListenPort f)
                               (fw_ListenAddr f) (fw_ServerTarget f) (form_allowed item)])
    end) fwds items
  = Ok (fwds ++ map form_forward (filter (λ x, adminForwardIsEmpty x = false) items)).
Proof.
  intros Hitems. revert fwds. induction Hitems as [|item items Hi _ IH]; intros fwds; cbn [fold_err].
  - by rewrite app_nil_r.
  - rewrite filter_cons. destruct (adminForwardIsEmpty item) eqn:He.
    + rewrite (empty_item item He). cbn [mbind result_bind]. by rewrite IH, decide_False.
    + destruct Hi as [|Hi]; [done|]. destruct (item_configured known item Hi) as (f & -> & Ef).
      cbn [mbind result_bind]. rewrite Ef, IH, decide_True by done. cbn [map]. by rewrite <-app_assoc.
Qed.

Lemma form_forwards_pass known items :
  Forall (λ x, adminForwardIsEmpty x = true ∨ item_passes known x) items →
  ∃ fwds, form_forwards items = Ok fwds ∧ Forall (λ f, forward_valid known (default_forward f)) fwds.
Proof.
  intros Hi. eexists. split; [by apply (passing_forwards known)|]. cbn [app].
  apply Forall_map, Forall_forall. intros x [He Hx]%list_elem_of_filter. rewrite Forall_forall in Hi.
  apply form_forward_valid. destruct (Hi x Hx) as [E|]; [by rewrite E in He|done].
Qed.

Lemma form_users_known users u :
  u ∈ adminUserSet users → u ∈ (list_to_set (map user_name (form_users users)) : gset string).
Proof.
  rewrite elem_of_list_to_set. unfold adminUserSet. intros H.
  assert (u ∈ (∅ : gset string) ∨ u ∈ map user_name (form_users users)) as [?|?]; [|set_solver|done].
  revert H. generalize (∅ : gset string). induction users as [|v users IH]; intros s H; cbn [foldl] in H; [by left|].
  apply IH in H. unfold form_users. cbn [omap list_omap]. fold (form_users users).
  destruct (String.eqb_spec (TrimSpace (au_Username v)) "") as [E|E]; cbn [andb].
  - destruct H as [H|H]; [by left|right]. destruct (String.eqb _ _); [done|]. cbn. by right.
  - destruct H as [[H%elem_of_singleton|H]%elem_of_union|H]; [right| by left |right; cbn; by right].
    cbn. apply elem_of_cons. left. subst u. unfold user_name. cbn. by rewrite TrimSpace_idemp.
Qed.

Lemma forward_valid_mono (k k' : gset string) f :
  (∀ u, u ∈ k → u ∈ k') → forward_valid k f → forward_valid k' f.
Proof.
  intros Hk (H1 & H2 & H3 & H4). split_and!; [done|done| |done]. intros u Hu. by apply Hk, H3.
Qed.

(** The check lets a form through only if its forwards are valid. *)
Lemma passing_form net opts form :
  hasErrors (validateAdminForwardsForSaveWithOptions net form opts) = false →
  ∃ fwds, form_forwards (adm_Forwards form) = Ok fwds ∧
    Forall (forward_valid (list_to_set (map user_name (form_users (adm_Users form)))))
      (map default_forward fwds).
Proof.
  unfold validateAdminForwardsForSaveWithOptions. intros H. apply no_errors in H; [|apply checks_extend].
  apply checks_pass in H.
  destruct (form_forwards_pass (adminUserSet (adm_Users form)) (adm_Forwards form)) as (fwds & Hf & Hv).
  { apply Forall_forall. intros x (i & Hx)%list_elem_of_lookup. rewrite Forall_forall in H.
    apply (H (i, x)). apply list_elem_of_lookup. exists i. by rewrite list_lookup_imap, Hx. }
  exists fwds. split; [done|]. apply Forall_map. eapply Forall_impl; [exact Hv|]. cbn beta.
  intros f. apply forward_valid_mono. intros u. apply form_users_known.
Qed.

(** ** Validation, forwards apart *)

Definition without_forwards (cfg : Config) : Config :=
  mkConfig (cfg_ConfigPath cfg) (cfg_ConfigVersion cfg) (cfg_Requires cfg) (cfg_Compatibility cfg)
    (cfg_ListenAddr cfg) (cfg_MonitorAddr cfg) (cfg_LogLevel cfg) (cfg_TLS cfg) (cfg_Users cfg) []
    (cfg_Security cfg) (cfg_CredentialSealKeys cfg) (cfg_Runtime cfg).

Definition loopback_forward (fwd : ForwardConfig) : result unit :=
  _ ← wrap_err ("forward " +:+ quote (fw_Name fwd) +:+ " listen_addr")
        (CheckLoopbackEndpoint (fw_ListenAddr fwd));
  wrap_err ("forward " +:+ quote (fw_Name fwd) +:+ " server_target")
    (CheckLoopbackEndpoint (fw_ServerTarget fwd)).

Lemma allowed_complete q (known s : gset string) us :
  (∀ u, u ∈ us → TrimSpace u ∈ known) → "" ∉ known →
  NoDup (map TrimSpace us) → (∀ u, u ∈ us → TrimSpace u ∉ s) →
  fold_err (check_allowed q known) s us = Ok (list_to_set (map TrimSpace us) ∪ s).
Proof.
  intros Hk Hb. revert s. induction us as [|u us IH]; intros s Hn Hs; cbn [fold_err map list_to_set].
  - f_equal. set_solver.
  - inversion Hn as [|? ? Hu Hn']; subst. unfold check_allowed at 1.
    destruct (String.eqb_spec (TrimSpace u) "") as [E|_]; [exfalso; apply Hb; rewrite <-E; apply Hk; by left|].
    rewrite bool_decide_false by (apply Hs; by left).
    rewrite bool_decide_true by (apply Hk; by left). cbn [negb].
    rewrite IH; [f_equal; set_solver|intros; apply Hk; by right|done|].
    intros v Hv [E%elem_of_singleton|H']%elem_of_union; [|by apply (Hs v); [by right|]].
    apply Hu. rewrite <-E. by apply list_elem_of_fmap_2.
Qed.

Lemma forward_port_complete known f :
  forward_valid known f → forward_port f (forward_direction f) = Ok (default 0 (reverse_port f)).
Proof.
  intros (_ & _ & _ & Hport).
  unfold forward_port. unfold reverse_port in *.
  destruct (String.eqb_spec (forward_direction f) DirectionServerToClient) as [Hd|Hd].
  - rewrite Hd. change (String.eqb DirectionServerToClient DirectionClientToServer) with false.
    change (String.eqb DirectionServerToClient DirectionServerToClient) with true. cbv iota.
    destruct Hport as (Hr & _ & -> & Ha). cbn [mbind result_bind default].
    set (port := if fw_ListenPort f <=? 0 then match splitHostPort (fw_ListenAddr f) with
                   Ok (_, p) => p | Err _ => 0 end else fw_ListenPort f) in *.
    assert ((if fw_ListenPort f <=? 0 then match splitHostPort (fw_ListenAddr f) with
               | Ok (host, legacyPort) => if String.eqb host "127.0.0.1" then Ok legacyPort
                   else Err (("forward " +:+ quote (fw_Name f)) +:+ " listen_port is required and legacy listen_addr must be a loopback address (127.0.0.1)")
               | Err _ => Err (("forward " +:+ quote (fw_Name f)) +:+ " listen_port is required and legacy listen_addr must be a loopback address (127.0.0.1)")
               end else Ok (fw_ListenPort f)) = Ok port) as ->.
    { unfold port in *. destruct (Z.leb_spec (fw_ListenPort f) 0); [|done].
      destruct (String.eqb_spec (TrimSpace (fw_ListenAddr f)) "") as [Eb|Eb]; [exfalso|by rewrite (Ha Eb)].
      assert (splitHostPort (fw_ListenAddr f) = Err "address : missing port in address") as E
        by (unfold splitHostPort; by rewrite Eb).
      rewrite E in Hr. lia. }
    clearbody port. cbn [mbind result_bind].
    destruct (Z.ltb_spec port 1); [lia|]. destruct (Z.ltb_spec 65535 port); [lia|]. cbn [orb guard_err mbind result_bind].
    destruct (String.eqb_spec (TrimSpace (fw_ListenAddr f)) "") as [Eb|Eb]; [done|by rewrite (Ha Eb)].
  - destruct Hport as (-> & host & port & -> & ->). done.
Qed.

Lemma check_forward_complete known seen f :
  forward_valid known f → "" ∉ known → (∀ p, reverse_port f = Some p → seen !! p = None) →
  ∃ seen', check_forward known seen f = Ok seen' ∧
    (∀ p, seen' !! p = None ↔ seen !! p = None ∧ reverse_port f ≠ Some p).
Proof.
  intros Hf Hb Hseen. unfold check_forward.
  set (q := "forward " +:+ quote (fw_Name f)). clearbody q.
  pose proof Hf as (Hne & Hn & Hk & Hport). rewrite allowed_complete; [|done..|set_solver].
  assert (size (list_to_set (map TrimSpace (fw_AllowedUsers f)) ∪ ∅ : gset string)
          = length (fw_AllowedUsers f)) as Hsz.
  { rewrite union_empty_r_L, size_list_to_set by done. apply length_map. }
  rewrite (forward_port_complete known f Hf).
  cbn [mbind result_bind]. rewrite Hsz.
  destruct (Nat.eqb_spec (length (fw_AllowedUsers f)) 0); [by destruct (fw_AllowedUsers f)|]. cbn [guard_err mbind result_bind].
  unfold reverse_port in *. destruct (String.eqb (forward_direction f) DirectionServerToClient).
  - destruct Hport as (_ & -> & _). cbn [Nat.eqb negb guard_err mbind result_bind default].
    rewrite Hseen by done. eexists. split; [done|]. intros p. rewrite lookup_insert_None. naive_solver.
  - eexists. split; [done|]. naive_solver.
Qed.

Lemma check_forwards_complete known fs seen :
  Forall (forward_valid known) fs → "" ∉ known → NoDup (omap reverse_port fs) →
  (∀ p, p ∈ omap reverse_port fs → seen !! p = None) →
  is_ok (fold_err (check_forward known) seen fs) = true.
Proof.
  intros Hv Hb. revert seen. induction Hv as [|f fs Hf Hv IH]; intros seen Hn Hs; [done|]. cbn [fold_err].
  cbn [omap list_omap] in Hn, Hs.
  destruct (check_forward_complete known seen f Hf Hb) as (seen' & -> & Hseen').
  - intros p Hp. apply Hs. rewrite Hp. by left.
  - destruct (reverse_port f) as [p|]; cbn in Hn, Hs.
    + apply NoDup_cons in Hn as [Hp Hn]. apply IH; [done|]. intros p' Hp'. apply Hseen'. split; [|naive_solver].
      apply Hs. by right.
    + apply IH; [done|]. intros p' Hp'. apply Hseen'. split; [by apply Hs|done].
Qed.

Section Loading.
Context `{YAMLCodec Config} `{LocalTime}.
Variable Abs : string → result string.
(** The YAML library reads what it wrote; the path field is not part of it. *)
Hypothesis yaml_law : ∀ cfg data, yaml_marshal cfg = Ok data → yaml_unmarshal data = Ok (without_path cfg).

Lemma users_known users known :
  fold_err check_user ∅ users = Ok known →
  known = list_to_set (map user_name users) ∧ "" ∉ known.
Proof.
  intros Hu. destruct (collect_names user_name check_user users ∅ known) as (_ & _ & Hk);
    [intros s0 x s' Hx; by apply check_user_ok in Hx as [Hx _]|done|].
  assert (known = list_to_set (map user_name users)) as -> by (apply set_eq; set_solver).
  split; [done|]. rewrite elem_of_list_to_set. intros (u & Hu0 & Hin)%list_elem_of_fmap.
  pose proof (collect_all user_name check_user (λ u, user_name u ≠ "") users ∅ _
    (λ s x s' Hx, proj1 (proj2 (check_user_ok s x s' Hx))) Hu) as Hall.
  rewrite Forall_forall in Hall. by apply (Hall u Hin).
Qed.

(** Validation is validation without the forwards, and valid forwards of
    different reverse ports. *)
Lemma ValidateConfig_apart cfg :
  each loopback_forward (cfg_Forwards cfg) = Ok tt →
  Forall (forward_valid (list_to_set (map user_name (cfg_Users cfg)))) (cfg_Forwards cfg) →
  ValidateConfig cfg = Ok tt ↔
  ValidateConfig (without_forwards cfg) = Ok tt ∧ NoDup (omap reverse_port (cfg_Forwards cfg)).
Proof.
  intros Hl Hv.
  assert (ValidateConfig cfg = Ok tt → NoDup (omap reverse_port (cfg_Forwards cfg))) as Hports
    by (intros Hc; by apply ValidateConfig_valid in Hc as []).
  revert Hports. unfold ValidateConfig, validateLoopbackAddresses.
  fold loopback_forward. rewrite Hl.
  change (ValidateConfigVersion (without_forwards cfg)) with (ValidateConfigVersion cfg).
  cbn [without_forwards cfg_TLS cfg_MonitorAddr cfg_ListenAddr cfg_Users cfg_Forwards cfg_CredentialSealKeys each fold_err].
  destruct (ValidateConfigVersion cfg); [|naive_solver]. cbn [mbind result_bind].
  destruct (wrap_err "listen_addr" _); [|naive_solver]. cbn [mbind result_bind].
  destruct (wrap_err "monitor_addr" _); [|naive_solver]. cbn [mbind result_bind].
  destruct (guard_err (_ || _) "server TLS identity cert_file and key_file are required"); [|naive_solver].
  cbn [mbind result_bind]. destruct (if String.eqb _ "" then Ok tt else _); [|naive_solver]. cbn [mbind result_bind].
  destruct (fold_err check_user ∅ (cfg_Users cfg)) as [known|] eqn:Hu; [|naive_solver]. cbn [mbind result_bind].
  apply users_known in Hu as [-> Hb]. intros Hports. split.
  - intros Hc. split; [|by apply Hports]. by destruct (fold_err (check_forward _) ∅ (cfg_Forwards cfg)).
  - intros [Hc Hn]. pose proof (check_forwards_complete _ _ ∅ Hv Hb Hn) as Hok.
    destruct (fold_err (check_forward _) ∅ (cfg_Forwards cfg)); [done|]. discriminate Hok. intros p _. apply lookup_empty.
Qed.
Lemma SaveConfig_ok d path cfg d' :
  SaveConfig d path cfg = (d', Ok tt) →
  each loopback_forward (cfg_Forwards cfg) = Ok tt ∧ each validateReverseListenFields (cfg_Forwards cfg) = Ok tt.
Proof.
  unfold SaveConfig, validateLoopbackAddresses. fold loopback_forward.
  destruct (wrap_err "listen_addr" _); [|done]. cbn [mbind result_bind].
  destruct (wrap_err "monitor_addr" _); [|done]. cbn [mbind result_bind].
  destruct (each loopback_forward _) as [[]|]; [|done]. destruct (each validateReverseListenFields _) as [[]|]; [|done].
  done.
Qed.

Lemma adminConfigToTunnel_ok form existing cfg :
  adminConfigToTunnel form existing = Ok cfg →
  ApplyDefaults cfg = cfg ∧ cfg_Users cfg = form_users (adm_Users form) ∧
  ∃ fwds, form_forwards (adm_Forwards form) = Ok fwds ∧ cfg_Forwards cfg = map default_forward fwds.
Proof.
  unfold adminConfigToTunnel. intros (fwds & Hf & (keys & _ & [= <-])%bind_ok)%bind_ok.
  split; [apply ApplyDefaults_idemp|]. split; [done|]. by exists fwds.
Qed.

(** The configuration of a form that passed, once it is saved. *)
Lemma saved_loads net opts form existing cfg d path d' :
  dk_readErr d (Clean path) = None →
  hasErrors (validateAdminForwardsForSaveWithOptions net form opts) = false →
  adminConfigToTunnel form existing = Ok cfg → SaveConfig d path cfg = (d', Ok tt) →
  let cfg' := resolve_paths Abs path cfg in
  ∀ loaded, LoadConfig Abs d' path = Ok loaded ↔
    loaded = cfg' ∧ ValidateConfig (without_forwards cfg') = Ok tt ∧
    NoDup (omap reverse_port (cfg_Forwards cfg')).
Proof.
  intros Hr Hcheck Hcfg Hsave cfg' loaded.
  destruct (adminConfigToTunnel_ok _ _ _ Hcfg) as (Hdef & Hu & fwds & Hf & Hfw).
  destruct (passing_form _ _ _ Hcheck) as (fwds' & Hf' & Hv). rewrite Hf in Hf'. injection Hf' as <-.
  rewrite (load_after_save Abs yaml_law d path cfg d' Hr Hsave), Hdef. fold cfg'.
  apply SaveConfig_ok in Hsave as [Hl _].
  pose proof (ValidateConfig_apart cfg') as Hiff. change (cfg_Forwards cfg') with (cfg_Forwards cfg) in *.
  change (cfg_Users cfg') with (cfg_Users cfg) in *. rewrite Hu, Hfw in Hiff. rewrite Hfw in Hl. specialize (Hiff Hl Hv).
  rewrite Hfw. destruct (ValidateConfig cfg') as [[]|]; cbn [mbind result_bind]; split.
  - intros [= <-]. split; [done|]. by apply Hiff.
  - by intros [-> _].
  - done.
  - intros [_ H1]. by apply Hiff in H1.
Qed.

End Loading.

(** ** Concrete forms *)

(** A codec that knows one text. *)
Definition oneYAML (saved : Config) : YAMLCodec Config := {|
  yaml_marshal cfg := if decide (without_path cfg = saved) then Ok "saved" else Err "unknown";
  yaml_unmarshal data := if String.eqb data "saved" then Ok saved else Err "unknown"
|}.

Lemma oneYAML_law saved cfg data :
  @yaml_marshal _ (oneYAML saved) cfg = Ok data → @yaml_unmarshal _ (oneYAML saved) data = Ok (without_path cfg).
Proof.
  cbn [yaml_marshal yaml_unmarshal oneYAML]. case_decide as E; [|done]. intros [= <-].
  rewrite String.eqb_refl. by rewrite E.
Qed.

(** Every time parses. *)
Definition anyTime : LocalTime :=
  {| FormatRFC3339 _ := ""; ParseRFC3339 _ := Some 0; FormatDate _ := ""; FormatStamp _ := "";
     FormatMonth _ := ""; CivilDate _ := (0, 0, 0); MakeDate _ _ _ := 0; AddMonths t _ := t; AddDays t _ := t |}.

(** Every port is free and every target answers. *)
Definition openNet : probes := mkProbes (λ _ _, Ok (Ok tt)) (λ _ _ _, Ok (Ok tt)).

Definition pageConfig : Config :=
  with_seal_keys (ApplyDefaults sampleConfig)
    [mkCredentialSealKeyConfig "k1" "k1.pem" "k1.pub" "2030" false;
     mkCredentialSealKeyConfig "k2" "k2.pem" "k2.pub" "2031" true].

Definition savedPage (form : adminConfig) : Config :=
  match @adminConfigToTunnel anyTime form zeroConfig with
  | Ok cfg => without_path (configForSave (ApplyDefaults cfg))
  | Err _ => zeroConfig
  end.

Definition save_page (form : adminConfig) : Disk * (Z * apiResult) :=
  @handleAdminConfig (oneYAML (savedPage form)) anyTime (λ _, false) openNet false (true, "")
    "conf/server.yaml" MethodPost (Some form) (goodDisk ∅).


(** The form of two reverse forwards. *)
Definition reversePair (port1 owner1 port2 owner2 : string) : adminConfig :=
  mkAdminConfig "0.0.0.0:3443" "" "" (mkAdminTLS "server.crt" "server.key" "1.3")
    [mkAdminUser "alice" "hash" false; mkAdminUser "bob" "hash" false]
    [mkAdminForward "a" DirectionServerToClient port1 "" "" owner1 [];
     mkAdminForward "b" DirectionServerToClient port2 "" "" owner2 []]
    (mkAdminSecurity 0 0 0 0 0 0 0 0 0 0 0 0 0 0 0 0 0 0) (mkAdminCredential "" "" "" "" false).

Definition load_page (form : adminConfig) : result Config :=
  @LoadConfig (oneYAML (savedPage form)) anyTime sampleAbs (save_page form).1 "conf/server.yaml".

(** The page lets one user have a port twice, and, since it compares the texts
    of the addresses, two users the same port written in two ways. It says that
    the configuration is saved; the server refuses to load it. *)
Lemma duplicate_ports_saved :
  let refused := "forward " +:+ quote "b" +:+ " reverse listen_port 18080 duplicates forward " +:+ quote "a" in
  (ar_OK (save_page (reversePair "18080" "alice" "18080" "alice")).2.2 = true ∧
   load_page (reversePair "18080" "alice" "18080" "alice") = Err refused) ∧
  (ar_OK (save_page (reversePair "18080" "alice" "018080" "bob")).2.2 = true ∧
   load_page (reversePair "18080" "alice" "018080" "bob") = Err refused) ∧
  ar_OK (save_page (reversePair "18080" "alice" "18080" "bob")).2.2 = false.
Proof. vm_compute. repeat split; reflexivity. Qed.
