(* ===== verification/AdminRoundTrip.v ===== *)
(** * The configuration form shown and saved again (AdminConfig.v)

    A configuration in the form's shape comes back as it was, up to the order of
    the sealing keys; the key the page shows becomes the active one. *)

From S2P Require Import Prelude.
From S2P Require Import GoStd.
From S2P Require Import Disk.
From S2P Require Import Netaddr.
From S2P Require Import ConfigData.
From S2P Require Import ServerConfig.
From S2P Require Import CredentialSeal.
From S2P Require Import AdminConfig.
From S2P Require Import AdminSave.

#[local] Open Scope Z_scope.

(** ** Showing a configuration and saving it again *)

(** A user of a forward that the page keeps in one piece. *)
Definition one_word (u : string) : Prop := splitList u = [u].

Definition forward_shaped (f : ForwardConfig) : Prop :=
  TrimSpace (fw_Name f) = fw_Name f ∧
  fw_AllowedUsers f ≠ [] ∧ NoDup (fw_AllowedUsers f) ∧ Forall one_word (fw_AllowedUsers f) ∧
  ((fw_Direction f = DirectionServerToClient ∧ 1 ≤ fw_ListenPort f ≤ 65535 ∧
    fw_ListenAddr f = JoinHostPort serverLocalForwardHost (Itoa (fw_ListenPort f)) ∧ fw_ServerTarget f = "") ∨
   (fw_Direction f = DirectionClientToServer ∧ fw_ListenPort f = 0 ∧ fw_ListenAddr f = "" ∧
    TrimSpace (fw_ServerTarget f) ≠ "" ∧ adminForwardAddress (fw_ServerTarget f) "" = Ok (fw_ServerTarget f))).

Lemma one_word_trimmed u : one_word u → TrimSpace u = u ∧ u ≠ "".
Proof. intros H. pose proof (splitList_kept u) as Hk. rewrite H in Hk. by apply Forall_cons in Hk as [Hk _]. Qed.

Lemma clean_words s us :
  kept s → Forall one_word us → NoDup us → (∀ u, u ∈ us → u ∉ s.1) →
  (foldl (λ s item, foldl keep_new s (splitList item)) s us).1 = s.1 ++ us ∧
  kept (foldl (λ s item, foldl keep_new s (splitList item)) s us).
Proof.
  intros Hs Hw. revert s Hs. induction Hw as [|u us Hu Hw IH]; intros s Hs Hn Hnew; cbn [foldl].
  - by rewrite app_nil_r.
  - apply NoDup_cons in Hn as [Hun Hn]. destruct (one_word_trimmed u Hu) as [Ht Hne].
    rewrite Hu. cbn [foldl].
    assert ((keep_new s u).1 = s.1 ++ [u]) as E.
    { destruct s as [out seen], Hs as (_ & Hs & _). cbn [fst snd] in *. unfold keep_new.
      rewrite bool_decide_false; [done|]. rewrite Hs. apply Hnew. by left. }
    destruct (IH (keep_new s u)) as [-> Hk]; [by apply keep_new_kept|done| |].
    + intros v Hv. rewrite E, elem_of_app, list_elem_of_singleton. intros [Hv'| ->]; [|done].
      by apply (Hnew v); [right|].
    + split; [|done]. by rewrite E, <-app_assoc.
Qed.

Lemma cleanAllowedUsers_words us : Forall one_word us → NoDup us → cleanAllowedUsers us = us.
Proof.
  intros Hw Hn. unfold cleanAllowedUsers.
  destruct (clean_words ([], ∅) us kept_nil Hw Hn) as [-> _]; [|done]. by intros u _ ?%not_elem_of_nil.
Qed.

Lemma shown_users us :
  us ≠ [] → Forall one_word us → NoDup us → cleanAllowedUsers (us ++ [firstAllowedUser us]) = us.
Proof.
  intros Hne Hw Hn. destruct us as [|u us]; [done|].
  assert (firstAllowedUser (u :: us) = u) as ->.
  { cbn [firstAllowedUser]. apply Forall_cons in Hw as [Hu _]. destruct (one_word_trimmed u Hu) as [-> Hu'].
    by destruct (String.eqb_spec u ""). }
  unfold cleanAllowedUsers. rewrite foldl_app. destruct (clean_words ([], ∅) (u :: us) kept_nil Hw Hn) as [E Hk].
  { by intros v _ ?%not_elem_of_nil. }
  destruct (foldl _ ([], ∅) (u :: us)) as [out seen]. cbn [fst app foldl] in *. subst out.
  apply Forall_cons in Hw as [Hu _]. rewrite Hu. cbn [foldl]. unfold keep_new.
  destruct Hk as (_ & Hs & _). rewrite bool_decide_true; [done|]. apply Hs. cbn [fst]. by left.
Qed.

Lemma shown_forward f :
  forward_shaped f →
  ∃ g, adminForwardToTunnel (forward_form f) = Ok (Some g) ∧
    mkForwardConfig (fw_Name g) (fw_Direction g) (fw_ListenPort g) (fw_ListenAddr g) (fw_ServerTarget g)
      (form_allowed (forward_form f)) = f.
Proof.
  intros (Hname & Hne & Hn & Hw & Hcase).
  assert (form_allowed (forward_form f) = fw_AllowedUsers f) as ->.
  { unfold form_allowed, forward_form. cbn. rewrite (cleanAllowedUsers_words (fw_AllowedUsers f)) by done. by apply shown_users. }
  unfold adminForwardToTunnel, forward_form. cbn. rewrite Hname. destruct f as [name dir port addr target us].
  cbn [fw_Name fw_Direction fw_ListenPort fw_ListenAddr fw_ServerTarget fw_AllowedUsers] in *.
  destruct Hcase as [(-> & Hp & -> & ->)|(-> & -> & -> & Hne' & Ha)].
  - change (forwardDirectionOrDefault DirectionServerToClient) with DirectionServerToClient.
    change (forwardDirectionOrDefault DirectionServerToClient) with DirectionServerToClient.
    change (String.eqb DirectionServerToClient DirectionServerToClient) with true. cbv iota.
    unfold serverLocalForwardHost. rewrite TrimSpace_loopback by done.
    destruct (String.eqb_spec (JoinHostPort "127.0.0.1" (Itoa port)) "") as [E|_]; [by vm_compute in E|].
    rewrite andb_false_r. cbn [andb]. unfold adminForwardAddress. rewrite !TrimSpace_loopback by done.
    destruct (String.eqb_spec (JoinHostPort "127.0.0.1" (Itoa port)) "") as [E|_]; [by vm_compute in E|]. cbn [negb].
    rewrite SplitHostPort_JoinHostPort by (done || lia).
    change (String.eqb (Trim "127.0.0.1" "[]") "") with false. cbv iota.
    rewrite parseForwardPort_Itoa by done. cbn [mbind result_bind].
    rewrite SplitHostPort_JoinHostPort by (done || lia). rewrite Atoi_Itoa by (unfold max_i64; lia). by eexists.
  - change (forwardDirectionOrDefault DirectionClientToServer) with DirectionClientToServer.
    change (forwardDirectionOrDefault DirectionClientToServer) with DirectionClientToServer.
    change (String.eqb DirectionClientToServer DirectionServerToClient) with false. cbv iota.
    destruct (String.eqb_spec (TrimSpace target) "") as [|_]; [done|]. rewrite andb_false_r.
    unfold adminForwardAddress in Ha |- *. rewrite TrimSpace_idemp.
    destruct (String.eqb_spec (TrimSpace target) "") as [|_]; [done|]. cbn [negb] in Ha |- *.
    destruct (SplitHostPort (TrimSpace target)) as [[h p]|]; [|done]. destruct (String.eqb _ ""); [done|].
    destruct (parseForwardPort p); [|done]. cbn [mbind result_bind] in Ha |- *. injection Ha as ->. by eexists.
Qed.

Section RoundTrip.
Context `{LocalTime}.

Definition key_shaped (k : CredentialSealKeyConfig) : Prop :=
  Forall (λ t, TrimSpace t = t ∧ t ≠ "") [ck_KeyID k; ck_PrivateKeyFile k; ck_PublicKeyFile k; ck_ExpiresAt k]
  ∧ is_Some (ParseRFC3339 (ck_ExpiresAt k)).

(** The keys after the page was saved: the one it shows is the active one. *)
Definition shown_active (keys : list CredentialSealKeyConfig) : list CredentialSealKeyConfig :=
  map (λ k, set_active (bool_decide (ck_KeyID k = ac_KeyID (activeCredential keys))) k) keys.

Lemma find_in {A} (f : A → bool) (l : list A) first : first ∈ l → default first (List.find f l) ∈ l.
Proof.
  intros Hf. destruct (List.find f l) as [x|] eqn:E; [|done]. by apply List.find_some in E as [E%list_elem_of_In _].
Qed.

Lemma shown_keys keys :
  Forall key_shaped keys → NoDup (map ck_KeyID keys) →
  ∃ keys', credentialSealFromAdmin (activeCredential keys) keys = Ok keys' ∧ keys' ≡ₚ shown_active keys.
Proof.
  intros Hk Hn. destruct keys as [|first keys]; [by exists []|].
  set (all := first :: keys) in *. set (sel := default first (List.find ck_Active all)).
  assert (sel ∈ all) as Hsel by (apply find_in; by left).
  assert (activeCredential all = mkAdminCredential (ck_KeyID sel) (ck_PrivateKeyFile sel)
            (ck_PublicKeyFile sel) (ck_ExpiresAt sel) (ck_Active sel)) as Ea by done.
  unfold shown_active. rewrite Ea. cbn [ac_KeyID]. clearbody sel all. clear Ea.
  assert (∀ k, k ∈ all → TrimSpace (ck_KeyID k) = ck_KeyID k) as Ht.
  { intros k Hin. rewrite Forall_forall in Hk. destruct (Hk k Hin) as [Hf _]. by apply Forall_cons in Hf as [[? _] _]. }
  unfold credentialSealFromAdmin. cbn [ac_KeyID ac_PrivateKeyFile ac_PublicKeyFile ac_ExpiresAt].
  pose proof Hk as Hk'. rewrite Forall_forall in Hk'. destruct (Hk' sel Hsel) as [Hf [e He]].
  rewrite !Forall_cons in Hf. destruct Hf as ([-> H1] & [-> H2] & [-> H3] & [-> H4] & _).
  destruct (String.eqb_spec (ck_KeyID sel) ""), (String.eqb_spec (ck_PrivateKeyFile sel) ""),
    (String.eqb_spec (ck_PublicKeyFile sel) ""), (String.eqb_spec (ck_ExpiresAt sel) ""); try done.
  cbn [andb orb]. rewrite He. eexists. split; [done|].
  apply list_elem_of_split in Hsel as (l1 & l2 & ->).
  rewrite map_app in Hn. cbn [map] in Hn. apply NoDup_app in Hn as (_ & Hd & [Hs2 _]%NoDup_cons).
  assert (∀ k, k ∈ l1 ∨ k ∈ l2 → ck_KeyID k ≠ ck_KeyID sel) as Hother.
  { intros k [Hin|Hin] E.
    - apply (Hd (ck_KeyID k)); [by apply list_elem_of_fmap_2|]. rewrite E. by left.
    - apply Hs2. rewrite <-E. by apply list_elem_of_fmap_2. }
  assert (∀ l, (∀ k, k ∈ l → k ∈ l1 ∨ k ∈ l2) →
    map (set_active false) (filter (λ k, TrimSpace (ck_KeyID k) ≠ ck_KeyID sel) l)
    = map (λ k, set_active (bool_decide (ck_KeyID k = ck_KeyID sel)) k) l) as Hmap.
  { intros l Hl. rewrite filter_all.
    - apply map_ext_in. intros k Hin%list_elem_of_In. by rewrite bool_decide_false by (apply Hother, Hl, Hin).
    - intros k Hin. rewrite Ht; [by apply Hother, Hl|]. apply elem_of_app. destruct (Hl k Hin); [by left|right; by right]. }
  rewrite filter_app, filter_cons_False by (rewrite Ht; [tauto|apply elem_of_app; right; by left]).
  rewrite !map_app, !Hmap by (intros; tauto). cbn [map]. rewrite bool_decide_true by done.
  rewrite <-(assoc_L (++)). apply Permutation_app_head. rewrite Permutation_app_comm. cbn [app]. done.
Qed.

Lemma find_filter {A} (f : A → bool) (l : list A) : List.find f l = head (List.filter f l).
Proof. induction l as [|x l IH]; [done|]. cbn. by destruct (f x). Qed.

Lemma NoDup_map_eq {A B} (f : A → B) (l : list A) x y :
  NoDup (map f l) → x ∈ l → y ∈ l → f x = f y → x = y.
Proof.
  intros Hn Hx Hy E. induction l as [|z l IH]; [by apply not_elem_of_nil in Hx|].
  cbn [map] in Hn. apply NoDup_cons in Hn as [Hz Hn].
  apply elem_of_cons in Hx as [->|Hx], Hy as [->|Hy]; [done| | |by apply IH].
  - exfalso. apply Hz. rewrite E. by apply list_elem_of_fmap_2.
  - exfalso. apply Hz. rewrite <-E. by apply list_elem_of_fmap_2.
Qed.

(** With one active key the page shows it and nothing changes. *)
Lemma shown_active_single keys :
  NoDup (map ck_KeyID keys) → length (active_keys keys) = 1%nat → shown_active keys = keys.
Proof.
  intros Hn Hone. destruct (active_keys keys) as [|k0 [|]] eqn:Hact; try done.
  assert (∀ k, k ∈ keys → ck_Active k = true ↔ k = k0) as Hk0.
  { intros k Hk. transitivity (k ∈ [k0]); [|apply list_elem_of_singleton]. rewrite <-Hact. unfold active_keys.
    rewrite !list_elem_of_In in *. rewrite filter_In. tauto. }
  assert (k0 ∈ keys) as Hin.
  { assert (k0 ∈ active_keys keys) as Hin by (rewrite Hact; by left).
    unfold active_keys in Hin. rewrite list_elem_of_In, filter_In, <-list_elem_of_In in Hin. tauto. }
  assert (ac_KeyID (activeCredential keys) = ck_KeyID k0) as E.
  { unfold activeCredential. destruct keys as [|first keys]; [done|].
    rewrite find_filter. unfold active_keys in Hact. rewrite Hact. done. }
  unfold shown_active. rewrite E. etrans; [|apply map_id]. apply map_ext_in. intros k Hk%list_elem_of_In.
  assert (bool_decide (ck_KeyID k = ck_KeyID k0) = ck_Active k) as ->; [|by destruct k].
  case_bool_decide as Hid.
  - symmetry. apply Hk0; [done|]. by eapply NoDup_map_eq.
  - destruct (ck_Active k) eqn:Ha; [|done]. apply Hk0 in Ha; [congruence|done].
Qed.

(** A configuration in the form's shape. *)
Record page_shaped (cfg : Config) : Prop := {
  ps_defaults : ApplyDefaults cfg = cfg;
  ps_texts : Forall (λ t, TrimSpace t = t)
    [cfg_ListenAddr cfg; cfg_MonitorAddr cfg; cfg_LogLevel cfg; tc_CertFile (cfg_TLS cfg);
     tc_KeyFile (cfg_TLS cfg); tc_MinVersion (cfg_TLS cfg)];
  ps_users : Forall (λ u, TrimSpace (us_Username u) = us_Username u ∧ us_Username u ≠ "" ∧
    TrimSpace (us_PasswordHash u) = us_PasswordHash u) (cfg_Users cfg);
  ps_forwards : Forall forward_shaped (cfg_Forwards cfg);
  ps_keys : Forall key_shaped (cfg_CredentialSealKeys cfg);
  ps_key_ids : NoDup (map ck_KeyID (cfg_CredentialSealKeys cfg))
}.

Lemma shown_forwards fs acc :
  Forall forward_shaped fs →
  fold_err (λ fwds item,
    fwd ← adminForwardToTunnel item;
    match fwd with
    | None => Ok fwds
    | Some f => Ok (fwds ++ [mkForwardConfig (fw_Name f) (fw_Direction f) (fw_ListenPort f)
                               (fw_ListenAddr f) (fw_ServerTarget f) (form_allowed item)])
    end) acc (map forward_form fs) = Ok (acc ++ fs).
Proof.
  intros Hf. revert acc. induction Hf as [|f fs Hf _ IH]; intros acc; cbn [map fold_err]; [by rewrite app_nil_r|].
  destruct (shown_forward f Hf) as (g & -> & E). cbn [mbind result_bind]. rewrite E, IH, <-app_assoc. done.
Qed.

Lemma shown_form_users us :
  Forall (λ u, TrimSpace (us_Username u) = us_Username u ∧ us_Username u ≠ "" ∧
    TrimSpace (us_PasswordHash u) = us_PasswordHash u) us →
  form_users (map (λ u, mkAdminUser (us_Username u) (us_PasswordHash u) (us_Disabled u)) us) = us.
Proof.
  induction 1 as [|u us (H1 & H2 & H3) _ IH]; [done|]. unfold form_users in *. cbn [map omap list_omap].
  cbn [au_Username au_PasswordHash au_Disabled]. rewrite H1, H3. destruct (String.eqb_spec (us_Username u) ""); [done|].
  cbn [andb]. f_equal; [by destruct u|exact IH].
Qed.

(** C30: a configuration in the form's shape that the page shows and that is sent
    back unchanged becomes the same configuration, except that the key the page
    shows is made the only active one and comes last; when one key was active it
    is that one, and the keys are the same up to their order. *)
Theorem page_round_trip cfg :
  page_shaped cfg →
  ∃ keys, adminConfigToTunnel (adminConfigFromTunnel cfg) cfg = Ok (with_seal_keys cfg keys) ∧
    keys ≡ₚ shown_active (cfg_CredentialSealKeys cfg) ∧
    (length (active_keys (cfg_CredentialSealKeys cfg)) = 1%nat → keys ≡ₚ cfg_CredentialSealKeys cfg).
Proof.
  intros [Hdef Ht Hu Hf Hk Hn]. destruct (shown_keys _ Hk Hn) as (keys & Hkeys & Hperm).
  exists keys. split; [|split; [done|intros Hone; by rewrite Hperm, shown_active_single]].
  unfold adminConfigToTunnel, adminConfigFromTunnel. rewrite Hdef.
  cbn [adm_TLS adm_Forwards adm_CredentialSeal adm_ListenAddr adm_MonitorAddr adm_LogLevel adm_Users adm_Security
       at_CertFile at_KeyFile at_MinVersion].
  unfold form_forwards. rewrite (shown_forwards _ [] Hf). cbn [mbind result_bind app]. rewrite Hkeys.
  cbn [mbind result_bind]. rewrite shown_form_users by done.
  rewrite !Forall_cons in Ht. destruct Ht as (-> & -> & -> & -> & -> & -> & _).
  trans (Ok (ApplyDefaults (with_seal_keys cfg keys))).
  - do 2 f_equal. unfold with_seal_keys. f_equal; [by destruct (cfg_TLS cfg)|].
    assert (sec_MaxConnectionsPerIPPerWindow (cfg_Security cfg) = 0) as Hz by (by rewrite <-Hdef).
    unfold form_security. cbn. by destruct (cfg_Security cfg); cbn in *; subst.
  - rewrite <-Hdef at 2. done.
Qed.

End RoundTrip.

Lemma page_round_trip_witness :
  @page_shaped anyTime pageConfig ∧
  ∃ keys, @adminConfigToTunnel anyTime (adminConfigFromTunnel pageConfig) pageConfig
    = Ok (with_seal_keys pageConfig keys) ∧ keys ≡ₚ cfg_CredentialSealKeys pageConfig.
Proof.
  assert (@page_shaped anyTime pageConfig) as Hs.
  { split.
    - vm_compute. reflexivity.
    - repeat constructor.
    - repeat constructor; vm_compute; discriminate.
    - repeat (apply Forall_cons; split); [..|apply Forall_nil_2].
      all: split; [vm_compute; reflexivity|split; [vm_compute; discriminate|split;
        [apply (bool_decide_unpack _); vm_compute; reflexivity|split; [repeat constructor; vm_compute; reflexivity|]]]].
      + right. repeat split; vm_compute; done.
      + left. repeat split; vm_compute; done.
      + left. repeat split; vm_compute; done.
    - repeat constructor; vm_compute; try discriminate; eauto.
    - apply (bool_decide_unpack _). vm_compute. reflexivity. }
  split; [exact Hs|]. destruct (@page_round_trip anyTime pageConfig Hs) as (keys & H1 & _ & H2).
  exists keys. split; [exact H1|]. apply H2. vm_compute. reflexivity.
Defined.

