(* ===== verification/LogReader.v ===== *)
(** * The log reader of the server's interface (src/server/gui/admin_log_reader,
    lastLines of logging)

    The page shows the last business events: the newest lines of the dated log
    files, with the lines of one connection merged into a row and completed by
    the requests that left no event. A time is parsed together with the zone it
    is written in, because what is printed again keeps that zone; parsing and
    printing are parameters. Properties: one row per connection and kind, which
    shows the outcome that counts most whatever the order of the lines, never
    more rows than asked for, newest first; the lines read back from the end of
    a file are its last ones, but for the first of them, which may be cut. *)

From stdpp Require Import sorting.
From S2P Require Import Prelude.
From S2P Require Import GoStd.
From S2P Require Import Disk.
From S2P Require Import Protocol.
From S2P Require Import LogEntries.

#[local] Open Scope Z_scope.

(** ** Times with the zone they are written in *)

Class ZonedTime := {
  Zone : Type;
  ParseZoned : string → option (Time * Zone);   (* time.Parse(time.RFC3339, s) *)
  FormatZoned : Time → Zone → string;           (* Format(time.RFC3339) *)
  FormatZonedNano : Time → Zone → string        (* Format(time.RFC3339Nano) *)
}.

(** ** Sorting

    [sort.SliceStable]: the insertion sort Go runs on up to twenty elements;
    on more it gives the same list whenever [less] is a strict weak order,
    because stability leaves only one. [sorted] is the sorted part, backwards. *)
Fixpoint insert_back {A} (less : A → A → bool) (x : A) (sorted : list A) : list A :=
  match sorted with
  | [] => [x]
  | y :: rest => if less x y then y :: insert_back less x rest else x :: sorted
  end.
Definition SliceStable {A} (less : A → A → bool) (l : list A) : list A :=
  reverse (foldl (λ sorted x, insert_back less x sorted) [] l).

(** ** The end of a file *)

Definition trim_line (l : chars) : string := TrimRight (of_chars l) cr.

Definition keep_line (max : nat) (kept : list string) (line : string) : list string :=
  let line := TrimRight line cr in
  if String.eqb (TrimSpace line) "" then kept
  else
    let kept := kept ++ [line] in
    if (max <? length kept)%nat then drop (length kept - max) kept else kept.

Definition lastLines (data : string) (max : nat) : list string :=
  foldl (keep_line max) [] (Split (ReplaceAll data (cr +:+ nl) nl) newline).

Definition initialWindow : Z := 64 * 1024.
Definition maxWindow : Z := 4 * 1024 * 1024.

(** The last [window] bytes. *)
Definition file_end (text : string) (window : Z) : string :=
  of_chars (drop (Z.to_nat (slen text - window)) (to_chars text)).

Fixpoint grow_window (fuel : nat) (text : string) (max : nat) (window : Z) : option (list string) :=
  let size := slen text in
  let start := size - window in
  let lines := lastLines (file_end text window) max in
  if (max <=? length lines)%nat || (start =? 0) || (maxWindow <=? window) then Some lines
  else match fuel with
  | O => None
  | S fuel =>
      let window := window * 2 in
      let window := if maxWindow <? window then maxWindow else window in
      let window := if size <? window then size else window in
      grow_window fuel text max window
  end.

Definition windows : nat := 6.

(** The file does not change while it is read. *)
Definition recentFileLines (d : Disk) (path : string) (max : nat) : result (list string) :=
  match ReadFile d (Clean path) with
  | ReadNotExist => Err (not_exist path)
  | ReadErr e => Err e
  | ReadData text =>
      let size := slen text in
      if size <=? 0 then Ok []
      else
        let window := if size <? initialWindow then size else initialWindow in
        Ok (default [] (grow_window windows text max window))
  end.

Definition fileExists (d : Disk) (path : string) : bool := bool_decide (is_Some (dk_files d !! Clean path)).

(** [Glob] is what [filepath.Glob] finds. *)
Definition jsonlRecentCandidates (Glob : Disk → string → list string) (d : Disk) (basePath : string)
    : list string :=
  let basePath := Clean basePath in
  let ext := Ext basePath in
  let name := TrimSuffix (Base basePath) ext in
  let ext := if String.eqb ext "" then ".jsonl" else ext in
  let pattern := JoinPath (Dir basePath) (name +:+ "-*" +:+ ext) in
  let matches := SliceStable (λ a b, String.ltb b a) (Glob d pattern) in
  if fileExists d basePath then matches ++ [basePath] else matches.

(** The loop over the lines of one file, the last one first. *)
Fixpoint decode_recent {T} (decode : string → option T) (max : nat) (out : list T) (lines : list string)
    : list T :=
  match lines with
  | [] => out
  | line :: lines =>
      if (max <=? length out)%nat then out
      else decode_recent decode max (match decode line with Some e => out ++ [e] | None => out end) lines
  end.

Fixpoint read_recent {T} (d : Disk) (decode : string → option T) (max : nat) (out : list T)
    (candidates : list string) : list T :=
  match candidates with
  | [] => out
  | candidate :: candidates =>
      if (max <=? length out)%nat then out
      else match recentFileLines d candidate max with
      | Err _ => read_recent d decode max out candidates
      | Ok lines => read_recent d decode max (decode_recent decode max out (reverse lines)) candidates
      end
  end.

Definition readJSONLRecent {T} (Glob : Disk → string → list string) (d : Disk) (basePath : string)
    (max : Z) (decode : string → option T) : list T :=
  let max := if max <=? 0 then 120 else max in
  read_recent d decode (Z.to_nat max) [] (jsonlRecentCandidates Glob d basePath).

(** ** Kinds and results *)

Definition nul : string := String (of_code 0) "".

Definition normalizeBusinessKind (kind : string) : string :=
  let kind := TrimSpace kind in
  if String.eqb kind "reverse" then "reverse_listen" else kind.

Definition normalizeBusinessResult (result : string) : string := TrimSpace result.

Definition isBusinessLifecycleKind (kind : string) : bool :=
  bool_decide (kind ∈ ["open"; "reverse_stream"; "reverse_listen"]).

Definition businessLifecycleKey (entry : BusinessLogEntry) : string :=
  if String.eqb (bl_RequestID entry) "" || negb (isBusinessLifecycleKind (bl_Kind entry)) then ""
  else bl_RequestID entry +:+ nul +:+ bl_Kind entry.

Definition businessRowKey (entry : BusinessLogEntry) : string :=
  if negb (String.eqb (bl_RequestID entry) "")
  then bl_RequestID entry +:+ nul +:+ bl_Kind entry +:+ nul +:+ bl_Result entry
  else bl_Time entry +:+ nul +:+ bl_Kind entry +:+ nul +:+ bl_Result entry +:+ nul
       +:+ bl_RemoteIP entry +:+ nul +:+ bl_Code entry +:+ nul +:+ bl_Message entry.

Definition businessKindFromRequestType (kind : string) : string :=
  let normalized := normalizeBusinessKind kind in
  if String.eqb normalized "" then "request"
  else if String.eqb normalized "health" then "health"
  else if bool_decide (normalized ∈ ["login"; "open"; "reverse_listen"; "reverse_stream"; "forward_check"])
  then normalized
  else "request".

Definition businessResultPriority (result : string) : Z :=
  if bool_decide (result ∈ ["closed"; "failed"; "denied"; "blocked"; "error"]) then 4
  else if bool_decide (result ∈ ["connected"; "activated"]) then 3
  else if String.eqb result "ok" then 2
  else if String.eqb result "" then 0 else 1.

Definition businessResultFromRequest (entry : RequestLogEntry) (kind : string) : string :=
  let result := normalizeBusinessResult (rl_Result entry) in
  let response := rl_Response entry in
  let code := TrimSpace (rs_Code response) in
  if String.eqb result "blocked" || Contains code "blocked" then "blocked"
  else if String.eqb result "denied" || Contains code "denied" then "denied"
  else if String.eqb result "failed" || String.eqb result "error"
          || negb (String.eqb (rl_ReadError entry) "")
          || (negb (rs_OK response) && negb (String.eqb code ""))
  then "failed"
  else if String.eqb result "ok" || rs_OK response then
    if bool_decide (kind ∈ ["open"; "reverse_stream"]) then "connected"
    else if String.eqb kind "reverse_listen" then "activated" else "ok"
  else if negb (String.eqb result "") then result else "failed".

Definition requestRemoteIP (entry : RequestLogEntry) : string :=
  if negb (String.eqb (TrimSpace (rl_RemoteIP entry)) "") then rl_RemoteIP entry
  else match SplitHostPort (rl_RemoteAddr entry) with
  | Ok (host, _) => host
  | Err _ => rl_RemoteAddr entry
  end.

(** ** Rows *)

Section Rows.
Context `{ZonedTime}.

Definition businessTimeAfter (a b : string) : bool :=
  match ParseZoned a, ParseZoned b with
  | Some (ta, _), Some (tb, _) => After ta tb
  | _, _ => String.ltb b a
  end.
Definition businessTimeBefore (a b : string) : bool :=
  match ParseZoned a, ParseZoned b with
  | Some (ta, _), Some (tb, _) => Before ta tb
  | _, _ => String.ltb a b
  end.

Definition businessStartFromDuration (endText : string) (durationMS : Z) : string :=
  if String.eqb endText "" || (durationMS <=? 0) then ""
  else match ParseZoned endText with
  | None => ""
  | Some (t, zone) => FormatZoned (t + wrap_i64 (- durationMS * 1000000)) zone
  end.

Definition with_period (entry : BusinessLogEntry) (startedAt endedAt : string) : BusinessLogEntry :=
  mkBusinessLogEntry (bl_Time entry) startedAt endedAt (bl_RequestID entry) (bl_Kind entry)
    (bl_Result entry) (bl_RemoteIP entry) (bl_Username entry) (bl_ClientID entry)
    (bl_ForwardName entry) (bl_Direction entry) (bl_Target entry) (bl_ListenAddr entry)
    (bl_Code entry) (bl_Message entry) (bl_DurationMS entry) (bl_BytesUp entry) (bl_BytesDown entry).

Definition with_kind_result (entry : BusinessLogEntry) (kind result : string) : BusinessLogEntry :=
  mkBusinessLogEntry (bl_Time entry) (bl_StartedAt entry) (bl_EndedAt entry) (bl_RequestID entry) kind
    result (bl_RemoteIP entry) (bl_Username entry) (bl_ClientID entry)
    (bl_ForwardName entry) (bl_Direction entry) (bl_Target entry) (bl_ListenAddr entry)
    (bl_Code entry) (bl_Message entry) (bl_DurationMS entry) (bl_BytesUp entry) (bl_BytesDown entry).

(** [if s == "" { s = t }] *)
Definition or_text (s t : string) : string := if String.eqb s "" then t else s.
Definition or_number (n m : Z) : Z := if n =? 0 then m else n.

Definition prepareBusinessFlowEntry (entry : BusinessLogEntry) : BusinessLogEntry :=
  let entry := with_kind_result entry (normalizeBusinessKind (bl_Kind entry))
                 (normalizeBusinessResult (bl_Result entry)) in
  if negb (isBusinessLifecycleKind (bl_Kind entry)) then entry
  else if bool_decide (bl_Result entry ∈ ["connected"; "activated"; "ok"])
  then with_period entry (or_text (bl_StartedAt entry) (bl_Time entry)) (bl_EndedAt entry)
  else if bool_decide (bl_Result entry ∈ ["closed"; "failed"; "denied"; "blocked"; "error"]) then
    let endedAt := or_text (bl_EndedAt entry) (bl_Time entry) in
    let startedAt := if String.eqb (bl_StartedAt entry) "" && (0 <? bl_DurationMS entry)
                     then businessStartFromDuration endedAt (bl_DurationMS entry)
                     else bl_StartedAt entry in
    with_period entry startedAt endedAt
  else with_period entry (or_text (bl_StartedAt entry) (bl_Time entry)) (bl_EndedAt entry).

(** [carryBusinessFields(dst, src)] *)
Definition carryBusinessFields (dst src : BusinessLogEntry) : BusinessLogEntry :=
  let startedAt := if String.eqb (bl_StartedAt dst) ""
                      || (negb (String.eqb (bl_StartedAt src) "")
                          && businessTimeBefore (bl_StartedAt src) (bl_StartedAt dst))
                   then bl_StartedAt src else bl_StartedAt dst in
  let endedAt := if String.eqb (bl_EndedAt dst) ""
                    || (negb (String.eqb (bl_EndedAt src) "")
                        && businessTimeAfter (bl_EndedAt src) (bl_EndedAt dst))
                 then bl_EndedAt src else bl_EndedAt dst in
  mkBusinessLogEntry (or_text (bl_Time dst) (bl_Time src)) startedAt endedAt
    (or_text (bl_RequestID dst) (bl_RequestID src)) (or_text (bl_Kind dst) (bl_Kind src))
    (or_text (bl_Result dst) (bl_Result src)) (or_text (bl_RemoteIP dst) (bl_RemoteIP src))
    (or_text (bl_Username dst) (bl_Username src)) (or_text (bl_ClientID dst) (bl_ClientID src))
    (or_text (bl_ForwardName dst) (bl_ForwardName src)) (or_text (bl_Direction dst) (bl_Direction src))
    (or_text (bl_Target dst) (bl_Target src)) (or_text (bl_ListenAddr dst) (bl_ListenAddr src))
    (or_text (bl_Code dst) (bl_Code src)) (or_text (bl_Message dst) (bl_Message src))
    (or_number (bl_DurationMS dst) (bl_DurationMS src)) (or_number (bl_BytesUp dst) (bl_BytesUp src))
    (or_number (bl_BytesDown dst) (bl_BytesDown src)).

Definition mergeBusinessLifecycle (dst src : BusinessLogEntry) : BusinessLogEntry :=
  let srcPriority := businessResultPriority (bl_Result src) in
  let dstPriority := businessResultPriority (bl_Result dst) in
  if (dstPriority <? srcPriority)
     || ((srcPriority =? dstPriority) && businessTimeAfter (bl_Time src) (bl_Time dst))
  then carryBusinessFields src dst
  else carryBusinessFields dst src.

Record businessFlowSet := mkFlowSet {
  fl_rows : list BusinessLogEntry;
  fl_lifecycleIndex : gmap string nat;
  fl_businessRequestIDs : gset string;
  fl_seenRows : gset string;
  fl_seenRequests : gset string
}.

Definition addBusinessEvent (s : businessFlowSet) (entry : BusinessLogEntry) : businessFlowSet :=
  let entry := prepareBusinessFlowEntry entry in
  if String.eqb (TrimSpace (bl_Kind entry)) "" then s
  else
    let ids := if negb (String.eqb (bl_RequestID entry) "")
               then {[ bl_RequestID entry ]} ∪ fl_businessRequestIDs s else fl_businessRequestIDs s in
    let key := businessLifecycleKey entry in
    if negb (String.eqb key "") then
      match fl_lifecycleIndex s !! key with
      | Some idx =>
          mkFlowSet (alter (λ row, mergeBusinessLifecycle row entry) idx (fl_rows s))
            (fl_lifecycleIndex s) ids (fl_seenRows s) (fl_seenRequests s)
      | None =>
          mkFlowSet (fl_rows s ++ [entry]) (<[key := length (fl_rows s)]> (fl_lifecycleIndex s))
            ids (fl_seenRows s) (fl_seenRequests s)
      end
    else
      let key := businessRowKey entry in
      if bool_decide (key ∈ fl_seenRows s)
      then mkFlowSet (fl_rows s) (fl_lifecycleIndex s) ids (fl_seenRows s) (fl_seenRequests s)
      else mkFlowSet (fl_rows s ++ [entry]) (fl_lifecycleIndex s) ids
             ({[ key ]} ∪ fl_seenRows s) (fl_seenRequests s).

(** [None] for a request that is not shown. *)
Definition businessFlowFromRequest (entry : RequestLogEntry) : option BusinessLogEntry :=
  let req := rl_Request entry in
  let kind := businessKindFromRequestType (rq_Type req) in
  if String.eqb kind "health" then None
  else
    let result := businessResultFromRequest entry kind in
    if String.eqb kind "request" && String.eqb result "ok" then None
    else
      let kind := if String.eqb kind "login" && negb (String.eqb result "ok") then "auth" else kind in
      let code := TrimSpace (rs_Code (rl_Response entry)) in
      let message := TrimSpace (rs_Message (rl_Response entry)) in
      let message := if negb (String.eqb (TrimSpace (rl_ReadError entry)) "")
                     then if String.eqb message "" then rl_ReadError entry
                          else message +:+ " / " +:+ rl_ReadError entry
                     else message in
      Some (mkBusinessLogEntry (rl_Time entry) (rl_Time entry) "" (rl_RequestID entry) kind result
              (requestRemoteIP entry) (rq_Username req) (rq_ClientID req) (rq_ForwardName req)
              (rq_Direction req) (rq_Target req) (rq_ListenAddr req) code message
              (rl_DurationMS entry) 0 0).

Definition addRequestLog (s : businessFlowSet) (entry : RequestLogEntry) : businessFlowSet :=
  let id := rl_RequestID entry in
  if String.eqb (TrimSpace (rq_Type (rl_Request entry))) "health" then s
  else if negb (String.eqb id "")
          && (bool_decide (id ∈ fl_seenRequests s) || bool_decide (id ∈ fl_businessRequestIDs s)) then s
  else match businessFlowFromRequest entry with
  | None => s
  | Some flow =>
      let s := if negb (String.eqb id "")
               then mkFlowSet (fl_rows s) (fl_lifecycleIndex s) (fl_businessRequestIDs s)
                      (fl_seenRows s) ({[ id ]} ∪ fl_seenRequests s) else s in
      addBusinessEvent s flow
  end.

Definition emptyFlowSet : businessFlowSet := mkFlowSet [] ∅ ∅ ∅ ∅.

Definition flow_set (events : list BusinessLogEntry) (requests : list RequestLogEntry) : businessFlowSet :=
  foldl addRequestLog (foldl addBusinessEvent emptyFlowSet events) requests.

Definition buildBusinessFlow (events : list BusinessLogEntry) (requests : list RequestLogEntry) (max : Z)
    : list BusinessLogEntry :=
  let max := if max <=? 0 then 120 else max in
  let rows := SliceStable (λ a b, businessTimeAfter (bl_Time a) (bl_Time b)) (fl_rows (flow_set events requests)) in
  take (Z.to_nat max) rows.

End Rows.

(** ** Sorting *)

Section Sorting.
Context {A : Type} (less : A → A → bool).

Lemma insert_back_Permutation x l : insert_back less x l ≡ₚ x :: l.
Proof.
  induction l as [|y l IH]; [done|]. cbn. destruct (less x y); [|done].
  rewrite IH. apply Permutation_swap.
Qed.

Lemma SliceStable_Permutation l : SliceStable less l ≡ₚ l.
Proof.
  unfold SliceStable. rewrite reverse_Permutation.
  assert (∀ acc, foldl (λ sorted x, insert_back less x sorted) acc l ≡ₚ acc ++ l) as H; [|by rewrite H].
  induction l as [|x l IH]; intros acc; cbn [foldl]; [by rewrite app_nil_r|].
  rewrite IH, insert_back_Permutation. apply Permutation_middle.
Qed.

Variable P : A → Prop.
Hypothesis asym : ∀ x y, P x → P y → less x y = true → less y x = false.
Hypothesis trans : ∀ x y z, P x → P y → P z → less y x = false → less z y = false → less z x = false.

(** Backwards, no element comes before a smaller one. *)
Lemma insert_back_sorted x l :
  P x → Forall P l → StronglySorted (λ a b, less a b = false) l →
  StronglySorted (λ a b, less a b = false) (insert_back less x l).
Proof.
  intros Hx Hl Hs. induction Hs as [|y l Hs IH Hy]; cbn [insert_back]; [by repeat constructor|].
  apply Forall_cons in Hl as [Py Hl].
  destruct (less x y) eqn:E.
  - constructor; [by apply IH|]. rewrite insert_back_Permutation. constructor; [by apply asym|done].
  - constructor; [by constructor|]. constructor; [done|].
    rewrite Forall_forall in Hy, Hl |- *. intros z Hz.
    apply (trans z y x); [by apply Hl|done|done|by apply Hy|done].
Qed.

Lemma StronglySorted_rev (R : A → A → Prop) l :
  StronglySorted R l → StronglySorted (λ a b, R b a) (reverse l).
Proof.
  induction 1 as [|x l Hs IH Hx]; [constructor|]. rewrite reverse_cons.
  apply StronglySorted_app_2; [|done|repeat constructor].
  intros a b Ha ->%list_elem_of_singleton. rewrite elem_of_reverse in Ha. rewrite Forall_forall in Hx. by apply Hx.
Qed.

Lemma SliceStable_sorted l :
  Forall P l → StronglySorted (λ a b, less b a = false) (SliceStable less l).
Proof.
  intros Hl. unfold SliceStable. apply (StronglySorted_rev (λ a b, less a b = false)).
  assert (∀ acc, Forall P acc → StronglySorted (λ a b, less a b = false) acc →
    StronglySorted (λ a b, less a b = false) (foldl (λ sorted x, insert_back less x sorted) acc l)) as H;
    [|apply H; constructor].
  induction Hl as [|x l Hx Hl IH]; intros acc Hacc Hs; cbn [foldl]; [done|].
  apply IH; [|by apply insert_back_sorted]. rewrite insert_back_Permutation. by constructor.
Qed.
End Sorting.

(** ** The end of a file *)

Definition last_n {A} (n : nat) (l : list A) : list A := drop (length l - n) l.

Definition shown_line (s : string) : Prop := TrimSpace s ≠ "".

(** The lines of a file that are not blank. *)
Definition text_lines (l : chars) : list string := filter shown_line (map trim_line (split_on newline l)).

Lemma last_n_snoc {A} n (l : list A) x : (0 < n)%nat → last_n n (l ++ [x]) = last_n (n - 1) l ++ [x].
Proof.
  intros Hn. unfold last_n. rewrite length_app. cbn [length].
  rewrite drop_app_le by lia. do 2 f_equal. lia.
Qed.

Lemma keep_lines_last max lines seen :
  (0 < max)%nat →
  foldl (keep_line max) (last_n max seen) lines
  = last_n max (seen ++ filter shown_line (map (λ l, TrimRight l cr) lines)).
Proof.
  intros Hm. revert seen. induction lines as [|line lines IH]; intros seen; cbn [foldl map]; [by rewrite app_nil_r|].
  rewrite filter_cons. unfold keep_line at 2, shown_line at 2.
  destruct (String.eqb_spec (TrimSpace (TrimRight line cr)) "") as [E|E].
  - rewrite decide_False by tauto. apply IH.
  - rewrite decide_True by done. set (x := TrimRight line cr) in *. clearbody x.
    assert ((if (max <? length (last_n max seen ++ [x]))%nat
             then drop (length (last_n max seen ++ [x]) - max) (last_n max seen ++ [x])
             else last_n max seen ++ [x]) = last_n max (seen ++ [x])) as ->.
    { rewrite last_n_snoc by done. unfold last_n. rewrite length_app, length_drop. cbn [length].
      destruct (Nat.ltb_spec max (length seen - (length seen - max) + 1)).
      - rewrite drop_app_le by (rewrite length_drop; lia). rewrite drop_drop. do 2 f_equal. lia.
      - do 2 f_equal. lia. }
    rewrite IH, <-app_assoc. done.
Qed.

Definition trim_crs (l : chars) : chars := reverse (drop_in [carriage] (reverse l)).

Lemma drop_in_snoc cut l c :
  drop_in cut (l ++ [c]) = match drop_in cut l with [] => drop_in cut [c] | d => d ++ [c] end.
Proof. induction l as [|x l IH]; [done|]. cbn. destruct (existsb _ _); [apply IH|done]. Qed.

Lemma trim_crs_cons c l :
  trim_crs (c :: l) = match trim_crs l with [] => trim_crs [c] | d => c :: d end.
Proof.
  unfold trim_crs. rewrite reverse_cons, drop_in_snoc, reverse_singleton.
  destruct (drop_in [carriage] (reverse l)) as [|x d]; [done|]. rewrite reverse_app, reverse_singleton.
  destruct (reverse (x :: d)) as [|y r] eqn:E; [|done].
  apply (f_equal length) in E. rewrite length_reverse in E. done.
Qed.

Lemma trim_line_crs l : trim_line l = of_chars (trim_crs l).
Proof. unfold trim_line, TrimRight, trim_crs. by rewrite to_of_chars. Qed.

(** Carriage returns before line breaks are trimmed in either way. *)
Lemma crlf_lines n l :
  (length l <= n)%nat →
  map trim_crs (split_on newline (replace_go [carriage; newline] [newline] 0 l))
  = map trim_crs (split_on newline l).
Proof.
  revert l. induction n as [|n IH]; intros [|c t] Hn; try done; [cbn in Hn; lia|].
  cbn [length] in Hn. cbn [replace_go].
  destruct (chars_prefix [carriage; newline] (c :: t)) eqn:E.
  - destruct t as [|d t]; [by cbn in E; rewrite andb_false_r in E|].
    cbn [chars_prefix] in E. apply andb_true_iff in E as [Ec E]. apply andb_true_iff in E as [Ed _].
    apply Ascii.eqb_eq in Ec, Ed. subst c d. cbn [length Nat.sub app replace_go].
    cbn [length] in Hn. specialize (IH t ltac:(lia)).
    cbn [split_on]. destruct (split_on newline t) as [|h r] eqn:E1; [by apply split_on_ne in E1|].
    destruct (split_on newline (replace_go _ _ 0 t)) as [|h' r'] eqn:E2; [by apply split_on_ne in E2|].
    rewrite Ascii.eqb_refl. change (Ascii.eqb carriage newline) with false. cbn [map].
    cbn [map] in IH. rewrite IH. done.
  - specialize (IH t ltac:(lia)). cbn [split_on].
    destruct (split_on newline t) as [|h r] eqn:E1; [by apply split_on_ne in E1|].
    destruct (split_on newline (replace_go _ _ 0 t)) as [|h' r'] eqn:E2; [by apply split_on_ne in E2|].
    cbn [map] in IH. injection IH as Eh Er. destruct (Ascii.eqb c newline); cbn [map]; [by rewrite Eh, Er|].
    by rewrite (trim_crs_cons c h'), (trim_crs_cons c h), Eh, Er.
Qed.

Lemma lastLines_spec data max :
  (0 < max)%nat → lastLines data max = last_n max (text_lines (to_chars data)).
Proof.
  intros Hm. unfold lastLines. pose proof (keep_lines_last max (Split (ReplaceAll data (cr +:+ nl) nl) newline) [] Hm) as H.
  change (last_n max []) with (@nil string) in H. rewrite H. cbn [app]. unfold text_lines. do 2 f_equal.
  unfold Split, ReplaceAll. rewrite to_of_chars, map_map.
  pose proof (crlf_lines _ (to_chars data) (le_n _)) as E. apply (f_equal (map of_chars)) in E.
  rewrite !map_map in E. etrans; [|etrans; [exact E|]].
  - apply map_ext. intros l. apply trim_line_crs.
  - apply map_ext. intros l. symmetry. apply trim_line_crs.
Qed.

Lemma split_on_cat sep a b hd tl :
  split_on sep b = hd :: tl → ∃ pre h, split_on sep (a ++ b) = pre ++ (h ++ hd) :: tl.
Proof.
  intros Hb. induction a as [|c a (pre & h & IH)]; [by exists [], []|]. cbn [app split_on]. rewrite IH.
  destruct pre as [|p pre]; cbn [app].
  - destruct (Ascii.eqb c sep); [by exists [[]], h|by exists [], (c :: h)].
  - destruct (Ascii.eqb c sep); [by exists ([] :: p :: pre), h|by exists ((c :: p) :: pre), h].
Qed.

(** The lines of the end of a file are the last lines of the file, but for the
    first one, which may be the rest of a line. *)
Lemma text_lines_end a b :
  ∃ first rest, text_lines b = first ++ rest ∧ (length first <= 1)%nat ∧ rest `suffix_of` text_lines (a ++ b).
Proof.
  destruct (split_on newline b) as [|hd tl] eqn:Hb; [by apply split_on_ne in Hb|].
  destruct (split_on_cat newline a b hd tl Hb) as (pre & h & Hab). unfold text_lines. rewrite Hb, Hab.
  exists (filter shown_line [trim_line hd]), (filter shown_line (map trim_line tl)). split_and!.
  - change (hd :: tl) with ([hd] ++ tl). by rewrite map_app, filter_app.
  - apply (length_filter_le shown_line [trim_line hd]).
  - exists (filter shown_line (map trim_line (pre ++ [h ++ hd]))). rewrite <-filter_app, <-map_app.
    by rewrite <-app_assoc.
Qed.

Lemma last_n_app {A} n (a b : list A) : (n <= length b)%nat → last_n n (a ++ b) = last_n n b.
Proof.
  intros Hn. unfold last_n. rewrite length_app, drop_app_ge by lia. f_equal. lia.
Qed.

Lemma last_n_all {A} n (l : list A) : (length l <= n)%nat → last_n n l = l.
Proof. intros Hn. unfold last_n. by replace (length l - n)%nat with 0%nat by lia. Qed.

Lemma length_last_n {A} n (l : list A) : length (last_n n l) = Nat.min n (length l).
Proof. unfold last_n. rewrite length_drop. lia. Qed.

(** Reading the end of a file ends after the windows there are. *)
Lemma grow_window_ends fuel text max window :
  maxWindow <= window * 2 ^ Z.of_nat fuel ∨ window = slen text →
  ∃ w, grow_window fuel text max window = Some (lastLines (file_end text w) max) ∧
    ((max <= length (lastLines (file_end text w) max))%nat ∨ w = slen text ∨ maxWindow <= w) ∧
    (window = slen text → w = slen text) ∧ (window <= slen text → w <= slen text).
Proof.
  revert window. induction fuel as [|fuel IH]; intros window Hw; cbn [grow_window];
    destruct (Nat.leb_spec max (length (lastLines (file_end text window) max)));
    cbn [orb]; try (exists window; split_and!; [done|by left|done|done]);
    destruct (Z.eqb_spec (slen text - window) 0); cbn [orb]; try (exists window; split_and!; [done|right; left; lia|done|done]);
    destruct (Z.leb_spec maxWindow window); try (exists window; split_and!; [done|by right; right|done|done]).
  - exfalso. destruct Hw as [Hw|Hw]; [cbn in Hw; lia|lia].
  - rewrite Nat2Z.inj_succ, Z.pow_succ_r in Hw by lia.
    edestruct IH as (w & H1' & H2' & _ & H3'); [|exists w; split; [exact H1'|split; [exact H2'|split; [lia|]]]];
      [|intros; apply H3'; destruct (Z.ltb_spec maxWindow (window * 2)), (Z.ltb_spec (slen text) maxWindow),
          (Z.ltb_spec (slen text) (window * 2)); lia].
    destruct Hw as [Hw|Hw]; [|lia].
    destruct (Z.ltb_spec maxWindow (window * 2));
      [|destruct (Z.ltb_spec (slen text) (window * 2)); [by right|left; lia]].
    destruct (Z.ltb_spec (slen text) maxWindow); [by right|left].
    pose proof (Z.pow_pos_nonneg 2 (Z.of_nat fuel)). assert (0 < maxWindow) by done. nia.
Qed.

Lemma file_end_split text w :
  ∃ a, to_chars text = a ++ to_chars (file_end text w) ∧ (w = slen text → a = []).
Proof.
  unfold file_end. rewrite to_of_chars. exists (take (Z.to_nat (slen text - w)) (to_chars text)).
  split; [by rewrite take_drop|]. intros ->. by rewrite Z.sub_diag.
Qed.

(** The lines [recentFileLines] gives are never more than asked for. They are
    the last lines of the file that are not blank; only when the end that was
    read begins inside the file the first one may be the rest of a line, and
    then the others are the last lines of the file, and there are as many lines
    as asked for unless the file is larger than the largest end that is read. *)
Theorem recent_lines_last d path max text lines :
  (0 < max)%nat → ReadFile d (Clean path) = ReadData text → recentFileLines d path max = Ok lines →
  let all := text_lines (to_chars text) in
  (length lines <= max)%nat ∧
  (lines = last_n max all ∨
   ∃ cut others, lines = cut ++ others ∧ (length cut <= 1)%nat ∧ others `suffix_of` all ∧
     initialWindow < slen text ∧ (length lines = max ∨ maxWindow < slen text)).
Proof.
  intros Hm Hread. unfold recentFileLines. rewrite Hread. cbn zeta.
  destruct (Z.leb_spec (slen text) 0) as [H0|H0].
  { intros [= <-]. assert (text = "") as -> by (destruct text; [done|unfold slen in H0; cbn in H0; lia]).
    split; [cbn; lia|left]. reflexivity. }
  set (w0 := if slen text <? initialWindow then slen text else initialWindow).
  destruct (grow_window_ends windows text max w0) as (w & -> & Hw & Hw0 & Hwle).
  { unfold w0. destruct (Z.ltb_spec (slen text) initialWindow); [by right|left]. done. }
  cbn [default]. intros [= <-]. rewrite lastLines_spec in Hw |- * by done.
  split; [rewrite length_last_n; lia|].
  destruct (file_end_split text w) as (a & Ha & Hfull). set (b := to_chars (file_end text w)) in *.
  destruct (text_lines_end a b) as (first & rest & Hb & Hf & [before Hsuf]). rewrite <-Ha in Hsuf.
  destruct (decide (w = slen text)) as [E|E]; [left; by rewrite Ha, (Hfull E)|].
  assert (initialWindow < slen text) as Hbig.
  { unfold w0 in Hw0. destruct (Z.ltb_spec (slen text) initialWindow); [tauto|].
    destruct (Z.eq_dec (slen text) initialWindow); [|lia]. rewrite Hw0 in E by done. done. }
  rewrite Hb in Hw |- *. destruct (le_lt_dec max (length rest)) as [Hr|Hr].
  { left. by rewrite Hsuf, !last_n_app. }
  rewrite last_n_all in Hw |- * by (rewrite length_app; lia).
  right. exists first, rest. split_and!; [done|done|by exists before|done|].
  destruct Hw as [Hw|[Hw|Hw]]; [left|done|right].
  - rewrite length_app in *. lia.
  - assert (w <= slen text); [|lia]. apply Hwle. unfold w0. destruct (Z.ltb_spec (slen text) initialWindow); lia.
Qed.

Lemma recent_lines_last_witness :
  let text := "one" +:+ nl +:+ nl +:+ "two" +:+ cr +:+ nl +:+ "three" +:+ nl in
  let d := goodDisk {[ "log.jsonl" := text ]} in
  recentFileLines d "log.jsonl" 2 = Ok ["two"; "three"] ∧ (length ["two"; "three"] <= 2)%nat.
Proof.
  assert (recentFileLines (goodDisk {[ "log.jsonl" := "one" +:+ nl +:+ nl +:+ "two" +:+ cr +:+ nl +:+ "three" +:+ nl ]})
    "log.jsonl" 2 = Ok ["two"; "three"]) as Hr by (vm_compute; reflexivity).
  split; [exact Hr|].
  assert (0 < 2)%nat as H2 by lia.
  assert (ReadFile (goodDisk {[ "log.jsonl" := "one" +:+ nl +:+ nl +:+ "two" +:+ cr +:+ nl +:+ "three" +:+ nl ]})
    (Clean "log.jsonl") = ReadData ("one" +:+ nl +:+ nl +:+ "two" +:+ cr +:+ nl +:+ "three" +:+ nl)) as Hf
    by (vm_compute; reflexivity).
  exact (proj1 (recent_lines_last _ _ _ _ _ H2 Hf Hr)).
Defined.

(** ** Rows *)

Section RowProperties.
Context `{ZonedTime}.

Abbreviation prio e := (businessResultPriority (bl_Result e)).

(** The row an entry belongs to. *)
Definition row_of (e : BusinessLogEntry) : string * string :=
  let key := businessLifecycleKey e in (key, if String.eqb key "" then businessRowKey e else "").

Definition has_kind (e : BusinessLogEntry) : Prop := TrimSpace (bl_Kind e) ≠ "".

Lemma lifecycle_key e :
  businessLifecycleKey e ≠ "" ↔ bl_RequestID e ≠ "" ∧ isBusinessLifecycleKind (bl_Kind e) = true.
Proof.
  unfold businessLifecycleKey. destruct (String.eqb_spec (bl_RequestID e) "") as [E|E]; cbn [orb].
  - split; [done|tauto].
  - destruct (isBusinessLifecycleKind (bl_Kind e)); cbn [negb]; [|split; [done|intros [_ ?]; done]].
    split; [done|intros _]. by destruct (bl_RequestID e).
Qed.

Lemma lifecycle_kind k : isBusinessLifecycleKind k = true → k ≠ "".
Proof. intros Hk ->. done. Qed.

Lemma or_text_ne s t : s ≠ "" → or_text s t = s.
Proof. intros Hs. unfold or_text. by destruct (String.eqb_spec s ""). Qed.

(** Carrying fields over keeps the key. *)
Lemma carry_key dst src :
  businessLifecycleKey dst ≠ "" → businessLifecycleKey (carryBusinessFields dst src) = businessLifecycleKey dst.
Proof.
  intros [Hid Hk]%lifecycle_key. unfold businessLifecycleKey, carryBusinessFields. cbn.
  by rewrite !or_text_ne by (done || by apply lifecycle_kind).
Qed.

Lemma priority_zero r : businessResultPriority r <= 0 ↔ r = "".
Proof.
  unfold businessResultPriority. split; [|by intros ->].
  case_bool_decide; [lia|]. case_bool_decide; [lia|]. destruct (String.eqb r "ok"); [lia|].
  by destruct (String.eqb_spec r "").
Qed.
Lemma priority_nonneg r : 0 <= businessResultPriority r.
Proof. unfold businessResultPriority. repeat case_match; lia. Qed.

Lemma carry_priority dst src :
  prio src <= prio dst → prio (carryBusinessFields dst src) = prio dst.
Proof.
  intros Hp. unfold carryBusinessFields. cbn. unfold or_text.
  destruct (String.eqb_spec (bl_Result dst) "") as [E|]; [|done].
  rewrite E in *. assert (bl_Result src = "") as ->; [|done]. by apply priority_zero.
Qed.

(** A merged row keeps its key and shows the result that counts most. *)
Lemma merge_spec dst src :
  businessLifecycleKey dst ≠ "" → businessLifecycleKey src = businessLifecycleKey dst →
  businessLifecycleKey (mergeBusinessLifecycle dst src) = businessLifecycleKey dst ∧
  prio (mergeBusinessLifecycle dst src) = Z.max (prio dst) (prio src).
Proof.
  intros Hd Hs. unfold mergeBusinessLifecycle.
  destruct ((prio dst <? prio src) || _) eqn:E.
  - assert (prio dst <= prio src) by bool_lia.
    rewrite carry_key, carry_priority by (congruence || done). split; [done|lia].
  - assert (prio src <= prio dst) by bool_lia. rewrite carry_key, carry_priority by done. split; [done|lia].
Qed.

(** What the rows are after the entries [es]. *)
Record flow_inv (es : list BusinessLogEntry) (s : businessFlowSet) : Prop := {
  fi_rows : NoDup (map row_of (fl_rows s));
  fi_cover : ∀ e, e ∈ es → row_of e ∈ map row_of (fl_rows s);
  fi_from : ∀ r, r ∈ fl_rows s → ∃ e, e ∈ es ∧ row_of e = row_of r ∧ prio r = prio e;
  fi_max : ∀ r e, r ∈ fl_rows s → e ∈ es → businessLifecycleKey r ≠ "" → row_of e = row_of r → prio e <= prio r;
  fi_index : ∀ k i, fl_lifecycleIndex s !! k = Some i ↔
    k ≠ "" ∧ ∃ r, fl_rows s !! i = Some r ∧ businessLifecycleKey r = k;
  fi_seen : ∀ k, k ∈ fl_seenRows s ↔
    ∃ r, r ∈ fl_rows s ∧ businessLifecycleKey r = "" ∧ businessRowKey r = k;
  fi_ids : ∀ id, id ∈ fl_businessRequestIDs s ↔ id ≠ "" ∧ ∃ e, e ∈ es ∧ bl_RequestID e = id
}.

Lemma row_of_lifecycle e k : businessLifecycleKey e = k → k ≠ "" → row_of e = (k, "").
Proof. intros <- Hk. unfold row_of. by destruct (String.eqb_spec (businessLifecycleKey e) ""). Qed.
Lemma row_of_plain e : businessLifecycleKey e = "" → row_of e = ("", businessRowKey e).
Proof. intros E. unfold row_of. by rewrite E. Qed.
Lemma row_of_key e e' : row_of e = row_of e' → businessLifecycleKey e = businessLifecycleKey e'.
Proof. by intros [= ? _]. Qed.

Lemma flow_inv_empty : flow_inv [] emptyFlowSet.
Proof.
  split; cbn.
  - constructor.
  - by intros e ?%not_elem_of_nil.
  - by intros e ?%not_elem_of_nil.
  - by intros r e ?%not_elem_of_nil.
  - intros k i. rewrite lookup_empty. naive_solver.
  - intros k. split; [set_solver|]. by intros (r & ?%not_elem_of_nil & _).
  - intros id. split; [set_solver|]. by intros (_ & e & ?%not_elem_of_nil & _).
Qed.

(** The request ids grow with the entries. *)
Lemma ids_add (ids : gset string) es e :
  (∀ id, id ∈ ids ↔ id ≠ "" ∧ ∃ x, x ∈ es ∧ bl_RequestID x = id) →
  ∀ id, id ∈ (if negb (String.eqb (bl_RequestID e) "") then {[ bl_RequestID e ]} ∪ ids else ids) ↔
    id ≠ "" ∧ ∃ x, x ∈ es ++ [e] ∧ bl_RequestID x = id.
Proof.
  intros Hids id. destruct (String.eqb_spec (bl_RequestID e) "") as [E|E]; cbn [negb].
  - rewrite Hids. split; intros (Hne & x & Hx & Hid); (split; [done|]).
    + exists x. rewrite elem_of_app. tauto.
    + apply elem_of_app in Hx as [Hx|Hx%list_elem_of_singleton]; [by exists x|by subst].
  - rewrite elem_of_union, elem_of_singleton, Hids. split.
    + intros [->|(Hne & x & Hx & Hid)]; (split; [done|]);
        [exists e|exists x]; rewrite elem_of_app, ?list_elem_of_singleton; tauto.
    + intros (Hne & x & [Hx|Hx%list_elem_of_singleton]%elem_of_app & Hid); [right|left; by subst].
      split; [done|by exists x].
Qed.

(** A new row, of either kind. *)
Lemma flow_inv_new es s e idx seen :
  flow_inv es s → row_of e ∉ map row_of (fl_rows s) →
  (∀ k i, idx !! k = Some i ↔ fl_lifecycleIndex s !! k = Some i ∨
    (k ≠ "" ∧ businessLifecycleKey e = k ∧ i = length (fl_rows s))) →
  (∀ k, k ∈ seen ↔ k ∈ fl_seenRows s ∨ (businessLifecycleKey e = "" ∧ businessRowKey e = k)) →
  flow_inv (es ++ [e]) (mkFlowSet (fl_rows s ++ [e]) idx
    (if negb (String.eqb (bl_RequestID e) "")
     then {[ bl_RequestID e ]} ∪ fl_businessRequestIDs s else fl_businessRequestIDs s) seen (fl_seenRequests s)).
Proof.
  intros [Hn Hc Hf Hm Hi Hs Hids] Hnew Hidx Hseen. split; cbn.
  - rewrite map_app. apply NoDup_app. split; [done|]. split; [|apply NoDup_singleton].
    by intros x Hx ->%list_elem_of_singleton.
  - intros x. rewrite map_app, !elem_of_app. intros [Hx|Hx%list_elem_of_singleton]; [left; by apply Hc|right]. subst x. by left.
  - intros r [Hr|Hr%list_elem_of_singleton]%elem_of_app.
    + destruct (Hf r Hr) as (x & Hx & ?). exists x. rewrite elem_of_app. tauto.
    + subst r. exists e. rewrite elem_of_app, list_elem_of_singleton. tauto.
  - intros r x Hr Hx Hk Hrow. apply elem_of_app in Hr as [Hr|Hr%list_elem_of_singleton],
      Hx as [Hx|Hx%list_elem_of_singleton]; subst; [by apply Hm| | |done]; exfalso; apply Hnew.
    + rewrite Hrow. by apply list_elem_of_fmap_2.
    + rewrite <-Hrow. by apply Hc.
  - intros k i. rewrite Hidx, Hi. split.
    + intros [(Hk & r & Hr & Hrk)|(Hk & Hek & ->)]; (split; [done|]).
      * exists r. split; [by apply lookup_app_l_Some|done].
      * exists e. split; [by apply list_lookup_middle|done].
    + intros (Hk & r & [Hr|[Hr E]]%lookup_app_Some & Hrk); [left; split; [done|by exists r]|right].
      apply list_lookup_singleton_Some in E as [E ->]. split_and!; [done|done|lia].
  - intros k. rewrite Hseen, Hs. split.
    + intros [(r & Hr & ?)|[? ?]]; [exists r|exists e]; rewrite elem_of_app, ?list_elem_of_singleton; tauto.
    + intros (r & [Hr|Hr%list_elem_of_singleton]%elem_of_app & ?); [left; by exists r|right; by subst].
  - by apply ids_add.
Qed.

Lemma row_of_plain_key e e' :
  row_of e = row_of e' → businessLifecycleKey e = "" → businessRowKey e = businessRowKey e'.
Proof.
  intros E Hk. pose proof (row_of_key _ _ E) as Hk'. rewrite Hk in Hk'.
  rewrite (row_of_plain e Hk), (row_of_plain e' (eq_sym Hk')) in E. congruence.
Qed.

(** Rows of which one is replaced by another form of the same row. *)
Lemma altered_rows (rows : list BusinessLogEntry) i f r :
  rows !! i = Some r → row_of (f r) = row_of r →
  (∀ j x, alter f i rows !! j = Some x → ∃ y, rows !! j = Some y ∧ row_of x = row_of y ∧ (x = y ∨ y = r ∧ x = f r)) ∧
  (∀ j y, rows !! j = Some y → ∃ x, alter f i rows !! j = Some x ∧ row_of x = row_of y) ∧
  map row_of (alter f i rows) = map row_of rows.
Proof.
  intros Hr Hfr.
  assert (∀ j x, alter f i rows !! j = Some x →
    ∃ y, rows !! j = Some y ∧ row_of x = row_of y ∧ (x = y ∨ y = r ∧ x = f r)) as Hget.
  { intros j x Hx. rewrite list_lookup_alter in Hx. destruct (decide (i = j)) as [<-|Hj].
    - rewrite Hr in Hx. injection Hx as <-. exists r. tauto.
    - exists x. tauto. }
  assert (∀ j y, rows !! j = Some y → ∃ x, alter f i rows !! j = Some x ∧ row_of x = row_of y) as Hput.
  { intros j y Hy. rewrite list_lookup_alter. destruct (decide (i = j)) as [<-|Hj].
    - rewrite Hr in Hy |- *. injection Hy as <-. exists (f r). done.
    - by exists y. }
  split; [exact Hget|]. split; [exact Hput|].
  apply (list_eq (row_of <$> alter f i rows) (row_of <$> rows)). intros j. rewrite !list_lookup_fmap.
  destruct (alter f i rows !! j) as [x|] eqn:Ex.
  - destruct (Hget j x Ex) as (y & -> & E & _). cbn. by rewrite E.
  - destruct (rows !! j) as [y|] eqn:Ey; [|done]. destruct (Hput j y Ey) as (x & E & _). congruence.
Qed.

Lemma same_row (rows : list BusinessLogEntry) i j x y :
  NoDup (map row_of rows) → rows !! i = Some x → rows !! j = Some y → row_of x = row_of y → i = j.
Proof.
  intros Hn Hx Hy E. apply (NoDup_lookup (row_of <$> rows) i j (row_of x)); [exact Hn|..]; rewrite list_lookup_fmap.
  - by rewrite Hx.
  - rewrite Hy. cbn. by rewrite E.
Qed.

(** An entry of a row there is: the row at [i] becomes [f] of it. *)
Lemma flow_inv_old es s e i f r :
  flow_inv es s → fl_rows s !! i = Some r → row_of e = row_of r → row_of (f r) = row_of r →
  (prio (f r) = prio r ∨ prio (f r) = prio e) →
  (businessLifecycleKey r ≠ "" → prio r <= prio (f r) ∧ prio e <= prio (f r)) →
  flow_inv (es ++ [e]) (mkFlowSet (alter f i (fl_rows s)) (fl_lifecycleIndex s)
    (if negb (String.eqb (bl_RequestID e) "")
     then {[ bl_RequestID e ]} ∪ fl_businessRequestIDs s else fl_businessRequestIDs s)
    (fl_seenRows s) (fl_seenRequests s)).
Proof.
  intros [Hn Hc Hf Hm Hi Hs Hids] Hr Hrow Hfr Hpr Hle.
  destruct (altered_rows (fl_rows s) i f r Hr Hfr) as (Hget & Hput & Hmap).
  split; cbn [fl_rows fl_lifecycleIndex fl_businessRequestIDs fl_seenRows].
  - by rewrite Hmap.
  - intros x. rewrite Hmap, elem_of_app. intros [Hx|Hx%list_elem_of_singleton]; [by apply Hc|]. subst x.
    rewrite Hrow. apply list_elem_of_fmap_2. by eapply list_elem_of_lookup_2.
  - intros x (j & Hx)%list_elem_of_lookup. destruct (Hget j x Hx) as (y & Hy & E & [->|[-> ->]]).
    + destruct (Hf y (list_elem_of_lookup_2 _ _ _ Hy)) as (z & ? & ?). exists z. rewrite elem_of_app. tauto.
    + destruct Hpr as [Hp|Hp].
      * destruct (Hf r (list_elem_of_lookup_2 _ _ _ Hy)) as (z & ? & ? & ?). exists z.
        rewrite elem_of_app. split_and!; [tauto|congruence|lia].
      * exists e. rewrite elem_of_app, list_elem_of_singleton. split_and!; [tauto|congruence|done].
  - intros x z (j & Hx)%list_elem_of_lookup Hz Hk E. destruct (Hget j x Hx) as (y & Hy & Exy & Hcase).
    pose proof (row_of_key _ _ Exy) as Hkey. rewrite Hkey in Hk.
    apply elem_of_app in Hz as [Hz|Hz%list_elem_of_singleton].
    + pose proof (Hm y z (list_elem_of_lookup_2 _ _ _ Hy) Hz Hk (eq_trans E Exy)).
      destruct Hcase as [->|[-> ->]]; [done|]. destruct (Hle Hk). lia.
    + subst z. assert (y = r) as ->.
      { assert (j = i) as ->; [|congruence].
        apply (same_row (fl_rows s) j i y r); [done..|]. by rewrite <-Exy, <-E. }
      assert (i = j) as <- by (by apply (same_row (fl_rows s) i j r r)).
      rewrite list_lookup_alter_eq, Hr in Hx. injection Hx as <-. destruct (Hle Hk). lia.
  - intros k j. rewrite Hi. split; intros (Hk & x & Hx & Hxk); (split; [done|]).
    + destruct (Hput j x Hx) as (y & Hy & E). exists y. split; [done|]. by rewrite (row_of_key _ _ E).
    + destruct (Hget j x Hx) as (y & Hy & E & _). exists y. split; [done|]. by rewrite <-(row_of_key _ _ E).
  - intros k. rewrite Hs. split; intros (x & (j & Hx)%list_elem_of_lookup & Hxk & Hxr).
    + destruct (Hput j x Hx) as (y & Hy & E). exists y. split; [by eapply list_elem_of_lookup_2|].
      rewrite (row_of_key _ _ E). split; [done|]. rewrite (row_of_plain_key _ _ E); [done|by rewrite (row_of_key _ _ E)].
    + destruct (Hget j x Hx) as (y & Hy & E & _). exists y. split; [by eapply list_elem_of_lookup_2|].
      rewrite <-(row_of_key _ _ E). split; [done|]. by rewrite <-(row_of_plain_key _ _ E).
  - by apply ids_add.
Qed.

#[local] Instance has_kind_dec e : Decision (has_kind e) := _.

(** One more event. *)
Lemma add_event_inv es s e :
  let p := prepareBusinessFlowEntry e in
  flow_inv es s → flow_inv (if decide (has_kind p) then es ++ [p] else es) (addBusinessEvent s e).
Proof.
  intros p Hinv. unfold addBusinessEvent. fold p. unfold has_kind.
  destruct (String.eqb_spec (TrimSpace (bl_Kind p)) "") as [E|E]; [rewrite decide_False by tauto; done|].
  rewrite decide_True by done.
  destruct (String.eqb_spec (businessLifecycleKey p) "") as [Ek|Ek]; cbn [negb].
  - case_bool_decide as Hseen.
    + apply (fi_seen _ _ Hinv) in Hseen as (r & (i & Hr)%list_elem_of_lookup & Hk & Hrk).
      pose proof (flow_inv_old es s p i id r Hinv Hr) as Hold. rewrite list_alter_id in Hold by done.
      apply Hold; [by rewrite !row_of_plain, Hrk|done|by left|done].
    + apply flow_inv_new; [done| | |].
      * intros (r & Hrow & Hr)%list_elem_of_fmap. apply Hseen, (fi_seen _ _ Hinv). exists r.
        split; [done|]. pose proof (row_of_key _ _ Hrow) as Hk. rewrite Ek in Hk. split; [done|].
        symmetry. by apply row_of_plain_key.
      * naive_solver.
      * intros k. rewrite elem_of_union, elem_of_singleton. naive_solver.
  - destruct (fl_lifecycleIndex s !! businessLifecycleKey p) as [i|] eqn:Hi.
    + apply (fi_index _ _ Hinv) in Hi as (_ & r & Hr & Hk).
      assert (businessLifecycleKey r ≠ "") as Hrne by congruence.
      destruct (merge_spec r p Hrne (eq_sym Hk)) as [Hm1 Hm2].
      apply (flow_inv_old es s p i (λ row, mergeBusinessLifecycle row p) r); [done..| | | |].
      * by rewrite (row_of_lifecycle p _ eq_refl Ek), (row_of_lifecycle r _ Hk Ek).
      * by rewrite (row_of_lifecycle r _ Hk Ek), (row_of_lifecycle _ _ (eq_trans Hm1 Hk) Ek).
      * rewrite Hm2. lia.
      * rewrite Hm2. lia.
    + apply flow_inv_new; [done| | |].
      * intros (r & Hrow & (i & Hr)%list_elem_of_lookup)%list_elem_of_fmap. apply row_of_key in Hrow.
        assert (fl_lifecycleIndex s !! businessLifecycleKey p = Some i); [|congruence].
        apply (fi_index _ _ Hinv). split; [done|]. by exists r.
      * intros k i. destruct (decide (k = businessLifecycleKey p)) as [->|Hne].
        -- rewrite lookup_insert_eq, Hi. naive_solver.
        -- rewrite lookup_insert_ne by done. naive_solver.
      * naive_solver.
Qed.

(** The events that can have a row. *)
Definition business_entries (events : list BusinessLogEntry) : list BusinessLogEntry :=
  filter has_kind (map prepareBusinessFlowEntry events).

Lemma add_events_inv es s events :
  flow_inv es s → flow_inv (es ++ business_entries events) (foldl addBusinessEvent s events).
Proof.
  revert es s. induction events as [|e events IH]; intros es s Hinv; cbn [foldl].
  { unfold business_entries. cbn. by rewrite app_nil_r. }
  pose proof (add_event_inv es s e Hinv) as Hinv'. apply IH in Hinv'. unfold business_entries in *. cbn [map].
  rewrite filter_cons. destruct (decide (has_kind (prepareBusinessFlowEntry e))); [|done].
  by rewrite <-app_assoc in Hinv'.
Qed.

(** The rows that requests add: each from a request, none for a request an
    event or another of them belongs to. *)
Definition request_flows (es : list BusinessLogEntry) (requests : list RequestLogEntry)
    (flows : list BusinessLogEntry) : Prop :=
  Forall (λ f, ∃ q flow, q ∈ requests ∧ businessFlowFromRequest q = Some flow ∧ f = prepareBusinessFlowEntry flow) flows ∧
  ∀ i f, flows !! i = Some f → bl_RequestID f ≠ "" →
    ∀ e, e ∈ es ++ take i flows → bl_RequestID e ≠ bl_RequestID f.

Lemma with_requests_inv es s seen :
  flow_inv es s → flow_inv es (mkFlowSet (fl_rows s) (fl_lifecycleIndex s) (fl_businessRequestIDs s)
                                 (fl_seenRows s) seen).
Proof. by intros []. Qed.

Lemma prepare_id e : bl_RequestID (prepareBusinessFlowEntry e) = bl_RequestID e.
Proof. unfold prepareBusinessFlowEntry. by repeat case_match. Qed.

Lemma request_flow_id q flow : businessFlowFromRequest q = Some flow → bl_RequestID flow = rl_RequestID q.
Proof. unfold businessFlowFromRequest. destruct (String.eqb _ "health"); [done|]. destruct (_ && _); [done|]. by intros [= <-]. Qed.

Lemma add_request_inv es requests flows s q :
  q ∈ requests → request_flows es requests flows → flow_inv (es ++ flows) s →
  ∃ flows', request_flows es requests flows' ∧ flow_inv (es ++ flows') (addRequestLog s q).
Proof.
  intros Hq Hflows Hinv. unfold addRequestLog.
  destruct (String.eqb _ "health"); [by exists flows|].
  destruct (negb _ && _) eqn:Hskip; [by exists flows|].
  destruct (businessFlowFromRequest q) as [flow|] eqn:Hf; [|by exists flows].
  set (s' := if negb _ then _ else s).
  assert (flow_inv (es ++ flows) s') as Hinv'.
  { unfold s'. destruct (negb (String.eqb (rl_RequestID q) "")); [by apply with_requests_inv|done]. }
  pose proof (add_event_inv (es ++ flows) s' flow Hinv') as Hadd. cbn zeta in Hadd.
  destruct (decide (has_kind _)); [|by exists flows].
  exists (flows ++ [prepareBusinessFlowEntry flow]). rewrite app_assoc. split; [|done].
  destruct Hflows as [Hfrom Hids]. split.
  - apply Forall_app. split; [done|]. repeat constructor. by exists q, flow.
  - intros i f [Hi|[Hlen Hi]]%lookup_app_Some Hne e He.
    + apply lookup_lt_Some in Hi as Hlt. rewrite take_app_le in He by lia. by apply (Hids i f).
    + apply list_lookup_singleton_Some in Hi as [Hi <-].
      assert (i = length flows) as -> by lia. rewrite take_app_length in He.
      rewrite prepare_id, (request_flow_id _ _ Hf) in Hne |- *. intros E.
      destruct (String.eqb_spec (rl_RequestID q) ""); [done|]. cbn [negb andb] in Hskip.
      apply orb_false_iff in Hskip as [_ Hskip%bool_decide_eq_false]. apply Hskip.
      apply (fi_ids _ _ Hinv). split; [done|]. by exists e.
Qed.

Lemma add_requests_inv es requests s :
  flow_inv es s →
  ∃ flows, request_flows es requests flows ∧ flow_inv (es ++ flows) (foldl addRequestLog s requests).
Proof.
  intros Hinv.
  assert (∀ qs flows s, (∀ q, q ∈ qs → q ∈ requests) → request_flows es requests flows → flow_inv (es ++ flows) s →
    ∃ flows', request_flows es requests flows' ∧ flow_inv (es ++ flows') (foldl addRequestLog s qs)) as Hall.
  { clear s Hinv. induction qs as [|q qs IH]; intros flows s Hqs Hf Hs; cbn [foldl]; [by exists flows|].
    destruct (add_request_inv es requests flows s q) as (flows' & Hf' & Hs'); [apply Hqs; by left|done..|].
    apply (IH flows'); [|done..]. intros q' Hq'. apply Hqs. by right. }
  apply (Hall requests [] s); [done| |by rewrite app_nil_r].
  split; [constructor|]. by intros i f Hi.
Qed.

(** The second row is not newer than the first. *)
Definition not_newer (a b : BusinessLogEntry) : Prop :=
  ∀ ta za tb zb, ParseZoned (bl_Time a) = Some (ta, za) → ParseZoned (bl_Time b) = Some (tb, zb) → tb <= ta.

Lemma StronglySorted_weaken {A} (R R' : A → A → Prop) l :
  (∀ a b, R a b → R' a b) → StronglySorted R l → StronglySorted R' l.
Proof.
  intros HR. induction 1 as [|x l _ IH Hx]; constructor; [done|]. eapply Forall_impl; [exact Hx|]. apply HR.
Qed.


End RowProperties.
