(* ===== verification/LogAnalysis.v ===== *)
(** * The log analysis of the server's interface (src/server/gui/admin_log_analysis)

    The page adds up, for a window of time, who logged in or opened connections
    and who was blocked, by address. It reads the dated business and request
    logs of the days of the window, counts each request once, and sorts the
    addresses. Decoding a line, parsing a time with its zone and the local
    calendar are parameters; so is the answer of the location service. *)

From stdpp Require Import sorting.
From S2P Require Import Prelude.
From S2P Require Import GoStd.
From S2P Require Import Disk.
From S2P Require Import Protocol.
From S2P Require Import LogEntries.
From S2P Require Import AdminConfig.
From S2P Require Import LogReader.

#[local] Open Scope Z_scope.

(** ** What is added up *)

Record logAnalysisIPSource := mkSource {
  so_IP : string;
  so_Location : string;
  so_Network : string;
  so_NetworkType : string;
  so_Country : string;
  so_Region : string;
  so_City : string;
  so_ISP : string;
  so_Org : string;
  so_AS : string;
  so_ASName : string;
  so_Hosting : bool;
  so_Proxy : bool;
  so_Mobile : bool;
  so_BusinessEvents : Z;
  so_Requests : Z;
  so_FailedRequests : Z;
  so_SuccessEvents : Z;
  so_BlockedEvents : Z;
  so_AuthBlockedEvents : Z;
  so_PermanentBlockedEvents : Z;
  so_BytesUp : Z;
  so_BytesDown : Z;
  so_DurationMS : Z;
  so_FirstSeen : string;
  so_LastSeen : string;
  so_Users : list string;
  so_Clients : list string;
  so_Targets : list string;
  so_Codes : list string;
  so_Messages : list string
}.

Definition newSource (ip : string) : logAnalysisIPSource :=
  mkSource ip "" "" "" "" "" "" "" "" "" "" false false false 0 0 0 0 0 0 0 0 0 0 "" "" [] [] [] [] [].

(** The counters, the times and the lists of a source, changed one group at a
    time. *)
Definition set_counts (s : logAnalysisIPSource) (business requests failed success blocked auth perm : Z)
    : logAnalysisIPSource :=
  mkSource (so_IP s) (so_Location s) (so_Network s) (so_NetworkType s) (so_Country s) (so_Region s) (so_City s)
    (so_ISP s) (so_Org s) (so_AS s) (so_ASName s) (so_Hosting s) (so_Proxy s) (so_Mobile s)
    business requests failed success blocked auth perm
    (so_BytesUp s) (so_BytesDown s) (so_DurationMS s) (so_FirstSeen s) (so_LastSeen s)
    (so_Users s) (so_Clients s) (so_Targets s) (so_Codes s) (so_Messages s).
Definition set_traffic (s : logAnalysisIPSource) (up down ms : Z) : logAnalysisIPSource :=
  mkSource (so_IP s) (so_Location s) (so_Network s) (so_NetworkType s) (so_Country s) (so_Region s) (so_City s)
    (so_ISP s) (so_Org s) (so_AS s) (so_ASName s) (so_Hosting s) (so_Proxy s) (so_Mobile s)
    (so_BusinessEvents s) (so_Requests s) (so_FailedRequests s) (so_SuccessEvents s) (so_BlockedEvents s)
    (so_AuthBlockedEvents s) (so_PermanentBlockedEvents s)
    up down ms (so_FirstSeen s) (so_LastSeen s)
    (so_Users s) (so_Clients s) (so_Targets s) (so_Codes s) (so_Messages s).
Definition set_times (s : logAnalysisIPSource) (first last : string) : logAnalysisIPSource :=
  mkSource (so_IP s) (so_Location s) (so_Network s) (so_NetworkType s) (so_Country s) (so_Region s) (so_City s)
    (so_ISP s) (so_Org s) (so_AS s) (so_ASName s) (so_Hosting s) (so_Proxy s) (so_Mobile s)
    (so_BusinessEvents s) (so_Requests s) (so_FailedRequests s) (so_SuccessEvents s) (so_BlockedEvents s)
    (so_AuthBlockedEvents s) (so_PermanentBlockedEvents s)
    (so_BytesUp s) (so_BytesDown s) (so_DurationMS s) first last
    (so_Users s) (so_Clients s) (so_Targets s) (so_Codes s) (so_Messages s).
Definition set_lists (s : logAnalysisIPSource) (users clients targets codes messages : list string)
    : logAnalysisIPSource :=
  mkSource (so_IP s) (so_Location s) (so_Network s) (so_NetworkType s) (so_Country s) (so_Region s) (so_City s)
    (so_ISP s) (so_Org s) (so_AS s) (so_ASName s) (so_Hosting s) (so_Proxy s) (so_Mobile s)
    (so_BusinessEvents s) (so_Requests s) (so_FailedRequests s) (so_SuccessEvents s) (so_BlockedEvents s)
    (so_AuthBlockedEvents s) (so_PermanentBlockedEvents s)
    (so_BytesUp s) (so_BytesDown s) (so_DurationMS s) (so_FirstSeen s) (so_LastSeen s)
    users clients targets codes messages.

Definition addLimitedUnique (items : list string) (value : string) (max : Z) : list string :=
  let value := TrimSpace value in
  if String.eqb value "" || (max <=? 0) then items
  else if bool_decide (value ∈ items) then items
  else if max <=? Z.of_nat (length items) then items
  else items ++ [value].

Inductive category := success | blocked.
#[export] Instance category_eq_dec : EqDecision category.
Proof. solve_decision. Defined.

(** ** Which entries count *)

Definition isSuccessfulBusinessLog (entry : BusinessLogEntry) : bool :=
  if bool_decide (bl_Result entry ∈ ["ok"; "connected"; "activated"])
  then negb (String.eqb (bl_Kind entry) "health") && negb (String.eqb (TrimSpace (bl_RemoteIP entry)) "")
  else false.

Definition isBlockedBusinessLog (entry : BusinessLogEntry) : bool :=
  String.eqb (ToLower (bl_Result entry)) "blocked" || Contains (ToLower (bl_Code entry)) "blocked".

Definition isSuccessfulRequestLog (entry : RequestLogEntry) : bool :=
  if negb (String.eqb (rl_Result entry) "ok") || negb (String.eqb (rl_AuthResult entry) "ok") then false
  else bool_decide (rq_Type (rl_Request entry) ∈
         ["login"; "open"; "forward_check"; "reverse_listen"; "reverse"; "reverse_stream"]).

Definition isBlockedRequestLog (entry : RequestLogEntry) : bool :=
  String.eqb (ToLower (rl_Result entry)) "blocked" || String.eqb (ToLower (rl_AuthResult entry)) "blocked"
  || Contains (ToLower (rs_Code (rl_Response entry))) "blocked".

Definition isRequestFailure (entry : RequestLogEntry) : bool :=
  let result := ToLower (rl_Result entry) in
  let code := ToLower (rs_Code (rl_Response entry)) in
  if bool_decide (result ∈ ["failed"; "denied"; "blocked"; "error"]) then true
  else containsAny code ["failed"; "denied"; "blocked"; "bad_request"; "timeout"].

(** ** Adding an entry *)

Section Adding.
Context `{ZonedTime}.

Definition analysisEventKey (requestID fallback : string) (t : Time * Zone) : string :=
  let requestID := TrimSpace requestID in
  if negb (String.eqb requestID "") then requestID
  else fallback +:+ ":" +:+ FormatZonedNano t.1 t.2.

Definition updateAnalysisTime (src : logAnalysisIPSource) (t : Time * Zone) : logAnalysisIPSource :=
  let text := FormatZoned t.1 t.2 in
  set_times src
    (if String.eqb (so_FirstSeen src) "" || String.ltb text (so_FirstSeen src) then text else so_FirstSeen src)
    (if String.eqb (so_LastSeen src) "" || String.ltb (so_LastSeen src) text then text else so_LastSeen src).

(** The last lines of both [record] functions. *)
Definition count_category (src : logAnalysisIPSource) (category : category) (code : string)
    : logAnalysisIPSource :=
  match category with
  | success => set_counts src (so_BusinessEvents src) (so_Requests src) (so_FailedRequests src)
                 (so_SuccessEvents src + 1) (so_BlockedEvents src) (so_AuthBlockedEvents src)
                 (so_PermanentBlockedEvents src)
  | blocked =>
      let code := ToLower code in
      set_counts src (so_BusinessEvents src) (so_Requests src) (so_FailedRequests src)
        (so_SuccessEvents src) (so_BlockedEvents src + 1)
        (if Contains code "auth_blocked" then so_AuthBlockedEvents src + 1 else so_AuthBlockedEvents src)
        (if Contains code "permanently_blocked" then so_PermanentBlockedEvents src + 1
         else so_PermanentBlockedEvents src)
  end.

Definition recordAnalysisBusiness (src : logAnalysisIPSource) (entry : BusinessLogEntry) (t : Time * Zone)
    (category : category) (seen : gset string) : logAnalysisIPSource * gset string :=
  let key := analysisEventKey (bl_RequestID entry)
               ("business:" +:+ bl_Kind entry +:+ ":" +:+ bl_Result entry +:+ ":" +:+ bl_Code entry) t in
  if bool_decide (key ∈ seen) then (src, seen)
  else
    let src := set_counts src (so_BusinessEvents src + 1) (so_Requests src) (so_FailedRequests src)
                 (so_SuccessEvents src) (so_BlockedEvents src) (so_AuthBlockedEvents src)
                 (so_PermanentBlockedEvents src) in
    let src := updateAnalysisTime src t in
    let targets := addLimitedUnique (so_Targets src) (bl_ForwardName entry) 8 in
    let targets := addLimitedUnique targets (bl_Target entry) 8 in
    let targets := addLimitedUnique targets (bl_ListenAddr entry) 8 in
    let src := set_lists src (addLimitedUnique (so_Users src) (bl_Username entry) 8)
                 (addLimitedUnique (so_Clients src) (bl_ClientID entry) 8) targets
                 (addLimitedUnique (so_Codes src) (bl_Code entry) 8)
                 (addLimitedUnique (so_Messages src) (bl_Message entry) 8) in
    (count_category src category (bl_Code entry), {[ key ]} ∪ seen).

Definition recordAnalysisRequestMetrics (src : logAnalysisIPSource) (entry : RequestLogEntry)
    (t : Time * Zone) : logAnalysisIPSource :=
  let src := set_counts src (so_BusinessEvents src) (so_Requests src + 1)
               (if isRequestFailure entry then so_FailedRequests src + 1 else so_FailedRequests src)
               (so_SuccessEvents src) (so_BlockedEvents src) (so_AuthBlockedEvents src)
               (so_PermanentBlockedEvents src) in
  updateAnalysisTime src t.

Definition recordAnalysisRequest (src : logAnalysisIPSource) (entry : RequestLogEntry) (t : Time * Zone)
    (category : category) (seen : gset string) : logAnalysisIPSource * gset string :=
  let req := rl_Request entry in
  let response := rl_Response entry in
  let key := analysisEventKey (rl_RequestID entry)
               ("request:" +:+ rq_Type req +:+ ":" +:+ rl_Result entry +:+ ":" +:+ rs_Code response) t in
  if bool_decide (key ∈ seen) then (recordAnalysisRequestMetrics src entry t, seen)
  else
    let src := recordAnalysisRequestMetrics src entry t in
    let targets := addLimitedUnique (so_Targets src) (rq_ForwardName req) 8 in
    let targets := addLimitedUnique targets (rq_Target req) 8 in
    let targets := addLimitedUnique targets (rq_ListenAddr req) 8 in
    let messages := addLimitedUnique (so_Messages src) (rs_Message response) 8 in
    let src := set_lists src (addLimitedUnique (so_Users src) (rq_Username req) 8)
                 (addLimitedUnique (so_Clients src) (rq_ClientID req) 8) targets
                 (addLimitedUnique (so_Codes src) (rs_Code response) 8)
                 (addLimitedUnique messages (rl_ReadError entry) 8) in
    (count_category src category (rs_Code response), {[ key ]} ∪ seen).

(** The maps of [buildLogAnalysis]. *)
Record analysis := mkAnalysis {
  an_success : gmap string logAnalysisIPSource;
  an_blocked : gmap string logAnalysisIPSource;
  an_seenSuccess : gset string;
  an_seenBlocked : gset string
}.

Definition emptyAnalysis : analysis := mkAnalysis ∅ ∅ ∅ ∅.

(** [logAnalysisSource(items, ip)] *)
Definition logAnalysisSource (items : gmap string logAnalysisIPSource) (ip : string) : logAnalysisIPSource :=
  default (newSource ip) (items !! ip).

(** The callback of the business log. *)
Definition visitBusiness (a : analysis) (entry : BusinessLogEntry) (t : Time * Zone) : analysis :=
  let ip := TrimSpace (bl_RemoteIP entry) in
  match ParseIP ip with
  | None => a
  | Some _ =>
      let a := if isSuccessfulBusinessLog entry then
                 let '(src, seen) := recordAnalysisBusiness (logAnalysisSource (an_success a) ip) entry t
                                       success (an_seenSuccess a) in
                 mkAnalysis (<[ip := src]> (an_success a)) (an_blocked a) seen (an_seenBlocked a)
               else a in
      let a := if isBlockedBusinessLog entry then
                 let '(src, seen) := recordAnalysisBusiness (logAnalysisSource (an_blocked a) ip) entry t
                                       blocked (an_seenBlocked a) in
                 mkAnalysis (an_success a) (<[ip := src]> (an_blocked a)) (an_seenSuccess a) seen
               else a in
      if String.eqb (bl_Kind entry) "open" && String.eqb (bl_Result entry) "closed" then
        mkAnalysis
          (alter (λ src, updateAnalysisTime
             (set_traffic src (wrap_i64 (so_BytesUp src + bl_BytesUp entry))
                (wrap_i64 (so_BytesDown src + bl_BytesDown entry))
                (wrap_i64 (so_DurationMS src + bl_DurationMS entry))) t) ip (an_success a))
          (an_blocked a) (an_seenSuccess a) (an_seenBlocked a)
      else a
  end.

(** The callback of the request log. *)
Definition visitRequest (a : analysis) (entry : RequestLogEntry) (t : Time * Zone) : analysis :=
  let ip := TrimSpace (rl_RemoteIP entry) in
  let key := analysisEventKey (rl_RequestID entry) "request" t in
  match ParseIP ip with
  | None => a
  | Some _ =>
      let a := if isSuccessfulRequestLog entry && negb (bool_decide (key ∈ an_seenSuccess a)) then
                 let '(src, seen) := recordAnalysisRequest (logAnalysisSource (an_success a) ip) entry t
                                       success (an_seenSuccess a) in
                 mkAnalysis (<[ip := src]> (an_success a)) (an_blocked a) seen (an_seenBlocked a)
               else mkAnalysis (alter (λ src, recordAnalysisRequestMetrics src entry t) ip (an_success a))
                      (an_blocked a) (an_seenSuccess a) (an_seenBlocked a) in
      if isBlockedRequestLog entry && negb (bool_decide (key ∈ an_seenBlocked a)) then
        let '(src, seen) := recordAnalysisRequest (logAnalysisSource (an_blocked a) ip) entry t
                              blocked (an_seenBlocked a) in
        mkAnalysis (an_success a) (<[ip := src]> (an_blocked a)) (an_seenSuccess a) seen
      else mkAnalysis (an_success a)
             (alter (λ src, recordAnalysisRequestMetrics src entry t) ip (an_blocked a))
             (an_seenSuccess a) (an_seenBlocked a)
  end.

End Adding.

(** ** The lines of a window of time *)

Definition maxLine : Z := 2 * 1024 * 1024.

Section Reading.
Context `{LocalTime} `{ZonedTime}.
(** The [time] field of a line, and the line as an entry of either log. *)
Variable stampOf : string → option string.
Variable businessOf : string → option BusinessLogEntry.
Variable requestOf : string → option RequestLogEntry.

(** What [visit] is called with for a line. *)
Definition line_in_range (start finish : Time) (line : string) : option (string * (Time * Zone)) :=
  let line := TrimSpace line in
  if String.eqb line "" then None
  else
    stamp ← stampOf line;
    t ← ParseZoned stamp;
    if Before t.1 start || After t.1 finish then None else Some (line, t).

(** The calls of [visit], in order, and the error. *)
Definition readJSONLRangeFile (d : Disk) (path : string) (start finish : Time)
    : list (string * (Time * Zone)) * result unit :=
  match ReadFile d (Clean path) with
  | ReadNotExist => ([], Ok tt)
  | ReadErr e => ([], Err e)
  | ReadData text =>
      let '(lines, e) := ScanLines maxLine text in
      (omap (line_in_range start finish) lines, e)
  end.

Definition midnight (t : Time) : Time := let '(y, m, d) := CivilDate t in MakeDate y m d.

(** The loop over the days; [fuel] bounds their number. *)
Fixpoint range_days (fuel : nat) (day last : Time) : list Time :=
  if After day last then []
  else match fuel with
  | O => []
  | S fuel => day :: range_days fuel (AddDays day 1) last
  end.

(** A day has more than an hour. *)
Definition days_between (first last : Time) : nat := S (Z.to_nat ((last - first) / nhour)).

Definition keep_existing (d : Disk) (s : list string * gset string) (path : string)
    : list string * gset string :=
  let '(out, seen) := s in
  if fileExists d path && negb (bool_decide (path ∈ seen)) then (out ++ [path], {[ path ]} ∪ seen) else s.

Definition jsonlRangeCandidates (d : Disk) (basePath : string) (start finish : Time) : list string :=
  let basePath := Clean basePath in
  let ext := Ext basePath in
  let name := TrimSuffix (Base basePath) ext in
  let ext := if String.eqb ext "" then ".jsonl" else ext in
  let dir := Dir basePath in
  let days := range_days (days_between (midnight start) (midnight finish)) (midnight start) (midnight finish) in
  let '(out, seen) := foldl (keep_existing d) ([], ∅)
                        (map (λ day, JoinPath dir (name +:+ "-" +:+ FormatDate day +:+ ext)) days) in
  if fileExists d basePath && negb (bool_decide (basePath ∈ seen)) then out ++ [basePath] else out.

Fixpoint readJSONLRangeFiles (d : Disk) (paths : list string) (start finish : Time)
    : list (string * (Time * Zone)) * result unit :=
  match paths with
  | [] => ([], Ok tt)
  | path :: paths =>
      match readJSONLRangeFile d path start finish with
      | (visits, Err e) => (visits, Err e)
      | (visits, Ok _) =>
          let '(more, e) := readJSONLRangeFiles d paths start finish in (visits ++ more, e)
      end
  end.

Definition readJSONLRange (d : Disk) (basePath : string) (start finish : Time)
    : list (string * (Time * Zone)) * result unit :=
  readJSONLRangeFiles d (jsonlRangeCandidates d basePath start finish) start finish.

(** The entries that are decoded; their number is the total. *)
Definition entries_in_range {A} (decode : string → option A) (d : Disk) (basePath : string)
    (start finish : Time) : list (A * (Time * Zone)) * result unit :=
  let '(visits, e) := readJSONLRange d basePath start finish in
  (omap (λ v, (λ entry, (entry, v.2)) <$> decode v.1) visits, e).
Definition readBusinessLogsInRange := entries_in_range businessOf.
Definition readRequestLogsInRange := entries_in_range requestOf.

(** ** The window *)

(** [time.Parse] and [time.ParseInLocation] for the layouts of the page. *)
Variable ParseLayout : string → string → option Time.

Definition dayLayout : string := "2006-01-02".
Definition analysisLayouts : list string :=
  ["2006-01-02T15:04:05.999999999Z07:00"; "2006-01-02T15:04:05Z07:00"; "2006-01-02T15:04:05"; "2006-01-02T15:04";
   "2006-01-02 15:04:05"; "2006-01-02 15:04"; dayLayout].

Fixpoint parse_layouts (layouts : list string) (text : string) (endOfDay : bool) : option Time :=
  match layouts with
  | [] => None
  | layout :: layouts =>
      match ParseLayout layout text with
      | Some t => Some (if String.eqb layout dayLayout && endOfDay then t + (24 * nhour - 1) else t)
      | None => parse_layouts layouts text endOfDay
      end
  end.

Definition parseLogAnalysisTime (text : string) (endOfDay : bool) : option Time :=
  parse_layouts analysisLayouts (TrimSpace text) endOfDay.

Definition logAnalysisDefaultDays : Z := 7.

Definition parseLogAnalysisWindow (now : Time) (startText endText : string) : result (Time * Time) :=
  start ← (if negb (String.eqb (TrimSpace startText) "") then
             match parseLogAnalysisTime startText false with
             | Some t => Ok t | None => Err "开始时间格式不正确" end
           else Ok (AddDays now (- logAnalysisDefaultDays)));
  finish ← (if negb (String.eqb (TrimSpace endText) "") then
              match parseLogAnalysisTime endText true with
              | Some t => Ok t | None => Err "结束时间格式不正确" end
            else Ok now);
  if Before finish start then Err "结束时间不能早于开始时间" else Ok (start, finish).

(** ** Sorting the addresses *)

Definition source_before (less : logAnalysisIPSource → logAnalysisIPSource → bool)
    (a b : logAnalysisIPSource) : bool :=
  if less a b then true else if less b a then false else String.ltb (so_IP a) (so_IP b).

(** [sort.Slice] with an order in which no two addresses are equal. *)
Definition analysisSourcesSorted (rg : MapRange logAnalysisIPSource)
    (items : gmap string logAnalysisIPSource)
    (less : logAnalysisIPSource → logAnalysisIPSource → bool) : list logAnalysisIPSource :=
  SliceStable (source_before less) (map snd (range_entries rg items)).

Definition less_success (a b : logAnalysisIPSource) : bool :=
  if negb (so_SuccessEvents a =? so_SuccessEvents b) then so_SuccessEvents b <? so_SuccessEvents a
  else so_Requests b <? so_Requests a.
Definition less_blocked (a b : logAnalysisIPSource) : bool :=
  if negb (so_BlockedEvents a =? so_BlockedEvents b) then so_BlockedEvents b <? so_BlockedEvents a
  else so_FailedRequests b <? so_FailedRequests a.

(** ** Where the addresses are *)

Definition IsUnspecified (ip : list Z) : bool :=
  bool_decide (ip = zeros 16) || bool_decide (To4 ip = Some (zeros 4)).
Definition IsMulticast (ip : list Z) : bool :=
  match To4 ip with
  | Some ip4 => Z.land (byte_at ip4 0) 0xf0 =? 0xe0
  | None => (length ip =? 16)%nat && (byte_at ip 0 =? 0xff)
  end.

Definition isPublicIP (text : string) : bool :=
  match ParseIP (TrimSpace text) with
  | None => false
  | Some ip => negb (IsLoopback ip) && negb (IsPrivate ip) && negb (IsUnspecified ip) && negb (IsMulticast ip)
  end.

Definition analysisIPs (items : list logAnalysisIPSource) : list string :=
  omap (λ item, if isPublicIP (so_IP item) then Some (so_IP item) else None) items.

Definition uniqueStrings (items : list string) : list string := (foldl keep_item ([], ∅) items).1.
Definition joinNonEmpty (sep : string) (values : list string) : string :=
  Join (foldl keep_item ([], ∅) values).1 sep.

Record ipAPIEntry := mkIPAPIEntry {
  ip_Status : string;
  ip_Message : string;
  ip_Query : string;
  ip_Country : string;
  ip_RegionName : string;
  ip_City : string;
  ip_ISP : string;
  ip_Org : string;
  ip_AS : string;
  ip_ASName : string;
  ip_Hosting : bool;
  ip_Proxy : bool;
  ip_Mobile : bool
}.

(** The answer of the service to the addresses of one request. *)
Inductive batchReply := BatchErr (e : string) | BatchBadBody (e : string) | BatchEntries (l : list ipAPIEntry).

Definition batchSize : nat := 100.

(** The loop over the batches; an entry without an address, like a body that
    cannot be read, is a failure. *)
Fixpoint lookup_batches (fuel : nat) (service : list string → batchReply) (ips : list string)
    (out : gmap string ipAPIEntry) : result (gmap string ipAPIEntry) :=
  match fuel, ips with
  | S fuel, _ :: _ =>
      let failure message := Err ("归属地查询失败: " +:+ message) in
      match service (take batchSize ips) with
      | BatchErr e => Err e
      | BatchBadBody e => failure e
      | BatchEntries entries =>
          let out := foldl (λ out entry, <[ip_Query entry := entry]> out) out entries in
          match out !! "" with
          | Some entry => failure (ip_Message entry)
          | None => lookup_batches fuel service (drop batchSize ips) out
          end
      end
  | _, _ => Ok out
  end.
Definition lookupIPAPIBatch (service : list string → batchReply) (ips : list string)
    : result (gmap string ipAPIEntry) :=
  lookup_batches (length ips) service ips ∅.

Definition analysisNetworkType (entry : ipAPIEntry) : string :=
  if ip_Proxy entry then "代理" else if ip_Hosting entry then "云主机"
  else if ip_Mobile entry then "移动网络" else "普通网络".

Definition attachAnalysisGeo (items : list logAnalysisIPSource) (geo : gmap string ipAPIEntry)
    : list logAnalysisIPSource :=
  map (λ s,
    match geo !! so_IP s with
    | None => s
    | Some entry =>
        if negb (String.eqb (ip_Status entry) "success") then s
        else
          let network := joinNonEmpty " / " [ip_ISP entry; ip_Org entry] in
          mkSource (so_IP s) (joinNonEmpty " " [ip_Country entry; ip_RegionName entry; ip_City entry])
            (if String.eqb network "" then ip_ASName entry else network) (analysisNetworkType entry)
            (ip_Country entry) (ip_RegionName entry) (ip_City entry) (ip_ISP entry) (ip_Org entry)
            (ip_AS entry) (ip_ASName entry) (ip_Hosting entry) (ip_Proxy entry) (ip_Mobile entry)
            (so_BusinessEvents s) (so_Requests s) (so_FailedRequests s) (so_SuccessEvents s)
            (so_BlockedEvents s) (so_AuthBlockedEvents s) (so_PermanentBlockedEvents s)
            (so_BytesUp s) (so_BytesDown s) (so_DurationMS s) (so_FirstSeen s) (so_LastSeen s)
            (so_Users s) (so_Clients s) (so_Targets s) (so_Codes s) (so_Messages s)
    end) items.

(** ** The result *)

Record logAnalysisResult := mkAnalysisResult {
  ra_BusinessEvents : Z;
  ra_RequestEvents : Z;
  ra_SuccessIPs : Z;
  ra_BlockedIPs : Z;
  ra_SuccessSources : list logAnalysisIPSource;
  ra_BlockedSources : list logAnalysisIPSource;
  ra_GeoLookupOK : bool;
  ra_GeoLookupError : string
}.

Definition analyse (business : list (BusinessLogEntry * (Time * Zone)))
    (requests : list (RequestLogEntry * (Time * Zone))) : analysis :=
  foldl (λ a e, visitRequest a e.1 e.2) (foldl (λ a e, visitBusiness a e.1 e.2) emptyAnalysis business) requests.

(** [businessPath] and [requestPath] are the paths [runtimeLogPath] gives. *)
Definition buildLogAnalysis (rg : MapRange logAnalysisIPSource) (service : list string → batchReply)
    (d : Disk) (businessPath requestPath : string) (start finish : Time) (lookupGeo : bool)
    : result logAnalysisResult :=
  let '(business, e) := readBusinessLogsInRange d businessPath start finish in
  _ ← e;
  let '(requests, e) := readRequestLogsInRange d requestPath start finish in
  _ ← e;
  let a := analyse business requests in
  let successSources := analysisSourcesSorted rg (an_success a) less_success in
  let blockedSources := analysisSourcesSorted rg (an_blocked a) less_blocked in
  let counts :=
    mkAnalysisResult (Z.of_nat (length business)) (Z.of_nat (length requests))
      (Z.of_nat (length successSources)) (Z.of_nat (length blockedSources)) in
  if lookupGeo then
    match lookupIPAPIBatch service (uniqueStrings (analysisIPs successSources ++ analysisIPs blockedSources)) with
    | Err e => Ok (counts successSources blockedSources false e)
    | Ok geo => Ok (counts (attachAnalysisGeo successSources geo) (attachAnalysisGeo blockedSources geo) true "")
    end
  else Ok (counts successSources blockedSources false "").

End Reading.

(** ** Totals over a map *)

Section Totals.
Context {A : Type} (f : A → Z).

Definition total (m : gmap string A) : Z := foldr Z.add 0 (map (λ kv, f kv.2) (map_to_list m)).

Lemma sum_perm (l l' : list Z) : l ≡ₚ l' → foldr Z.add 0 l = foldr Z.add 0 l'.
Proof. induction 1; cbn; lia. Qed.

Lemma total_empty : total ∅ = 0.
Proof. unfold total. by rewrite map_to_list_empty. Qed.

Lemma total_new m k x : m !! k = None → total (<[k:=x]> m) = f x + total m.
Proof.
  intros Hk. unfold total. rewrite (sum_perm _ (map (λ kv, f kv.2) ((k, x) :: map_to_list m))); [done|].
  apply (Permutation_map (λ kv : string * A, f kv.2)). by apply map_to_list_insert.
Qed.

Lemma total_insert m k x : total (<[k:=x]> m) = total m - default 0 (f <$> m !! k) + f x.
Proof.
  destruct (m !! k) as [y|] eqn:Hk; cbn.
  - rewrite <-(insert_delete_id m k y Hk) at 2. rewrite <-insert_delete_eq.
    rewrite !total_new by apply lookup_delete_eq. lia.
  - rewrite total_new by done. lia.
Qed.

Lemma total_alter m k g : (∀ x, f (g x) = f x) → total (alter g k m) = total m.
Proof.
  intros Hg. destruct (m !! k) as [y|] eqn:Hk.
  - assert (alter g k m = <[k := g y]> m) as ->.
    { apply map_eq. intros j. destruct (decide (k = j)) as [<-|Hj].
      - by rewrite lookup_alter_eq, lookup_insert_eq, Hk.
      - by rewrite lookup_alter_ne, lookup_insert_ne. }
    rewrite total_insert, Hk. cbn. rewrite Hg. lia.
  - assert (alter g k m = m) as ->; [|done]. apply map_eq. intros j.
    destruct (decide (k = j)) as [<-|Hj]; [by rewrite lookup_alter_eq, Hk|by rewrite lookup_alter_ne].
Qed.
End Totals.

(** ** One source *)

Definition short_list (l : list string) : Prop :=
  NoDup l ∧ (length l <= 8)%nat ∧ Forall (λ x, TrimSpace x = x ∧ x ≠ "") l.

(** The events a category counts. *)
Definition events (c : category) (s : logAnalysisIPSource) : Z :=
  match c with success => so_SuccessEvents s | blocked => so_BlockedEvents s end.

Record source_ok (c : category) (ip : string) (s : logAnalysisIPSource) : Prop := {
  ok_ip : so_IP s = ip ∧ is_Some (ParseIP ip);
  ok_requests : 0 <= so_FailedRequests s <= so_Requests s;
  ok_events : 0 <= so_BusinessEvents s ∧ 0 <= events c s;
  ok_category : match c with
    | success => so_BlockedEvents s = 0 ∧ so_AuthBlockedEvents s = 0 ∧ so_PermanentBlockedEvents s = 0
    | blocked => so_SuccessEvents s = 0 ∧ 0 <= so_AuthBlockedEvents s <= so_BlockedEvents s ∧
                 0 <= so_PermanentBlockedEvents s <= so_BlockedEvents s
    end;
  ok_times : String.ltb (so_LastSeen s) (so_FirstSeen s) = false;
  ok_lists : Forall short_list [so_Users s; so_Clients s; so_Targets s; so_Codes s; so_Messages s]
}.

Lemma short_nil : short_list [].
Proof. split_and!; [constructor|cbn; lia|constructor]. Qed.

Lemma short_add l v : short_list l → short_list (addLimitedUnique l v 8).
Proof.
  intros (Hn & Hl & Hf). unfold addLimitedUnique.
  destruct (String.eqb_spec (TrimSpace v) "") as [|Hne]; [done|]. cbn [orb].
  change (8 <=? 0) with false. cbv iota.
  case_bool_decide as Hin; [done|]. destruct (Z.leb_spec 8 (Z.of_nat (length l))); [done|].
  split_and!.
  - apply NoDup_app. split; [done|]. split; [|apply NoDup_singleton]. by intros x Hx ->%list_elem_of_singleton.
  - rewrite length_app. cbn. lia.
  - apply Forall_app. split; [done|]. repeat constructor; [apply TrimSpace_idemp|done].
Qed.

Lemma new_source_ok c ip : is_Some (ParseIP ip) → source_ok c ip (newSource ip).
Proof.
  intros Hip. split; cbn; [done|lia|destruct c; cbn; lia|destruct c; lia|done|].
  repeat constructor; apply NoDup_nil_2 || (cbn; lia).
Qed.

Section SourceSteps.
Context `{ZonedTime}.

Lemma ltb_irrefl s : String.ltb s s = false.
Proof.
  unfold String.ltb. assert (String.compare s s = Eq) as ->; [|done].
  induction s as [|c s IH]; [done|]. cbn. unfold Ascii.compare. by rewrite N.compare_refl.
Qed.

Lemma update_time_ok c ip s t : source_ok c ip s → source_ok c ip (updateAnalysisTime s t).
Proof.
  intros [H1 H2 H3 H4 H5 H6]. split; [done|done|by destruct c|by destruct c| |done].
  unfold updateAnalysisTime. cbn. set (text := FormatZoned t.1 t.2). clearbody text.
  set (first := so_FirstSeen s) in *. set (last := so_LastSeen s) in *.
  destruct (String.eqb_spec first "") as [->|], (String.eqb_spec last "") as [->|]; cbn [orb];
    try destruct (String.ltb text first) eqn:E1; try destruct (String.ltb last text) eqn:E2;
    rewrite ?ltb_irrefl; done.
Qed.

Lemma set_lists_ok c ip s users clients targets codes messages :
  source_ok c ip s → Forall short_list [users; clients; targets; codes; messages] →
  source_ok c ip (set_lists s users clients targets codes messages).
Proof. intros [H1 H2 H3 H4 H5 H6] Hl. split; [done|done|by destruct c|by destruct c|done|done]. Qed.

Lemma metrics_ok c ip s entry t :
  source_ok c ip s → source_ok c ip (recordAnalysisRequestMetrics s entry t).
Proof.
  intros [H1 H2 H3 H4 H5 H6]. unfold recordAnalysisRequestMetrics. apply update_time_ok.
  split; cbn; [done|destruct (isRequestFailure entry); lia|by destruct c|by destruct c|done|done].
Qed.

Lemma category_ok c ip s code :
  source_ok c ip s →
  source_ok c ip (count_category s c code) ∧ events c (count_category s c code) = events c s + 1.
Proof.
  intros [H1 H2 H3 H4 H5 H6]. destruct c; cbn in *; (split; [|done]); (split; cbn; [done|lia|lia|try lia|done|done]).
  destruct (Contains _ "auth_blocked"), (Contains _ "permanently_blocked"); lia.
Qed.

(** What recording an entry does to its source and to the set of keys. *)
Definition recorded (c : category) (ip key : string) (s s' : logAnalysisIPSource) (seen seen' : gset string) : Prop :=
  source_ok c ip s' ∧ seen' = {[ key ]} ∪ seen ∧
  events c s' - events c s = Z.of_nat (size seen') - Z.of_nat (size seen).

Lemma seen_again (key : string) (seen : gset string) : key ∈ seen → seen = {[ key ]} ∪ seen.
Proof. intros Hk. apply set_eq. set_solver. Qed.

Lemma size_new (key : string) (seen : gset string) :
  key ∉ seen → Z.of_nat (size ({[ key ]} ∪ seen)) - Z.of_nat (size seen) = 1.
Proof. intros Hk. rewrite size_union by set_solver. rewrite size_singleton. lia. Qed.

Lemma record_business_ok c ip s entry t seen :
  source_ok c ip s →
  let '(s', seen') := recordAnalysisBusiness s entry t c seen in
  recorded c ip (analysisEventKey (bl_RequestID entry)
    ("business:" +:+ bl_Kind entry +:+ ":" +:+ bl_Result entry +:+ ":" +:+ bl_Code entry) t) s s' seen seen'.
Proof.
  intros Hs. unfold recordAnalysisBusiness. set (key := analysisEventKey _ _ t). clearbody key.
  case_bool_decide as Hk; [split_and!; [done|by apply seen_again|lia]|].
  set (s1 := set_lists _ _ _ _ _ _).
  assert (source_ok c ip s1 ∧ events c s1 = events c s) as [Hs1 He1].
  { split; [|by destruct c]. unfold s1. pose proof Hs as [H1 H2 H3 H4 H5 H6].
    rewrite !Forall_cons in H6. destruct H6 as (Hu & Hc & Ht & Hco & Hm & _).
    apply set_lists_ok; [apply update_time_ok; split; cbn; [done|lia|destruct c; cbn in *; lia|by destruct c|done|]|].
    - by repeat (apply Forall_cons; split).
    - repeat (apply Forall_cons; split); repeat apply short_add; done. }
  destruct (category_ok c ip s1 (bl_Code entry) Hs1) as [Hs2 He2].
  split_and!; [done|done|]. rewrite He2, He1, size_new by done. lia.
Qed.

Lemma record_request_ok c ip s entry t seen :
  source_ok c ip s →
  let '(s', seen') := recordAnalysisRequest s entry t c seen in
  recorded c ip (analysisEventKey (rl_RequestID entry)
    ("request:" +:+ rq_Type (rl_Request entry) +:+ ":" +:+ rl_Result entry +:+ ":" +:+ rs_Code (rl_Response entry)) t)
    s s' seen seen'.
Proof.
  intros Hs. unfold recordAnalysisRequest. set (key := analysisEventKey _ _ t). clearbody key.
  assert (events c (recordAnalysisRequestMetrics s entry t) = events c s) as He0 by (by destruct c).
  pose proof (metrics_ok c ip s entry t Hs) as Hs0.
  case_bool_decide as Hk; [split_and!; [done|by apply seen_again|lia]|].
  set (s1 := set_lists _ _ _ _ _ _).
  assert (source_ok c ip s1 ∧ events c s1 = events c s) as [Hs1 He1].
  { split; [|by destruct c]. unfold s1. pose proof Hs0 as [_ _ _ _ _ H6].
    rewrite !Forall_cons in H6. destruct H6 as (Hu & Hc & Ht & Hco & Hm & _).
    apply set_lists_ok; [done|]. repeat (apply Forall_cons; split); repeat apply short_add; done. }
  destruct (category_ok c ip s1 (rs_Code (rl_Response entry)) Hs1) as [Hs2 He2].
  split_and!; [done|done|]. rewrite He2, He1, size_new by done. lia.
Qed.

End SourceSteps.

(** ** Both maps *)

Section Sides.
Context `{ZonedTime}.

Definition side_ok (c : category) (m : gmap string logAnalysisIPSource) (seen : gset string) : Prop :=
  map_Forall (source_ok c) m ∧ total (events c) m = Z.of_nat (size seen).

Lemma side_ok_empty c : side_ok c ∅ ∅.
Proof. split; [apply map_Forall_empty|by rewrite total_empty]. Qed.

Lemma source_lookup c m ip seen :
  side_ok c m seen → is_Some (ParseIP ip) → source_ok c ip (logAnalysisSource m ip).
Proof.
  intros [Hm _] Hip. unfold logAnalysisSource. destruct (m !! ip) as [s|] eqn:E; [by apply Hm|by apply new_source_ok].
Qed.

Lemma side_recorded c m ip key s' seen seen' :
  side_ok c m seen → recorded c ip key (logAnalysisSource m ip) s' seen seen' → side_ok c (<[ip := s']> m) seen'.
Proof.
  intros [Hm Ht] (Hs & Hseen & Hsize). split; [by apply map_Forall_insert_2|].
  rewrite total_insert, Ht. unfold logAnalysisSource in Hsize.
  destruct (m !! ip) as [s|]; cbn [default fmap option_fmap option_map] in *; [unfold default, id in *; lia|].
  assert (events c (newSource ip) = 0) by (by destruct c). unfold default, id in *. lia.
Qed.

Lemma side_alter c m ip seen g :
  (∀ s, events c (g s) = events c s) → (∀ s, source_ok c ip s → source_ok c ip (g s)) →
  side_ok c m seen → side_ok c (alter g ip m) seen.
Proof.
  intros Hev Hok [Hm Ht]. split; [|by rewrite total_alter].
  intros i s. rewrite lookup_alter. case_decide as E; [|apply Hm]. subst i.
  intros (s0 & Hs0 & ->)%fmap_Some. by apply Hok, Hm.
Qed.

Definition side (c : category) (a : analysis) : gmap string logAnalysisIPSource :=
  match c with success => an_success a | blocked => an_blocked a end.
Definition seen_of (c : category) (a : analysis) : gset string :=
  match c with success => an_seenSuccess a | blocked => an_seenBlocked a end.

Definition analysis_ok (a : analysis) : Prop := ∀ c, side_ok c (side c a) (seen_of c a).

Lemma empty_ok : analysis_ok emptyAnalysis.
Proof. intros []; apply side_ok_empty. Qed.

(** The map and the keys of one category. *)
Definition put (c : category) (m : gmap string logAnalysisIPSource) (seen : gset string) (a : analysis) : analysis :=
  match c with
  | success => mkAnalysis m (an_blocked a) seen (an_seenBlocked a)
  | blocked => mkAnalysis (an_success a) m (an_seenSuccess a) seen
  end.

Lemma put_ok c m seen a : analysis_ok a → side_ok c m seen → analysis_ok (put c m seen a).
Proof. intros Ha Hm c'. destruct c, c'; try exact Hm; apply (Ha success) || apply (Ha blocked). Qed.

Lemma seen_put c c' m seen a : seen_of c' (put c m seen a) = if decide (c' = c) then seen else seen_of c' a.
Proof. by destruct c, c'. Qed.

(** An entry that is recorded in a category. *)
Lemma put_recorded c ip key a s' seen' :
  analysis_ok a → is_Some (ParseIP ip) →
  (source_ok c ip (logAnalysisSource (side c a) ip) →
   recorded c ip key (logAnalysisSource (side c a) ip) s' (seen_of c a) seen') →
  analysis_ok (put c (<[ip := s']> (side c a)) seen' a) ∧
  ∀ c', seen_of c' (put c (<[ip := s']> (side c a)) seen' a)
        = (if decide (c' = c) then {[ key ]} else ∅) ∪ seen_of c' a.
Proof.
  intros Ha Hip Hrec. specialize (Hrec (source_lookup c _ ip _ (Ha c) Hip)). split.
  - apply put_ok; [done|]. by eapply side_recorded.
  - intros c'. rewrite seen_put. destruct Hrec as (_ & -> & _). case_decide; [by subst|set_solver].
Qed.

Lemma put_alter c ip a g :
  analysis_ok a → (∀ s, events c (g s) = events c s) → (∀ s, source_ok c ip s → source_ok c ip (g s)) →
  analysis_ok (put c (alter g ip (side c a)) (seen_of c a) a) ∧
  ∀ c', seen_of c' (put c (alter g ip (side c a)) (seen_of c a) a) = seen_of c' a.
Proof.
  intros Ha He Hg. split; [apply put_ok; [done|]; by apply side_alter|].
  intros c'. rewrite seen_put. by case_decide; [subst|].
Qed.

(** The entries a category counts: they have an address. *)
Definition business_counts (c : category) (entry : BusinessLogEntry) : bool :=
  bool_decide (is_Some (ParseIP (TrimSpace (bl_RemoteIP entry)))) &&
  match c with success => isSuccessfulBusinessLog entry | blocked => isBlockedBusinessLog entry end.
Definition request_counts (c : category) (entry : RequestLogEntry) : bool :=
  bool_decide (is_Some (ParseIP (TrimSpace (rl_RemoteIP entry)))) &&
  match c with success => isSuccessfulRequestLog entry | blocked => isBlockedRequestLog entry end.

Definition counted_key (counts : bool) (id : string) : gset string := if counts then {[ id ]} else ∅.

Lemma event_key id fallback t : TrimSpace id ≠ "" → analysisEventKey id fallback t = TrimSpace id.
Proof. intros Hid. unfold analysisEventKey. by destruct (String.eqb_spec (TrimSpace id) ""). Qed.

(** The turn of one category of [visitBusiness]. *)
Lemma business_turn c a entry t (counts : bool) ip :
  analysis_ok a → is_Some (ParseIP ip) →
  let a' := if counts then
              let '(src, seen) := recordAnalysisBusiness (logAnalysisSource (side c a) ip) entry t c (seen_of c a) in
              put c (<[ip := src]> (side c a)) seen a
            else a in
  analysis_ok a' ∧
  ∀ c', TrimSpace (bl_RequestID entry) ≠ "" →
    seen_of c' a' = (if decide (c' = c) then counted_key counts (TrimSpace (bl_RequestID entry)) else ∅) ∪ seen_of c' a.
Proof.
  intros Ha Hip. destruct counts; cbn zeta; [|split; [done|]; intros c' _; case_decide; set_solver].
  pose proof (record_business_ok c ip (logAnalysisSource (side c a) ip) entry t (seen_of c a)) as Hr.
  destruct (recordAnalysisBusiness _ entry t c _) as [s' seen'].
  destruct (put_recorded c ip _ a s' seen' Ha Hip Hr) as [H1 H2]. split; [done|].
  intros c' Hid. by rewrite H2, event_key.
Qed.

Lemma request_turn c a entry t ip :
  analysis_ok a → is_Some (ParseIP ip) →
  let '(src, seen) := recordAnalysisRequest (logAnalysisSource (side c a) ip) entry t c (seen_of c a) in
  let a' := put c (<[ip := src]> (side c a)) seen a in
  analysis_ok a' ∧
  ∀ c', TrimSpace (rl_RequestID entry) ≠ "" →
    seen_of c' a' = (if decide (c' = c) then {[ TrimSpace (rl_RequestID entry) ]} else ∅) ∪ seen_of c' a.
Proof.
  intros Ha Hip.
  pose proof (record_request_ok c ip (logAnalysisSource (side c a) ip) entry t (seen_of c a)) as Hr.
  destruct (recordAnalysisRequest _ entry t c _) as [s' seen'].
  destruct (put_recorded c ip _ a s' seen' Ha Hip Hr) as [H1 H2]. split; [done|].
  intros c' Hid. by rewrite H2, event_key.
Qed.

(** An entry that counts adds its key; nothing else is added. *)
Lemma visit_business a entry t :
  analysis_ok a →
  analysis_ok (visitBusiness a entry t) ∧
  ∀ c, TrimSpace (bl_RequestID entry) ≠ "" →
    seen_of c (visitBusiness a entry t)
    = counted_key (business_counts c entry) (TrimSpace (bl_RequestID entry)) ∪ seen_of c a.
Proof.
  intros Ha. unfold business_counts, visitBusiness. set (ip := TrimSpace (bl_RemoteIP entry)).
  destruct (ParseIP ip) as [addr|] eqn:Hip;
    [|rewrite bool_decide_false by (by intros []); split; [done|intros; set_solver]].
  rewrite bool_decide_true by done. cbn [andb]. assert (is_Some (ParseIP ip)) as Hsome by (by rewrite Hip).
  destruct (business_turn success a entry t (isSuccessfulBusinessLog entry) ip Ha Hsome) as [H1 S1].
  cbn [side seen_of put] in H1, S1. set (a1 := if isSuccessfulBusinessLog entry then _ else a) in *.
  destruct (business_turn blocked a1 entry t (isBlockedBusinessLog entry) ip H1 Hsome) as [H2 S2].
  cbn [side seen_of put] in H2, S2. set (a2 := if isBlockedBusinessLog entry then _ else a1) in *.
  assert (∀ c, TrimSpace (bl_RequestID entry) ≠ "" → seen_of c a2
    = counted_key match c with success => isSuccessfulBusinessLog entry | blocked => isBlockedBusinessLog entry end
        (TrimSpace (bl_RequestID entry)) ∪ seen_of c a) as Hseen.
  { intros c Hid. rewrite (S2 c Hid), (S1 c Hid). destruct c; cbn; set_solver. }
  destruct (_ && _); [|done].
  set (g := λ src, updateAnalysisTime _ t).
  destruct (put_alter success ip a2 g H2) as [H3 S3].
  - done.
  - intros s Hs. apply update_time_ok. destruct Hs as [? ? ? ? ? ?]. by split.
  - split; [exact H3|]. intros c Hid. rewrite <-(Hseen c Hid). apply S3.
Qed.

(** The turn of one category of [visitRequest]. *)
Lemma request_side c a entry t (counts : bool) ip :
  analysis_ok a → is_Some (ParseIP ip) →
  let key := analysisEventKey (rl_RequestID entry) "request" t in
  let a' := if counts && negb (bool_decide (key ∈ seen_of c a)) then
              let '(src, seen) := recordAnalysisRequest (logAnalysisSource (side c a) ip) entry t c (seen_of c a) in
              put c (<[ip := src]> (side c a)) seen a
            else put c (alter (λ src, recordAnalysisRequestMetrics src entry t) ip (side c a)) (seen_of c a) a in
  analysis_ok a' ∧
  ∀ c', TrimSpace (rl_RequestID entry) ≠ "" →
    seen_of c' a' = (if decide (c' = c) then counted_key counts (TrimSpace (rl_RequestID entry)) else ∅) ∪ seen_of c' a.
Proof.
  intros Ha Hip key. destruct (counts && negb (bool_decide (key ∈ seen_of c a))) eqn:E; cbn zeta.
  - apply andb_true_iff in E as [-> _]. pose proof (request_turn c a entry t ip Ha Hip) as Hr.
    destruct (recordAnalysisRequest _ entry t c _) as [s' seen']. exact Hr.
  - destruct (put_alter c ip a (λ src, recordAnalysisRequestMetrics src entry t) Ha) as [H1 S1];
      [by destruct c|intros; by apply metrics_ok|].
    split; [done|]. intros c' Hid. rewrite S1. destruct (decide (c' = c)) as [->|]; [|set_solver].
    destruct counts; cbn [counted_key andb] in *; [|set_solver]. apply negb_false_iff, bool_decide_eq_true in E.
    unfold key in E. rewrite event_key in E by done. by apply seen_again.
Qed.

Lemma visit_request a entry t :
  analysis_ok a →
  analysis_ok (visitRequest a entry t) ∧
  ∀ c, TrimSpace (rl_RequestID entry) ≠ "" →
    seen_of c (visitRequest a entry t)
    = counted_key (request_counts c entry) (TrimSpace (rl_RequestID entry)) ∪ seen_of c a.
Proof.
  intros Ha. unfold request_counts, visitRequest. set (ip := TrimSpace (rl_RemoteIP entry)).
  destruct (ParseIP ip) as [addr|] eqn:Hip;
    [|rewrite bool_decide_false by (by intros []); split; [done|intros; set_solver]].
  rewrite (bool_decide_true (is_Some (Some addr))) by done. cbn [andb]. assert (is_Some (ParseIP ip)) as Hsome by (by rewrite Hip).
  destruct (request_side success a entry t (isSuccessfulRequestLog entry) ip Ha Hsome) as [H1 S1].
  cbn [side seen_of put] in H1, S1. set (a1 := if isSuccessfulRequestLog entry && _ then _ else _) in *.
  destruct (request_side blocked a1 entry t (isBlockedRequestLog entry) ip H1 Hsome) as [H2 S2].
  cbn [side seen_of put] in H2, S2. split; [exact H2|].
  intros c Hid. rewrite (S2 c Hid), (S1 c Hid). destruct c; cbn; set_solver.
Qed.

(** The ids of the entries a category counts. *)
Definition counted_ids (c : category) (business : list (BusinessLogEntry * (Time * Zone)))
    (requests : list (RequestLogEntry * (Time * Zone))) : list string :=
  omap (λ e, if business_counts c e.1 then Some (TrimSpace (bl_RequestID e.1)) else None) business
  ++ omap (λ e, if request_counts c e.1 then Some (TrimSpace (rl_RequestID e.1)) else None) requests.

Lemma fold_visits {E} (visit : analysis → E → analysis) (key : category → E → option string) (P : E → Prop) a l :
  (∀ a e, analysis_ok a → analysis_ok (visit a e)) →
  (∀ a e c, analysis_ok a → P e →
    seen_of c (visit a e) = match key c e with Some id => {[ id ]} | None => ∅ end ∪ seen_of c a) →
  analysis_ok a →
  analysis_ok (foldl visit a l) ∧
  (Forall P l → ∀ c, seen_of c (foldl visit a l) = list_to_set (omap (key c) l) ∪ seen_of c a).
Proof.
  intros Hok Hkey. revert a. induction l as [|e l IH]; intros a Ha; cbn [foldl].
  { split; [done|]. intros _ c. cbn. set_solver. }
  destruct (IH (visit a e) (Hok a e Ha)) as [H1 H2]. split; [done|].
  intros [He Hl]%Forall_cons c. rewrite (H2 Hl c), (Hkey a e c Ha He). cbn. destruct (key c e); cbn; set_solver.
Qed.

Lemma analyse_visits business requests :
  analysis_ok (analyse business requests) ∧
  (Forall (λ e, TrimSpace (bl_RequestID e.1) ≠ "") business →
   Forall (λ e, TrimSpace (rl_RequestID e.1) ≠ "") requests →
   ∀ c, seen_of c (analyse business requests) = list_to_set (counted_ids c business requests)).
Proof.
  unfold analyse.
  destruct (fold_visits (λ a e, visitBusiness a e.1 e.2)
    (λ c e, if business_counts c e.1 then Some (TrimSpace (bl_RequestID e.1)) else None)
    (λ e, TrimSpace (bl_RequestID e.1) ≠ "") emptyAnalysis business) as [H1 S1].
  { intros a e Ha. by apply visit_business. }
  { intros a e c' Ha He. destruct (visit_business a e.1 e.2 Ha) as [_ ->]; [|done]. by destruct (business_counts c' e.1). }
  { apply empty_ok. }
  destruct (fold_visits (λ a e, visitRequest a e.1 e.2)
    (λ c e, if request_counts c e.1 then Some (TrimSpace (rl_RequestID e.1)) else None)
    (λ e, TrimSpace (rl_RequestID e.1) ≠ "") (foldl (λ a e, visitBusiness a e.1 e.2) emptyAnalysis business) requests)
    as [H2 S2].
  { intros a e Ha. by apply visit_request. }
  { intros a e c' Ha He. destruct (visit_request a e.1 e.2 Ha) as [_ ->]; [|done]. by destruct (request_counts c' e.1). }
  { done. }
  split; [done|]. intros Hb Hr c.
  rewrite (S2 Hr c), (S1 Hb c). apply set_eq. intros x. unfold counted_ids. rewrite list_to_set_app.
  destruct c; cbn; set_solver.
Qed.

(** C31: the sums of the analysis. In both categories every source has the address
    it is filed under, which parses; it has at most as many failures as
    requests, no events of the other category, its first time is not after its
    last, and its lists have at most eight distinct entries. The events of all
    sources together are the keys seen; so, when every entry has a request id,
    as all entries with an address the server writes do, a request is counted
    once, however many lines it has. *)
Theorem analysis_counts business requests c :
  let a := analyse business requests in
  map_Forall (source_ok c) (side c a) ∧
  total (events c) (side c a) = Z.of_nat (size (seen_of c a)) ∧
  (Forall (λ e, TrimSpace (bl_RequestID e.1) ≠ "") business →
   Forall (λ e, TrimSpace (rl_RequestID e.1) ≠ "") requests →
   total (events c) (side c a) = Z.of_nat (size (list_to_set (counted_ids c business requests) : gset string))).
Proof.
  destruct (analyse_visits business requests) as [Hok Hseen]. destruct (Hok c) as [Hm Ht].
  split; [done|]. split; [done|]. intros Hb Hr. by rewrite Ht, (Hseen Hb Hr c).
Qed.

End Sides.
