(* ===== verification/LogWindow.v ===== *)
(** * What the log analysis reads and in which order it answers

    Two guarantees across the log files of the server and the page that adds
    them up: every line the rotating log wrote inside the window is read once,
    and the answer does not depend on the order in which Go walks its maps, nor,
    outside the location fields, on the location service. *)

From stdpp Require Import sorting.
From S2P Require Import Prelude.
From S2P Require Import GoStd.
From S2P Require Import Disk.
From S2P Require Import Protocol.
From S2P Require Import LogEntries.
From S2P Require Import LogReader.
From S2P Require Import LogAnalysis.

#[local] Open Scope Z_scope.

(** ** The order of strings *)

Lemma ltb_compare s t : String.ltb s t = true ↔ String.compare s t = Lt.
Proof. unfold String.ltb. by destruct (String.compare s t). Qed.

Lemma ltb_asym s t : String.ltb s t = true → String.ltb t s = false.
Proof. unfold String.ltb. rewrite (String.compare_antisym t s). by destruct (String.compare s t). Qed.

Lemma ltb_total s t : String.ltb s t = false → String.ltb t s = false → s = t.
Proof.
  unfold String.ltb. rewrite (String.compare_antisym t s). intros H1 H2.
  apply String.compare_eq_iff. by destruct (String.compare s t).
Qed.

Lemma compare_trans s t u : String.compare s t = Lt → String.compare t u = Lt → String.compare s u = Lt.
Proof.
  revert t u. induction s as [|a s IH]; intros [|b t] [|c u]; cbn; try done. unfold Ascii.compare.
  destruct (N.compare_spec (Ascii.N_of_ascii a) (Ascii.N_of_ascii b)) as [E1|E1|E1]; [| |done];
    destruct (N.compare_spec (Ascii.N_of_ascii b) (Ascii.N_of_ascii c)) as [E2|E2|E2]; try done;
    destruct (N.compare_spec (Ascii.N_of_ascii a) (Ascii.N_of_ascii c)); try done; try lia.
  apply IH.
Qed.

Lemma ltb_trans s t u : String.ltb s t = true → String.ltb t u = true → String.ltb s u = true.
Proof. rewrite !ltb_compare. apply compare_trans. Qed.

(** ** The order of the addresses *)

Definition less_of (c : category) : logAnalysisIPSource → logAnalysisIPSource → bool :=
  match c with success => less_success | blocked => less_blocked end.

(** What breaks a tie: the requests, and among the blocked the failed ones. *)
Definition tie (c : category) (s : logAnalysisIPSource) : Z :=
  match c with success => so_Requests s | blocked => so_FailedRequests s end.

(** Most events first, then most requests, then the smaller address. *)
Definition before (c : category) (a b : logAnalysisIPSource) : Prop :=
  events c b < events c a ∨ events c a = events c b ∧
    (tie c b < tie c a ∨ tie c a = tie c b ∧ String.ltb (so_IP a) (so_IP b) = true).

Lemma source_before_spec c a b : source_before (less_of c) a b = true ↔ before c a b.
Proof.
  unfold source_before, before. destruct c; cbn [less_of events tie]; unfold less_success, less_blocked;
    repeat match goal with |- context [?x =? ?y] => destruct (Z.eqb_spec x y) end; cbn [negb];
    repeat match goal with |- context [?x <? ?y] => destruct (Z.ltb_spec x y) end; try (split; [intros|]; done || lia);
    destruct (String.ltb _ _); split; intros; try done; try lia; tauto.
Qed.

Lemma before_irrefl_ip c a b : before c a b → before c b a → False.
Proof.
  unfold before. intros [?|[? [?|[? E1]]]] [?|[? [?|[? E2]]]]; try lia.
  apply ltb_asym in E1. congruence.
Qed.

Lemma before_trans c a b d : before c a b → before c b d → before c a d.
Proof.
  unfold before. intros [?|[? [?|[? E1]]]] [?|[? [?|[? E2]]]]; try lia.
  right. split; [lia|]. right. split; [lia|]. by eapply ltb_trans.
Qed.

Lemma before_total c a b : so_IP a ≠ so_IP b → before c a b ∨ before c b a.
Proof.
  intros Hne. unfold before. destruct (Z.lt_trichotomy (events c a) (events c b)) as [?|[E|?]]; [lia| |lia].
  destruct (Z.lt_trichotomy (tie c a) (tie c b)) as [?|[E'|?]]; [lia| |lia].
  destruct (String.ltb (so_IP a) (so_IP b)) eqn:E1; [left|right]; right; (split; [lia|]); right; (split; [lia|]); [done|].
  destruct (String.ltb (so_IP b) (so_IP a)) eqn:E2; [done|]. by destruct Hne; apply ltb_total.
Qed.

Definition level (c : category) (a b : logAnalysisIPSource) : Prop :=
  events c a = events c b ∧ tie c a = tie c b ∧ so_IP a = so_IP b.

Lemma not_before c a b : source_before (less_of c) a b = false ↔ before c b a ∨ level c b a.
Proof.
  rewrite <-not_true_iff_false, source_before_spec. split.
  - intros Hn. destruct (decide (so_IP a = so_IP b)) as [E|Hne].
    + unfold before, level in *. destruct (Z.lt_trichotomy (events c a) (events c b)) as [?|[?|?]]; [lia| |lia].
      destruct (Z.lt_trichotomy (tie c a) (tie c b)) as [?|[?|?]]; [lia|by right|lia].
    + left. by destruct (before_total c a b Hne).
  - intros [Hba|(E1 & E2 & E3)] Hab; [by apply (before_irrefl_ip c a b)|].
    unfold before in Hab. destruct Hab as [?|[? [?|[? E]]]]; try lia. rewrite E3, ltb_irrefl in E. done.
Qed.

Lemma level_before c a b d : level c a b → before c b d → before c a d.
Proof. unfold level, before. intros (-> & -> & ->). done. Qed.
Lemma before_level c a b d : before c a b → level c b d → before c a d.
Proof. unfold level, before. intros H (<- & <- & <-). done. Qed.

Lemma not_before_trans c x y z :
  source_before (less_of c) y x = false → source_before (less_of c) z y = false →
  source_before (less_of c) z x = false.
Proof.
  rewrite !not_before. intros [H1|H1] [H2|H2].
  - left. by eapply before_trans.
  - left. by eapply before_level.
  - left. by eapply level_before.
  - right. unfold level in *. destruct H1 as (-> & -> & ->). done.
Qed.

Lemma source_before_asym c x y :
  source_before (less_of c) x y = true → source_before (less_of c) y x = false.
Proof. rewrite source_before_spec, not_before. auto. Qed.

(** Addresses filed under themselves are sorted strictly, whatever the order
    of the map was. *)
Lemma sorted_strictly c rg (items : gmap string logAnalysisIPSource) :
  (∀ ip s, items !! ip = Some s → so_IP s = ip) →
  let l := analysisSourcesSorted rg items (less_of c) in
  l ≡ₚ (map_to_list items).*2 ∧ NoDup (map so_IP l) ∧ StronglySorted (before c) l.
Proof.
  intros Hip l. assert (l ≡ₚ (map_to_list items).*2) as Hp.
  { unfold l, analysisSourcesSorted. rewrite SliceStable_Permutation.
    apply (Permutation_map snd), range_complete. }
  assert (NoDup (map so_IP l)) as Hnd.
  { rewrite Hp. assert (map so_IP (map_to_list items).*2 = (map_to_list items).*1) as ->; [|apply NoDup_fst_map_to_list].
    assert (Forall (λ p, so_IP p.2 = p.1) (map_to_list items)) as Hall.
    { apply Forall_forall. intros [ip s] Hin. apply elem_of_map_to_list in Hin. by apply Hip. }
    clear Hp. induction Hall as [|[ip s] ps E _ IH]; [done|]. cbn in E |- *. f_equal; [exact E|exact IH]. }
  split_and!; [done..|].
  assert (StronglySorted (λ a b, source_before (less_of c) b a = false) l) as Hs.
  { apply (SliceStable_sorted _ (λ _, True)); [intros; by apply source_before_asym| |by apply Forall_true].
    intros x y z _ _ _. apply not_before_trans. }
  clearbody l. clear Hp. induction Hs as [|a l Hs IH Ha]; [constructor|]. cbn in Hnd.
  apply NoDup_cons in Hnd as [Hin Hnd]. constructor; [by apply IH|].
  rewrite Forall_forall in Ha |- *. intros b Hb. destruct (proj1 (not_before c b a) (Ha b Hb)) as [?|(_ & _ & E)]; [done|].
  destruct Hin. rewrite E. by apply (list_elem_of_fmap_2 so_IP).
Qed.

Lemma sorted_unique c rg rg' (items : gmap string logAnalysisIPSource) :
  (∀ ip s, items !! ip = Some s → so_IP s = ip) →
  analysisSourcesSorted rg items (less_of c) = analysisSourcesSorted rg' items (less_of c).
Proof.
  intros Hip. destruct (sorted_strictly c rg items Hip) as (P1 & _ & S1), (sorted_strictly c rg' items Hip) as (P2 & _ & S2).
  apply (StronglySorted_unique_strong (before c)); [|done|done|by rewrite P1, P2].
  intros x y _ _ H1 H2. by destruct (before_irrefl_ip c x y).
Qed.

Lemma analyse_ip `{ZonedTime} business requests c ip s :
  side c (analyse business requests) !! ip = Some s → so_IP s = ip.
Proof.
  intros Hs. destruct (analyse_visits business requests) as [Hok _]. destruct (Hok c) as [Hm _].
  by destruct (ok_ip _ _ _ (Hm ip s Hs)).
Qed.

(** ** Without the location fields *)

Definition without_location (s : logAnalysisIPSource) : logAnalysisIPSource :=
  mkSource (so_IP s) "" "" "" "" "" "" "" "" "" "" false false false
    (so_BusinessEvents s) (so_Requests s) (so_FailedRequests s) (so_SuccessEvents s)
    (so_BlockedEvents s) (so_AuthBlockedEvents s) (so_PermanentBlockedEvents s)
    (so_BytesUp s) (so_BytesDown s) (so_DurationMS s) (so_FirstSeen s) (so_LastSeen s)
    (so_Users s) (so_Clients s) (so_Targets s) (so_Codes s) (so_Messages s).

Lemma attach_without_location items geo :
  map without_location (attachAnalysisGeo items geo) = map without_location items.
Proof.
  unfold attachAnalysisGeo. rewrite map_map. apply map_ext. intros s.
  destruct (geo !! so_IP s); [|done]. by destruct (negb _).
Qed.

(** The answer but for its location fields. *)
Definition plain_result (r : logAnalysisResult) :=
  (ra_BusinessEvents r, ra_RequestEvents r, ra_SuccessIPs r, ra_BlockedIPs r,
   map without_location (ra_SuccessSources r), map without_location (ra_BlockedSources r)).

Section Answer.
Context `{LocalTime} `{ZonedTime}.
Variable stampOf : string → option string.
Variable businessOf : string → option BusinessLogEntry.
Variable requestOf : string → option RequestLogEntry.

(** The maps of the analysis of a window. *)
Definition window_analysis (d : Disk) (businessPath requestPath : string) (start finish : Time) : analysis :=
  analyse (readBusinessLogsInRange stampOf businessOf d businessPath start finish).1
    (readRequestLogsInRange stampOf requestOf d requestPath start finish).1.

(** The sources of a category, in the order of the answer. *)
Definition shown_sources (c : category) (a : analysis) : list logAnalysisIPSource :=
  analysisSourcesSorted canonicalRange (side c a) (less_of c).

Lemma sources_any_order c rg business requests :
  analysisSourcesSorted rg (side c (analyse business requests)) (less_of c) = shown_sources c (analyse business requests).
Proof. apply sorted_unique. intros ip s. apply analyse_ip. Qed.

Lemma build_plain d businessPath requestPath start finish business requests rg service lookupGeo :
  readBusinessLogsInRange stampOf businessOf d businessPath start finish = (business, Ok tt) →
  readRequestLogsInRange stampOf requestOf d requestPath start finish = (requests, Ok tt) →
  ∃ r, buildLogAnalysis stampOf businessOf requestOf rg service d businessPath requestPath start finish lookupGeo = Ok r ∧
    let l1 := shown_sources success (analyse business requests) in
    let l2 := shown_sources blocked (analyse business requests) in
    plain_result r = (Z.of_nat (length business), Z.of_nat (length requests), Z.of_nat (length l1), Z.of_nat (length l2),
      map without_location l1, map without_location l2).
Proof.
  intros Hb Hr. unfold buildLogAnalysis. rewrite Hb, Hr. cbn [mbind result_bind].
  change (an_success ?a) with (side success a). change (an_blocked ?a) with (side blocked a).
  change less_success with (less_of success). change less_blocked with (less_of blocked).
  rewrite !sources_any_order. cbv zeta. destruct lookupGeo; [|by eexists].
  destruct (lookupIPAPIBatch _ _); eexists; (split; [done|]); [|done].
  unfold plain_result. cbn -[attachAnalysisGeo shown_sources]. by rewrite !attach_without_location.
Qed.

(** The answer to a window. It is an error only when a log file of the
    window cannot be read: the location service never makes it one. Whichever
    order Go walks its maps in, and whatever that service says or whether it is
    asked at all, the counts and, but for their location fields, the sources are
    the same; each list has the sources of its category once each, by events,
    then by requests, then by address. *)
Theorem analysis_answer d businessPath requestPath start finish rg service lookupGeo :
  let build := λ rg service lookupGeo,
    buildLogAnalysis stampOf businessOf requestOf rg service d businessPath requestPath start finish lookupGeo in
  let a := window_analysis d businessPath requestPath start finish in
  match build rg service lookupGeo with
  | Err e => (readBusinessLogsInRange stampOf businessOf d businessPath start finish).2 = Err e ∨
             (readRequestLogsInRange stampOf requestOf d requestPath start finish).2 = Err e
  | Ok r =>
      (∀ rg' service' lookupGeo', ∃ r', build rg' service' lookupGeo' = Ok r' ∧ plain_result r' = plain_result r) ∧
      ∀ c, ∃ l, map without_location (match c with success => ra_SuccessSources r | blocked => ra_BlockedSources r end)
                = map without_location l ∧
        l ≡ₚ (map_to_list (side c a)).*2 ∧ StronglySorted (before c) l
  end.
Proof.
  cbv zeta. unfold window_analysis.
  destruct (readBusinessLogsInRange stampOf businessOf d businessPath start finish) as [business eb] eqn:Hb.
  destruct (readRequestLogsInRange stampOf requestOf d requestPath start finish) as [requests er] eqn:Hr.
  destruct eb as [[]|e]; [|unfold buildLogAnalysis; rewrite Hb; by left].
  destruct er as [[]|e]; [|unfold buildLogAnalysis; rewrite Hb, Hr; by right].
  pose proof (λ rg service lookupGeo, build_plain d businessPath requestPath start finish business requests
    rg service lookupGeo Hb Hr) as Hall.
  destruct (Hall rg service lookupGeo) as (r & -> & Hplain). cbn [fst]. split.
  - intros rg' service' lookupGeo'. destruct (Hall rg' service' lookupGeo') as (r' & -> & Hplain').
    exists r'. by rewrite Hplain, Hplain'.
  - intros c. exists (shown_sources c (analyse business requests)).
    destruct (sorted_strictly c canonicalRange (side c (analyse business requests))) as (Hp & _ & Hs);
      [apply analyse_ip|].
    split; [|done]. unfold plain_result in Hplain. by destruct c; injection Hplain.
Qed.
End Answer.

(** ** What is written is read back *)

(** The lines of a text made of lines. *)
Lemma good_line_chars s :
  good_line s = true → s ≠ "" ∧ has_char newline (to_chars s) = false ∧ has_char carriage (to_chars s) = false.
Proof.
  unfold good_line. intros [H1%negb_true_iff H2%negb_true_iff]%andb_true_iff. split; [by apply String.eqb_neq|].
  unfold ContainsAny in H2. split; apply not_true_is_false; intros Hc; apply not_true_iff_false in H2; apply H2;
    apply existsb_exists; apply existsb_exists in Hc as (c & Hin & E); apply Ascii.eqb_eq in E; subst c;
    eexists; (split; [exact Hin|]); done.
Qed.

Lemma split_concat_lines ls :
  Forall (λ s, good_line s = true) ls → split_on newline (to_chars (concat_lines ls)) = map to_chars ls ++ [[]].
Proof.
  induction 1 as [|s ls Hs _ IH]; [done|]. cbn [concat_lines map app]. rewrite !to_chars_app.
  change (to_chars nl) with ([] ++ [newline]). cbn [app]. rewrite split_on_app by (by apply good_line_chars in Hs as (_ & ? & _)).
  by rewrite IH.
Qed.

Lemma scan_concat_lines max ls :
  0 < max → Forall (λ s, good_line s = true ∧ slen s < max) ls → ScanLines max (concat_lines ls) = (ls, Ok tt).
Proof.
  intros Hmax Hls. unfold ScanLines. rewrite split_concat_lines by (eapply Forall_impl; [done|]; by intros ? [? _]).
  induction Hls as [|s ls [Hg Hlen] _ IH]; [done|]. cbn [map app].
  assert (∀ l rest, rest ≠ [] → cut_lines max (l :: rest) = if max <=? Z.of_nat (length l)
    then ([], Err "bufio.Scanner: token too long")
    else let '(out, e) := cut_lines max rest in (of_chars (drop_cr l) :: out, e)) as Hcut by (by intros [] []).
  rewrite Hcut by (by destruct ls). rewrite IH. rewrite length_to_chars. unfold slen in Hlen.
  destruct (Z.leb_spec max (Z.of_nat (String.length s))); [lia|].
  apply good_line_chars in Hg as (_ & _ & Hcr). by rewrite drop_cr_id, of_to_chars.
Qed.

(** Every entry that counts is under one of the keys: the groups together are
    the entries. *)
Lemma concat_pick {V} (x : list V) (k : string) cands :
  NoDup cands → k ∈ cands → concat (map (λ p, if decide (k = p) then x else []) cands) = x.
Proof.
  intros Hnd Hin. induction Hnd as [|p cands Hp Hnd IH]; [by apply not_elem_of_nil in Hin|]. cbn [map concat].
  case_decide as E.
  - subst p. assert (concat (map (λ p, if decide (k = p) then x else []) cands) = []) as ->; [|by rewrite app_nil_r].
    clear -Hp. induction cands as [|q cands IH]; [done|]. apply not_elem_of_cons in Hp as [? ?]. cbn.
    rewrite decide_False by done. by apply IH.
  - apply elem_of_cons in Hin as [?|Hin]; [done|]. by rewrite IH.
Qed.

Lemma filter_ext_elem_of {W} (P Q : W → Prop) `{∀ x, Decision (P x), ∀ x, Decision (Q x)} (l : list W) :
  (∀ x, x ∈ l → P x ↔ Q x) → filter P l = filter Q l :> list W.
Proof.
  induction l as [|x l IH]; intros HPQ; [done|]. rewrite !filter_cons, IH by (intros; apply HPQ; by right).
  destruct (HPQ x (list_elem_of_here _ _)). repeat case_decide; tauto.
Qed.

Lemma concat_groups {W V} (key : W → string) (g : W → option V) ws cands :
  NoDup cands → (∀ w v, w ∈ ws → g w = Some v → key w ∈ cands) →
  concat (map (λ p, omap g (filter (λ w, key w = p) ws)) cands) ≡ₚ omap g ws.
Proof.
  intros Hnd. induction ws as [|w ws IH]; intros Hg.
  { clear. induction cands as [|p cands IHc]; [done|]. exact IHc. }
  set (x := match g w with Some v => [v] | None => [] end).
  assert (∀ l, concat (map (λ p, omap g (filter (λ w, key w = p) (w :: ws))) l)
    ≡ₚ concat (map (λ p, if decide (key w = p) then x else []) l)
       ++ concat (map (λ p, omap g (filter (λ w, key w = p) ws)) l)) as ->.
  { induction l as [|p l IHl]; [done|]. cbn [map concat]. rewrite IHl, filter_cons.
    assert (omap g (if decide (key w = p) then w :: filter (λ w0, key w0 = p) ws else filter (λ w0, key w0 = p) ws)
      = (if decide (key w = p) then x else []) ++ omap g (filter (λ w0, key w0 = p) ws)) as ->.
    { case_decide; [|done]. cbn. unfold x. by destruct (g w). }
    solve_Permutation. }
  rewrite IH by (intros w' v Hw'; apply Hg; by right).
  assert (concat (map (λ p, if decide (key w = p) then x else []) cands) = x) as ->.
  { destruct (g w) as [v|] eqn:E; [apply concat_pick; [done|]; eapply Hg; [by left|done]|].
    unfold x. clear. induction cands as [|p l IHl]; [done|]. cbn. by rewrite IHl; case_decide. }
  cbn. unfold x. by destruct (g w).
Qed.

Section Written.
Context `{LocalTime} `{ZonedTime}.

(** What the analysis relies on of the calendar: a day has more than an hour,
    the start of a day has its date, and from the start of a day the start of
    every later one is reached day by day. *)
Record calendar_ok : Prop := {
  day_length : ∀ t, t + nhour <= AddDays t 1;
  day_date : ∀ t, FormatDate (midnight t) = FormatDate t;
  day_order : ∀ t t', t <= t' → midnight t <= midnight t';
  day_steps : ∀ t t', t <= t' → ∃ n, midnight t' = Nat.iter n (λ day, AddDays day 1) (midnight t)
}.

(** The loop over the days ends because its fuel is enough, and meets every
    day. *)
Lemma range_days_reach n : ∀ fuel day last,
  (∀ t, t + nhour <= AddDays t 1) → Nat.iter n (λ d, AddDays d 1) day <= last →
  (last - day) / nhour < Z.of_nat fuel → Nat.iter n (λ d, AddDays d 1) day ∈ range_days fuel day last.
Proof.
  assert (0 < nhour) as Hh by done.
  induction n as [|n IH]; intros fuel day last Hlen Hn Hf.
  - cbn in *. assert (0 <= (last - day) / nhour) by (apply Z.div_pos; lia). destruct fuel as [|fuel]; [lia|].
    cbn. unfold After. destruct (Z.ltb_spec last day); [lia|]. by left.
  - rewrite Nat.iter_succ_r in Hn |- *. set (next := AddDays day 1) in *.
    pose proof (Hlen day) as Hd. fold next in Hd.
    assert (∀ m x, x <= Nat.iter m (λ d, AddDays d 1) x) as Hmono.
    { intros m x. induction m as [|m IHm]; [reflexivity|]. rewrite Nat.iter_succ.
      pose proof (Hlen (Nat.iter m (λ d, AddDays d 1) x)). lia. }
    pose proof (Hmono n next). assert (0 <= (last - day) / nhour) by (apply Z.div_pos; lia).
    destruct fuel as [|fuel]; [lia|]. cbn [range_days]. unfold After. destruct (Z.ltb_spec last day); [lia|].
    right. apply IH; [done|done|].
    assert ((last - next) / nhour <= (last - day - nhour) / nhour) as Hle by (apply Z.div_le_mono; lia).
    replace (last - day - nhour) with (last - day + (-1) * nhour) in Hle by lia.
    rewrite Z.div_add in Hle by lia. fold next. lia.
Qed.

(** The dates of the days of a window. *)
Lemma window_dates start finish t :
  calendar_ok → start <= t <= finish →
  ∃ day, day ∈ range_days (days_between (midnight start) (midnight finish)) (midnight start) (midnight finish) ∧
         FormatDate day = FormatDate t.
Proof.
  intros [Hlen Hdate Hord Hsteps] [H1 H2]. exists (midnight t). split; [|apply Hdate].
  destruct (Hsteps start t H1) as [n Hn]. rewrite Hn. apply range_days_reach; [done| |].
  - rewrite <-Hn. by apply Hord.
  - unfold days_between. pose proof (Hord start finish ltac:(lia)).
    assert (0 <= (midnight finish - midnight start) / nhour) by (apply Z.div_pos; [lia|done]).
    rewrite Nat2Z.inj_succ, Z2Nat.id by done. apply Z.lt_succ_diag_r.
Qed.

(** Each candidate is a file that exists, once. *)
Lemma keep_existing_fold d paths : ∀ out seen,
  NoDup out → (∀ p, p ∈ out ↔ p ∈ seen) →
  let '(out', seen') := foldl (keep_existing d) (out, seen) paths in
  NoDup out' ∧ (∀ p, p ∈ out' ↔ p ∈ seen') ∧
  ∀ p, p ∈ out' ↔ p ∈ out ∨ p ∈ paths ∧ fileExists d p = true.
Proof.
  induction paths as [|q paths IH]; intros out seen Hnd Hos; cbn [foldl].
  { split_and!; [done..|]. intros p. split; [by left|]. intros [?|[[]%not_elem_of_nil _]]. done. }
  unfold keep_existing at 2. destruct (fileExists d q) eqn:Ef; cbn [andb].
  - destruct (bool_decide_reflect (q ∈ seen)) as [Hin|Hin]; cbn [negb].
    + specialize (IH out seen Hnd Hos). destruct (foldl _ _ _) as [o s]. destruct IH as (H1 & H2 & H3).
      split_and!; [done..|]. intros p. rewrite H3, elem_of_cons. apply Hos in Hin. naive_solver.
    + specialize (IH (out ++ [q]) ({[ q ]} ∪ seen)). destruct (foldl _ _ _) as [o s].
      destruct IH as (H1 & H2 & H3).
      { apply NoDup_app. split; [done|]. split; [|apply NoDup_singleton].
        intros x Hx ->%list_elem_of_singleton. by apply Hin, Hos. }
      { intros p. rewrite elem_of_app, list_elem_of_singleton, elem_of_union, elem_of_singleton, Hos. naive_solver. }
      split_and!; [done..|]. intros p. rewrite H3, elem_of_app, list_elem_of_singleton, elem_of_cons. naive_solver.
  - specialize (IH out seen Hnd Hos). destruct (foldl _ _ _) as [o s]. destruct IH as (H1 & H2 & H3).
    split_and!; [done..|]. intros p. rewrite H3, elem_of_cons. naive_solver congruence.
Qed.

Lemma candidates_spec d base start finish :
  Clean base = base →
  let cands := jsonlRangeCandidates d base start finish in
  NoDup cands ∧ ∀ p, p ∈ cands ↔ fileExists d p = true ∧
    (p = base ∨ ∃ day, p = datedJSONLPath base (FormatDate day) ∧
      day ∈ range_days (days_between (midnight start) (midnight finish)) (midnight start) (midnight finish)).
Proof.
  intros Hbase. unfold jsonlRangeCandidates. rewrite Hbase. cbv zeta.
  set (days := range_days _ _ _).
  change (map _ days) with (map (λ day, datedJSONLPath base (FormatDate day)) days).
  set (paths := map _ days).
  pose proof (keep_existing_fold d (paths ++ [base]) [] ∅) as Hk. rewrite foldl_app in Hk.
  destruct (foldl (keep_existing d) ([], ∅) paths) as [out seen]. cbn [foldl keep_existing] in Hk.
  assert ((if fileExists d base && negb (bool_decide (base ∈ seen)) then out ++ [base] else out)
    = (if fileExists d base && negb (bool_decide (base ∈ seen)) then (out ++ [base], {[ base ]} ∪ seen) else (out, seen)).1)
    as -> by (by destruct (_ && _)).
  destruct (if fileExists d base && _ then _ else _) as [o s]. cbn [fst].
  destruct Hk as (H1 & _ & H2); [constructor|set_solver|]. split; [done|].
  intros p. rewrite H2, elem_of_app, list_elem_of_singleton. unfold paths. rewrite list_elem_of_fmap.
  split; [intros [[]%not_elem_of_nil|[[(day & -> & ?)|?] ?]]|intros [? [?|(day & -> & ?)]]]; naive_solver.
Qed.

Lemma dated_clean base date : Clean (datedJSONLPath base date) = datedJSONLPath base date.
Proof. apply Clean_JoinPath. by destruct (TrimSuffix _ _). Qed.

Variable stampOf : string → option string.

Lemma read_files d start finish (f : string → list (string * (Time * Zone))) paths :
  (∀ p, p ∈ paths → readJSONLRangeFile stampOf d p start finish = (f p, Ok tt)) →
  readJSONLRangeFiles stampOf d paths start finish = (concat (map f paths), Ok tt).
Proof.
  induction paths as [|p paths IH]; intros Hf; [done|]. cbn [readJSONLRangeFiles].
  rewrite Hf by (by left). rewrite IH by (intros q Hq; apply Hf; by right). done.
Qed.

(** The window the log [base] of the lines [ws], each written on a date, gives. *)
Definition dated_in (start finish : Time) (w : string * string) : option (string * (Time * Zone)) :=
  line_in_range stampOf start finish w.1.

Lemma written_lines_read base ws start finish :
  calendar_ok → Clean base = base →
  Forall (λ w, good_line w.1 = true ∧ slen w.1 < maxLine ∧
    ∀ line t, dated_in start finish w = Some (line, t) → FormatDate t.1 = w.2) ws →
  ∃ visits, readJSONLRange stampOf (write_lines (mkJsonlLog base "" None) ws (goodDisk ∅)).2 base start finish = (visits, Ok tt) ∧
            visits ≡ₚ omap (dated_in start finish) ws.
Proof.
  intros Hcal Hbase Hws. destruct (write_lines_text base ws ∅) as (l & files & -> & _ & _ & Htext). cbn [snd].
  set (d := goodDisk files) in *. set (key := λ w : string * string, datedJSONLPath base w.2).
  assert (∀ p, file_text d p = concat_lines (filter (λ w, key w = p) ws).*1) as Hfile.
  { intros p. rewrite Htext. change (file_text (goodDisk ∅) p +:+ ?x) with x. do 2 f_equal.
    apply filter_ext_elem_of. intros w Hw. rewrite Forall_forall in Hws. destruct (Hws w Hw) as [? _]. unfold key. tauto. }
  destruct (candidates_spec d base start finish Hbase) as [Hnd Hcands].
  set (cands := jsonlRangeCandidates d base start finish) in *.
  exists (concat (map (λ p, omap (dated_in start finish) (filter (λ w, key w = p) ws)) cands)). split.
  - apply (read_files d start finish (λ p, omap (dated_in start finish) (filter (λ w, key w = p) ws))).
    intros p Hp. apply Hcands in Hp as [Hex Hp].
    assert (Clean p = p) as Hclean by (destruct Hp as [->|(day & -> & _)]; [done|apply dated_clean]).
    unfold fileExists in Hex. apply bool_decide_eq_true in Hex. rewrite Hclean in Hex. destruct Hex as [text Ht].
    unfold readJSONLRangeFile, ReadFile. rewrite Hclean. cbn [dk_readErr d goodDisk]. rewrite Ht.
    assert (text = file_text d p) as -> by (unfold file_text; by rewrite Ht).
    rewrite Hfile, scan_concat_lines; [|done|].
    + f_equal. generalize (filter (λ w, key w = p) ws). intros ls. induction ls as [|w ls IH]; [done|].
      cbn. by rewrite <-IH.
    + apply Forall_fmap, Forall_filter. eapply Forall_impl; [exact Hws|]. by intros w (? & ? & _).
  - apply concat_groups; [done|]. intros w [line t] Hw Hin. rewrite Forall_forall in Hws.
    destruct (Hws w Hw) as (Hg & _ & Hdate). specialize (Hdate line t Hin). apply Hcands. split.
    + unfold fileExists, key. rewrite dated_clean. apply bool_decide_eq_true.
      destruct (dk_files d !! datedJSONLPath base w.2) as [text|] eqn:E; [by eexists|].
      assert (file_text d (key w) = "") as Hnone by (unfold file_text, key; by rewrite E).
      rewrite Hfile in Hnone.
      assert (w ∈ filter (λ w', key w' = key w) ws) as Hf by (by apply list_elem_of_filter).
      destruct (filter (λ w', key w' = key w) ws) as [|w' rest]; [by apply not_elem_of_nil in Hf|].
      cbn in Hnone. destruct (to_chars w'.1) eqn:?; apply (f_equal to_chars) in Hnone; rewrite !to_chars_app in Hnone;
        by destruct (to_chars w'.1).
    + right. assert (start <= t.1 <= finish) as Ht.
      { unfold dated_in, line_in_range in Hin. destruct (String.eqb _ ""); [done|].
        destruct (stampOf _) as [stamp|]; [|done]. cbn in Hin. destruct (ParseZoned stamp) as [t0|]; [|done]. cbn in Hin.
        unfold Before, After in Hin. destruct (Z.ltb_spec t0.1 start), (Z.ltb_spec finish t0.1); cbn in Hin; try done.
        by injection Hin as _ <-. }
      destruct (window_dates start finish t.1 Hcal Ht) as (day & Hday & Hd).
      exists day. split; [|done]. unfold key. by rewrite Hd, Hdate.
Qed.

(** An entry of the log, when its time is in the window. *)
Definition entry_in_window {A} (stamp : A → string) (start finish : Time) (e : A * Time) : option (A * (Time * Zone)) :=
  t ← ParseZoned (stamp e.1);
  if Before t.1 start || After t.1 finish then None else Some (e.1, t).

(** Encoded entries can be told apart from each other and from broken lines. *)
Definition line_ok {A} (encode : A → string) (decode : string → option A) (stamp : A → string) (e : A) : Prop :=
  decode (encode e) = Some e ∧ stampOf (encode e) = Some (stamp e) ∧ good_line (encode e) = true ∧
  TrimSpace (encode e) = encode e ∧ slen (encode e) < maxLine.

End Written.

(** ** Concrete runs *)

Definition nday : Z := 24 * nhour.

(** Days of twenty-four hours. *)
Definition utcTime : LocalTime := {|
  FormatRFC3339 t := pretty t;
  ParseRFC3339 s := Atoi s;
  FormatDate t := pretty (t / nday);
  FormatStamp t := pretty t;
  FormatMonth t := pretty (t / (30 * nday));
  CivilDate t := (0, 0, t / nday);
  MakeDate _ _ d := d * nday;
  AddMonths t n := t + n * (30 * nday);
  AddDays t n := t + n * nday
|}.

Definition utcZone : ZonedTime := {|
  Zone := unit;
  ParseZoned s := (λ t, (t, tt)) <$> Atoi s;
  FormatZoned t _ := pretty t;
  FormatZonedNano t _ := pretty t
|}.

Lemma nday_pos : 0 < nday.
Proof. done. Qed.

Lemma utc_calendar : @calendar_ok utcTime.
Proof.
  pose proof nday_pos as Hp. split; cbn; unfold midnight; cbn.
  - intros t. assert (nhour <= nday) by done. lia.
  - intros t. by rewrite Z.div_mul by lia.
  - intros t t' Ht. apply Z.mul_le_mono_nonneg_r; [lia|]. apply Z.div_le_mono; lia.
  - intros t t' Ht. exists (Z.to_nat (t' / nday - t / nday)).
    assert (∀ n x, Nat.iter n (λ day, day + 1 * nday) x = x + Z.of_nat n * nday) as ->.
    { induction n as [|n IH]; intros x; [cbn; lia|]. rewrite Nat.iter_succ, IH. lia. }
    assert (t / nday <= t' / nday) by (apply Z.div_le_mono; lia). rewrite Z2Nat.id by lia. lia.
Qed.

Definition threeDays : list (string * Time) :=
  [("5", 5); ("90000000000000", 90000000000001); ("200000000000000", 200000000000002)].

