(* ===== verification/ProfileSwitch.v ===== *)
(** * Switching between client profiles (src/client/gui/profile_switch)

    Beside the current configuration and certificate lie archived pairs, named
    after the address of their server. A switch archives the current pair and
    makes a chosen one current by renaming up to six files, and renames back when
    a step fails. What Glob finds, the clock and which renames and removals fail,
    call by call, are parameters. *)

From S2P Require Import Prelude.
From S2P Require Import GoStd.
From S2P Require Import Disk.
From S2P Require Import GoCrypto.
From S2P Require Import Yaml.
From S2P Require Import VirtualAddress.
From S2P Require Import ClientConfig.
From S2P Require Import LogReader.

#[local] Open Scope Z_scope.

(** ** Names *)

Definition currentClientProfileID : string := "__current__".

Definition currentClientCertPath (configPath : string) : string :=
  Clean (JoinPaths [Dir configPath; ".."; "cert"; "server.crt"]).

Definition archivedClientConfigPath (configPath suffix : string) : string :=
  JoinPath (Dir configPath) ("client." +:+ suffix +:+ ".yaml").

Definition archivedClientCertPath (configPath suffix : string) : string :=
  JoinPath (Dir (currentClientCertPath configPath)) ("server." +:+ suffix +:+ ".crt").

(** [strings.EqualFold], with the case folding of [ToLower]. *)
Definition EqualFold (s t : string) : bool := String.eqb (ToLower s) (ToLower t).

Definition archivedClientConfigSuffix (path : string) : option string :=
  let base := Base path in
  if negb (HasPrefix base "client.") || negb (HasSuffix base ".yaml") then None
  else
    let suffix := TrimSuffix (TrimPrefix base "client.") ".yaml" in
    if String.eqb suffix "" || EqualFold suffix "bak" then None else Some suffix.

Definition suffix_char (c : Ascii.ascii) : bool :=
  let z := code c in
  (97 <=? z) && (z <=? 122) || (65 <=? z) && (z <=? 90) || (48 <=? z) && (z <=? 57)
  || Ascii.eqb c "."%char || Ascii.eqb c "-"%char || Ascii.eqb c "_"%char.

(** The loop; a character that is not allowed, of one byte or more, is part of a
    run that gives one underscore. *)
Fixpoint suffix_loop (lastUnderscore : bool) (l : chars) : chars :=
  match l with
  | [] => []
  | c :: l =>
      if suffix_char c then c :: suffix_loop false l
      else if lastUnderscore then suffix_loop true l
      else "_"%char :: suffix_loop true l
  end.

Definition clientProfileFileSuffix (serverAddr : string) : string :=
  let serverAddr := TrimSpace serverAddr in
  if String.eqb serverAddr "" then ""
  else
    let out := Trim (of_chars (suffix_loop false (to_chars serverAddr))) "._-" in
    let out := if 120 <? slen out then Trim (of_chars (take 120 (to_chars out))) "._-" else out in
    if String.eqb out "" then "unknown" else out.

Definition clientProfileLabel (serverAddr fallback remark : string) : string :=
  let label := TrimSpace serverAddr in
  let label := if String.eqb label "" then TrimSpace fallback else label in
  let remark := Join (Fields remark) " " in
  if String.eqb remark "" then label else label +:+ " · " +:+ remark.

Example names :
  clientProfileFileSuffix " tunnel.example.com:9443 " = "tunnel.example.com_9443" ∧
  clientProfileFileSuffix "[::1]:9443" = "1_9443" ∧ clientProfileFileSuffix "..." = "unknown" ∧
  archivedClientConfigSuffix "conf/client.a_1.yaml" = Some "a_1" ∧
  archivedClientConfigSuffix "conf/client.BAK.yaml" = None ∧ archivedClientConfigSuffix "conf/server.yaml" = None ∧
  currentClientCertPath "conf/client.yaml" = "cert/server.crt" ∧
  archivedClientCertPath "conf/client.yaml" "a_1" = "cert/server.a_1.crt" ∧
  clientProfileLabel "a:1" "x" " home  lab " = "a:1 · home lab".
Proof. vm_compute. repeat split; reflexivity. Qed.

(** ** Renaming files *)

(** The disk and how many renames and removals were tried. *)
Record fsys := mkFsys { fs_disk : Disk; fs_calls : nat }.

Lemma surjective_fsys s : s = mkFsys (fs_disk s) (fs_calls s).
Proof. by destruct s. Qed.

Section Switching.
(** Which call fails, with what error; a call that fails changes nothing. *)
Variable renameErr : nat → string → string → option string.
Variable removeErr : nat → string → option string.
(** [time.Now().UnixNano()] for the [i]th name tried after some calls. *)
Variable nano : nat → nat → Z.

(** [os.Rename] replaces a file that is there. *)
Definition Rename (s : fsys) (from to : string) : fsys * result unit :=
  let d := fs_disk s in
  let n := S (fs_calls s) in
  match renameErr (fs_calls s) from to with
  | Some e => (mkFsys d n, Err e)
  | None =>
      match dk_files d !! Clean from with
      | None => (mkFsys d n, Err (not_exist from))
      | Some text => (mkFsys (set_file (set_file d (Clean from) None) (Clean to) (Some text)) n, Ok tt)
      end
  end.

Definition Remove (s : fsys) (path : string) : fsys * result unit :=
  let n := S (fs_calls s) in
  match removeErr (fs_calls s) path with
  | Some e => (mkFsys (fs_disk s) n, Err e)
  | None => (mkFsys (set_file (fs_disk s) (Clean path) None) n, Ok tt)
  end.

Definition siblingName (s : fsys) (path : string) (i : nat) : string :=
  JoinPath (Dir path)
    ("." +:+ Base path +:+ ".lsyl-switch-" +:+ Itoa (nano (fs_calls s) i) +:+ "-" +:+ Itoa (Z.of_nat i) +:+ ".tmp").

Definition temporarySiblingPath (s : fsys) (path : string) : result string :=
  match List.find (λ candidate, negb (fileExists (fs_disk s) candidate)) (map (siblingName s path) (seq 0 20)) with
  | Some candidate => Ok candidate
  | None => Err ("无法创建临时文件名: " +:+ path)
  end.

(** The backup, when there was a file. *)
Definition moveExistingAside (s : fsys) (path : string) : fsys * result (option string) :=
  if negb (fileExists (fs_disk s) path) then (s, Ok None)
  else match temporarySiblingPath s path with
  | Err e => (s, Err e)
  | Ok backup =>
      match Rename s path backup with
      | (s, Err e) => (s, Err e)
      | (s, Ok _) => (s, Ok (Some backup))
      end
  end.

Definition renameNoReplace (s : fsys) (from to : string) : fsys * result unit :=
  if fileExists (fs_disk s) to then (s, Err ("目标文件已存在: " +:+ to))
  else match MkdirAll (fs_disk s) (Dir to) with
  | Err e => (s, Err e)
  | Ok _ => Rename s from to
  end.

(** ** The switch *)

Record profileSwitchPaths := mkSwitchPaths {
  sp_CurrentConfig : string;
  sp_CurrentCert : string;
  sp_ArchiveConfig : string;
  sp_ArchiveCert : string;
  sp_TargetConfig : string;
  sp_TargetCert : string
}.

(** The variables of [switchClientProfileFiles]: [moved] from and to,
    [backups] the original and its backup. *)
Record switching := mkSwitching {
  sw_fs : fsys;
  sw_moved : list (string * string);
  sw_backups : list (string * string)
}.

Definition addBackup (path : string) (st : switching) : switching * result unit :=
  let '(s, r) := moveExistingAside (sw_fs st) path in
  match r with
  | Err e => (mkSwitching s (sw_moved st) (sw_backups st), Err e)
  | Ok None => (mkSwitching s (sw_moved st) (sw_backups st), Ok tt)
  | Ok (Some backup) => (mkSwitching s (sw_moved st) (sw_backups st ++ [(path, backup)]), Ok tt)
  end.

Definition move (from to : string) (optional : bool) (st : switching) : switching * result unit :=
  if optional && negb (fileExists (fs_disk (sw_fs st)) from) then (st, Ok tt)
  else match renameNoReplace (sw_fs st) from to with
  | (s, Err e) => (mkSwitching s (sw_moved st) (sw_backups st), Err e)
  | (s, Ok _) => (mkSwitching s (sw_moved st ++ [(from, to)]) (sw_backups st), Ok tt)
  end.

Definition rename_all (s : fsys) (pairs : list (string * string)) : fsys :=
  foldl (λ s p, (Rename s p.1 p.2).1) s pairs.

(** The errors of the renames are dropped. *)
Definition rollback (st : switching) : fsys :=
  let s := rename_all (sw_fs st) (map (λ p, (p.2, p.1)) (reverse (sw_moved st))) in
  rename_all s (map (λ p, (p.2, p.1)) (reverse (sw_backups st))).

Definition cleanup (st : switching) : fsys :=
  foldl (λ s p, (Remove s p.2).1) (sw_fs st) (sw_backups st).

(** The steps in their order, up to the first that fails. Before the first
    backup there is nothing to roll back. *)
Fixpoint run_steps (steps : list (string * (switching → switching * result unit))) (st : switching)
    : switching * result unit :=
  match steps with
  | [] => (st, Ok tt)
  | (what, step) :: steps =>
      match step st with
      | (st, Err e) => (st, Err (what +:+ ": " +:+ e))
      | (st, Ok _) => run_steps steps st
      end
  end.

Definition switch_steps (p : profileSwitchPaths) (currentCertExists : bool)
    : list (string * (switching → switching * result unit)) :=
  [("准备归档配置失败", addBackup (sp_ArchiveConfig p))]
  ++ (if currentCertExists then [("准备归档证书失败", addBackup (sp_ArchiveCert p))] else [])
  ++ [("归档当前配置失败", move (sp_CurrentConfig p) (sp_ArchiveConfig p) false);
      ("归档当前证书失败", move (sp_CurrentCert p) (sp_ArchiveCert p) (negb currentCertExists));
      ("切换目标配置失败", move (sp_TargetConfig p) (sp_CurrentConfig p) false);
      ("切换目标证书失败", move (sp_TargetCert p) (sp_CurrentCert p) false)].

Definition forward_run (p : profileSwitchPaths) (s : fsys) : switching * result unit :=
  run_steps (switch_steps p (fileExists (fs_disk s) (sp_CurrentCert p))) (mkSwitching s [] []).

Definition switchClientProfileFiles (p : profileSwitchPaths) (s : fsys) : fsys * result unit :=
  match forward_run p s with
  | (st, Err e) => (rollback st, Err e)
  | (st, Ok _) => (cleanup st, Ok tt)
  end.

(** ** What a switch leaves *)

(** The renames of [l], each from a file that was there to a name that was not,
    lead from one disk to the other. *)
Inductive renames (d0 : Disk) : list (string * string) → Disk → Prop :=
| renames_nil : renames d0 [] d0
| renames_snoc l d from to text :
    renames d0 l d → dk_files d !! Clean from = Some text → dk_files d !! Clean to = None →
    renames d0 (l ++ [(from, to)]) (set_file (set_file d (Clean from) None) (Clean to) (Some text)).

Definition no_rename_fails (n : nat) : Prop := ∀ k from to, (n <= k)%nat → renameErr k from to = None.

Lemma Disk_eq d d' : dk_files d = dk_files d' → same_errors d d' → d = d'.
Proof. destruct d, d'. intros E (E1 & E2 & E3 & E4). cbn in *. by subst. Qed.

Lemma set_file_errors d p t : same_errors d (set_file d p t).
Proof. by repeat split. Qed.

Lemma lookup_set_file d p t q : dk_files (set_file d p t) !! q = if decide (p = q) then t else dk_files d !! q.
Proof. cbn. case_decide as E; [subst; by rewrite lookup_partial_alter_eq|by rewrite lookup_partial_alter_ne]. Qed.

(** Renaming back. *)
Lemma rename_back s d from to text :
  no_rename_fails (fs_calls s) → dk_files d !! Clean from = Some text → dk_files d !! Clean to = None →
  fs_disk s = set_file (set_file d (Clean from) None) (Clean to) (Some text) →
  Rename s to from = (mkFsys d (S (fs_calls s)), Ok tt).
Proof.
  intros Hok Hf Ht Hs. unfold Rename. rewrite Hok by lia. rewrite Hs, lookup_set_file, decide_True by done.
  do 2 f_equal. apply Disk_eq; [|done]. apply map_eq. intros q. rewrite !lookup_set_file.
  repeat case_decide; subst; congruence.
Qed.

Lemma rename_all_back d0 l d : renames d0 l d → ∀ n, no_rename_fails n →
  fs_disk (rename_all (mkFsys d n) (map (λ p, (p.2, p.1)) (reverse l))) = d0.
Proof.
  induction 1 as [|l d from to text _ IH Hf Ht]; intros n Hn; [done|].
  rewrite reverse_snoc. cbn [map rename_all foldl]. cbn [fst snd].
  rewrite (rename_back _ d from to text) by done. apply IH. intros k f t Hk. apply Hn. cbn in Hk. lia.
Qed.

Lemma rename_all_app s l l' : rename_all s (l ++ l') = rename_all (rename_all s l) l'.
Proof. unfold rename_all. by rewrite foldl_app. Qed.

(** The backups are made before the moves: together they are the renames done. *)
Definition history (d0 : Disk) (st : switching) : Prop := renames d0 (sw_backups st ++ sw_moved st) (fs_disk (sw_fs st)).

Lemma rollback_restores d0 st : history d0 st → no_rename_fails (fs_calls (sw_fs st)) → fs_disk (rollback st) = d0.
Proof.
  intros Hst Hn. unfold rollback. rewrite <-rename_all_app, <-map_app, <-reverse_app.
  rewrite (surjective_fsys (sw_fs st)). by apply rename_all_back.
Qed.

(** *** The steps *)

Definition renamed (d : Disk) (from to text : string) : Disk :=
  set_file (set_file d (Clean from) None) (Clean to) (Some text).

Lemma Rename_spec s from to :
  match Rename s from to with
  | (s', Err _) => fs_disk s' = fs_disk s
  | (s', Ok _) => ∃ text, dk_files (fs_disk s) !! Clean from = Some text ∧ fs_disk s' = renamed (fs_disk s) from to text
  end.
Proof.
  unfold Rename. destruct (renameErr _ _ _); [done|]. destruct (dk_files (fs_disk s) !! Clean from) as [text|] eqn:E; [|done].
  by exists text.
Qed.

Lemma not_exists d path : fileExists d path = false ↔ dk_files d !! Clean path = None.
Proof. unfold fileExists. rewrite bool_decide_eq_false, eq_None_not_Some. done. Qed.

Lemma temporary_name s path b :
  temporarySiblingPath s path = Ok b → dk_files (fs_disk s) !! Clean b = None ∧ ∃ i, b = siblingName s path i.
Proof.
  unfold temporarySiblingPath. destruct (List.find _ _) as [c|] eqn:E; [|done]. intros [= ->].
  apply List.find_some in E as [Hin Hf]. apply negb_true_iff, not_exists in Hf. split; [done|].
  apply in_map_iff in Hin as (i & <- & _). by exists i.
Qed.

(** A step renamed [from] to [to], a name that was free. *)
Definition renamed_by (st st' : switching) (from to : string) : Prop :=
  ∃ text, dk_files (fs_disk (sw_fs st)) !! Clean from = Some text ∧ dk_files (fs_disk (sw_fs st)) !! Clean to = None ∧
    fs_disk (sw_fs st') = renamed (fs_disk (sw_fs st)) from to text.

Definition same_place (st st' : switching) : Prop :=
  fs_disk (sw_fs st') = fs_disk (sw_fs st) ∧ sw_moved st' = sw_moved st ∧ sw_backups st' = sw_backups st.

Lemma addBackup_spec path st :
  match addBackup path st with
  | (st', Err _) => same_place st st'
  | (st', Ok _) =>
      dk_files (fs_disk (sw_fs st)) !! Clean path = None ∧ same_place st st' ∨
      ∃ s i, let b := siblingName s path i in
        renamed_by st st' path b ∧ sw_moved st' = sw_moved st ∧ sw_backups st' = sw_backups st ++ [(path, b)]
  end.
Proof.
  unfold addBackup, moveExistingAside. destruct (fileExists _ path) eqn:Ex; cbn [negb].
  - destruct (temporarySiblingPath (sw_fs st) path) as [b|] eqn:Eb; [|done].
    apply temporary_name in Eb as (Hb & i & ->). pose proof (Rename_spec (sw_fs st) path (siblingName (sw_fs st) path i)) as Hr.
    destruct (Rename _ _ _) as [s' [[]|e]]; [|by repeat split]. destruct Hr as (text & Ht & Hd).
    right. exists (sw_fs st), i. split; [|done]. by exists text.
  - left. apply not_exists in Ex. done.
Qed.

Lemma move_spec from to optional st :
  match move from to optional st with
  | (st', Err _) => same_place st st'
  | (st', Ok _) =>
      optional = true ∧ dk_files (fs_disk (sw_fs st)) !! Clean from = None ∧ same_place st st' ∨
      renamed_by st st' from to ∧ sw_moved st' = sw_moved st ++ [(from, to)] ∧ sw_backups st' = sw_backups st
  end.
Proof.
  unfold move. destruct (optional && negb (fileExists _ from)) eqn:Eo.
  { apply andb_true_iff in Eo as [-> Ex]. apply negb_true_iff, not_exists in Ex. by left. }
  unfold renameNoReplace. destruct (fileExists _ to) eqn:Et; [done|]. apply not_exists in Et.
  destruct (MkdirAll _ _); [|done]. pose proof (Rename_spec (sw_fs st) from to) as Hr.
  destruct (Rename _ _ _) as [s' [[]|e]]; [|by repeat split]. destruct Hr as (text & Ht & Hd).
  right. split; [|done]. by exists text.
Qed.

Lemma history_same d0 st st' : same_place st st' → history d0 st → history d0 st'.
Proof. unfold history. by intros (-> & -> & ->). Qed.

Lemma history_renamed d0 st st' from to :
  renamed_by st st' from to → sw_backups st' ++ sw_moved st' = (sw_backups st ++ sw_moved st) ++ [(from, to)] →
  history d0 st → history d0 st'.
Proof. unfold history. intros (text & Hf & Ht & ->) -> Hst. by apply renames_snoc. Qed.

Lemma history_backup d0 path st :
  history d0 st → sw_moved st = [] → history d0 (addBackup path st).1 ∧ sw_moved (addBackup path st).1 = [].
Proof.
  intros Hst Hm. pose proof (addBackup_spec path st) as Hs.
  destruct (addBackup path st) as [st' [[]|e]]; cbn [fst].
  - destruct Hs as [[_ Hs]|(s & i & Hr & Hm' & Hb')]; [split; [by eapply history_same|destruct Hs as (_ & -> & _); done]|].
    split; [|by rewrite Hm']. eapply history_renamed; [done| |done]. by rewrite Hm', Hb', Hm, !app_nil_r.
  - split; [by eapply history_same|]. by destruct Hs as (_ & -> & _).
Qed.

Lemma history_move d0 from to optional st : history d0 st → history d0 (move from to optional st).1.
Proof.
  intros Hst. pose proof (move_spec from to optional st) as Hs.
  destruct (move from to optional st) as [st' [[]|e]]; cbn [fst]; [|by eapply history_same].
  destruct Hs as [(_ & _ & Hs)|(Hr & Hm' & Hb')]; [by eapply history_same|].
  eapply history_renamed; [done| |done]. by rewrite Hm', Hb', app_assoc.
Qed.

Lemma run_steps_inv (P : switching → Prop) steps st :
  (∀ what step, (what, step) ∈ steps → ∀ st, P st → P (step st).1) → P st → P (run_steps steps st).1.
Proof.
  revert st. induction steps as [|[what step] steps IH]; intros st Hsteps Hst; [done|]. cbn.
  pose proof (Hsteps what step ltac:(left) st Hst) as H1. destruct (step st) as [st' [[]|e]]; [|done].
  apply IH; [|done]. intros w f Hin. apply (Hsteps w f). by right.
Qed.

Lemma run_steps_app a b st :
  run_steps (a ++ b) st = match run_steps a st with (st, Err e) => (st, Err e) | (st, Ok _) => run_steps b st end.
Proof.
  revert st. induction a as [|[what step] a IH]; intros st; [done|]. cbn.
  destruct (step st) as [st' [[]|e]]; [apply IH|done].
Qed.

Lemma forward_history p s : history (fs_disk s) (forward_run p s).1.
Proof.
  unfold forward_run, switch_steps. set (exists' := fileExists _ _). rewrite app_assoc, run_steps_app.
  set (backups := _ ++ (if exists' then _ else _)).
  assert (history (fs_disk s) (run_steps backups (mkSwitching s [] [])).1 ∧
          sw_moved (run_steps backups (mkSwitching s [] [])).1 = []) as [Hb _].
  { apply (run_steps_inv (λ st, history (fs_disk s) st ∧ sw_moved st = [])); [|split; [constructor|done]].
    intros what step Hin st [Hst Hm]. unfold backups in Hin.
    destruct exists'; set_unfold in Hin; destruct_or?; simplify_eq/=; by apply history_backup. }
  destruct (run_steps backups _) as [st [[]|e]]; cbn [fst] in *; [|done].
  apply run_steps_inv; [|done]. intros what step Hin st' Hst'.
  set_unfold in Hin. destruct_or?; simplify_eq/=; by apply history_move.
Qed.

(** *** The names of the backups *)

Definition tmp_name (path : string) : Prop := ∃ x, path = x +:+ ".tmp".

Lemma split_on_last sep l r : has_char sep r = false → ∃ ls x, split_on sep (l ++ r) = ls ++ [x ++ r].
Proof.
  intros Hr. induction l as [|c l (ls & x & IH)]; [exists [], []; by rewrite split_on_none|].
  cbn [app split_on]. rewrite IH. destruct ls as [|h ls]; cbn [app].
  - destruct (Ascii.eqb c sep); [by exists [[]], x|by exists [], (c :: x)].
  - destruct (Ascii.eqb c sep); [by exists ([] :: h :: ls), x|by exists ((c :: h) :: ls), x].
Qed.

Lemma Join_last ls x sep : ∃ y, Join (ls ++ [x]) sep = y +:+ x.
Proof.
  induction ls as [|l ls [y IH]]; [by exists ""|]. cbn [app]. destruct (ls ++ [x]) as [|z zs] eqn:E; [by destruct ls|].
  exists (l +:+ sep +:+ y). cbn [Join]. cbn [Join] in IH. rewrite IH. by rewrite !string_app_assoc.
Qed.

Lemma Clean_tmp path : tmp_name path → tmp_name (Clean path).
Proof.
  intros [x ->]. unfold Clean. destruct (String.eqb_spec (x +:+ ".tmp") "") as [E|_].
  { apply (f_equal to_chars) in E. rewrite to_chars_app in E. by destruct (to_chars x). }
  cbv zeta. unfold Split. rewrite to_chars_app.
  destruct (split_on_last slash (to_chars x) (to_chars ".tmp")) as (ls & y & ->); [done|].
  rewrite map_app, foldl_app. cbn [map foldl]. set (out := foldl _ _ _). unfold clean_elem.
  assert (∀ t, (String.length t < 4)%nat → String.eqb (of_chars (y ++ to_chars ".tmp")) t = false) as Hlong.
  { intros t Ht. apply String.eqb_neq. intros <-. rewrite <-length_to_chars, to_of_chars, length_app in Ht. cbn in Ht. lia. }
  rewrite !Hlong by (cbn; lia). cbn [orb].
  destruct (Join_last out (of_chars (y ++ to_chars ".tmp")) "/") as [z Hz]. rewrite Hz.
  assert (of_chars (y ++ to_chars ".tmp") = of_chars y +:+ ".tmp") as ->.
  { apply to_chars_inj. by rewrite to_chars_app, !to_of_chars. }
  destruct (HasPrefix _ "/"); [exists ("/" +:+ z +:+ of_chars y); by rewrite !string_app_assoc|].
  destruct (String.eqb_spec (z +:+ of_chars y +:+ ".tmp") "") as [E|_].
  { apply (f_equal to_chars) in E. rewrite !to_chars_app in E. by destruct (to_chars z), (to_chars (of_chars y)). }
  exists (z +:+ of_chars y). by rewrite string_app_assoc.
Qed.

Lemma sibling_tmp s path i : tmp_name (Clean (siblingName s path i)).
Proof.
  apply Clean_tmp. unfold siblingName, JoinPath, JoinPaths.
  set (name := "." +:+ _).
  assert (tmp_name name) as Hname.
  { exists ("." +:+ Base path +:+ ".lsyl-switch-" +:+ Itoa (nano (fs_calls s) i) +:+ "-" +:+ Itoa (Z.of_nat i)).
    unfold name. by rewrite !string_app_assoc. }
  assert (String.eqb name "" = false) as Hne by done.
  rewrite !filter_cons, filter_nil, (decide_True (P := String.eqb name "" = false)) by done. destruct Hname as [x Hx].
  destruct (decide _); apply Clean_tmp; rewrite Hx; [|by exists x].
  exists (Dir path +:+ "/" +:+ x). cbn [Join]. by rewrite !string_app_assoc.
Qed.

(** *** A switch that succeeds *)

Lemma lookup_renamed d from to text q :
  dk_files (renamed d from to text) !! q
  = if decide (Clean to = q) then Some text else if decide (Clean from = q) then None else dk_files d !! q.
Proof. unfold renamed. by rewrite !lookup_set_file. Qed.

(** What the backups changed: the paths are free, and what was there has names
    that were free. *)
Record backed_up (d0 : Disk) (paths : list string) (st : switching) : Prop := {
  bu_moved : sw_moved st = [];
  bu_free : ∀ path, path ∈ paths → dk_files (fs_disk (sw_fs st)) !! Clean path = None;
  bu_names : ∀ o b, (o, b) ∈ sw_backups st → tmp_name (Clean b) ∧ dk_files d0 !! Clean b = None;
  bu_rest : ∀ q, (q ∉ map Clean paths) → (q ∉ map (λ p, Clean p.2) (sw_backups st)) →
    dk_files (fs_disk (sw_fs st)) !! q = dk_files d0 !! q;
  bu_kept : ∀ o b, (o, b) ∈ sw_backups st → o ∈ paths ∧
    ∃ text, dk_files d0 !! Clean o = Some text ∧ dk_files (fs_disk (sw_fs st)) !! Clean b = Some text
}.

Lemma backed_up_step d0 paths path st st' :
  addBackup path st = (st', Ok tt) → (Clean path ∉ map Clean paths) → ¬ tmp_name (Clean path) →
  Forall (λ p, ¬ tmp_name (Clean p)) paths → backed_up d0 paths st → backed_up d0 (paths ++ [path]) st'.
Proof.
  intros Hstep Hnew Hnt Hpaths [Hm Hfree Hnames Hrest Hkept].
  pose proof (addBackup_spec path st) as Hs. rewrite Hstep in Hs.
  assert (Clean path ∉ map (λ p, Clean p.2) (sw_backups st)) as Hnb.
  { intros ([o b] & E & Hin)%list_elem_of_fmap. cbn in E. destruct (Hnames o b Hin) as [Ht _]. by rewrite <-E in Ht. }
  destruct Hs as [[Hnone (Hd & Hm' & Hb)]|(s & i & (text & Ht & Hbn & Hd) & Hm' & Hb)].
  - split.
    + congruence.
    + intros x. rewrite elem_of_app, list_elem_of_singleton, Hd. intros [Hx| ->]; [by apply Hfree|done].
    + rewrite Hb. apply Hnames.
    + intros q. rewrite Hd, Hb, map_app. intros Hq Hqb. apply Hrest; set_solver.
    + rewrite Hb, Hd. intros o b Hin. destruct (Hkept o b Hin). split; [set_solver|done].
  - set (b' := siblingName s path i) in *. pose proof (sibling_tmp s path i) as Htmp. fold b' in Htmp.
    assert (Clean b' ≠ Clean path) as Hbp by (intros E; by rewrite E in Htmp).
    split.
    + congruence.
    + intros x. rewrite elem_of_app, list_elem_of_singleton, Hd, lookup_renamed. intros Hx.
      assert (¬ tmp_name (Clean x)) as Hxt.
      { destruct Hx as [Hx| ->]; [|done]. rewrite Forall_forall in Hpaths. by apply Hpaths. }
      rewrite decide_False by (intros E; by rewrite E in Htmp). case_decide; [done|].
      destruct Hx as [Hx| ->]; [by apply Hfree|done].
    + intros o b. rewrite Hb, elem_of_app, list_elem_of_singleton. intros [Hin|[= -> ->]]; [by eapply Hnames|].
      split; [done|]. rewrite <-Hrest; [done| |].
      * intros (x & E & Hx)%list_elem_of_fmap. rewrite Forall_forall in Hpaths. apply (Hpaths x Hx). by rewrite <-E.
      * intros ([o b] & E & Hin)%list_elem_of_fmap. cbn in E. destruct (Hkept o b Hin) as (_ & x & _ & Hk). congruence.
    + intros q. rewrite Hd, Hb, !map_app, lookup_renamed. intros Hq Hqb.
      rewrite decide_False by set_solver. rewrite decide_False by set_solver. apply Hrest; set_solver.
    + intros o b. rewrite Hb, Hd, lookup_renamed, elem_of_app, list_elem_of_singleton. intros [Hin|[= -> ->]].
      * destruct (Hkept o b Hin) as (Ho & x & Hx & Hk). split; [set_solver|]. exists x. split; [done|].
        destruct (Hnames o b Hin) as [Hbt _]. rewrite decide_False by congruence.
        rewrite decide_False by (intros E; by rewrite <-E in Hbt). done.
      * split; [set_solver|]. exists text. rewrite decide_True by done. split; [|done]. rewrite <-Ht. symmetry. by apply Hrest.
Qed.

Definition key_paths (p : profileSwitchPaths) : list string :=
  [sp_CurrentConfig p; sp_CurrentCert p; sp_ArchiveConfig p; sp_ArchiveCert p; sp_TargetConfig p; sp_TargetCert p].

(** Six different files, none of them named like a backup. *)
Definition paths_ok (p : profileSwitchPaths) : Prop :=
  NoDup (map Clean (key_paths p)) ∧ Forall (λ x, ¬ tmp_name (Clean x)) (key_paths p).

Definition at_path (d : Disk) (path : string) : option string := dk_files d !! Clean path.

Definition moves (p : profileSwitchPaths) (ex : bool) : list (string * (switching → switching * result unit)) :=
  [("归档当前配置失败", move (sp_CurrentConfig p) (sp_ArchiveConfig p) false);
   ("归档当前证书失败", move (sp_CurrentCert p) (sp_ArchiveCert p) (negb ex));
   ("切换目标配置失败", move (sp_TargetConfig p) (sp_CurrentConfig p) false);
   ("切换目标证书失败", move (sp_TargetCert p) (sp_CurrentCert p) false)].

Lemma run_step_ok what step steps st st' :
  run_steps ((what, step) :: steps) st = (st', Ok tt) →
  ∃ st1, step st = (st1, Ok tt) ∧ run_steps steps st1 = (st', Ok tt).
Proof. cbn. destruct (step st) as [st1 [[]|e]]; [|done]. by exists st1. Qed.

Lemma move_ok from to st st' :
  move from to false st = (st', Ok tt) → renamed_by st st' from to ∧ sw_backups st' = sw_backups st.
Proof.
  intros H. pose proof (move_spec from to false st) as Hs. rewrite H in Hs. by destruct Hs as [[? _]|(? & _ & ?)].
Qed.

(** The pair that is current afterwards was the target, the archived one was
    current; all other files are where they were. *)
Record moved_over (d d' : Disk) (p : profileSwitchPaths) : Prop := {
  mo_config : ∃ t c, at_path d (sp_TargetConfig p) = Some t ∧ at_path d (sp_CurrentConfig p) = Some c ∧
    at_path d' (sp_CurrentConfig p) = Some t ∧ at_path d' (sp_ArchiveConfig p) = Some c;
  mo_cert : ∃ t, at_path d (sp_TargetCert p) = Some t ∧ at_path d' (sp_CurrentCert p) = Some t;
  mo_archived : at_path d' (sp_ArchiveCert p)
    = match at_path d (sp_CurrentCert p) with Some t => Some t | None => at_path d (sp_ArchiveCert p) end;
  mo_target : at_path d' (sp_TargetConfig p) = None ∧ at_path d' (sp_TargetCert p) = None;
  mo_rest : ∀ q, (q ∉ map Clean (key_paths p)) → dk_files d' !! q = dk_files d !! q
}.

(** Decides which of the named files are the same. *)
Ltac same_paths :=
  repeat match goal with
  | H : context [decide (?a = ?b)] |- _ =>
      first [rewrite (decide_True (P := a = b)) in H by done | rewrite (decide_False (P := a = b)) in H by congruence]
  | |- context [decide (?a = ?b)] =>
      first [rewrite (decide_True (P := a = b)) by done | rewrite (decide_False (P := a = b)) by congruence]
  end.

Lemma moves_ok p ex st st' :
  NoDup (map Clean (key_paths p)) →
  (ex = false → at_path (fs_disk (sw_fs st)) (sp_CurrentCert p) = None) →
  (ex = true → at_path (fs_disk (sw_fs st)) (sp_CurrentCert p) ≠ None) →
  run_steps (moves p ex) st = (st', Ok tt) →
  moved_over (fs_disk (sw_fs st)) (fs_disk (sw_fs st')) p ∧ sw_backups st' = sw_backups st.
Proof.
  intros Hnd Hf Ht Hrun. unfold moves in Hrun. unfold key_paths in *. cbn [map] in *.
  apply run_step_ok in Hrun as (s1 & H1 & Hrun). apply run_step_ok in Hrun as (s2 & H2 & Hrun).
  apply run_step_ok in Hrun as (s3 & H3 & Hrun). apply run_step_ok in Hrun as (s4 & H4 & Hrun).
  injection Hrun as <-.
  apply move_ok in H1 as [(c & Hc1 & Hc2 & Hd1) Hb1]. apply move_ok in H3 as [(t & Ht1 & Ht2 & Hd3) Hb3].
  apply move_ok in H4 as [(u & Hu1 & Hu2 & Hd4) Hb4].
  pose proof (move_spec (sp_CurrentCert p) (sp_ArchiveCert p) (negb ex) s1) as Hs.
  rewrite H2 in Hs. rewrite !NoDup_cons, !not_elem_of_cons in Hnd.
  destruct_and!. unfold at_path in *.
  destruct Hs as [(He & Hskip & Hd2 & _ & Hb2)|[(v & Hv1 & Hv2 & Hd2) [_ Hb2]]].
  - apply negb_true_iff in He. specialize (Hf He). split; [|congruence].
    split; unfold at_path, key_paths; cbn [map]; rewrite ?Hd4, ?Hd3, ?Hd2, ?Hd1 in *; rewrite ?lookup_renamed in *; same_paths.
    + by exists t, c.
    + by exists u.
    + by rewrite Hf.
    + done.
    + intros q. rewrite !not_elem_of_cons. intros (? & ? & ? & ? & ? & ? & _). rewrite !lookup_renamed. by same_paths.
  - assert (ex = true) as -> by (destruct ex; [done|]; rewrite Hd1, lookup_renamed in Hv1; same_paths; by rewrite Hf in Hv1).
    split; [|congruence].
    split; unfold at_path, key_paths; cbn [map]; rewrite ?Hd4, ?Hd3, ?Hd2, ?Hd1 in *; rewrite ?lookup_renamed in *; same_paths.
    + by exists t, c.
    + by exists u.
    + by rewrite Hv1.
    + done.
    + intros q. rewrite !not_elem_of_cons. intros (? & ? & ? & ? & ? & ? & _). rewrite !lookup_renamed. by same_paths.
Qed.

(** Removing the backups touches nothing else. *)
Lemma cleanup_lookup l : ∀ s q,
  let s' := foldl (λ s (p : string * string), (Remove s p.2).1) s l in
  ((q ∉ map (λ p, Clean p.2) l) → dk_files (fs_disk s') !! q = dk_files (fs_disk s) !! q) ∧
  (dk_files (fs_disk s') !! q = dk_files (fs_disk s) !! q ∨ dk_files (fs_disk s') !! q = None) ∧
  ((∀ n path, removeErr n path = None) → q ∈ map (λ p, Clean p.2) l → dk_files (fs_disk s') !! q = None).
Proof.
  induction l as [|[o b] l IH]; intros s q; cbn [foldl map snd].
  { split; [done|]. split; [by left|]. intros _ []%not_elem_of_nil. }
  set (s1 := (Remove s b).1). destruct (IH s1 q) as (I1 & I2 & I3).
  assert (dk_files (fs_disk s1) !! q = dk_files (fs_disk s) !! q ∨ Clean b = q ∧ dk_files (fs_disk s1) !! q = None) as Hs1.
  { unfold s1, Remove. destruct (removeErr _ b); [by left|]. cbn [fst fs_disk]. rewrite lookup_set_file.
    case_decide; [by right|by left]. }
  split_and!.
  - intros [Hb Hl]%not_elem_of_cons. rewrite I1 by done. destruct Hs1 as [?|[? _]]; congruence.
  - destruct I2 as [->|?]; [|by right]. destruct Hs1 as [->|[_ ?]]; [by left|by right].
  - intros Hno Hq. destruct (decide (q ∈ map (λ p, Clean p.2) l)) as [Hin|Hin]; [by apply I3|].
    rewrite I1 by done. apply elem_of_cons in Hq as [->|?]; [|done].
    unfold s1, Remove. rewrite Hno. cbn [fst fs_disk]. by rewrite lookup_set_file, decide_True.
Qed.

Definition backup_steps (p : profileSwitchPaths) (ex : bool) : list string :=
  sp_ArchiveConfig p :: if ex then [sp_ArchiveCert p] else [].

Lemma backups_ok p s st' :
  let ex := fileExists (fs_disk s) (sp_CurrentCert p) in
  paths_ok p → forward_run p s = (st', Ok tt) →
  ∃ st, backed_up (fs_disk s) (backup_steps p ex) st ∧ run_steps (moves p ex) st = (st', Ok tt).
Proof.
  intros ex [Hnd Htmp] Hrun. unfold forward_run, switch_steps in Hrun. fold ex in Hrun.
  unfold key_paths in *. cbn [map] in Hnd. rewrite !NoDup_cons, !not_elem_of_cons in Hnd. destruct_and!.
  rewrite !Forall_cons in Htmp. destruct_and!. cbn [app] in Hrun.
  apply run_step_ok in Hrun as (s1 & E1 & Hrun).
  assert (backed_up (fs_disk s) [sp_ArchiveConfig p] s1) as B1.
  { apply (backed_up_step _ [] (sp_ArchiveConfig p) _ _ E1); [apply not_elem_of_nil|done|constructor|].
    split; [done|by intros ? []%not_elem_of_nil|by intros ? ? []%not_elem_of_nil|done|by intros ? ? []%not_elem_of_nil]. }
  destruct ex; [|by exists s1]. cbn [app] in Hrun. apply run_step_ok in Hrun as (s2 & E2 & Hrun).
  exists s2. split; [|done]. apply (backed_up_step _ [sp_ArchiveConfig p] (sp_ArchiveCert p) _ _ E2); [|done|by repeat constructor|done].
  cbn [map]. rewrite list_elem_of_singleton. congruence.
Qed.

(** What a switch that succeeds leaves: the pairs have changed places, and what
    was under the archive's names before is gone, or left under a backup's name
    when it cannot be removed. *)
Record switched (d d' : Disk) (p : profileSwitchPaths) : Prop := {
  sd_config : ∃ t c, at_path d (sp_TargetConfig p) = Some t ∧ at_path d (sp_CurrentConfig p) = Some c ∧
    at_path d' (sp_CurrentConfig p) = Some t ∧ at_path d' (sp_ArchiveConfig p) = Some c;
  sd_cert : ∃ t, at_path d (sp_TargetCert p) = Some t ∧ at_path d' (sp_CurrentCert p) = Some t;
  sd_archived : at_path d' (sp_ArchiveCert p)
    = match at_path d (sp_CurrentCert p) with Some t => Some t | None => at_path d (sp_ArchiveCert p) end;
  sd_target : at_path d' (sp_TargetConfig p) = None ∧ at_path d' (sp_TargetCert p) = None;
  sd_rest : ∀ q, (q ∉ map Clean (key_paths p)) → dk_files d' !! q = dk_files d !! q ∨
    tmp_name q ∧ dk_files d !! q = None ∧
    (dk_files d' !! q = at_path d (sp_ArchiveConfig p) ∨ dk_files d' !! q = at_path d (sp_ArchiveCert p));
  sd_clean : (∀ n path, removeErr n path = None) →
    ∀ q, (q ∉ map Clean (key_paths p)) → dk_files d' !! q = dk_files d !! q
}.

Ltac key_path := unfold key_paths; set_solver.

Lemma cleaned_rest d0 p ex sb st q :
  backed_up d0 (backup_steps p ex) sb → sw_backups st = sw_backups sb →
  (q ∉ map Clean (backup_steps p ex)) → dk_files (fs_disk (sw_fs st)) !! q = dk_files (fs_disk (sw_fs sb)) !! q →
  (dk_files (fs_disk (cleanup st)) !! q = dk_files d0 !! q ∨
   tmp_name q ∧ dk_files d0 !! q = None ∧
   (dk_files (fs_disk (cleanup st)) !! q = at_path d0 (sp_ArchiveConfig p) ∨
    dk_files (fs_disk (cleanup st)) !! q = at_path d0 (sp_ArchiveCert p))) ∧
  ((∀ n path, removeErr n path = None) → dk_files (fs_disk (cleanup st)) !! q = dk_files d0 !! q).
Proof.
  intros [_ _ Hnames Hrest Hkept] Hb Hq Hst. unfold cleanup. rewrite Hb.
  destruct (cleanup_lookup (sw_backups sb) (sw_fs st) q) as (C1 & C2 & C3).
  destruct (decide (q ∈ map (λ p, Clean p.2) (sw_backups sb))) as [Hin|Hin].
  - pose proof Hin as ([o b] & E & Ho)%list_elem_of_fmap. cbn in E. subst q.
    destruct (Hnames o b Ho) as [Ht Hn], (Hkept o b Ho) as (Hpath & text & Hold & Hnew). rewrite Hn. split.
    + destruct C2 as [->|?]; [|by left]. right. split; [done|]. split; [done|]. rewrite Hst, Hnew.
      unfold at_path, backup_steps in *. apply elem_of_cons in Hpath as [<-|Hpath]; [by left|]. right.
      destruct ex; [|by apply not_elem_of_nil in Hpath]. apply list_elem_of_singleton in Hpath. by rewrite <-Hpath.
    + intros Hno. by apply C3.
  - rewrite C1, Hst by done. rewrite Hrest by done. split; [by left|done].
Qed.

Lemma switch_ok p s st : paths_ok p → forward_run p s = (st, Ok tt) → switched (fs_disk s) (fs_disk (cleanup st)) p.
Proof.
  intros Hp Hrun. destruct (backups_ok p s st Hp Hrun) as (sb & Hbu & Hmoves).
  pose proof Hbu as [_ Hfree Hnames Hrest Hkept].
  destruct Hp as [Hnd Htmp]. set (ex := fileExists (fs_disk s) (sp_CurrentCert p)) in *.
  assert (∀ x, x ∈ key_paths p → ∀ o b, (o, b) ∈ sw_backups sb → Clean x ≠ Clean b) as Hnb.
  { intros x Hx o b Hin E. rewrite Forall_forall in Htmp. apply (Htmp x Hx). rewrite E. by eapply Hnames. }
  assert (∀ x, x ∈ key_paths p → Clean x ∉ map (λ p, Clean p.2) (sw_backups sb)) as Hnbs.
  { intros x Hx ([o b] & E & Hin)%list_elem_of_fmap. by apply (Hnb x Hx o b Hin). }
  assert (∀ x, x ∈ key_paths p → (Clean x ∉ map Clean (backup_steps p ex)) →
    at_path (fs_disk (sw_fs sb)) x = at_path (fs_disk s) x) as Hsame.
  { intros x Hx Hn. apply Hrest; [done|by apply Hnbs]. }
  assert (∀ q, (q ∉ map Clean (key_paths p)) → q ∉ map Clean (backup_steps p ex)) as Hsub.
  { intros q. unfold key_paths, backup_steps. destruct ex; set_solver. }
  assert ((Clean (sp_CurrentCert p) ∉ map Clean (backup_steps p ex)) ∧ (Clean (sp_CurrentConfig p) ∉ map Clean (backup_steps p ex))
    ∧ (Clean (sp_TargetConfig p) ∉ map Clean (backup_steps p ex)) ∧ (Clean (sp_TargetCert p) ∉ map Clean (backup_steps p ex))
    ∧ (ex = false → Clean (sp_ArchiveCert p) ∉ map Clean (backup_steps p ex))) as (N1 & N2 & N3 & N4 & N5).
  { unfold key_paths in Hnd. cbn [map] in Hnd. rewrite !NoDup_cons, !not_elem_of_cons in Hnd. destruct_and!.
    unfold backup_steps. destruct ex; cbn [map]; rewrite ?not_elem_of_cons; repeat split; try done;
      try apply not_elem_of_nil; congruence. }
  assert (at_path (fs_disk (sw_fs sb)) (sp_CurrentCert p) = at_path (fs_disk s) (sp_CurrentCert p)) as Hcc.
  { apply Hsame; [by right; left|done]. }
  destruct (moves_ok p ex sb st Hnd) as [[Mc Mt Ma Mg Mr] Hb]; [| |done|].
  { rewrite Hcc. intros E. by apply not_exists. }
  { rewrite Hcc. intros E Hn. apply not_exists in Hn. unfold ex in E. congruence. }
  assert (∀ x, x ∈ key_paths p → at_path (fs_disk (cleanup st)) x = at_path (fs_disk (sw_fs st)) x) as Hclean.
  { intros x Hx. unfold cleanup. rewrite Hb. apply (cleanup_lookup (sw_backups sb) (sw_fs st) (Clean x)). by apply Hnbs. }
  rewrite (Hsame (sp_TargetConfig p)), (Hsame (sp_CurrentConfig p)) in Mc by (done || key_path).
  rewrite (Hsame (sp_TargetCert p)) in Mt by (done || key_path). rewrite Hcc in Ma.
  split; rewrite ?Hclean by key_path; [done|done| |done| |].
  - rewrite Ma. destruct (at_path (fs_disk s) (sp_CurrentCert p)) eqn:E; [done|]. apply Hsame; [key_path|].
    apply N5, not_exists. exact E.
  - intros q Hq. apply (cleaned_rest (fs_disk s) p ex sb st q Hbu Hb); [by apply Hsub|by apply Mr].
  - intros Hno q Hq. apply (cleaned_rest (fs_disk s) p ex sb st q Hbu Hb); [by apply Hsub|by apply Mr|done].
Qed.

End Switching.

(** ** Choosing a profile *)

Record clientProfile := mkProfile {
  pf_ID : string;
  pf_Label : string;
  pf_ServerAddr : string;
  pf_Current : bool;
  pf_Available : bool;
  pf_Message : string
}.

(** [profileCache] and [profileCacheUntil], which one lock protects. *)
Record profileCache := mkProfileCache { pc_profiles : list clientProfile; pc_until : Time }.

Definition clientProfileCacheTTL : Duration := 30 * nsecond.

Definition invalidateClientProfiles (c : profileCache) : profileCache := mkProfileCache [] 0.

(** [load] is what [loadClientProfiles] gives; [now] and [now'] are the two
    readings of the clock. *)
Definition clientProfiles (now now' : Time) (load : list clientProfile) (c : profileCache)
    : profileCache * list clientProfile :=
  if Before now (pc_until c) then (c, pc_profiles c)
  else (mkProfileCache load (now' + clientProfileCacheTTL), load).

(** [isNotExist] is [errors.Is] with [os.ErrNotExist]. *)
Definition clientProfileCompatibilityMessage (isNotExist : string → bool) (err : string) : string :=
  let text := ToLower err in
  if Contains text "requires a newer client" || Contains text "current client supports config_version"
     || Contains text "client config requires version >=" && Contains text "current version"
  then "需要更高版本客户端"
  else if isNotExist err then "配置文件或证书缺失"
  else if containsAny text ["access is denied"; "permission denied"; "拒绝访问"] then "配置文件不可读"
  else if containsAny text ["field "; "unknown field"; "missing required field"; "duplicate field";
            "must be a mapping"; "must be a list"; "must be a value"; "exactly one yaml document";
            "yaml:"; "cannot unmarshal"; "did not find expected"]
  then "配置结构不兼容"
  else if containsAny text ["certificate"; "x509"; "no pem"; "doesn't contain any ip sans"] then "配置与证书不匹配"
  else "配置内容不可用".

Definition profileSwitchFriendlyError (isNotExist : string → bool) (text : string) : string :=
  let lower := ToLower text in
  if Contains text "目标配置校验失败" then
    let message := clientProfileCompatibilityMessage isNotExist text in
    if String.eqb message "需要更高版本客户端" then "目标配置需要更高版本的客户端，请升级客户端后再切换。"
    else if String.eqb message "配置结构不兼容" then "目标配置结构与当前客户端不兼容，请联系管理员重新下发配置。"
    else if String.eqb message "配置与证书不匹配" then "目标配置与配套证书不匹配，请联系管理员重新下发配置。"
    else if String.eqb message "配置文件或证书缺失" then "目标配置文件或配套证书不可读，请检查文件是否完整。"
    else "目标配置内容无效，请联系管理员检查转发规则和服务端地址。"
  else if containsAny text ["requires a newer client"; "requires version >="]
  then "目标配置需要更高版本的客户端，请升级客户端后再切换。"
  else if containsAny text ["请先断开"] then text
  else if containsAny text ["目标配置不存在"; "目标配置缺少配套证书"] then text
  else if containsAny text ["服务端地址相同"; "当前配置缺少服务端地址"] then text
  else if containsAny lower ["access is denied"; "拒绝访问"; "permission"]
  then "没有权限切换配置文件，请以管理员身份运行或检查安装目录权限。"
  else if containsAny lower ["读取当前配置失败"] && containsAny lower ["no such file"; "cannot find"; "找不到"]
  then "当前配置文件不存在，请修复或重新安装客户端。"
  else if containsAny text ["读取当前配置失败"] && containsAny lower ["yaml"; "unmarshal"; "配置文件格式"]
  then "当前配置文件格式不正确，请联系管理员检查配置。"
  else if containsAny text ["读取当前配置失败"] then "无法读取当前配置文件，请确认文件未被占用且内容完整。"
  else if containsAny text ["配置文件格式"] then "当前配置文件格式不正确，请联系管理员检查配置。"
  else if containsAny text ["目标文件已存在"] then "配置归档文件已存在，无法安全切换，请联系管理员清理重复配置。"
  else if containsAny text ["准备归档"; "归档当前"] then "无法归档当前配置，请确认配置文件和证书未被其他程序占用。"
  else if containsAny text ["切换目标"] then "无法启用目标配置，请确认目标配置和证书未被其他程序占用。"
  else "切换客户端配置失败，未能完成配置文件替换；请重试，若持续出现请联系管理员。".

Section Choosing.
Context `{PEM} `{CertificateIPs} `{YAMLTree} `{StrictYAML Config}.
Variable Hostname : result string.
Variable isNotExist : string → bool.
Variable Glob : Disk → string → list string.
Variable renameErr : nat → string → string → option string.
Variable removeErr : nat → string → option string.
Variable nano : nat → nat → Z.

(** [tunnel.LoadConfigRaw] as its callers here use it: the configuration as far
    as it was read, and the error. *)
Definition readClientConfigRaw (d : Disk) (path : string) : Config * option string :=
  match data ← read_file d path; decodeClientConfig data with
  | Err e => (zeroConfig, Some e)
  | Ok cfg =>
      let cfg := ApplyDefaults Hostname cfg in
      (cfg, match validateLoopbackAddresses cfg with Err e => Some e | Ok _ => None end)
  end.

Definition with_status (p : clientProfile) (available : bool) (message : string) : clientProfile :=
  mkProfile (pf_ID p) (pf_Label p) (pf_ServerAddr p) (pf_Current p) available message.

(** The end both listings share: the certificate and the check of the pair. *)
Definition check_profile (d : Disk) (err : option string) (certPath missing : string) (check : result unit)
    (profile : clientProfile) : clientProfile :=
  let profile := match err with
                 | Some e => with_status profile false (clientProfileCompatibilityMessage isNotExist e)
                 | None => profile
                 end in
  if negb (fileExists d certPath)
  then with_status profile false (if String.eqb (pf_Message profile) "" then missing else pf_Message profile)
  else match err, check with
  | None, Err e => with_status profile false (clientProfileCompatibilityMessage isNotExist e)
  | _, _ => profile
  end.

Definition currentClientProfile (d : Disk) (configPath : string) : clientProfile :=
  let '(cfg, err) := readClientConfigRaw d configPath in
  let serverAddr := TrimSpace (cl_ServerAddr cfg) in
  check_profile d err (currentClientCertPath configPath) "缺少当前证书"
    (CheckConfigUpgradeCompatible Hostname d configPath)
    (mkProfile currentClientProfileID (clientProfileLabel serverAddr "当前配置" (cl_Remark cfg)) serverAddr true true "").

Definition archivedClientProfile (d : Disk) (configPath path suffix : string) : clientProfile :=
  let '(cfg, err) := readClientConfigRaw d path in
  let serverAddr := TrimSpace (cl_ServerAddr cfg) in
  let certPath := archivedClientCertPath configPath suffix in
  check_profile d err certPath "缺少配套证书"
    (CheckConfigUpgradeCompatibleWithCACert Hostname d path certPath)
    (mkProfile suffix (clientProfileLabel serverAddr suffix (cl_Remark cfg)) serverAddr false true "").

(** [Glob] never fails for this pattern. *)
Definition loadClientProfiles (d : Disk) (configPath : string) : list clientProfile :=
  let entries := SliceStable String.ltb (Glob d (JoinPath (Dir configPath) "client.*.yaml")) in
  currentClientProfile d configPath ::
  omap (λ path, archivedClientProfile d configPath path <$> archivedClientConfigSuffix path) entries.

(** The six files of a switch away from a configuration archived under [currentSuffix]. *)
Definition switch_paths (configPath currentSuffix profileID : string) : profileSwitchPaths :=
  mkSwitchPaths configPath (currentClientCertPath configPath)
    (archivedClientConfigPath configPath currentSuffix) (archivedClientCertPath configPath currentSuffix)
    (archivedClientConfigPath configPath profileID) (archivedClientCertPath configPath profileID).

Definition switchClientProfile (configPath profileID : string) (s : fsys) (c : profileCache)
    : fsys * profileCache * result unit :=
  let d := fs_disk s in
  let fail e := (s, c, Err e) in
  let profileID := TrimSpace profileID in
  if String.eqb profileID "" || String.eqb profileID currentClientProfileID then (s, c, Ok tt)
  else match readClientConfigRaw d configPath with
  | (_, Some e) => fail ("读取当前配置失败: " +:+ e)
  | (currentCfg, None) =>
      let currentSuffix := clientProfileFileSuffix (cl_ServerAddr currentCfg) in
      if String.eqb currentSuffix "" then fail "当前配置缺少服务端地址，无法归档"
      else if EqualFold currentSuffix profileID then fail "当前配置和目标配置服务地址相同，无法安全切换"
      else
        let paths := switch_paths configPath currentSuffix profileID in
        if negb (fileExists d (sp_TargetConfig paths)) then fail "目标配置不存在"
        else if negb (fileExists d (sp_TargetCert paths)) then fail "目标配置缺少配套证书"
        else match CheckConfigUpgradeCompatibleWithCACert Hostname d (sp_TargetConfig paths) (sp_TargetCert paths) with
        | Err e => fail ("目标配置校验失败: " +:+ e)
        | Ok _ =>
            match switchClientProfileFiles renameErr removeErr nano paths s with
            | (s, Err e) => (s, c, Err e)
            | (s, Ok _) => (s, invalidateClientProfiles c, Ok tt)
            end
        end
  end.

(** The route: [body] is the decoded request, [running] what [isRunning] says.
    The answer is without the state of the page. *)
Definition handleProfileSwitch (configPath method : string) (body : option string) (running : bool)
    (s : fsys) (c : profileCache) : fsys * profileCache * (bool * string) :=
  if negb (String.eqb method "POST") then (s, c, (false, "请求方法不支持"))
  else match body with
  | None => (s, c, (false, "请求格式不正确"))
  | Some profileID =>
      if running then (s, c, (false, "请先断开当前连接，再切换客户端配置。"))
      else match switchClientProfile configPath profileID s c with
      | (s, c, Err e) => (s, c, (false, profileSwitchFriendlyError isNotExist e))
      | (s, c, Ok _) => (s, c, (true, "已切换客户端配置"))
      end
  end.
End Choosing.

(** ** All or nothing *)

Section Atomic.
Context `{PEM} `{CertificateIPs} `{YAMLTree} `{StrictYAML Config}.
Variable Hostname : result string.
Variable renameErr : nat → string → string → option string.
Variable removeErr : nat → string → option string.
Variable nano : nat → nat → Z.

Lemma files_all_or_nothing p s :
  match switchClientProfileFiles renameErr removeErr nano p s with
  | (s', Err _) => no_rename_fails renameErr (fs_calls (sw_fs (forward_run renameErr nano p s).1)) → fs_disk s' = fs_disk s
  | (s', Ok _) => paths_ok p → switched removeErr (fs_disk s) (fs_disk s') p
  end.
Proof.
  unfold switchClientProfileFiles. pose proof (forward_history renameErr nano p s) as Hh.
  destruct (forward_run renameErr nano p s) as [st [[]|e]] eqn:E; cbn [fst] in *.
  - intros Hp. by eapply switch_ok.
  - intros Hn. by eapply rollback_restores.
Qed.

(** The files of the switch the page asks for. *)
Definition asked_paths (d : Disk) (configPath profileID : string) : profileSwitchPaths :=
  switch_paths configPath (clientProfileFileSuffix (cl_ServerAddr (readClientConfigRaw Hostname d configPath).1))
    (TrimSpace profileID).

(** C34: switching profiles is all or nothing. A switch that fails, at whatever
    step, leaves every file of the disk as it was, unless a rename that undoes a
    step fails too. One that succeeds has made a pair current that passed the
    check of this client, has archived the old pair under the name of its
    server, has lost no file but what that name held before, and the next
    listing of the profiles is read from the disk. *)
Theorem switch_all_or_nothing configPath profileID s c :
  let p := asked_paths (fs_disk s) configPath profileID in
  let '(s', c', r) := switchClientProfile Hostname renameErr removeErr nano configPath profileID s c in
  match r with
  | Err _ =>
      c' = c ∧
      (no_rename_fails renameErr (fs_calls (sw_fs (forward_run renameErr nano p s).1)) → fs_disk s' = fs_disk s)
  | Ok _ =>
      TrimSpace profileID ∈ [""; currentClientProfileID] ∧ s' = s ∧ c' = c ∨
      CheckConfigUpgradeCompatibleWithCACert Hostname (fs_disk s) (sp_TargetConfig p) (sp_TargetCert p) = Ok tt ∧
      (paths_ok p → switched removeErr (fs_disk s) (fs_disk s') p) ∧
      ∀ now now' load, 0 <= now → (clientProfiles now now' load c').2 = load
  end.
Proof.
  cbv zeta. unfold switchClientProfile, asked_paths.
  destruct (String.eqb_spec (TrimSpace profileID) "") as [->|]; cbn [orb]; [left; split; [left|done]|].
  destruct (String.eqb_spec (TrimSpace profileID) currentClientProfileID) as [->|]; [left; split; [right; left|done]|].
  destruct (readClientConfigRaw Hostname (fs_disk s) configPath) as [cfg [e|]]; [done|]. cbn [fst].
  destruct (String.eqb _ ""); [done|]. destruct (EqualFold _ _); [done|].
  set (p := switch_paths _ _ _). destruct (fileExists _ (sp_TargetConfig p)); [|done].
  destruct (fileExists _ (sp_TargetCert p)); [|done]. cbn [negb].
  destruct (CheckConfigUpgradeCompatibleWithCACert _ _ _ _) as [[]|e] eqn:Ec; [|done].
  pose proof (files_all_or_nothing p s) as Hf.
  destruct (switchClientProfileFiles _ _ _ p s) as [s' [[]|e]]; [|done].
  right. split; [done|]. split; [done|]. intros now now' load Hnow. unfold clientProfiles, Before. cbn.
  destruct (Z.ltb_spec now 0); [lia|done].
Qed.
End Atomic.

(** ** Concrete runs *)

Definition twoProfiles : gmap string string :=
  <["conf/client.yaml" := "A"]> (<["cert/server.crt" := "a"]> (<["conf/client.s1.yaml" := "old"]>
  (<["conf/client.t.yaml" := "T"]> {[ "cert/server.t.crt" := "t" ]}))).

Definition toTarget : profileSwitchPaths := switch_paths "conf/client.yaml" "s1" "t".

(** Every call of [l] fails. *)
Definition failing (l : list nat) (k : nat) (from to : string) : option string :=
  if bool_decide (k ∈ l) then Some "the file is in use" else None.

Example switch_runs :
  let run l := switchClientProfileFiles (failing l) (λ _ _, None) (λ _ _, 1) toTarget (mkFsys (goodDisk twoProfiles) 0) in
  (let '(s, r) := run [] in r = Ok tt ∧ dk_files (fs_disk s)
    = <["conf/client.yaml" := "T"]> (<["cert/server.crt" := "t"]> (<["conf/client.s1.yaml" := "A"]>
      {[ "cert/server.s1.crt" := "a" ]}))) ∧
  (let '(s, r) := run [3%nat] in is_ok r = false ∧ dk_files (fs_disk s) = twoProfiles).
Proof. vm_compute. repeat split; reflexivity. Qed.

(** The rollback does not look at whether its renames succeed. When the archive
    cannot be renamed back, restoring the old archive replaces it, and with it
    the current configuration: no file holds it any more. *)
Lemma rollback_loses_current :
  let '(s, r) := switchClientProfileFiles (failing [2; 3]%nat) (λ _ _, None) (λ _ _, 1) toTarget
                   (mkFsys (goodDisk twoProfiles) 0) in
  is_ok r = false ∧ dk_files (fs_disk s) !! "conf/client.yaml" = None ∧
  bool_decide (map_Forall (λ _ text, text ≠ "A") (dk_files (fs_disk s))) = true.
Proof. vm_compute. repeat split; reflexivity. Qed.
