(* ===== verification/MobileProfile.v ===== *)
(** * Portable client profiles (src/client/mobileprofile)

    The client exports its configuration, without its password, and the server's
    certificate as one archive that the mobile client and the small client
    import. The archive format, JSON, the parsing of certificates and of times,
    which file operations fail and the name of a temporary file are parameters. *)

From S2P Require Import Prelude.
From S2P Require Import GoStd.
From S2P Require Import Netaddr.
From S2P Require Import Disk.
From S2P Require Import GoCrypto.
From S2P Require Import Protocol.
From S2P Require Import Credseal.
From S2P Require Import CertificateGate.
From S2P Require Import Yaml.
From S2P Require Import VirtualAddress.
From S2P Require Import ClientConfig.
From S2P Require Import LogReader.
From S2P Require Import ProfileSwitch.

#[local] Open Scope Z_scope.

(** ** The profile *)

Record tlsConfig := mkProfileTLS {
  pt_CACertFile : string;
  pt_ServerName : string;
  pt_MinVersion : string;
  pt_InsecureSkipVerify : bool
}.
Record connectionConfig := mkProfileConnection { pn_DialTimeoutSec : Z }.
Record forwardConfig := mkProfileForward {
  pw_Name : string;
  pw_Direction : string;
  pw_ListenAddr : string;
  pw_ServerTarget : string
}.
Record profileFile := mkProfileFile {
  pr_Version : Z;
  pr_ProfileID : string;
  pr_ServerAddr : string;
  pr_Username : string;
  pr_ClientID : string;
  pr_SavedCredential : SealedCredential;
  pr_TLS : tlsConfig;
  pr_Connection : connectionConfig;
  pr_Forwards : list forwardConfig
}.

Definition zeroProfile : profileFile :=
  mkProfileFile 0 "" "" "" "" emptyCredential (mkProfileTLS "" "" "" false) (mkProfileConnection 0) [].

(** ** Names and addresses *)

Definition splitHostPort (value : string) : result (string * Z) :=
  '(host, portText) ← SplitHostPort (TrimSpace value);
  _ ← CheckLoopbackHost host;
  match Atoi portText with
  | Some port =>
      if (port <=? 0) || (65535 <? port) then Err "invalid port" else Ok (Trim host "[]", port)
  | None => Err "invalid port"
  end.

Definition tls13 (version : string) : bool :=
  bool_decide (TrimSpace (ToLower version) ∈ [""; "1.3"; "tls1.3"]).

(** The number of bytes of the character at the head, when they are its UTF-8
    encoding. *)
Definition in_range (lo hi : Z) (c : Ascii.ascii) : bool := (lo <=? code c) && (code c <=? hi).
Definition continues (lo hi : Z) (n : nat) (l : chars) : bool :=
  match l with
  | c :: l => in_range lo hi c && (n <=? length l)%nat && forallb (in_range 0x80 0xBF) (take n l)
  | [] => false
  end.
Definition rune_width (l : chars) : option nat :=
  match l with
  | [] => None
  | c :: t =>
      let first lo hi := in_range lo hi c in
      if first 0 0x7F then Some 1%nat
      else if first 0xC2 0xDF then if continues 0x80 0xBF 0 t then Some 2%nat else None
      else if first 0xE0 0xE0 then if continues 0xA0 0xBF 1 t then Some 3%nat else None
      else if first 0xED 0xED then if continues 0x80 0x9F 1 t then Some 3%nat else None
      else if first 0xE1 0xEF then if continues 0x80 0xBF 1 t then Some 3%nat else None
      else if first 0xF0 0xF0 then if continues 0x90 0xBF 2 t then Some 4%nat else None
      else if first 0xF1 0xF3 then if continues 0x80 0xBF 2 t then Some 4%nat else None
      else if first 0xF4 0xF4 then if continues 0x80 0x8F 2 t then Some 4%nat else None
      else None
  end.

(** The characters Windows allows in no file name. *)
Definition reserved_chars : chars := map of_code [60; 62; 58; 34; 47; 92; 124; 63; 42].
Definition unsafe_char (c : Ascii.ascii) : bool := (code c <? 32) || has_char c reserved_chars.

(** U+FFFD, which ranging over a string gives for a byte that is no UTF-8. *)
Definition replacementChar : chars := map of_code [0xEF; 0xBF; 0xBD].

(** The loop; [skip] is how many bytes of the current character are left. *)
Fixpoint sanitize_loop (lastDash : bool) (skip : nat) (l : chars) : chars :=
  match l with
  | [] => []
  | c :: t =>
      match skip with
      | S skip => c :: sanitize_loop lastDash skip t
      | O =>
          if unsafe_char c then if lastDash then sanitize_loop true 0 t else "-"%char :: sanitize_loop true 0 t
          else match rune_width l with
          | Some (S n) => c :: sanitize_loop false n t
          | _ => replacementChar ++ sanitize_loop false 0 t
          end
      end
  end.

Definition sanitizeFilePart (value : string) : string :=
  let value := TrimSpace value in
  if String.eqb value "" then "client"
  else
    let clean := Trim (of_chars (sanitize_loop false 0 (to_chars value))) " .-" in
    if String.eqb clean "" then "client" else clean.

Definition profileID (cfg : Config) : string :=
  let id := TrimSpace (cl_ClientID cfg) in
  let id := if String.eqb id "" then TrimSpace (cl_Username cfg) else id in
  "mobile-" +:+ sanitizeFilePart id.

(** [forwardNameForError] and [profileForwardNameForError]. *)
Definition forwardNameForError (fwdName listenAddr serverTarget : string) : string :=
  if negb (blank fwdName) then TrimSpace fwdName
  else if negb (blank listenAddr) then TrimSpace listenAddr
  else TrimSpace serverTarget.

Definition normalizeProfileHost (host : string) : string := ToLower (Trim (TrimSpace host) "[]").

Example file_parts :
  map sanitizeFilePart [" alice "; "a/b\\c"; "..-. "; "a<>b"; "é-"] = ["alice"; "a-b-c"; "client"; "a-b"; "é"] ∧
  sanitizeFilePart (of_chars [of_code 200; "a"%char]) = of_chars (replacementChar ++ ["a"%char]) ∧
  splitHostPort " 10.0.0.1:22 " = Ok ("10.0.0.1", 22) ∧ is_ok (splitHostPort "localhost:22") = false.
Proof. vm_compute. repeat split; reflexivity. Qed.

(** ** Forwards *)

Definition mobileListen (port : Z) : string := JoinHostPort "127.0.0.1" (Itoa port).

(** [name] or the address it listens on. *)
Definition nameOr (name listenAddr : string) : string :=
  if blank name then listenAddr else TrimSpace name.

Definition forwardFromConfig (fwd : ForwardConfig) : result forwardConfig :=
  let q := "forward " +:+ quote (forwardNameForError (fd_Name fwd) (fd_ListenAddr fwd) (fd_ServerTarget fwd)) in
  let direction := TrimSpace (fd_Direction fwd) in
  let direction := if String.eqb direction "" then DirectionClientToServer else direction in
  if negb (String.eqb direction DirectionClientToServer)
  then Err (q +:+ " is " +:+ direction +:+ "; mobile export only supports client_to_server")
  else
    '(host, port) ← wrap_err (q +:+ " listen_addr is invalid") (splitHostPort (fd_ListenAddr fwd));
    _ ← guard_err (negb (String.eqb host LoopbackIPv4)) (q +:+ " listen_addr must use 127.0.0.1 for mobile");
    _ ← guard_err (port <? 1024)
          (q +:+ " listen port " +:+ Itoa port +:+ " is below 1024 and cannot be used by Android");
    '(targetHost, _) ← wrap_err (q +:+ " server_target is invalid") (splitHostPort (fd_ServerTarget fwd));
    _ ← guard_err (negb (IsForwardTargetHost targetHost))
          (q +:+ " server_target must use 127.0.0.1 or a private IP address");
    let listenAddr := mobileListen port in
    Ok (mkProfileForward (nameOr (fd_Name fwd) listenAddr) DirectionClientToServer listenAddr
          (TrimSpace (fd_ServerTarget fwd))).

Definition configForwardFromProfile (fwd : forwardConfig) : result ForwardConfig :=
  let q := "forward " +:+ quote (forwardNameForError (pw_Name fwd) (pw_ListenAddr fwd) (pw_ServerTarget fwd)) in
  let direction := TrimSpace (pw_Direction fwd) in
  let direction := if String.eqb direction "" then DirectionClientToServer else direction in
  if negb (String.eqb direction DirectionClientToServer)
  then Err (q +:+ " is " +:+ direction +:+ "; mobile profile only supports client_to_server")
  else
    '(host, port) ← wrap_err (q +:+ " listen_addr is invalid") (splitHostPort (pw_ListenAddr fwd));
    _ ← guard_err (negb (String.eqb (normalizeProfileHost host) "127.0.0.1"))
          (q +:+ " listen_addr must use 127.0.0.1 for mobile");
    _ ← guard_err (port <? 1024)
          (q +:+ " listen port " +:+ Itoa port +:+ " is below 1024 and cannot be used by Android");
    _ ← wrap_err (q +:+ " server_target is invalid") (splitHostPort (pw_ServerTarget fwd));
    let listenAddr := mobileListen port in
    Ok (mkForward (nameOr (pw_Name fwd) listenAddr) DirectionClientToServer listenAddr
          (TrimSpace (pw_ServerTarget fwd))).

(** The loop over the forwards, the same in both directions: [names] and
    [listens] are [seenNames] and [seenListens]. *)
Section Forwards.
Context {A B : Type} (convert : A → result B) (name listen : B → string).

Fixpoint forwards_loop (names listens : gset string) (l : list A) : result (list B) :=
  match l with
  | [] => Ok []
  | fwd :: l =>
      fwd ← convert fwd;
      _ ← guard_err (bool_decide (name fwd ∈ names)) ("duplicate forward name: " +:+ name fwd);
      _ ← guard_err (bool_decide (listen fwd ∈ listens)) ("duplicate mobile listen address: " +:+ listen fwd);
      forwards ← forwards_loop ({[ name fwd ]} ∪ names) ({[ listen fwd ]} ∪ listens) l;
      Ok (fwd :: forwards)
  end.

Definition collect_forwards (l : list A) : result (list B) :=
  forwards ← forwards_loop ∅ ∅ l;
  _ ← guard_err (length forwards =? 0)%nat "at least one client_to_server forward is required";
  Ok forwards.
End Forwards.

Definition exportForwards (fwds : list ForwardConfig) : result (list forwardConfig) :=
  collect_forwards forwardFromConfig pw_Name pw_ListenAddr fwds.
Definition importForwards (fwds : list forwardConfig) : result (list ForwardConfig) :=
  collect_forwards configForwardFromProfile fd_Name fd_ListenAddr fwds.

Definition positiveTimeout (c : Z) : Z := if c <=? 0 then 5 else c.

(** ** Profile and configuration *)

Section Profiles.
Context `{X509} `{PEM} `{CertificateIPs} `{ZonedTime}.
Variable Hostname : result string.
(** What [time.Parse] says of a text it cannot parse, and a date in the zone it
    was parsed in. *)
Variable parseTimeErr : string → string.
Variable FormatZonedDate : Time → Zone → string.

Definition credentialExpiry (now : Time) (c : SealedCredential) : result (Time * Zone) :=
  _ ← guard_err (blank (sc_Ciphertext c))
        "saved_credential is required; connect successfully in the client once before exporting";
  _ ← guard_err (negb (String.eqb (TrimSpace (sc_Type c)) "server_sealed"))
        "saved_credential.type must be server_sealed";
  _ ← guard_err (blank (sc_KeyID c)) "saved_credential.key_id is required";
  _ ← guard_err (blank (sc_ExpiresAt c)) "saved_credential.expires_at is required";
  match ParseZoned (TrimSpace (sc_ExpiresAt c)) with
  | None => Err ("saved_credential.expires_at must be RFC3339: " +:+ parseTimeErr (TrimSpace (sc_ExpiresAt c)))
  | Some (expiresAt, zone) =>
      if negb (After expiresAt now)
      then Err "saved_credential has expired; reconnect in the client before exporting"
      else Ok (expiresAt, zone)
  end.

Definition FileNameFromConfig (now : Time) (cfg : Config) : result string :=
  _ ← guard_err (blank (cl_Username cfg)) "username is required";
  '(expiresAt, zone) ← credentialExpiry now (cl_SavedCredential cfg);
  Ok (sanitizeFilePart (cl_Username cfg) +:+ "_" +:+ FormatZonedDate expiresAt zone +:+ ".lsylprofile").

Definition ProfileFromConfig (now : Time) (cfg : Config) : result (profileFile * (Time * Zone)) :=
  let cfg := ApplyDefaults Hostname cfg in
  let t := cl_TLS cfg in
  _ ← wrap_err "tls.server_name" (CheckLoopbackHost (tl_ServerName t));
  _ ← wrap_err "server_addr is invalid" (splitHostPort (cl_ServerAddr cfg));
  _ ← guard_err (blank (cl_Username cfg)) "username is required";
  expiresAt ← credentialExpiry now (cl_SavedCredential cfg);
  _ ← guard_err (tl_InsecureSkipVerify t) "mobile profile cannot use tls.insecure_skip_verify";
  _ ← guard_err (negb (tls13 (tl_MinVersion t))) "mobile profile requires tls.min_version 1.3";
  forwards ← exportForwards (cl_Forwards cfg);
  Ok (mkProfileFile 1 (profileID cfg) (TrimSpace (cl_ServerAddr cfg)) (TrimSpace (cl_Username cfg))
        (TrimSpace (cl_ClientID cfg)) (cl_SavedCredential cfg)
        (mkProfileTLS "server.crt" (TrimSpace (tl_ServerName t)) "1.3" false)
        (mkProfileConnection (positiveTimeout (cn_DialTimeoutSec (cl_Connection cfg)))) forwards,
      expiresAt).

(** The parsed certificate, and the bytes of its block. *)
Definition readFirstCert (data : chars) : result (chars * chars) :=
  match pem_Decode data with
  | Some (type, bytes, _) =>
      if String.eqb type "CERTIFICATE" then cert ← ParseCertificate bytes; Ok (cert, bytes)
      else Err "no PEM certificate found"
  | None => Err "no PEM certificate found"
  end.

Record ImportedProfile := mkImported {
  im_Config : Config;
  im_CertPEM : chars;
  im_ExpiresAt : Time * Zone;
  im_ProfileID : string
}.

Definition serverCertEntry : string := "server.crt".
Definition profileJSONEntry : string := "profile.json".

(** The configuration before its defaults. *)
Definition importedConfig (profile : profileFile) (forwards : list ForwardConfig) : Config :=
  let t := pr_TLS profile in
  mkClientConfig 0 (mkRequires "") (TrimSpace (pr_ServerAddr profile)) "" (TrimSpace (pr_Username profile))
    "" "" "" (pr_SavedCredential profile) "" "info"
    (mkTLS (if blank (pt_CACertFile t) then serverCertEntry else TrimSpace (pt_CACertFile t))
       (TrimSpace (pt_ServerName t)) "1.3" false)
    (mkConnection (positiveTimeout (pn_DialTimeoutSec (pr_Connection profile)))) forwards.

Definition profileToConfig (now : Time) (d : Disk) (profile : profileFile) (certPEM : chars)
    : result ImportedProfile :=
  let version := if pr_Version profile =? 0 then 1 else pr_Version profile in
  let t := pr_TLS profile in
  _ ← guard_err (negb (version =? 1)) ("unsupported profile version: " +:+ Itoa version);
  _ ← wrap_err "server_addr is invalid" (splitHostPort (pr_ServerAddr profile));
  _ ← guard_err (blank (pr_Username profile)) "username is required";
  expiresAt ← credentialExpiry now (pr_SavedCredential profile);
  _ ← guard_err (pt_InsecureSkipVerify t) "mobile profile cannot use tls.insecure_skip_verify";
  let minVersion := if blank (pt_MinVersion t) then "1.3" else TrimSpace (pt_MinVersion t) in
  _ ← guard_err (negb (tls13 minVersion)) "mobile profile requires tls.min_version 1.3";
  _ ← wrap_err "server certificate is not valid PEM" (readFirstCert certPEM);
  forwards ← importForwards (pr_Forwards profile);
  let cfg := ApplyDefaults Hostname (importedConfig profile forwards) in
  _ ← ValidateConfig d cfg;
  Ok (mkImported cfg certPEM expiresAt (TrimSpace (pr_ProfileID profile))).
End Profiles.

(** ** Archives *)

(** A member of an archive: opening it, and what reading at most so many bytes
    of it gives. *)
Record zipEntry := mkZipEntry {
  ze_Name : string;
  ze_IsDir : bool;
  ze_Open : result (Z → result chars)
}.

(** [archive/zip] over a file: [zip_file] is what the writer has put there. *)
Class Zip := {
  zipWriter : Type;
  zip_NewWriter : zipWriter;
  zip_CreateHeader : zipWriter → string → Time → zipWriter * result unit;
  zip_Write : zipWriter → chars → zipWriter * result unit;
  zip_Close : zipWriter → zipWriter * result unit;
  zip_file : zipWriter → chars;
  zip_NewReader : chars → result (list zipEntry)
}.

Definition normalizedZipEntryName (name : string) : string :=
  let l := to_chars (ReplaceAll name "\" "/") in
  match chars_last_index slash l with
  | Some idx => of_chars (drop (S idx) l)
  | None => of_chars l
  end.

Definition zipEntryLimit : Z := Z.shiftl 8 20.

Definition readZipEntryBytes (f : zipEntry) : result chars :=
  read ← wrap_err ("open zip entry " +:+ ze_Name f) (ze_Open f);
  wrap_err ("read zip entry " +:+ ze_Name f) (read zipEntryLimit).

(** One round of the loop over the members; the last member of a name counts. *)
Definition readEntry (found : chars * chars) (f : zipEntry) : result (chars * chars) :=
  let name := normalizedZipEntryName (ze_Name f) in
  if ze_IsDir f || negb (bool_decide (name ∈ [profileJSONEntry; serverCertEntry])) then Ok found
  else
    data ← readZipEntryBytes f;
    Ok (if String.eqb name profileJSONEntry then (data, found.2) else (found.1, data)).

Section Archives.
Context `{Zip}.

Definition readProfileZip (data : chars) : result (chars * chars) :=
  files ← wrap_err "open .lsylprofile" (zip_NewReader data);
  '(profileJSON, certPEM) ← fold_err readEntry ([], []) files;
  _ ← guard_err (length profileJSON =? 0)%nat "profile package is missing profile.json";
  _ ← guard_err (length certPEM =? 0)%nat "profile package is missing server.crt";
  Ok (profileJSON, certPEM).

Definition writeZipFile (w : zipWriter) (name : string) (data : chars) (now : Time) : zipWriter * result unit :=
  match zip_CreateHeader w name now with
  | (w, Err e) => (w, Err e)
  | (w, Ok _) => zip_Write w data
  end.

(** [now] and [now'] are the modification times of the members. *)
Definition writeZipTo (profileJSON certPEM : chars) (now now' : Time) : zipWriter * result unit :=
  match writeZipFile zip_NewWriter "profile.json" profileJSON now with
  | (w, Err e) => ((zip_Close w).1, Err e)
  | (w, Ok _) =>
      match writeZipFile w "server.crt" certPEM now' with
      | (w, Err e) => ((zip_Close w).1, Err e)
      | (w, Ok _) => zip_Close w
      end
  end.
End Archives.

Example entry_names :
  map normalizedZipEntryName ["profile.json"; "a/b/server.crt"; "..\server.crt"; "dir/"]
  = ["profile.json"; "server.crt"; "server.crt"; ""].
Proof. reflexivity. Qed.

(** ** Files *)

Inductive statResult := StatNotExist | StatFails (e : string) | StatInfo (dir : bool).

Record Result `{ZonedTime} := mkResult {
  re_Path : string;
  re_FileName : string;
  re_ExpiresAt : Time * Zone
}.
Arguments mkResult {_} _ _ _.

Section Files.
Context `{X509} `{PEM} `{CertificateIPs} `{ZonedTime} `{Zip} `{YAMLTree} `{StrictYAML Config} `{JSONCodec profileFile}.
Variable Hostname : result string.
Variable parseTimeErr : string → string.
(** The names of the members of a JSON object. *)
Variable json_keys : chars → result (gset string).
(** [filepath.Abs]; which paths are directories; which calls fail. *)
Variable Abs : string → result string.
Variable isDir : string → bool.
Variable statErr : string → option string.
Variable renameErr : nat → string → string → option string.
Variable removeErr : nat → string → option string.
Variable closeErr : nat → string → option string.
(** The name [os.CreateTemp] picks in a directory for a pattern. *)
Variable tempName : fsys → string → string → result string.

Definition Stat (d : Disk) (path : string) : statResult :=
  match statErr path with
  | Some e => StatFails e
  | None => if isDir path then StatInfo true else if fileExists d path then StatInfo false else StatNotExist
  end.

Definition requireFile (d : Disk) (path : string) : result unit :=
  match Stat d path with
  | StatNotExist => Err ("stat " +:+ path +:+ ": no such file or directory")
  | StatFails e => Err e
  | StatInfo dir => guard_err dir "is a directory"
  end.

Definition fill (s : fsys) (path : string) (data : chars) : fsys :=
  mkFsys (set_file (fs_disk s) (Clean path) (Some (of_chars data))) (S (fs_calls s)).

(** What is done with the temporary file once it is there. *)
Definition finishZip (target tmpName : string) (force : bool) (written : result unit) (s : fsys) : fsys * result unit :=
  match written with
  | Err e => (s, Err e)
  | Ok _ =>
      match closeErr (fs_calls s) tmpName with
      | Some e => (s, Err e)
      | None =>
          let s := if force then (Remove removeErr s target).1 else s in
          Rename renameErr s tmpName target
      end
  end.

(** [writeZip] once it may write. *)
Definition createZip (target : string) (profileJSON certPEM : chars) (force : bool) (now now' : Time) (s : fsys)
    : fsys * result unit :=
  match MkdirAll (fs_disk s) (Dir target) with
  | Err e => (s, Err e)
  | Ok _ =>
      match tempName s (Dir target) (Base target +:+ ".tmp-*") with
      | Err e => (s, Err e)
      | Ok tmpName =>
          let '(w, written) := writeZipTo profileJSON certPEM now now' in
          let '(s, r) := finishZip target tmpName force written (fill s tmpName (zip_file w)) in
          ((Remove removeErr s tmpName).1, r)
      end
  end.

Definition writeZip (target : string) (profileJSON certPEM : chars) (force : bool) (now now' : Time) (s : fsys)
    : fsys * result unit :=
  match Stat (fs_disk s) target with
  | StatInfo _ =>
      if negb force then (s, Err ("output already exists: " +:+ target))
      else createZip target profileJSON certPEM force now now' s
  | StatFails e => (s, Err e)
  | StatNotExist => createZip target profileJSON certPEM force now now' s
  end.

(** [LoadConfig] of the package. *)
Definition loadProfileConfig (d : Disk) (path : string) : result Config :=
  wrap_err "read client config" (LoadConfigRaw Hostname d path).

(** What [Export] writes and answers, before it writes. *)
Definition prepareExport (configFile certFile target : string) (now : Time) (d : Disk)
    : result (chars * chars * Result) :=
  _ ← wrap_err "invalid client config" (requireFile d configFile);
  _ ← wrap_err "invalid server certificate" (requireFile d certFile);
  cfg ← loadProfileConfig d configFile;
  certPEM ← wrap_err "read server certificate" (read_file d certFile);
  _ ← wrap_err "server certificate is not valid PEM" (readFirstCert (to_chars certPEM));
  '(profile, expiresAt) ← ProfileFromConfig Hostname parseTimeErr now cfg;
  body ← marshal profile;
  targetAbs ← Abs target;
  Ok (body, to_chars certPEM, mkResult targetAbs (Base targetAbs) expiresAt).

(** [now] is the clock of the check of the credential. *)
Definition Export (configFile certFile target : string) (force : bool) (now now' now'' : Time) (s : fsys)
    : fsys * result Result :=
  match prepareExport configFile certFile target now (fs_disk s) with
  | Err e => (s, Err e)
  | Ok (body, certPEM, r) =>
      match writeZip (re_Path r) body certPEM force now' now'' s with
      | (s, Err e) => (s, Err e)
      | (s, Ok _) => (s, Ok r)
      end
  end.

Definition rejectSecretProfileFields (profileJSON : chars) : result unit :=
  raw ← wrap_err "parse profile.json" (json_keys profileJSON);
  each (λ key, guard_err (bool_decide (key ∈ raw)) ("mobile profile must not contain " +:+ key))
    ["password"; "password_env"; "password_file"].

Definition ImportBytes (now : Time) (d : Disk) (data : chars) : result ImportedProfile :=
  '(profileJSON, certPEM) ← readProfileZip data;
  _ ← rejectSecretProfileFields profileJSON;
  profile ← wrap_err "parse profile.json" (unmarshal profileJSON zeroProfile);
  profileToConfig Hostname parseTimeErr now d profile certPEM.

Definition ImportFile (now : Time) (d : Disk) (path : string) : result ImportedProfile :=
  _ ← wrap_err "invalid profile file" (requireFile d path);
  data ← wrap_err "read profile file" (read_file d path);
  ImportBytes now d (to_chars data).
End Files.

(** ** Hosts *)

Lemma has_char_take c n l : has_char c l = false → has_char c (take n l) = false.
Proof. rewrite !has_char_false. by apply Forall_take. Qed.
Lemma has_char_drop c n l : has_char c l = false → has_char c (drop n l) = false.
Proof. rewrite !has_char_false. by apply Forall_drop. Qed.

Lemma chars_index_before c l e : chars_index c l = Some e → has_char c (take e l) = false.
Proof.
  revert e. induction l as [|x l IH]; intros e; [done|]. cbn [chars_index].
  destruct (Ascii.eqb_spec x c) as [->|Hne]; [by intros [= <-]|].
  destruct (chars_index c l) as [i|]; [|done]. intros [= <-]. cbn [take has_char existsb]. apply orb_false_iff.
  split; [by apply Ascii.eqb_neq, not_eq_sym|by apply IH].
Qed.

Definition no_brackets (s : string) : Prop :=
  has_char lbracket (to_chars s) = false ∧ has_char rbracket (to_chars s) = false.

Lemma SplitHostPort_no_brackets s host port : SplitHostPort s = Ok (host, port) → no_brackets host.
Proof.
  unfold SplitHostPort, no_brackets, addrErr. destruct (chars_last_index colon (to_chars s)) as [i|]; [|done].
  destruct (to_chars s) as [|c t] eqn:E; [done|]. rewrite <-E. destruct (Ascii.eqb c lbracket).
  - destruct (chars_index rbracket (to_chars s)) as [e|] eqn:Ei; [|done]. apply chars_index_before in Ei.
    destruct (S e =? _)%nat; [done|]. destruct (S e =? i)%nat.
    2: { destruct (to_chars s !! S e) as [x|]; [|done]. by destruct (Ascii.eqb x colon). }
    destruct (has_char lbracket (drop 1 (to_chars s))) eqn:El; [done|]. destruct (has_char rbracket (drop (S e) _)); [done|].
    intros [= <- _]. rewrite to_of_chars. split; [|by apply has_char_drop].
    replace (drop 1 (take e (to_chars s))) with (take (e - 1) (drop 1 (to_chars s))); [by apply has_char_take|].
    destruct e as [|e]; [done|]. cbn. by rewrite Nat.sub_0_r, E.
  - destruct (has_char colon _); [done|]. rewrite !drop_0.
    destruct (has_char lbracket (to_chars s)) eqn:El; [done|]. destruct (has_char rbracket (to_chars s)) eqn:Er; [done|].
    intros [= <- _]. rewrite to_of_chars. split; by apply has_char_take.
Qed.

Lemma drop_in_none cut l : Forall (λ c, existsb (Ascii.eqb c) cut = false) l → drop_in cut l = l.
Proof. destruct 1 as [|c l Hc _]; [done|by apply drop_in_head]. Qed.

Lemma Trim_no_brackets s : no_brackets s → Trim s "[]" = s.
Proof.
  intros [Hl Hr]. apply has_char_false in Hl, Hr.
  assert (Forall (λ c, existsb (Ascii.eqb c) (to_chars "[]") = false) (to_chars s)) as Hs.
  { rewrite Forall_forall in Hl, Hr. apply Forall_forall. intros c Hc. cbn. rewrite !orb_false_iff, !Ascii.eqb_neq.
    repeat split; intros ->; [by apply Hl in Hc|by apply Hr in Hc]. }
  unfold Trim. rewrite (drop_in_none _ (to_chars s)) by done. rewrite drop_in_none by (by apply Forall_reverse).
  by rewrite reverse_involutive, of_to_chars.
Qed.

(** Trimming white space loses no other character. *)
Lemma chars_prefix_take p l : chars_prefix p l = true → take (length p) l = p.
Proof.
  revert l. induction p as [|a p IH]; intros [|b l]; cbn; try done.
  intros [E%Ascii.eqb_eq Hp]%andb_true_iff. subst. by rewrite IH.
Qed.

Definition high_bytes (tbl : list chars) : bool := forallb (forallb (λ d, 128 <=? code d)) tbl.

Lemma space_width_not_plain tbl c l :
  high_bytes tbl = true → plain_char c = true → has_char c (take (space_width tbl l) l) = false.
Proof.
  intros Ht Hc. unfold plain_char in Hc. apply andb_true_iff in Hc as [Hs%negb_true_iff Hc].
  destruct l as [|x l]; [done|]. cbn [space_width]. destruct (ascii_space x) eqn:Ex.
  { cbn. rewrite orb_false_r. apply Ascii.eqb_neq. intros ->. congruence. }
  destruct (List.find _ tbl) as [p|] eqn:E; [|done]. apply List.find_some in E as [Hin Hp].
  rewrite chars_prefix_take by done. apply has_char_false, Forall_forall. intros d Hd ->.
  unfold high_bytes in Ht. rewrite forallb_forall in Ht. specialize (Ht p Hin). rewrite forallb_forall in Ht.
  specialize (Ht d). apply list_elem_of_In in Hd. apply Ht in Hd. bool_lia.
Qed.

Lemma trim_front_keeps tbl fuel c l :
  high_bytes tbl = true → plain_char c = true → has_char c (trim_front tbl fuel l) = has_char c l.
Proof.
  intros Ht Hc. revert l. induction fuel as [|fuel IH]; intros l; [done|]. cbn [trim_front].
  pose proof (space_width_not_plain tbl c l Ht Hc) as Hw. destruct (space_width tbl l) as [|n]; [done|].
  rewrite IH. rewrite <-(take_drop (S n) l) at 2. by rewrite has_char_app, Hw.
Qed.

Lemma TrimSpace_keeps c s : plain_char c = true → has_char c (to_chars (TrimSpace s)) = has_char c (to_chars s).
Proof.
  intros Hc. unfold TrimSpace, trim_left, trim_right. rewrite to_of_chars, has_char_reverse.
  rewrite trim_front_keeps, has_char_reverse by done. by apply trim_front_keeps.
Qed.

(** An address contains a dot or a colon. *)
Lemma parse_addr_kind_char whole l a :
  parse_addr_kind whole l = Some a → has_char dot l = true ∨ has_char colon l = true.
Proof.
  induction l as [|c l IH]; [done|]. cbn [parse_addr_kind]. rewrite !has_char_cons, (Ascii.eqb_sym dot), (Ascii.eqb_sym colon).
  destruct (Ascii.eqb c dot); [by left|]. destruct (Ascii.eqb c colon); [by right|].
  by destruct (Ascii.eqb c percent).
Qed.

Lemma target_host_named host : IsForwardTargetHost host = true → TrimSpace host ≠ "".
Proof.
  intros Hh E. assert (has_char dot (to_chars host) = true ∨ has_char colon (to_chars host) = true) as Hc.
  { unfold IsForwardTargetHost in Hh. destruct (String.eqb_spec host LoopbackIPv4) as [Eh|]; [rewrite Eh; by left|].
    unfold ParseIP, ParseAddr in Hh. destruct (parse_addr_kind _ _) as [a|] eqn:Ep; [|done].
    by eapply parse_addr_kind_char. }
  rewrite <-!(TrimSpace_keeps _ host), E in Hc by done. by destruct Hc.
Qed.

Lemma splitHostPort_ok value host port :
  splitHostPort value = Ok (host, port) →
  ∃ portText, SplitHostPort (TrimSpace value) = Ok (host, portText) ∧ CheckLoopbackHost host = Ok tt ∧
    no_brackets host ∧ Atoi portText = Some port ∧ 0 < port ≤ 65535.
Proof.
  unfold splitHostPort. destruct (SplitHostPort (TrimSpace value)) as [[h t]|] eqn:E; [|done]. cbn.
  pose proof (SplitHostPort_no_brackets _ _ _ E) as Hb.
  destruct (CheckLoopbackHost h) as [[]|] eqn:El; [|done]. cbn. destruct (Atoi t) as [p|] eqn:Ea; [|done].
  destruct ((p <=? 0) || (65535 <? p)) eqn:Ep; [done|]. rewrite Trim_no_brackets by done. intros [= <- <-].
  exists t. split_and!; try done; bool_lia.
Qed.

Lemma splitHostPort_trim value : splitHostPort (TrimSpace value) = splitHostPort value.
Proof. unfold splitHostPort. by rewrite TrimSpace_idemp. Qed.

Lemma splitHostPort_nonblank value r : splitHostPort value = Ok r → blank value = false.
Proof.
  unfold splitHostPort, blank. destruct (String.eqb_spec (TrimSpace value) "") as [->|]; [|done]. done.
Qed.

Lemma endpoint_checked value host port : splitHostPort value = Ok (host, port) → CheckLoopbackEndpoint value = Ok tt.
Proof. intros (t & E & Hl & _)%splitHostPort_ok. unfold CheckLoopbackEndpoint. by rewrite E. Qed.

Lemma mobile_listen port :
  0 < port ≤ 65535 → TrimSpace (mobileListen port) = mobileListen port ∧
  SplitHostPort (mobileListen port) = Ok ("127.0.0.1", Itoa port) ∧ splitHostPort (mobileListen port) = Ok ("127.0.0.1", port).
Proof.
  intros Hp. assert (TrimSpace (mobileListen port) = mobileListen port) as Et.
  { apply TrimSpace_plain. change (mobileListen port) with ("127.0.0.1:" +:+ Itoa port). rewrite to_chars_app.
    apply Forall_app. split; [repeat constructor|]. by apply digits_plain, Itoa_digits; lia. }
  assert (SplitHostPort (mobileListen port) = Ok ("127.0.0.1", Itoa port)) as Es.
  { apply SplitHostPort_JoinHostPort; [lia|done..]. }
  split_and!; [done|done|]. unfold splitHostPort. rewrite Et, Es. cbn -[Trim Atoi].
  rewrite Atoi_Itoa by (unfold max_i64; lia). destruct (Z.leb_spec port 0), (Z.ltb_spec 65535 port); try lia. done.
Qed.

(** ** File names *)

Lemma high_safe c : 128 <= code c → unsafe_char c = false.
Proof.
  intros Hc. unfold unsafe_char. apply orb_false_iff. split; [bool_lia|]. apply has_char_false.
  rewrite Forall_forall. intros d Hd ->. unfold reserved_chars in Hd.
  repeat (apply elem_of_cons in Hd as [->|Hd]; [vm_compute in Hc; by destruct Hc|]). by apply not_elem_of_nil in Hd.
Qed.

Lemma in_range_spec lo hi c : in_range lo hi c = true ↔ lo <= code c <= hi.
Proof. unfold in_range. rewrite andb_true_iff, !Z.leb_le. done. Qed.

Lemma continues_high lo hi n l :
  0x80 <= lo → continues lo hi n l = true → Forall (λ c, 128 <= code c) (take (S n) l).
Proof.
  intros Hlo. destruct l as [|c l]; [done|]. cbn [continues take]. intros [[Hc _]%andb_true_iff Hn]%andb_true_iff.
  apply in_range_spec in Hc. constructor; [lia|]. rewrite forallb_forall in Hn.
  apply Forall_forall. intros x Hx%list_elem_of_In. apply Hn, in_range_spec in Hx. lia.
Qed.

Lemma rune_width_high c t n : rune_width (c :: t) = Some (S n) → Forall (λ c, 128 <= code c) (take n t).
Proof.
  unfold rune_width. destruct (in_range 0 0x7F c); [by intros [= <-]|].
  repeat match goal with
  | |- context [if in_range ?lo ?hi c then _ else _] => destruct (in_range lo hi c)
  | |- (if continues ?lo ?hi ?k t then _ else _) = _ → _ =>
      destruct (continues lo hi k t) eqn:E; [intros [= <-]; by apply (continues_high lo hi k)|done]
  end. done.
Qed.

Lemma sanitize_loop_safe lastDash skip l :
  Forall (λ c, 128 <= code c) (take skip l) → Forall (λ c, unsafe_char c = false) (sanitize_loop lastDash skip l).
Proof.
  revert lastDash skip. induction l as [|c l IH]; intros lastDash skip Hs; [constructor|]. cbn [sanitize_loop].
  destruct skip as [|skip].
  - destruct (unsafe_char c) eqn:Eu.
    + destruct lastDash; [by apply IH|]. constructor; [done|by apply IH].
    + destruct (rune_width (c :: l)) as [[|n]|] eqn:Er.
      2: { constructor; [done|]. by apply IH, (rune_width_high c). }
      all: apply Forall_app; split; [repeat (constructor; [reflexivity|]); constructor|by apply IH].
  - cbn [take] in Hs. apply Forall_cons in Hs as [Hc Hs]. constructor; [by apply high_safe|by apply IH].
Qed.

Definition trimmed_char (c : Ascii.ascii) : bool := existsb (Ascii.eqb c) (to_chars " .-").

(** A name whose first and last characters are not trimmed. *)
Definition firm_ends (s : string) : Prop :=
  (∀ c l, to_chars s = c :: l → trimmed_char c = false) ∧ (∀ c l, to_chars s = l ++ [c] → trimmed_char c = false).

Lemma drop_in_spec cut l :
  (∃ p, l = p ++ drop_in cut l) ∧ ∀ c t, drop_in cut l = c :: t → existsb (Ascii.eqb c) cut = false.
Proof.
  induction l as [|c l [[p IH] IHh]]; cbn [drop_in]; [split; [by exists []|done]|].
  destruct (existsb (Ascii.eqb c) cut) eqn:E.
  - split; [exists (c :: p); cbn; by rewrite <-IH|done].
  - split; [by exists []|]. by intros ? ? [= <- <-].
Qed.

Lemma Trim_spec s :
  (∃ p q, to_chars s = p ++ to_chars (Trim s " .-") ++ q) ∧ firm_ends (Trim s " .-").
Proof.
  unfold Trim. rewrite to_of_chars. set (cut := to_chars " .-").
  destruct (drop_in_spec cut (to_chars s)) as [[p Hp] Hh]. set (a := drop_in cut (to_chars s)) in *.
  destruct (drop_in_spec cut (reverse a)) as [[q Hq] Hl]. set (b := drop_in cut (reverse a)) in *.
  assert (a = reverse b ++ reverse q) as Ea by (by rewrite <-reverse_app, <-Hq, reverse_involutive).
  split; [exists p, (reverse q); congruence|]. split; rewrite to_of_chars.
  - intros c l E. rewrite E in Ea. by eapply Hh.
  - intros c l E. apply (f_equal reverse) in E. rewrite reverse_involutive, reverse_snoc in E. by eapply Hl.
Qed.

Definition safe_name (s : string) : Prop :=
  s ≠ "" ∧ Forall (λ c, unsafe_char c = false) (to_chars s) ∧ firm_ends s.

Lemma client_name_safe : safe_name "client".
Proof.
  split_and!; [done|repeat (constructor; [reflexivity|]); constructor|]. split; [by intros c l [= <- _]|].
  intros c l E. apply (f_equal last) in E. rewrite last_snoc in E. by injection E as <-.
Qed.

Definition ascii_char (c : Ascii.ascii) : bool := code c <=? 127.

Lemma sanitize_loop_ascii lastDash l :
  Forall (λ c, unsafe_char c = false ∧ ascii_char c = true) l → sanitize_loop lastDash 0 l = l.
Proof.
  intros H. revert lastDash. induction H as [|c l [Hc Ha] _ IH]; intros lastDash; [done|]. cbn [sanitize_loop].
  rewrite Hc. unfold rune_width. assert (in_range 0 0x7F c = true) as ->; [|by rewrite IH].
  apply in_range_spec. unfold ascii_char, code in *. bool_lia.
Qed.

Lemma firm_plain c : unsafe_char c = false → ascii_char c = true → trimmed_char c = false → plain_char c = true.
Proof.
  unfold unsafe_char, ascii_char, trimmed_char, plain_char, ascii_space. intros [Hu _]%orb_false_iff Ha Ht.
  apply andb_true_iff. split; [|bool_lia]. apply negb_true_iff. apply Z.ltb_ge in Hu.
  assert (code c ≠ 32).
  { intros E. apply (f_equal of_code) in E. rewrite of_code_code in E. rewrite E in Ht. discriminate. }
  apply orb_false_iff. split; [|bool_lia]. destruct (Z.leb_spec (code c) 13); [lia|]. apply andb_false_r.
Qed.

Lemma TrimSpace_firm s :
  Forall (λ c, unsafe_char c = false ∧ ascii_char c = true) (to_chars s) → firm_ends s → TrimSpace s = s.
Proof.
  intros Hs [Hh Hl]. rewrite Forall_forall in Hs.
  assert (∀ c, c ∈ to_chars s → trimmed_char c = false → plain_char c = true) as Hp.
  { intros c Hc Ht. destruct (Hs c Hc). by apply firm_plain. }
  unfold TrimSpace, trim_left, trim_right. rewrite (trim_front_plain utf8_spaces); [|reflexivity|].
  - rewrite trim_front_plain; [by rewrite reverse_involutive, of_to_chars|reflexivity|].
    destruct (reverse (to_chars s)) as [|c l] eqn:E; [done|]. apply (f_equal reverse) in E.
    rewrite reverse_involutive, reverse_cons in E. apply Hp; [|by eapply Hl]. rewrite E. apply elem_of_app. right. left.
  - destruct (to_chars s) as [|c l] eqn:E; [done|]. apply Hp; [left|by eapply Hh].
Qed.

(** A part of a file name made from any text can be used as one: it is not
    empty, has no control character and none of the characters that separate
    directories or that Windows forbids, and does not begin or end in a space, a
    dot or a dash. A text that is all that already, of ASCII characters, is kept. *)
Theorem file_part_safe value :
  safe_name (sanitizeFilePart value) ∧
  (safe_name value → Forall (λ c, ascii_char c = true) (to_chars value) → sanitizeFilePart value = value).
Proof.
  split.
  - unfold sanitizeFilePart. destruct (String.eqb _ ""); [apply client_name_safe|].
    set (s := of_chars _). destruct (Trim_spec s) as [(p & q & E) Hf].
    destruct (String.eqb_spec (Trim s " .-") "") as [|Hne]; [apply client_name_safe|]. split_and!; [done| |done].
    assert (Forall (λ c, unsafe_char c = false) (to_chars s)) as Hs.
    { unfold s. rewrite to_of_chars. by apply sanitize_loop_safe. }
    rewrite E in Hs. by apply Forall_app in Hs as [_ [Hs _]%Forall_app].
  - intros (Hne & Hs & Hf) Ha. assert (Forall (λ c, unsafe_char c = false ∧ ascii_char c = true) (to_chars value)) as Hv.
    { rewrite Forall_forall in Hs, Ha. apply Forall_forall. auto. }
    unfold sanitizeFilePart. rewrite TrimSpace_firm by done. destruct (String.eqb_spec value ""); [done|].
    rewrite sanitize_loop_ascii, of_to_chars by done. assert (Trim value " .-" = value) as ->.
    { destruct (to_chars value) as [|c l] eqn:E; [by destruct value|]. destruct Hf as [Hh Hl].
      destruct (exists_last (l := c :: l)) as (q & e & Eq); [done|].
      apply (Trim_ends _ _ c l e q); [done|by rewrite E|by eapply Hh|eapply Hl; by rewrite E]. }
    by destruct (String.eqb_spec value "").
Qed.
