(* ===== verification/MobileRoundTrip.v ===== *)
(** * What a portable profile carries (src/client/mobileprofile)

    A profile that was exported can be imported until its credential expires and
    gives the forwards it was made from; whatever is imported is a configuration
    the client accepts, bound to 127.0.0.1 and without a password; an export
    touches no other file. *)

From S2P Require Import Prelude.
From S2P Require Import GoStd.
From S2P Require Import Netaddr.
From S2P Require Import Disk.
From S2P Require Import GoCrypto.
From S2P Require Import Protocol.
From S2P Require Import Credseal.
From S2P Require Import CertificateGate.
From S2P Require Import Yaml.
From S2P Require Import Version.
From S2P Require Import VirtualAddress.
From S2P Require Import ClientConfig.
From S2P Require Import LogReader.
From S2P Require Import ProfileSwitch.
From S2P Require Import MobileProfile.

#[local] Open Scope Z_scope.

(** ** Forwards *)

(** A forward the mobile client can serve. *)
Definition mobile_forward (f : ForwardConfig) : Prop :=
  fd_Name f ≠ "" ∧ fd_Direction f = DirectionClientToServer ∧
  (∃ port, 1024 <= port <= 65535 ∧ fd_ListenAddr f = mobileListen port) ∧
  ∃ host port, splitHostPort (fd_ServerTarget f) = Ok (host, port) ∧ IsForwardTargetHost host = true.

(** What a forward becomes on the way through a profile. *)
Definition mobileForward (f : ForwardConfig) : ForwardConfig :=
  let listen := mobileListen (match splitHostPort (fd_ListenAddr f) with Ok (_, port) => port | Err _ => 0 end) in
  mkForward (nameOr (fd_Name f) listen) DirectionClientToServer listen (TrimSpace (fd_ServerTarget f)).

Definition restored (m : forwardConfig) : ForwardConfig :=
  mkForward (pw_Name m) (pw_Direction m) (pw_ListenAddr m) (pw_ServerTarget m).

Lemma nameOr_spec name port :
  0 < port <= 65535 → nameOr name (mobileListen port) ≠ "" ∧
  nameOr (nameOr name (mobileListen port)) (mobileListen port) = nameOr name (mobileListen port).
Proof.
  intros Hp. destruct (mobile_listen port Hp) as (Et & _ & _).
  assert (mobileListen port ≠ "") as Hne by done.
  unfold nameOr. destruct (blank name) eqn:E.
  - split; [done|]. unfold blank. rewrite Et. by destruct (String.eqb_spec (mobileListen port) "").
  - apply blank_false in E. split; [done|]. unfold blank. rewrite TrimSpace_idemp. by destruct (String.eqb_spec (TrimSpace name) "").
Qed.

(** A direction that is empty or says client to server. *)
Lemma direction_checked dir :
  String.eqb (if String.eqb (TrimSpace dir) "" then DirectionClientToServer else TrimSpace dir) DirectionClientToServer = true →
  TrimSpace dir ∈ [""; DirectionClientToServer].
Proof.
  destruct (String.eqb_spec (TrimSpace dir) "") as [->|_]; [by left|]. intros E%String.eqb_eq. rewrite E. right. left.
Qed.

Lemma forwardFromConfig_ok f m :
  forwardFromConfig f = Ok m → restored m = mobileForward f ∧ mobile_forward (restored m).
Proof.
  unfold forwardFromConfig. destruct (String.eqb _ DirectionClientToServer); [|done]. cbn [negb].
  intros ([host port] & El & E)%bind_ok. unfold mobileForward.
  destruct (splitHostPort (fd_ListenAddr f)) as [[h p]|] eqn:Es; [|done]. injection El as -> ->.
  apply seq_ok in E as [Eh%guard_err_ok E]. apply seq_ok in E as [Ep%guard_err_ok E]. apply Z.ltb_ge in Ep.
  apply bind_ok in E as ([th tp] & Et & E). apply seq_ok in E as [Eg%guard_err_ok E]. injection E as <-.
  split; [done|]. apply splitHostPort_ok in Es as (_ & _ & _ & _ & _ & Hp).
  assert (0 < port <= 65535) as Hp' by lia. unfold mobile_forward, restored. cbn.
  split; [by apply nameOr_spec|]. split; [done|]. split; [exists port; split; [lia|done]|].
  exists th, tp. rewrite splitHostPort_trim. destruct (splitHostPort (fd_ServerTarget f)) as [x|]; [|done].
  split; [exact Et|]. by destruct (IsForwardTargetHost th).
Qed.

Lemma import_exported f m : forwardFromConfig f = Ok m → configForwardFromProfile m = Ok (restored m).
Proof.
  intros Hm. pose proof (forwardFromConfig_ok f m Hm) as [Er Hok].
  destruct Hok as (_ & Hd & (port & Hp & Hl) & th & tp & Ht & _). cbn in Hd, Hl, Ht.
  destruct (mobile_listen port ltac:(lia)) as (_ & _ & Es).
  assert (pw_Name m = nameOr (fd_Name f) (mobileListen port)) as Hn.
  { unfold mobileForward in Er. injection Er as En _ El _. rewrite En, <-El, <-Hl. done. }
  assert (pw_ServerTarget m = TrimSpace (fd_ServerTarget f)) as Hst by (by injection Er).
  unfold configForwardFromProfile. rewrite Hd, Hl, Es, Ht. cbn [wrap_err mbind result_bind].
  change (negb (String.eqb (normalizeProfileHost "127.0.0.1") "127.0.0.1")) with false. cbn [guard_err mbind result_bind].
  destruct (Z.ltb_spec port 1024); [lia|]. cbn [guard_err mbind result_bind]. rewrite Hn, (proj2 (nameOr_spec _ port ltac:(lia))).
  unfold restored. by rewrite Hd, Hl, Hn, Hst, TrimSpace_idemp.
Qed.

Lemma configForwardFromProfile_ok g f :
  configForwardFromProfile g = Ok f →
  fd_Name f ≠ "" ∧ fd_Direction f = DirectionClientToServer ∧
  (∃ port, 1024 <= port <= 65535 ∧ fd_ListenAddr f = mobileListen port) ∧
  ∃ host port, splitHostPort (fd_ServerTarget f) = Ok (host, port).
Proof.
  unfold configForwardFromProfile. destruct (String.eqb _ DirectionClientToServer); [|done]. cbn [negb].
  intros ([host port] & El & E)%bind_ok. destruct (splitHostPort (pw_ListenAddr g)) as [[h p]|] eqn:Es; [|done].
  injection El as -> ->. apply seq_ok in E as [_ E]. apply seq_ok in E as [Ep%guard_err_ok E]. apply Z.ltb_ge in Ep.
  apply bind_ok in E as ([th tp] & Et & E). injection E as <-.
  apply splitHostPort_ok in Es as (_ & _ & _ & _ & _ & Hp). cbn.
  split; [apply nameOr_spec; lia|]. split; [done|]. split; [exists port; split; [lia|done]|].
  exists th, tp. rewrite splitHostPort_trim. destruct (splitHostPort (pw_ServerTarget g)) as [x|]; [|done]. by injection Et as ->.
Qed.

(** ** The loop *)

Section Loop.
Context {A B : Type} (convert : A → result B) (name listen : B → string).

Lemma forwards_loop_ok names listens l out :
  forwards_loop convert name listen names listens l = Ok out →
  Forall2 (λ a b, convert a = Ok b) l out ∧ NoDup (map name out) ∧ NoDup (map listen out) ∧
  ∀ b, b ∈ out → (name b ∉ names) ∧ (listen b ∉ listens).
Proof.
  revert names listens out. induction l as [|a l IH]; intros names listens out; cbn [forwards_loop].
  { intros [= <-]. split_and!; [constructor..|]. by intros b Hb%not_elem_of_nil. }
  intros (b & Eb & E)%bind_ok. apply seq_ok in E as [Hn%guard_err_ok E]. apply seq_ok in E as [Hl%guard_err_ok E].
  apply bind_ok in E as (bs & (Hall & Hn' & Hl' & Hf)%IH & E). injection E as <-.
  apply bool_decide_eq_false in Hn, Hl. cbn [map]. rewrite !NoDup_cons.
  split_and!; [by constructor| |done| |done|].
  - intros (c & Ec & Hc)%list_elem_of_fmap. destruct (Hf c Hc) as [Hx _]. set_solver.
  - intros (c & Ec & Hc)%list_elem_of_fmap. destruct (Hf c Hc) as [_ Hx]. set_solver.
  - intros c [->|Hc]%elem_of_cons; [done|]. destruct (Hf c Hc). set_solver.
Qed.

Lemma forwards_loop_complete names listens l out :
  Forall2 (λ a b, convert a = Ok b) l out → NoDup (map name out) → NoDup (map listen out) →
  (∀ b, b ∈ out → (name b ∉ names) ∧ (listen b ∉ listens)) →
  forwards_loop convert name listen names listens l = Ok out.
Proof.
  intros H. revert names listens. induction H as [|a b l out Hab _ IH]; intros names listens; [done|].
  cbn [map forwards_loop]. rewrite !NoDup_cons. intros [Hn Hn'] [Hl Hl'] Hf. rewrite Hab. cbn [mbind result_bind].
  destruct (Hf b ltac:(left)) as [H1 H2]. rewrite !bool_decide_false by done. cbn [guard_err mbind result_bind].
  rewrite IH; [done..|]. intros c Hc. destruct (Hf c ltac:(by right)) as [H3 H4].
  rewrite !not_elem_of_union, !not_elem_of_singleton. split_and!; try done; intros E.
  - apply Hn. rewrite <-E. by apply list_elem_of_fmap_2.
  - apply Hl. rewrite <-E. by apply list_elem_of_fmap_2.
Qed.

Lemma collect_forwards_ok l out :
  collect_forwards convert name listen l = Ok out ↔
  Forall2 (λ a b, convert a = Ok b) l out ∧ NoDup (map name out) ∧ NoDup (map listen out) ∧ out ≠ [].
Proof.
  unfold collect_forwards. split.
  - intros (bs & (Hall & Hn & Hl & _)%forwards_loop_ok & E)%bind_ok. apply seq_ok in E as [Hne%guard_err_ok E].
    injection E as ->. split_and!; try done. by intros ->.
  - intros (Hall & Hn & Hl & Hne). rewrite (forwards_loop_complete _ _ l out) by (done || set_solver).
    cbn. by destruct out.
Qed.
End Loop.

Lemma exportForwards_ok fwds ms :
  exportForwards fwds = Ok ms →
  map restored ms = map mobileForward fwds ∧ importForwards ms = Ok (map restored ms) ∧
  Forall mobile_forward (map restored ms) ∧ NoDup (map fd_Name (map restored ms)) ∧ ms ≠ [].
Proof.
  intros (Hall & Hn & Hl & Hne)%collect_forwards_ok. split_and!; [| | | |done].
  - clear -Hall. induction Hall as [|f m fs ms Hm _ IH]; [done|]. cbn. rewrite IH. f_equal.
    by apply forwardFromConfig_ok.
  - apply collect_forwards_ok. rewrite !map_map. cbn. split_and!; [|done|done|by destruct ms].
    clear -Hall. induction Hall as [|f m fs ms Hm _ IH]; [constructor|]. cbn. constructor; [|done]. by eapply import_exported.
  - clear -Hall. apply Forall_map. induction Hall as [|f m fs ms Hm _ IH]; constructor; [|done].
    by eapply forwardFromConfig_ok.
  - by rewrite map_map.
Qed.

(** ** The configuration a profile gives *)

(** Whoever imports it gets the name of their own machine. *)
Definition ownClientID (hostname : result string) : string :=
  match hostname with Ok h => if blank h then "" else TrimSpace h | Err _ => "" end.

Definition portable (hostname : result string) (cfg : Config) : Config :=
  mkClientConfig ClientConfigVersion (mkRequires ClientConfigRequiresClientVersion)
    (TrimSpace (cl_ServerAddr cfg)) "" (TrimSpace (cl_Username cfg)) "" "" "" (cl_SavedCredential cfg)
    (ownClientID hostname) "info" (mkTLS "server.crt" (TrimSpace (tl_ServerName (cl_TLS cfg))) "1.3" false)
    (mkConnection (positiveTimeout (cn_DialTimeoutSec (cl_Connection cfg)))) (map mobileForward (cl_Forwards cfg)).

Lemma positiveTimeout_pos c : (positiveTimeout c <=? 0) = false.
Proof. unfold positiveTimeout. destruct (Z.leb_spec c 0); [done|]. by apply Z.leb_gt. Qed.
Lemma positiveTimeout_idemp c : positiveTimeout (positiveTimeout c) = positiveTimeout c.
Proof. unfold positiveTimeout at 1. by rewrite positiveTimeout_pos. Qed.

(** The defaults leave forwards with a direction alone. *)
Lemma defaults_forwards fs :
  Forall (λ f, fd_Direction f = DirectionClientToServer) fs →
  map (λ f, let direction := TrimSpace (fd_Direction f) in
            mkForward (fd_Name f) (if String.eqb direction "" then DirectionClientToServer else direction)
              (fd_ListenAddr f) (fd_ServerTarget f)) fs = fs.
Proof. induction 1 as [|[n dir l t] fs Hf _ IH]; [done|]. cbn in *. rewrite IH. by subst. Qed.

Lemma importedConfig_defaults hostname profile forwards :
  Forall (λ f, fd_Direction f = DirectionClientToServer) forwards →
  let t := pr_TLS profile in
  ApplyDefaults hostname (importedConfig profile forwards) =
  mkClientConfig ClientConfigVersion (mkRequires ClientConfigRequiresClientVersion)
    (TrimSpace (pr_ServerAddr profile)) "" (TrimSpace (pr_Username profile)) "" "" "" (pr_SavedCredential profile)
    (ownClientID hostname) "info"
    (mkTLS (if blank (pt_CACertFile t) then serverCertEntry else TrimSpace (pt_CACertFile t))
       (TrimSpace (pt_ServerName t)) "1.3" false)
    (mkConnection (positiveTimeout (pn_DialTimeoutSec (pr_Connection profile)))) forwards.
Proof.
  intros Hf. cbv zeta. unfold ApplyDefaults, importedConfig. cbn -[positiveTimeout ClientConfigVersion].
  rewrite defaults_forwards, positiveTimeout_pos by done. f_equal. unfold ownClientID.
  destruct hostname as [h|]; [|done]. by destruct (blank h).
Qed.

(** ** It is valid *)

Section Valid.
Context `{PEM} `{CertificateIPs}.
Variable d : Disk.

Lemma default_version_valid cfg :
  cl_ConfigVersion cfg = ClientConfigVersion → cl_Requires cfg = mkRequires ClientConfigRequiresClientVersion →
  ValidateConfigVersion cfg = Ok tt.
Proof. intros Hv Hr. unfold ValidateConfigVersion. rewrite Hv, Hr. by vm_compute. Qed.

Lemma mobile_forward_loopback f : mobile_forward f →
  CheckLoopbackEndpoint (fd_ListenAddr f) = Ok tt ∧ CheckLoopbackEndpoint (fd_ServerTarget f) = Ok tt.
Proof.
  intros (_ & _ & (port & Hp & ->) & host & tport & Ht & _). destruct (mobile_listen port ltac:(lia)) as (_ & _ & Es).
  split; by eapply endpoint_checked.
Qed.

(** The checks of one forward, when its name is new. *)
Lemma mobile_forward_validated cfg v f :
  mobile_forward f → fd_Name f ∉ va_names v →
  validateForward d cfg v f =
  Ok (mkValidation ({[ fd_Name f ]} ∪ va_names v) (va_seenEndpoints v) (va_endpoints v) (va_resolver v)).
Proof.
  intros (Hn & Hd & (port & Hp & Hl) & host & tport & Ht & Hg) Hv. pose proof (splitHostPort_nonblank _ _ Ht) as Hb.
  apply splitHostPort_ok in Ht as (tt' & Es & _ & Hbr & Ea & Hr).
  destruct (mobile_listen port ltac:(lia)) as (Et & Esl & _).
  unfold validateForward, forwardName. destruct (String.eqb_spec (fd_Name f) ""); [done|]. cbn [negb].
  rewrite decide_False by done. rewrite Hd, bool_decide_true by (left; done). cbn [negb]. rewrite Hb, Es.
  assert (no_brackets (TrimSpace host)) as Hbr' by (destruct Hbr; split; by apply TrimSpace_no_char).
  rewrite Trim_no_brackets by done. pose proof (target_host_named host Hg).
  destruct (String.eqb_spec (TrimSpace host) ""); [done|].
  assert (port_from 1 tt' = true) as -> by (apply port_from_spec; exists tport; split; [done|lia]). cbn [negb]. rewrite Hg.
  change (String.eqb (TrimSpace DirectionClientToServer) DirectionServerToClient) with false.
  change (String.eqb (TrimSpace DirectionClientToServer) DirectionVirtual) with false. cbn [negb].
  unfold validateListenForward. rewrite Hl. unfold blank. rewrite Et.
  destruct (String.eqb_spec (mobileListen port) ""); [done|]. rewrite Esl.
  assert (port_from 0 (Itoa port) = true) as ->; [|done].
  apply port_from_spec. exists port. split; [apply Atoi_Itoa; unfold max_i64|]; lia.
Qed.

Lemma mobile_forwards_validated cfg fs v :
  Forall mobile_forward fs → NoDup (map fd_Name fs) → (∀ f, f ∈ fs → fd_Name f ∉ va_names v) →
  ∃ v', fold_err (validateForward d cfg) v fs = Ok v' ∧ va_endpoints v' = va_endpoints v.
Proof.
  intros H1. revert v. induction H1 as [|f fs Hf _ IH]; intros v Hn Hv; [by exists v|]. cbn [fold_err map] in *.
  apply NoDup_cons in Hn as [Hn Hn']. rewrite mobile_forward_validated; [|done|apply Hv; left].
  destruct (IH (mkValidation ({[ fd_Name f ]} ∪ va_names v) (va_seenEndpoints v) (va_endpoints v) (va_resolver v)) Hn')
    as (v' & Ef & Ev); [|by exists v'].
  intros g Hg. cbn. apply not_elem_of_union. split; [|apply Hv; by right].
  apply not_elem_of_singleton. intros E. apply Hn. rewrite <-E. by apply list_elem_of_fmap_2.
Qed.

Lemma portable_valid cfg :
  cl_ConfigVersion cfg = ClientConfigVersion → cl_Requires cfg = mkRequires ClientConfigRequiresClientVersion →
  (∃ hp, splitHostPort (cl_ServerAddr cfg) = Ok hp) → CheckLoopbackHost (tl_ServerName (cl_TLS cfg)) = Ok tt →
  blank (cl_Username cfg) = false → blank (sc_Ciphertext (cl_SavedCredential cfg)) = false →
  blank (tl_CACertFile (cl_TLS cfg)) = false → cl_Forwards cfg ≠ [] →
  Forall mobile_forward (cl_Forwards cfg) → NoDup (map fd_Name (cl_Forwards cfg)) → ValidateConfig d cfg = Ok tt.
Proof.
  intros Hv Hr ([host port] & Hs) Ht Hu Hc Hca Hne Hall Hn. pose proof (splitHostPort_nonblank _ _ Hs) as Hsb.
  unfold ValidateConfig. rewrite default_version_valid by done. unfold validateLoopbackAddresses.
  rewrite (endpoint_checked _ _ _ Hs), Ht. cbn [wrap_err mbind result_bind].
  assert (∀ P Q, (∀ f, mobile_forward f → P f = Ok tt ∧ Q f = Ok tt) →
            each P (cl_Forwards cfg) = Ok tt ∧ each Q (cl_Forwards cfg) = Ok tt) as Heach.
  { intros P Q HPQ. rewrite !each_ok. split; (eapply Forall_impl; [done|]); intros f Hf; by apply HPQ. }
  match goal with |- context [each ?P (cl_Forwards cfg)] => destruct (Heach P validateReverseForward) as [H1 H2] end.
  { intros f Hf. destruct (mobile_forward_loopback f Hf) as [Hl Htg]. destruct Hf as (_ & Hd & _). split.
    - rewrite Hd. change (negb (String.eqb (TrimSpace DirectionClientToServer) DirectionVirtual)) with true.
      cbn [negb]. rewrite Hl, Htg. done.
    - unfold validateReverseForward. by rewrite Hd. }
  rewrite H1. cbn [mbind result_bind]. rewrite Hsb, Hu, Hc. cbn [guard_err mbind result_bind orb andb]. rewrite andb_false_r.
  cbn [guard_err mbind result_bind]. destruct (Nat.eqb_spec (length (cl_Forwards cfg)) 0) as [E|_].
  { by apply length_zero_iff_nil in E. }
  cbn [guard_err mbind result_bind]. unfold validateReverseForwardFields. rewrite H2. cbn [mbind result_bind].
  destruct (mobile_forwards_validated cfg (cl_Forwards cfg) (mkValidation ∅ ∅ [] None) Hall Hn) as (v & -> & Ev).
  { intros f _. apply not_elem_of_empty. }
  cbn [mbind result_bind]. rewrite Ev, Hca. done.
Qed.
End Valid.

(** ** From a configuration to a profile and back *)

Section Profiles.
Context `{X509} `{PEM} `{CertificateIPs} `{ZonedTime}.
Variable parseTimeErr : string → string.

Lemma credentialExpiry_ok now c e :
  credentialExpiry parseTimeErr now c = Ok e →
  blank (sc_Ciphertext c) = false ∧ now < e.1 ∧
  ∀ now', now' < e.1 → credentialExpiry parseTimeErr now' c = Ok e.
Proof.
  unfold credentialExpiry. intros E. apply seq_ok in E as [Eb E]. rewrite Eb. apply guard_err_ok in Eb. apply seq_ok in E as [-> E].
  apply seq_ok in E as [-> E]. apply seq_ok in E as [-> E]. cbn [mbind result_bind].
  destruct (ParseZoned _) as [[t z]|]; [|done]. unfold After in *. destruct (Z.ltb_spec now t); [|done].
  injection E as <-. split_and!; [done|done|]. cbn. intros now' Hn. by destruct (Z.ltb_spec now' t); [|lia].
Qed.

Lemma CheckLoopbackHost_trim host : CheckLoopbackHost (TrimSpace host) = CheckLoopbackHost host.
Proof. unfold CheckLoopbackHost. by rewrite TrimSpace_idemp. Qed.

Lemma blank_trim s : blank (TrimSpace s) = blank s.
Proof. unfold blank. by rewrite TrimSpace_idemp. Qed.

(** A profile gives the configuration it was made from, up to what it leaves out. *)
Lemma profile_restored own other now now' d cfg profile e cert :
  ProfileFromConfig own parseTimeErr now cfg = Ok (profile, e) → is_ok (readFirstCert cert) = true → now' < e.1 →
  profileToConfig other parseTimeErr now' d profile cert =
  Ok (mkImported (portable other (ApplyDefaults own cfg)) cert e (TrimSpace (profileID (ApplyDefaults own cfg)))).
Proof.
  unfold ProfileFromConfig. generalize (ApplyDefaults own cfg). intros c. cbv zeta. intros E Hcert Hnow.
  apply seq_ok in E as [Hsn E]. apply bind_ok in E as (hp & Hsrv & E). apply seq_ok in E as [Hu%guard_err_ok E].
  apply bind_ok in E as (e' & He & E). apply seq_ok in E as [Hskip%guard_err_ok E].
  apply seq_ok in E as [Htls%guard_err_ok E]. apply bind_ok in E as (ms & Hms & E). injection E as <- ->.
  apply exportForwards_ok in Hms as (Efw & Him & Hall & Hnames & Hne).
  apply credentialExpiry_ok in He as (Hct & _ & He).
  destruct (splitHostPort (cl_ServerAddr c)) as [hp'|] eqn:Es; [|done].
  unfold profileToConfig. cbn [pr_Version pr_TLS pr_ServerAddr pr_Username pr_SavedCredential pr_Forwards pr_ProfileID
    pt_InsecureSkipVerify pt_MinVersion Z.eqb]. cbn [guard_err mbind result_bind negb Z.eqb Pos.eqb].
  rewrite splitHostPort_trim, Es, blank_trim, Hu. cbn [wrap_err guard_err mbind result_bind].
  rewrite (He now' Hnow). cbn [guard_err mbind result_bind].
  change (negb (tls13 (if blank "1.3" then "1.3" else TrimSpace "1.3"))) with false. cbn [guard_err mbind result_bind].
  destruct (readFirstCert cert) as [x|]; [|done]. cbn [wrap_err mbind result_bind]. rewrite Him. cbn [mbind result_bind].
  rewrite importedConfig_defaults; [|eapply Forall_impl; [exact Hall|]; by intros f (_ & ? & _)].
  cbn [pr_TLS pr_ServerAddr pr_Username pr_SavedCredential pr_Connection pt_CACertFile pt_ServerName pn_DialTimeoutSec].
  rewrite !TrimSpace_idemp, positiveTimeout_idemp, Efw. rewrite portable_valid; cbn [mbind result_bind]; try done; cbn.
  - exists hp'. by rewrite splitHostPort_trim.
  - rewrite CheckLoopbackHost_trim. by destruct (CheckLoopbackHost _) as [[]|].
  - by rewrite blank_trim.
  - rewrite <-Efw. by destruct ms.
  - by rewrite <-Efw.
  - by rewrite <-Efw.
Qed.
End Profiles.

(** ** What an export does to the disk *)

Section Exports.
Context `{X509} `{PEM} `{CertificateIPs} `{ZonedTime} `{Zip} `{YAMLTree} `{StrictYAML Config} `{JSONCodec profileFile}.
Variable Hostname : result string.
Variable parseTimeErr : string → string.
Variable json_keys : chars → result (gset string).
Variable Abs : string → result string.
Variable isDir : string → bool.
Variable statErr : string → option string.
Variable renameErr : nat → string → string → option string.
Variable removeErr closeErr : nat → string → option string.
Variable tempName : fsys → string → string → result string.

(** [os.CreateTemp] makes a new file, with a longer name than the target's. *)
Definition temp_law (target : string) : Prop := ∀ s name,
  tempName s (Dir target) (Base target +:+ ".tmp-*") = Ok name →
  dk_files (fs_disk s) !! Clean name = None ∧ Clean name ≠ Clean target.

Definition file (s : fsys) (path : string) : option string := dk_files (fs_disk s) !! Clean path.

Lemma Remove_spec s path :
  let s' := (Remove removeErr s path).1 in
  (file s' path = file s path ∨ file s' path = None) ∧ (removeErr (fs_calls s) path = None → file s' path = None) ∧
  ∀ q, q ≠ Clean path → dk_files (fs_disk s') !! q = dk_files (fs_disk s) !! q.
Proof.
  unfold Remove, file. destruct (removeErr _ _) as [e|]; cbn [fst fs_disk]; [by split; [left|]|].
  rewrite lookup_set_file, decide_True by done. split_and!; [by right|done|].
  intros q Hq. by rewrite lookup_set_file, decide_False.
Qed.

Lemma fill_spec s path data :
  file (fill s path data) path = Some (of_chars data) ∧
  ∀ q, q ≠ Clean path → dk_files (fs_disk (fill s path data)) !! q = dk_files (fs_disk s) !! q.
Proof.
  unfold fill, file. cbn [fs_disk]. rewrite lookup_set_file, decide_True by done. split; [done|].
  intros q Hq. by rewrite lookup_set_file, decide_False.
Qed.

(** The target is complete, or as it was, or gone when it may be replaced. *)
Lemma finishZip_spec target tmp force written s data :
  Clean tmp ≠ Clean target → file s tmp = Some data →
  let '(s', r) := finishZip renameErr removeErr closeErr target tmp force written s in
  (∀ q, q ≠ Clean tmp → q ≠ Clean target → dk_files (fs_disk s') !! q = dk_files (fs_disk s) !! q) ∧
  match r with
  | Ok _ => written = Ok tt ∧ file s' target = Some data
  | Err _ => file s' target = file s target ∨ force = true ∧ file s' target = None
  end.
Proof.
  intros Hne Hd. unfold finishZip. destruct written as [[]|e]; [|by split; [|left]].
  destruct (closeErr _ _) as [e|]; [by split; [|left]|].
  set (s1 := if force then (Remove removeErr s target).1 else s).
  assert ((∀ q, q ≠ Clean target → dk_files (fs_disk s1) !! q = dk_files (fs_disk s) !! q) ∧
          (file s1 target = file s target ∨ force = true ∧ file s1 target = None)) as [Hq Ht].
  { unfold s1. destruct force; [|by split; [|left]]. destruct (Remove_spec s target) as (Hc & _ & Ho).
    split; [done|]. destruct Hc; [by left|by right]. }
  clearbody s1. pose proof (Rename_spec renameErr s1 tmp target) as Hr. unfold file in *.
  destruct (Rename renameErr s1 tmp target) as [s2 [[]|e]].
  - destruct Hr as (text & Hx & ->). rewrite (Hq _ Hne), Hd in Hx. injection Hx as <-. unfold renamed. split.
    + intros q Hq1 Hq2. rewrite !lookup_set_file, !decide_False by done. by apply Hq.
    + split; [done|]. by rewrite lookup_set_file, decide_True.
  - rewrite Hr. split; [|done]. intros q _ Hq2. by apply Hq.
Qed.

(** Every other file is kept, but the temporary one may be left behind. *)
Definition kept_but (target : string) (s s' : fsys) : Prop :=
  ∀ q, q ≠ Clean target → dk_files (fs_disk s') !! q = dk_files (fs_disk s) !! q ∨
    ∃ tmp, tempName s (Dir target) (Base target +:+ ".tmp-*") = Ok tmp ∧ q = Clean tmp ∧ ∃ n, removeErr n tmp ≠ None.

Lemma createZip_spec target body cert force t t' s :
  temp_law target →
  let '(s', r) := createZip renameErr removeErr closeErr tempName target body cert force t t' s in
  kept_but target s s' ∧
  match r with
  | Ok _ => ∃ w, writeZipTo body cert t t' = (w, Ok tt) ∧ file s' target = Some (of_chars (zip_file w))
  | Err _ => file s' target = file s target ∨ force = true ∧ file s' target = None
  end.
Proof.
  intros Htemp. unfold createZip. destruct (MkdirAll _ _) as [u|e]; [|by split; left].
  destruct (tempName s _ _) as [tmp|e] eqn:Et; [|by split; left]. destruct (Htemp _ _ Et) as [Hnew Hne].
  destruct (writeZipTo body cert t t') as [w written] eqn:Ew. destruct (fill_spec s tmp (zip_file w)) as [Hd H0'].
  set (s0 := fill s tmp (zip_file w)) in *. pose proof (finishZip_spec target tmp force written s0 _ Hne Hd) as Hf.
  clearbody s0. destruct (finishZip _ _ _ _ _ _ _ _) as [s1 r]. destruct Hf as [Ho Hr].
  destruct (Remove_spec s1 tmp) as (_ & Hrm & Hk). unfold file in *. split.
  - intros q Hq. destruct (decide (q = Clean tmp)) as [->|Hqt]; [|left; by rewrite Hk, Ho, H0' by done].
    destruct (removeErr (fs_calls s1) tmp) as [e|] eqn:Erm; [|left; by rewrite Hnew, Hrm].
    right. exists tmp. split_and!; [done|done|]. exists (fs_calls s1). by rewrite Erm.
  - rewrite Hk by done. rewrite (H0' (Clean target)) in Hr by done. destruct r as [[]|e]; [|done].
    destruct Hr as [-> Hr]. by exists w.
Qed.

Lemma writeZip_spec target body cert force t t' s :
  temp_law target →
  let '(s', r) := writeZip isDir statErr renameErr removeErr closeErr tempName target body cert force t t' s in
  kept_but target s s' ∧
  match r with
  | Ok _ => (force = true ∨ Stat isDir statErr (fs_disk s) target = StatNotExist) ∧
      ∃ w, writeZipTo body cert t t' = (w, Ok tt) ∧ file s' target = Some (of_chars (zip_file w))
  | Err _ => file s' target = file s target ∨ force = true ∧ file s' target = None
  end.
Proof.
  intros Htemp. pose proof (createZip_spec target body cert force t t' s Htemp) as Hc. unfold writeZip.
  destruct (Stat isDir statErr (fs_disk s) target) as [|e|dir]; [|by split; left|destruct force; [|by split; left]];
    destruct (createZip _ _ _ _ _ _ _ _ _ _ _) as [s' [[]|e]]; destruct Hc as [Hk Hc]; split; auto.
Qed.
(** C40: exporting a profile changes one file. Every other file keeps its text,
    except that the temporary file stays when it cannot be removed. After a
    success the target holds the archive of the profile and the certificate and,
    without force, did not exist before. After a failure it is as it was; only
    with force may it be gone. *)
Theorem export_changes_one_file configFile certFile target force now t t' s path :
  Abs target = Ok path → temp_law path →
  let '(s', r) := Export Hostname parseTimeErr Abs isDir statErr renameErr removeErr closeErr tempName
                    configFile certFile target force now t t' s in
  kept_but path s s' ∧
  match r with
  | Ok res =>
      re_Path res = path ∧ (force = true ∨ Stat isDir statErr (fs_disk s) path = StatNotExist) ∧
      ∃ body cert w,
        prepareExport Hostname parseTimeErr Abs isDir statErr configFile certFile target now (fs_disk s) = Ok (body, cert, res) ∧
        writeZipTo body cert t t' = (w, Ok tt) ∧ file s' path = Some (of_chars (zip_file w))
  | Err _ => file s' path = file s path ∨ force = true ∧ file s' path = None
  end.
Proof.
  intros Habs Htemp. unfold Export.
  destruct (prepareExport _ _ _ _ _ _ _ _ _ _) as [[[body cert] res]|e] eqn:Ep; [|by split; left].
  assert (re_Path res = path) as Er.
  { unfold prepareExport in Ep. do 2 apply seq_ok in Ep as [_ Ep]. apply bind_ok in Ep as (? & _ & Ep).
    apply bind_ok in Ep as (? & _ & Ep). apply bind_ok in Ep as (? & _ & Ep). apply bind_ok in Ep as ([? ?] & _ & Ep).
    apply bind_ok in Ep as (? & _ & Ep). rewrite Habs in Ep. by injection Ep as _ _ <-. }
  rewrite Er. pose proof (writeZip_spec path body cert force t t' s Htemp) as Hw.
  destruct (writeZip _ _ _ _ _ _ _ _ _ _ _ _ _) as [s' [[]|e]]; destruct Hw as [Hk Hw]; [|done].
  destruct Hw as [Hf (w & Ew & Hfile)]. split_and!; [done|done|done|]. by exists body, cert, w.
Qed.

(** ** Reading an export *)

(** An archive with the two members reads as that, each as far as one asks. *)
Definition zip_law : Prop := ∀ j c t t' w, writeZipTo j c t t' = (w, Ok tt) →
  ∃ r1 r2, zip_NewReader (zip_file w)
           = Ok [mkZipEntry "profile.json" false (Ok r1); mkZipEntry "server.crt" false (Ok r2)] ∧
    (∀ n, Z.of_nat (length j) <= n → r1 n = Ok j) ∧ (∀ n, Z.of_nat (length c) <= n → r2 n = Ok c).

Definition profile_members (p : profileFile) : list string :=
  ["version"] ++ (if String.eqb (pr_ProfileID p) "" then [] else ["profile_id"]) ++ ["server_addr"; "username"]
  ++ (if String.eqb (pr_ClientID p) "" then [] else ["client_id"]) ++ ["saved_credential"; "tls"; "connection"; "forwards"].

(** JSON reads back the profile; it does for one of UTF-8 text. *)
Definition json_law (p : profileFile) : Prop := ∀ body, marshal p = Ok body →
  body ≠ [] ∧ unmarshal body zeroProfile = Ok p ∧ json_keys body = Ok (list_to_set (profile_members p)).

Lemma exported_archive_reads j c t t' w :
  zip_law → writeZipTo j c t t' = (w, Ok tt) → j ≠ [] → c ≠ [] →
  Z.of_nat (length j) <= zipEntryLimit → Z.of_nat (length c) <= zipEntryLimit →
  readProfileZip (zip_file w) = Ok (j, c).
Proof.
  intros Hz Hw Hj Hc Lj Lc. destruct (Hz _ _ _ _ _ Hw) as (r1 & r2 & Er & H1' & H2'). unfold readProfileZip. rewrite Er.
  cbn [wrap_err mbind result_bind fold_err]. unfold readEntry, readZipEntryBytes.
  cbn [ze_Name ze_IsDir ze_Open fst snd]. change (normalizedZipEntryName "profile.json") with "profile.json".
  change (normalizedZipEntryName "server.crt") with "server.crt".
  rewrite !bool_decide_true by (unfold profileJSONEntry, serverCertEntry; (left; done) || (right; left; done)).
  cbn [negb orb wrap_err mbind result_bind]. rewrite (H1' _ Lj), (H2' _ Lc). cbn.
  by destruct j, c.
Qed.

Lemma members_no_secret p : rejectSecretProfileFields (λ _, Ok (list_to_set (profile_members p))) [] = Ok tt.
Proof.
  unfold rejectSecretProfileFields. cbn [wrap_err mbind result_bind]. apply each_ok.
  assert (∀ key, key ∈ ["password"; "password_env"; "password_file"] → key ∉ profile_members p) as Hk.
  { intros key Hk. unfold profile_members. destruct (String.eqb _ ""), (String.eqb _ ""); set_solver. }
  apply Forall_forall. intros key Hin. rewrite bool_decide_false; [done|]. rewrite elem_of_list_to_set. by apply Hk.
Qed.
Lemma profile_imports other d now now' cfg profile e body cert :
  ApplyDefaults Hostname cfg = cfg → ProfileFromConfig Hostname parseTimeErr now cfg = Ok (profile, e) →
  json_law profile → marshal profile = Ok body → is_ok (readFirstCert cert) = true → now' < e.1 →
  ∀ data, readProfileZip data = Ok (body, cert) →
  ImportBytes other parseTimeErr json_keys now' d data
  = Ok (mkImported (portable other cfg) cert e (TrimSpace (profileID cfg))).
Proof.
  intros Hdef Hp Hj Hm Hc Hnow data Hz. destruct (Hj body Hm) as (_ & Hu & Hk). unfold ImportBytes. rewrite Hz.
  cbn [mbind result_bind]. pose proof (members_no_secret profile) as Hs. unfold rejectSecretProfileFields in *. rewrite Hk.
  cbn [wrap_err mbind result_bind] in Hs |- *. rewrite Hs, Hu. cbn [wrap_err mbind result_bind].
  rewrite (profile_restored parseTimeErr Hostname other now now' d cfg profile e cert) by done. by rewrite Hdef.
Qed.

Lemma prepareExport_ok configFile certFile target now d body cert res :
  prepareExport Hostname parseTimeErr Abs isDir statErr configFile certFile target now d = Ok (body, cert, res) →
  ∃ cfg profile, loadProfileConfig Hostname d configFile = Ok cfg ∧ ApplyDefaults Hostname cfg = cfg ∧
    ProfileFromConfig Hostname parseTimeErr now cfg = Ok (profile, re_ExpiresAt res) ∧ marshal profile = Ok body ∧
    read_file d certFile = Ok (of_chars cert) ∧ is_ok (readFirstCert cert) = true ∧ Abs target = Ok (re_Path res).
Proof.
  unfold prepareExport. intros E. do 2 apply seq_ok in E as [_ E]. apply bind_ok in E as (cfg & Hcfg & E).
  apply bind_ok in E as (pem & Hpem & E). apply bind_ok in E as (x & Hx & E). apply bind_ok in E as ([profile e] & Hp & E).
  apply bind_ok in E as (b & Hb & E). apply bind_ok in E as (t & Ht & E). injection E as <- <- <-.
  exists cfg, profile. rewrite of_to_chars. split_and!; [done| |done|done| | |done].
  - unfold loadProfileConfig, LoadConfigRaw in Hcfg. destruct (read_file d configFile); [|done]. cbn [mbind result_bind] in Hcfg.
    destruct (decodeClientConfig a) as [c|]; [|done]. cbn [mbind result_bind] in Hcfg.
    destruct (validateLoopbackAddresses _) as [u|]; [|done]. injection Hcfg as <-. apply ApplyDefaults_twice.
  - by destruct (read_file d certFile) as [y|]; [injection Hpem as ->|].
  - by destruct (readFirstCert _).
Qed.

(** C38: what was exported can be imported. Until the credential it carries
    expires, importing the file an export wrote succeeds, on another machine
    too, and gives the forwards, the server, the account, the credential and the
    certificate that were exported, under the client name of the importing
    machine and without the rest. *)
Theorem exported_profile_imports other configFile certFile target force now t t' s s' res now' :
  temp_law (re_Path res) → zip_law → pem_Decode [] = None → (∀ p q, Abs p = Ok q → Clean q = q) →
  (∀ cfg p e, loadProfileConfig Hostname (fs_disk s) configFile = Ok cfg →
              ProfileFromConfig Hostname parseTimeErr now cfg = Ok (p, e) → json_law p) →
  Export Hostname parseTimeErr Abs isDir statErr renameErr removeErr closeErr tempName
    configFile certFile target force now t t' s = (s', Ok res) →
  (∀ body cert res, prepareExport Hostname parseTimeErr Abs isDir statErr configFile certFile target now (fs_disk s)
                    = Ok (body, cert, res) →
     Z.of_nat (length body) <= zipEntryLimit ∧ Z.of_nat (length cert) <= zipEntryLimit) →
  isDir (re_Path res) = false → statErr (re_Path res) = None → dk_readErr (fs_disk s') (re_Path res) = None →
  now' < (re_ExpiresAt res).1 →
  ∃ cfg cert id,
    loadProfileConfig Hostname (fs_disk s) configFile = Ok cfg ∧ read_file (fs_disk s) certFile = Ok (of_chars cert) ∧
    ImportFile other parseTimeErr json_keys isDir statErr now' (fs_disk s') (re_Path res)
    = Ok (mkImported (portable other cfg) cert (re_ExpiresAt res) id).
Proof.
  intros Htemp Hzip Hpem Habs Hjson Hexp Hlim Hdir Hstat Hread Hnow. unfold Export in Hexp.
  destruct (prepareExport _ _ _ _ _ _ _ _ _ _) as [[[body cert] res']|e] eqn:Ep; [|done].
  destruct (Hlim _ _ _ eq_refl) as [Lb Lc].
  destruct (writeZip _ _ _ _ _ _ _ _ _ _ _ _ _) as [s1 [[]|e]] eqn:Ewz; [|done]. injection Hexp as -> ->.
  pose proof (writeZip_spec (re_Path res) body cert force t t' s Htemp) as Hw. rewrite Ewz in Hw.
  destruct Hw as (_ & _ & w & Ew & Hfile).
  destruct (prepareExport_ok _ _ _ _ _ _ _ _ Ep) as (cfg & profile & Hcfg & Hdef & Hprof & Hm & Hcert & Hok & Ha).
  pose proof (Hjson _ _ _ Hcfg Hprof) as Hj. destruct (Hj body Hm) as (Hne & _).
  assert (cert ≠ []) as Hce by (intros ->; unfold readFirstCert in Hok; by rewrite Hpem in Hok).
  exists cfg, cert, (TrimSpace (profileID cfg)). split; [done|]. split; [done|].
  unfold ImportFile, requireFile, Stat, fileExists. rewrite Hstat, Hdir. unfold file in Hfile. rewrite Hfile.
  rewrite bool_decide_true by done. cbn [guard_err wrap_err mbind result_bind].
  assert (read_file (fs_disk s') (re_Path res) = Ok (of_chars (zip_file w))) as ->.
  { unfold read_file, ReadFile. rewrite (Habs _ _ Ha) in Hfile. by rewrite Hread, Hfile. }
  cbn [wrap_err mbind result_bind]. rewrite to_of_chars.
  eapply profile_imports; [done..|]. by eapply exported_archive_reads.
Qed.

(** C39: whatever is imported is a configuration the client can run and the phone
    can serve: it passes the checks of the client, listens on 127.0.0.1 only, on
    distinct ports from 1024, for targets that are local or private, over TLS
    1.3 with verification and a certificate that parses; its credential has not
    expired, and neither it nor the profile holds a password. *)
Theorem imported_profile_safe now d data ip :
  ImportBytes Hostname parseTimeErr json_keys now d data = Ok ip →
  let cfg := im_Config ip in
  client_valid d cfg ∧ Forall mobile_forward (cl_Forwards cfg) ∧ NoDup (map fd_ListenAddr (cl_Forwards cfg)) ∧
  (cl_Password cfg = "" ∧ cl_PasswordEnv cfg = "" ∧ cl_PasswordFile cfg = "") ∧
  (tl_MinVersion (cl_TLS cfg) = "1.3" ∧ tl_InsecureSkipVerify (cl_TLS cfg) = false) ∧
  is_ok (readFirstCert (im_CertPEM ip)) = true ∧ now < (im_ExpiresAt ip).1 ∧
  ∃ json keys, readProfileZip data = Ok (json, im_CertPEM ip) ∧ json_keys json = Ok keys ∧
    Forall (λ key, key ∉ keys) ["password"; "password_env"; "password_file"].
Proof.
  clear dependent Abs isDir statErr.
  unfold ImportBytes. intros ([json cert] & Hz & E)%bind_ok. apply seq_ok in E as [Hsec E].
  apply bind_ok in E as (profile & _ & E). unfold profileToConfig in E. cbv zeta in E.
  apply seq_ok in E as [_ E]. apply bind_ok in E as (hp & _ & E). apply seq_ok in E as [_ E].
  apply bind_ok in E as (e & (_ & He & _)%credentialExpiry_ok & E). do 2 apply seq_ok in E as [_ E].
  apply bind_ok in E as (x509 & Hc & E). apply bind_ok in E as (fs & Hfs & E). apply seq_ok in E as [Hv E]. injection E as <-.
  apply collect_forwards_ok in Hfs as (Hall & _ & Hl & _).
  assert (∀ f, f ∈ fs → ∃ g, configForwardFromProfile g = Ok f) as Hfrom.
  { clear -Hall. induction Hall as [|g f gs fs Hg _ IH]; [by intros ? ?%not_elem_of_nil|].
    intros f' [->|Hf]%elem_of_cons; [by exists g|by apply IH]. }
  apply ValidateConfig_client_valid in Hv. pose proof (cv_forwards _ _ Hv) as Hfw.
  rewrite importedConfig_defaults in *.
  2-4: apply Forall_forall; intros f (g & Hg)%Hfrom; apply configForwardFromProfile_ok in Hg; tauto.
  cbn [im_Config im_CertPEM im_ExpiresAt cl_Forwards cl_Password cl_PasswordEnv cl_PasswordFile cl_TLS tl_MinVersion
    tl_InsecureSkipVerify] in *.
  split_and!; try done.
  - rewrite Forall_forall in Hfw |- *. intros f Hf. destruct (Hfrom f Hf) as [g Hg].
    apply configForwardFromProfile_ok in Hg as (Hn & Hd & Hp & h & p & Hs). split_and!; [done..|]. exists h, p. split; [done|].
    apply splitHostPort_ok in Hs as (pt & Es & _). destruct (Hfw f Hf) as (h' & p' & (pt' & Es' & _) & Hcase).
    rewrite Es in Es'. injection Es' as -> ->. unfold is_virtual in Hcase. rewrite Hd in Hcase.
    change (TrimSpace DirectionClientToServer) with DirectionClientToServer in Hcase. by destruct Hcase as [(_ & ? & _)|[(? & _)|(? & _)]].
  - by destruct (readFirstCert cert).
  - unfold rejectSecretProfileFields in Hsec. destruct (json_keys json) as [keys|] eqn:Ek; [|done].
    exists json, keys. split_and!; [done..|]. cbn [wrap_err mbind result_bind] in Hsec. apply each_ok in Hsec.
    eapply Forall_impl; [exact Hsec|]. by intros key ?%guard_err_ok%bool_decide_eq_false.
Qed.
End Exports.

(** ** A concrete profile *)

Definition mobileClient : Config :=
  mkClientConfig 2 (mkRequires "2.1.0") " 203.0.113.9:3443" "home" "alice" "" "" ""
    (mkSealedCredential "server_sealed" "k1" "2030-01-01T00:00:00Z" "sealed") "pc" ""
    (mkTLS "server.crt" "" "1.3" false) (mkConnection 0)
    [mkForward " db " "" "127.0.0.1:5432" "10.0.0.5:5432"; mkForward "" "client_to_server" "127.0.0.1:08080" "127.0.0.1:80"].

Definition mobileTree : YAMLTree := {|
  yaml_tree _ := Ok (config_tree mobileClient);
  node_int _ := Ok 2
|}.
Definition mobileStrict : StrictYAML Config := {| strict_decode _ := Ok mobileClient; strict_next _ := None |}.
Definition mobilePEM : PEM := {|
  pem_Decode data := match data with [] => None | _ => Some ("CERTIFICATE", data, []) end;
  pem_EncodeToMemory _ bytes := bytes
|}.
Definition mobileX509 : X509 := λ der, Ok der.
Definition mobileZone : ZonedTime := {|
  Zone := unit;
  ParseZoned _ := Some (1000, tt);
  FormatZoned _ _ := "";
  FormatZonedNano _ _ := ""
|}.
(** An archive is the list of its members. *)
Definition mobileZip : Zip := {|
  zipWriter := list (string * chars);
  zip_NewWriter := [];
  zip_CreateHeader w name _ := (w ++ [(name, [])], Ok tt);
  zip_Write w data := (match reverse w with (name, _) :: r => reverse r ++ [(name, data)] | [] => [] end, Ok tt);
  zip_Close w := (w, Ok tt);
  zip_file w := pos_bits (encode w);
  zip_NewReader data :=
    match decode (bits_pos data) with
    | Some w => Ok (map (λ m : string * chars, mkZipEntry m.1 false
                      (Ok (λ n, Ok (if Z.of_nat (length m.2) <=? n then m.2 else take (Z.to_nat n) m.2)))) w)
    | None => Err "not an archive"
    end
|}.
Definition mobileProfile : profileFile :=
  match @ProfileFromConfig mobileZone (Err "") (λ _, "") 0 (ApplyDefaults (Err "") mobileClient) with
  | Ok (p, _) => p
  | Err _ => zeroProfile
  end.
Definition mobileJSON : JSONCodec profileFile := {|
  marshal _ := Ok (to_chars "{}");
  unmarshal _ _ := Ok mobileProfile
|}.
Definition mobileKeys (_ : chars) : result (gset string) := Ok (list_to_set (profile_members mobileProfile)).

Definition mobileDisk : Disk :=
  goodDisk (<["client.yaml" := "sample"]> (<["server.crt" := "certificate"]> {[ "out/old.lsylprofile" := "old" ]})).
Definition mobileTemp (s : fsys) (dir pattern : string) : result string :=
  if fileExists (fs_disk s) "out/a.tmp-1" || negb (String.eqb pattern "a.tmp-*") then Err "no name" else Ok "out/a.tmp-1".

Definition mobileExport : fsys * result (@Result mobileZone) :=
  @Export mobileX509 mobilePEM mobileZone mobileZip mobileTree mobileStrict mobileJSON (Err "") (λ _, "")
    (λ p, Ok (Clean p)) (λ _, false) (λ _, None) (λ _ _ _, None) (λ _ _, None) (λ _ _, None) mobileTemp "client.yaml" "server.crt" "out/a"
    false 0 0 0 (mkFsys mobileDisk 0).

Lemma mobileZip_law : @zip_law mobileZip.
Proof.
  intros j c t t' w E. vm_compute in E. injection E as <-.
  exists (λ n, Ok (if Z.of_nat (length j) <=? n then j else take (Z.to_nat n) j)),
    (λ n, Ok (if Z.of_nat (length c) <=? n then c else take (Z.to_nat n) c)).
  split; [cbn; by rewrite Credseal.Toy.bits_roundtrip, decode_encode|].
  split; intros n Hn; by rewrite (proj2 (Z.leb_le _ _) Hn).
Qed.

Lemma mobileTemp_law : temp_law mobileTemp "out/a".
Proof.
  intros s name. unfold mobileTemp. destruct (fileExists (fs_disk s) "out/a.tmp-1") eqn:E; [done|].
  destruct (negb _); [done|]. intros [= <-]. apply not_exists in E. split; [done|]. by vm_compute.
Qed.

Lemma mobileProfile_law cfg p e :
  @loadProfileConfig mobileTree mobileStrict (Err "") mobileDisk "client.yaml" = Ok cfg →
  @ProfileFromConfig mobileZone (Err "") (λ _, "") 0 cfg = Ok (p, e) → @json_law mobileJSON mobileKeys p.
Proof.
  intros Hc. vm_compute in Hc. injection Hc as <-. intros Hp. vm_compute in Hp. injection Hp as <- _.
  intros body [= <-]. by vm_compute.
Qed.

Example exported : ∃ s res, mobileExport = (s, Ok res) ∧ re_Path res = "out/a" ∧ re_ExpiresAt res = (1000, tt).
Proof. eexists _, _. vm_compute. repeat split. Qed.

Lemma export_changes_one_file_witness :
  let '(s', r) := mobileExport in
  is_ok r = true ∧ dk_files (fs_disk s') !! "out/old.lsylprofile" = Some "old" ∧ dk_files (fs_disk s') !! "out/a.tmp-1" = None.
Proof.
  pose proof (@export_changes_one_file mobileX509 mobilePEM mobileZone mobileZip mobileTree mobileStrict mobileJSON
    (Err "") (λ _, "") (λ p, Ok (Clean p)) (λ _, false) (λ _, None) (λ _ _ _, None) (λ _ _, None) (λ _ _, None) mobileTemp "client.yaml"
    "server.crt" "out/a" false 0 0 0 (mkFsys mobileDisk 0) "out/a" eq_refl mobileTemp_law) as Hw.
  unfold mobileExport. destruct (Export _ _ _ _ _ _ _ _ _ _ _ _ _ _ _ _ _) as [s' r] eqn:E. destruct Hw as [Hk _].
  split; [vm_compute in E; by injection E as _ <-|].
  clear E. assert (∀ q, q ≠ Clean "out/a" → dk_files (fs_disk s') !! q = dk_files mobileDisk !! q) as Hall.
  { intros q Hq. destruct (Hk q Hq) as [E|(tmp & _ & _ & n & Hn)]; [exact E|by destruct Hn]. }
  split; (rewrite Hall; [vm_compute; reflexivity|vm_compute; discriminate]).
Defined.

Lemma exported_profile_imports_witness :
  match mobileExport with
  | (s', Ok res) => ∃ ip, @ImportFile mobileX509 mobilePEM (λ _, Err "") mobileZone mobileZip mobileJSON (Ok "phone")
      (λ _, "") mobileKeys (λ _, false) (λ _, None) 999 (fs_disk s') "out/a" = Ok ip ∧ map fd_Name (cl_Forwards (im_Config ip)) = ["db"; "127.0.0.1:8080"] ∧
      cl_ClientID (im_Config ip) = "phone"
  | _ => False
  end.
Proof.
  destruct mobileExport as [s' [res|e]] eqn:E; [|vm_compute in E; discriminate E].
  assert (re_Path res = "out/a" ∧ (re_ExpiresAt res).1 = 1000 ∧ dk_readErr (fs_disk s') "out/a" = None) as (Hp & He & Hr).
  { vm_compute in E. by injection E as <- <-. }
  pose proof (@exported_profile_imports mobileX509 mobilePEM (λ _, Err "") mobileZone mobileZip mobileTree mobileStrict mobileJSON
    (Err "") (λ _, "") mobileKeys (λ p, Ok (Clean p)) (λ _, false) (λ _, None) (λ _ _ _, None) (λ _ _, None) (λ _ _, None) mobileTemp
    (Ok "phone") "client.yaml" "server.crt" "out/a" false 0 0 0 (mkFsys mobileDisk 0) s' res 999) as Hw.
  rewrite Hp in Hw.
  destruct Hw as (cfg & cert & id & Hcfg & _ & Hi).
  - exact mobileTemp_law.
  - exact mobileZip_law.
  - reflexivity.
  - intros p q [= <-]. apply Clean_idemp.
  - exact mobileProfile_law.
  - exact E.
  - intros body cert res' Hprep. vm_compute in Hprep. injection Hprep as <- <- _. split; vm_compute; discriminate.
  - reflexivity.
  - reflexivity.
  - exact Hr.
  - rewrite He. reflexivity.
  - eexists. split; [exact Hi|]. vm_compute in Hcfg. injection Hcfg as <-. split; vm_compute; reflexivity.
Defined.

Definition mobileArchive : chars :=
  @zip_file mobileZip [("profile.json", to_chars "{}"); ("dir/server.crt", to_chars "certificate")].

Lemma imported_profile_safe_witness :
  match @ImportBytes mobileX509 mobilePEM (λ _, Err "") mobileZone mobileZip mobileJSON (Err "") (λ _, "") mobileKeys 0
          mobileDisk mobileArchive with
  | Ok ip => Forall mobile_forward (cl_Forwards (im_Config ip)) ∧ length (cl_Forwards (im_Config ip)) = 2%nat
  | Err _ => False
  end.
Proof.
  destruct (ImportBytes _ _ _ _ _ _) as [ip|e] eqn:E; [|vm_compute in E; discriminate E].
  destruct (@imported_profile_safe mobileX509 mobilePEM (λ _, Err "") mobileZone mobileZip mobileJSON (Err "") (λ _, "")
    mobileKeys 0 mobileDisk mobileArchive ip E) as (_ & Hf & _).
  split; [exact Hf|]. clear Hf. vm_compute in E. injection E as <-. reflexivity.
Defined.

(** With force the old file is removed before the new one takes its name: when
    that rename fails, neither is there. *)
Lemma forced_export_loses :
  let '(s, r) := @Export mobileX509 mobilePEM mobileZone mobileZip mobileTree mobileStrict mobileJSON (Err "") (λ _, "")
    Ok (λ _, false) (λ _, None) (λ _ _ _, Some "the file is in use") (λ _ _, None) (λ _ _, None) (λ _ _ _, Ok "out/t")
    "client.yaml" "server.crt" "out/old.lsylprofile" true 0 0 0 (mkFsys mobileDisk 0) in
  is_ok r = false ∧ dk_files mobileDisk !! "out/old.lsylprofile" = Some "old" ∧
  dk_files (fs_disk s) !! "out/old.lsylprofile" = None.
Proof. vm_compute. repeat split; reflexivity. Qed.
