(* ===== verification/ClientTexts.v ===== *)
(** * What the client's interfaces tell the user (src/client/gui, src/client/lite)

    The texts for errors and for the state of a connection, which texts make the
    client forget a saved login, and the arguments of the command line. *)

From S2P Require Import Prelude.
From S2P Require Import GoStd.
From S2P Require Import Netaddr.
From S2P Require Import Disk.
From S2P Require Import GoCrypto.
From S2P Require Import Protocol.
From S2P Require Import Yaml.
From S2P Require Import VirtualAddress.
From S2P Require Import ClientErrors.
From S2P Require Import ClientConfig.
From S2P Require Import ClientState.
From S2P Require Import ProfileSwitch.

#[local] Open Scope Z_scope.

(** ** Errors *)

(** The message with the name of the rule the error is about. *)
Definition forwardRuleConfigMessage (raw message : string) : string :=
  let quote_char := of_code 34 in
  let q := String quote_char "" in
  let name :=
    match after_first (to_chars ("forward " +:+ q)) (to_chars raw) with
    | Some rest =>
        match chars_index quote_char rest with
        | Some finish => TrimSpace (of_chars (take finish rest))
        | None => ""
        end
    | None => ""
    end in
  if String.eqb name "" || String.eqb name "<unnamed>" then message
  else "转发规则 " +:+ q +:+ name +:+ q +:+ " 配置错误：" +:+ message.

Definition unrecognised : string := "连接失败，暂时无法识别具体原因；请重试，若持续出现请联系管理员查看客户端日志。".

Definition friendlyErrorText (raw : string) : string :=
  let text := ToLower (TrimSpace raw) in
  let has := containsAny text in
  let rule := forwardRuleConfigMessage raw in
  match VirtualForwardErrorText text with
  | (message, true) => rule (message +:+ "。")
  | _ => switch [
    (String.eqb text "", "");
    (has ["loopback host "] && has ["is not supported; use 127.0.0.1"],
      ReplaceAll (ReplaceAll raw "loopback host " "回环地址 ") "is not supported; use 127.0.0.1" "不再支持，请使用 127.0.0.1");
    (has ["客户端已经"] || has ["already"] && has ["running"], "已经连接，正在后台值守");
    (has ["客户端未运行"], "当前没有正在运行的连接");
    (has ["管理员授权已取消"], "管理员授权已取消");
    (has ["no server tls trust data"; "appendcertsfrompem"], "服务端信任证书无效，请联系管理员重新下发。");
    (isMissingServerCertError text || has ["ca_cert_file"; "server verification"],
      "缺少服务端信任证书 server.crt，请联系管理员重新下发客户端安装包。");
    (has ["certificate is valid for"; "cannot validate certificate"; "doesn't contain any ip sans"],
      "服务端证书和当前地址不匹配，请检查服务端地址或重新下发证书。");
    (has ["certificate has expired"; "certificate is not yet valid"; "has expired or is not yet valid"],
      "服务端证书已过期或尚未生效，请联系管理员重新下发有效证书。");
    (has ["unknown authority"; "not trusted"], "服务端证书不受信任，请联系管理员重新下发证书。");
    (has ["username or password"; "auth_failed"], "用户名或密码不正确。");
    (has ["credential_expired"; "saved login has expired"], "保存的登录凭据已过期，请重新输入密码。");
    (has ["username and password are required"], "请输入用户名和密码。");
    (has ["user_stream_limit"; "too many concurrent streams"], "当前账号并发连接数已达到上限，请关闭部分连接后重试。");
    (has ["auth_blocked"; "too many login failures"], "登录失败次数过多，当前来源 IP 已被临时封禁，请稍后再试。");
    (has ["server_addr is required"], "请输入服务端地址。");
    (has ["client config_version must be >= 0"], "客户端配置版本无效，请联系管理员重新下发配置。");
    (has ["requires min_client_version >="; "requires requires.min_client_version"], "客户端配置版本声明不完整或不匹配，请联系管理员重新下发配置。");
    (has ["requires a newer client"] || has ["client config requires version"] && has ["current version"],
      "当前配置需要更高版本的客户端，请先升级客户端。");
    (has ["server_addr"; "dial tcp"] && has ["missing port in address"; "too many colons in address";
      "unknown port"], "服务端地址格式不正确，请填写 地址:端口。");
    (has ["no such host"], "服务端地址无法解析，请检查域名或网络。");
    (has ["listen tcp"] && has ["missing port in address"; "too many colons in address"; "unknown port"],
      "本地监听地址格式不正确，请填写 地址:端口。");
    (has ["already in use"; "only one usage"; "bind:"], "本地端口已被占用，请关闭占用程序或调整端口。");
    (has ["has unsupported direction"], rule "direction 不受支持，请联系管理员检查客户端配置。");
    (has ["has duplicate runtime name"], rule "本客户端内的规则标识重复，请填写不同的 name；无需与服务端规则名一致。");
    (has ["server_target must use 127.0.0.1 or a private ip address"],
      rule "正向 server_target 必须填写 127.0.0.1 或私有 IP:端口，不支持域名或公网 IP。");
    (has ["listen_addr must include a host and port"] && negb (has ["reverse"]), rule "正向 listen_addr 格式不正确，请填写 地址:端口。");
    (has ["listen_addr port must be between 0 and 65535"], rule "正向 listen_addr 端口必须在 0 到 65535 之间；0 表示随机监听端口。");
    (has ["contains unknown field"], rule "包含当前客户端不支持的字段，请联系管理员重新生成配置。");
    (has ["requires server_target"], rule "缺少业务目标 server_target，请联系管理员重新生成客户端配置。");
    (has ["server_target must include a host and port"], rule "转发目标格式不正确，server_target 必须填写为 地址:端口。");
    (has ["server_target port must be between"], rule "转发目标端口必须在 1 到 65535 之间。");
    (has ["client config must not include listen_port"], rule "客户端反向规则使用 listen_addr 选择服务端端口，请删除 listen_port。");
    (has ["server_to_client requires listen_addr"], rule "反向转发缺少服务端监听地址 listen_addr。");
    (has ["reverse listen_addr must include a loopback host and port"], rule "反向 listen_addr 必须填写为 127.0.0.1:端口。");
    (has ["reverse listen_addr port must be between"], rule "反向 listen_addr 端口必须在 1 到 65535 之间。");
    (has ["reverse listen_addr must use a loopback address"], rule "反向 listen_addr 必须使用 127.0.0.1。");
    (has ["reverse server_target must use a loopback address"], rule "反向转发目标 server_target 必须使用 127.0.0.1。");
    (has ["reverse listen address is required"], "反向转发缺少服务端监听地址 listen_addr，请检查客户端配置。");
    (has ["reverse listen address is not configured on server"], "反向 listen_addr 未在服务端配置，请联系管理员检查服务端保留端口。");
    (has ["not allowed to activate this reverse listen address"], "当前账号无权使用该反向端口，请联系管理员检查端口授权。");
    (has ["requires listen_addr and server_target"], rule "正向转发缺少客户端入口 listen_addr 或服务端目标 server_target。");
    (has ["at least one forward"], "客户端未配置任何转发规则，请联系管理员检查配置。");
    (has ["no usable forward"], "所有转发规则均启动失败，请检查规则配置、端口占用和客户端组件。");
    (has ["password_file"; "read password"], "无法读取密码文件，请检查路径和权限。");
    (has ["target_denied"; "not allowed"; "not allowed to access"], "当前账号没有访问该目标的权限。");
    (has ["target_unreachable"; "target service is unreachable"], "服务端无法访问目标服务，请联系管理员检查目标服务或防火墙。");
    (has ["client_version_unsupported"], "客户端版本不在服务端允许范围内，请联系管理员确认两端版本。");
    (has ["protocol_version_unsupported"], "客户端与服务端协议版本不一致，请联系管理员升级对应一端。");
    (has ["invalid tunnel request"; "unsupported request"; "bad_request"], "客户端和服务端协议不匹配，请确认版本一致。");
    (has ["connection refused"; "actively refused"; "connectex"], "连接不上服务端，请检查服务端是否启动或地址端口是否正确。");
    (has ["timeout"; "deadline"; "i/o timeout"], "连接超时，请检查网络或服务端防火墙。");
    (has ["network is unreachable"; "no route to host"], "网络不可达，请检查本机网络。");
    (has ["connection reset"; "forcibly closed"; "wsarecv"; "eof"], "连接被服务端断开，请稍后重试或联系管理员。");
    (has ["connection aborted"; "broken pipe"; "closed network connection"], "连接已中断，请稍后重试或联系管理员。");
    (has ["x509"], "服务端证书校验失败，请联系管理员检查证书和地址。");
    (has ["tls handshake after certificate possession gate"], "TLS 握手失败，请检查服务端状态及两端版本。");
    (has ["certificate"], "服务端证书校验失败，请联系管理员检查证书和地址。");
    (has ["tls"], "TLS 握手失败，请检查服务端状态及两端版本。");
    (has ["access is denied"; "拒绝访问"], "权限不足，请以管理员身份运行或检查安装目录权限。");
    (has ["field "] && has ["not found in type"]
      || has ["missing required field"; "duplicate field";
      "must be a mapping"; "must be a list"; "must be a value";
              "exactly one yaml document"],
      "配置文件结构与当前客户端不兼容，请联系管理员重新下发配置。");
    (has ["yaml"; "cannot unmarshal"; "did not find expected"], "配置文件格式不正确，请联系管理员检查配置。");
    (has ["no such file"; "cannot find"; "找不到"], "客户端文件不完整，请联系管理员检查安装包。")
  ] unrecognised
  end.

Definition friendlyError (err : option string) : string :=
  match err with None => "" | Some e => friendlyErrorText e end.

(** What the page says when an export failed. *)
Definition mobileExportFriendlyError (err : option string) : string :=
  match err with
  | None => ""
  | Some text =>
  let has := containsAny text in
  switch [
    (has ["loopback host "; "server_target must use 127.0.0.1 or a private IP address"], friendlyErrorText text);
    (has ["请先登录成功"], text);
    (has ["saved_credential"], "当前登录凭据不可用于移动端导出，请重新输入密码连接成功后再试。");
    (has ["username is required"], "客户端配置缺少用户名，请重新输入账号并连接成功后再导出。");
    (has ["server_addr is invalid"], "客户端配置中的服务端地址格式不正确，应填写为 地址:端口。");
    (has ["mobile export only supports client_to_server"], "移动端只支持正向转发，当前配置包含反向转发或 IP 接管规则，无法导出。");
    (has ["at least one client_to_server forward is required"], "当前配置没有可导出的正向转发规则。");
    (has ["below 1024"], "移动端本地端口必须大于等于 1024，请联系管理员调整端口后重新连接。");
    (has ["127.0.0.1 for mobile"], "移动端本地监听只能使用 127.0.0.1，请联系管理员调整配置。");
    (has ["listen_addr is invalid"], "移动端本地监听地址格式不正确，应填写为 127.0.0.1:端口。");
    (has ["server_target is invalid"], "转发目标地址格式不正确，应填写为 地址:端口。");
    (has ["duplicate forward name"], "存在重名的转发规则，请联系管理员修改规则 name。");
    (has ["duplicate mobile listen address"], "存在重复的移动端监听端口，请联系管理员调整配置。");
    (has ["insecure_skip_verify"], "移动端不允许跳过证书校验，请联系管理员重新下发证书配置。");
    (has ["requires tls.min_version 1.3"], "移动端要求使用 TLS 1.3，请联系管理员更新客户端配置。");
    (has ["server certificate"; "no pem certificate"], "服务端信任证书无效或缺失，请联系管理员重新下发客户端证书。");
    (has ["read client config"; "parse client config"; "invalid client config"], "无法读取客户端配置，请联系管理员检查配置文件。");
    (has ["无法定位系统下载目录"], "无法定位系统下载目录，请检查当前 Windows 用户目录。")
  ] (friendlyErrorText text)
  end.

(** [canceled] is [errors.Is] with [context.Canceled]. *)
Definition friendlyLiteError (canceled : bool) (err : option string) : string :=
  match err with
  | None => ""
  | Some raw =>
  let text := ToLower (TrimSpace raw) in
  let has := containsAny text in
  switch [
    (canceled, "操作已取消。");
    (has ["loopback host "] && has ["use 127.0.0.1"],
      ReplaceAll (ReplaceAll raw "loopback host " "回环地址 ") "is not supported; use 127.0.0.1" "不再支持，请使用 127.0.0.1");
    (has ["server_target must use 127.0.0.1 or a private ip address"],
      "正向 server_target 必须填写 127.0.0.1 或私有 IP:端口，不支持域名或公网 IP。");
    (has ["has duplicate runtime name"], "本客户端内的转发规则标识重复，请填写不同的 name。");
    (has ["credential_expired"; "saved login has expired"; "saved_credential has expired"],
      "登录凭据已过期，请让客户端重新生成配置后再导入。");
    (has ["auth_failed"; "username or password"], "登录凭据无效，请确认账号或重新导入配置。");
    (has ["auth_blocked"; "too many login failures"], "登录失败次数过多，当前来源 IP 已被临时封禁，请稍后再试。");
    (has ["user_stream_limit"; "too many concurrent streams"], "当前账号并发连接数已达到上限，请关闭部分连接后重试。");
    (has ["client_version_unsupported"], "客户端版本不在服务端允许范围内，请联系管理员确认两端版本。");
    (has ["client config_version"] && has ["requires a newer client"]
      || has ["client config requires version"] && has ["current version"], "当前配置需要更高版本的客户端，请升级后重新导入配置。");
    (has ["field "] && has ["not found in type"]
      || has ["contains unknown field"; "missing required field";
      "duplicate field"; "must be a mapping"; "must be a list";
              "exactly one yaml document"],
      "配置文件结构与当前客户端不兼容，请重新导出并导入配置。");
    (has ["protocol_version_unsupported"; "bad_request"], "客户端与服务端协议版本不一致，请联系管理员升级对应一端。");
    (has ["server_sealed"; "saved_credential"], "配置里的登录凭据不可用，请重新导出 .lsylprofile。");
    (has ["username is required"], "导入文件缺少用户名，请重新导出 .lsylprofile。");
    (has ["insecure_skip_verify"; "tls.min_version"], "配置不符合轻量客户端安全要求，请重新导出 .lsylprofile。");
    (has ["server certificate"] && has ["no such file"; "cannot find"; "系统找不到"], "服务端证书文件缺失，请重新导入 .lsylprofile。");
    (has ["certificate has expired"; "not yet valid"], "服务端证书已过期或尚未生效，请重新导出 .lsylprofile。");
    (has ["certificate is valid for"; "cannot validate certificate"], "服务端证书和当前地址不匹配，请联系管理员检查服务端地址或证书。");
    (has ["unknown authority"; "not trusted"], "服务端证书不受信任，请重新导出 .lsylprofile。");
    (has ["certificate"; "x509"; "tls"], "服务端证书校验失败，请确认配置和服务器地址。");
    (has ["target_denied"; "not allowed to access"], "当前账号没有访问该目标的权限。");
    (has ["target_unreachable"; "target service is unreachable"], "服务端无法访问目标服务，请联系管理员检查目标服务或防火墙。");
    (has ["server_addr is invalid"] || has ["dial tcp"] && has ["missing port in address";
      "too many colons in address"], "服务端地址格式不正确，应填写为 地址:端口。");
    (has ["already in use"; "only one usage"; "bind:"], "本地端口已被占用，请关闭占用程序后重试。");
    (has ["connection refused"; "actively refused"; "connectex"], "连接不上服务端，请检查服务端是否启动、地址和端口是否正确。");
    (has ["timeout"; "deadline"], "连接超时，请检查网络或防火墙。");
    (has ["no such host"], "服务端地址无法解析，请检查域名或网络。");
    (has ["network is unreachable"; "no route to host"], "网络不可达，请检查本机网络和服务端地址。");
    (has ["connection reset"; "forcibly closed"; "wsarecv"; "eof"], "连接被服务端断开，请稍后重试或联系管理员。");
    (has ["profile package is missing"], "导入文件不完整，缺少 profile.json 或 server.crt。");
    (has ["mobile profile only supports client_to_server"], "轻量客户端只支持正向转发，请重新导出 .lsylprofile。");
    (has ["at least one client_to_server forward"], "导入文件没有可用的正向转发规则，请重新导出 .lsylprofile。");
    (has ["listen_addr must use 127.0.0.1"], "轻量客户端的本地监听必须使用 127.0.0.1，请重新导出 .lsylprofile。");
    (has ["below 1024"], "轻量客户端的本地监听端口必须大于等于 1024，请重新导出 .lsylprofile。");
    (has ["listen_addr is invalid"], "本地监听地址格式不正确，应填写为 127.0.0.1:端口。");
    (has ["server_target is invalid"], "转发目标地址格式不正确，应填写为 地址:端口。");
    (has ["duplicate forward name"], "导入文件包含重名的转发规则，请重新导出 .lsylprofile。");
    (has ["duplicate mobile listen address"], "导入文件包含重复的本地监听端口，请重新导出 .lsylprofile。");
    (has ["parse profile.json"; "unsupported profile version"; "mobile profile must not contain"],
      "导入文件格式或版本不受支持，请使用当前客户端重新导出 .lsylprofile。");
    (has ["invalid profile file"; "read profile file"; "open .lsylprofile"], "无法读取 .lsylprofile，请确认文件未损坏且未被其他程序占用。");
    (has ["no such file"; "cannot find"; "系统找不到"], "配置文件或证书文件缺失，请重新导入配置。")
  ] "操作失败，暂时无法识别具体原因；请重试，若持续出现请联系管理员查看客户端日志。"
  end.

(** ** When a saved login is forgotten *)

Definition shouldClearSavedPasswordStateText (raw : string) : bool :=
  containsAny (ToLower (TrimSpace raw))
    ["username or password"; "auth_failed"; "credential_expired"; "saved login has expired"; "账号或密码"; "用户名或密码"; "保存的登录凭据"].

Definition shouldClearSavedPasswordState (err : option string) : bool :=
  match err with None => false | Some e => shouldClearSavedPasswordStateText e end.

Definition terminalDisconnectMessage (stats : ClientStats) : string :=
  let h := st_Health stats in
  if negb (String.eqb (hs_Message h) "") then hs_Message h
  else if String.eqb (hs_State h) HealthAuthError then "认证异常，已取消连接状态，请重新连接"
  else if String.eqb (hs_State h) HealthServerUnavailable then "多次重连失败，已取消连接状态，请确认服务端恢复后重新连接"
  else "连接已取消，请重新连接".

(** ** The state of the connection *)

Definition hasForwardIssue (stats : ClientStats) : bool :=
  existsb (λ item, bool_decide (fs_State item ∈ [ForwardListenFailed; ForwardRetrying; ForwardRejected])) (st_Items stats).

Definition runtimeStatusText (stats : ClientStats) : string :=
  let state := hs_State (st_Health stats) in
  if String.eqb state HealthOK then if hasForwardIssue stats then "部分异常" else "已连接"
  else if String.eqb state HealthServerUnavailable then "正在重连"
  else if String.eqb state HealthAuthError then "认证异常"
  else if String.eqb state HealthChecking then "检查服务端状态中"
  else if hasForwardIssue stats then "部分异常" else "后台值守中".

(** ** The forwards *)

Definition isCompactLocalHost (host : string) : bool :=
  let host := Trim (TrimSpace host) "[]" in
  String.eqb host "" || bool_decide (host ∈ ["127.0.0.1"; "0.0.0.0"; "::"]).

Definition compactDisplayAddr (addr : string) : string :=
  let addr := TrimSpace addr in
  if String.eqb addr "" then "-"
  else match SplitHostPort addr with
  | Err _ => addr
  | Ok (host, port) => if isCompactLocalHost host then port else JoinHostPort host port
  end.

(** [cfg] is the configuration that was read. *)
Definition routeSummary (cfg : result Config) : string :=
  match cfg with
  | Err _ => "配置未读取"
  | Ok cfg =>
      if (length (cl_Forwards cfg) =? 0)%nat then "未配置端口映射"
      else Join (map (λ fwd,
             let name := if blank (fd_Name fwd) then "转发" else TrimSpace (fd_Name fwd) in
             if String.eqb (fd_Direction fwd) DirectionServerToClient
             then name +:+ ": " +:+ compactDisplayAddr (fd_ServerTarget fwd) +:+ " ← " +:+ compactDisplayAddr (fd_ListenAddr fwd)
             else name +:+ ": " +:+ compactDisplayAddr (fd_ListenAddr fwd) +:+ " → " +:+ compactDisplayAddr (fd_ServerTarget fwd))
           (cl_Forwards cfg)) nl
  end.

Definition hasPasswordState (cfg : result Config) : bool :=
  match cfg with
  | Err _ => false
  | Ok cfg => negb (blank (cl_PasswordFile cfg)) || negb (blank (cl_PasswordEnv cfg))
              || negb (blank (sc_Ciphertext (cl_SavedCredential cfg))) || negb (blank (cl_Password cfg))
  end.

(** The summaries of the small client; [localTime] formats a parsed time. *)
Definition profileSummary (localTime : string → option string) (cfg : Config) : string :=
  let expiry := default "未知" (localTime (TrimSpace (sc_ExpiresAt (cl_SavedCredential cfg)))) in
  "用户: " +:+ cl_Username cfg +:+ cr +:+ nl +:+ "服务端: " +:+ cl_ServerAddr cfg +:+ cr +:+ nl +:+ "凭据有效期: " +:+ expiry.

Definition routesSummary (cfg : Config) : string :=
  if (length (cl_Forwards cfg) =? 0)%nat then "未配置端口映射。"
  else Join (map (λ fwd,
         let name := if blank (fd_Name fwd) then "forward" else TrimSpace (fd_Name fwd) in
         if String.eqb (fd_Direction fwd) DirectionServerToClient
         then name +:+ ": " +:+ fd_ServerTarget fwd +:+ " <- " +:+ fd_ListenAddr fwd
         else name +:+ ": " +:+ fd_ListenAddr fwd +:+ " -> 服务端 " +:+ fd_ServerTarget fwd)
       (cl_Forwards cfg)) (cr +:+ nl).

(** ** The command line *)

Definition isClientQuitArg (arg : string) : bool :=
  bool_decide (ToLower (TrimSpace arg) ∈ ["/quit"; "-quit"; "--quit"; "/exit"; "-exit"; "--exit"]).
Definition IsQuitCommand (args : list string) : bool := existsb isClientQuitArg args.

Definition has_flag (name : string) (args : list string) : bool :=
  existsb (λ arg, String.eqb arg ("-" +:+ name) || HasPrefix arg ("-" +:+ name +:+ "=")) args.
Definition isClientConfigCompatCommand (args : list string) : bool := has_flag "config-compat-check" args.
Definition clientInstallerCleanupFlag : string := "installer-cleanup".
Definition isClientInstallerCleanupCommand (args : list string) : bool := has_flag clientInstallerCleanupFlag args.
Definition IsNonInteractiveCommand (args : list string) : bool :=
  IsQuitCommand args || isClientConfigCompatCommand args || isClientInstallerCleanupCommand args.

(** [writeClientConfigCompatResult] and [writeClientInstallerCleanupResult]; an
    error of the file system is dropped. *)
Definition writeCommandResult (d : Disk) (path : string) (err : option string) : Disk :=
  if blank path then d
  else match err with None => d | Some e => (WriteFile d path e).1 end.

Definition isLocalClientHost (host : string) : bool :=
  let host := Trim (ToLower host) "[]" in
  if String.eqb host "localhost" then true
  else match ParseIP host with Some ip => IsLoopback ip | None => false end.

Example texts :
  let q := String (of_code 34) "" in
  friendlyErrorText ("forward " +:+ q +:+ "db" +:+ q +:+ " requires server_target")
    = "转发规则 " +:+ q +:+ "db" +:+ q +:+ " 配置错误：缺少业务目标 server_target，请联系管理员重新生成客户端配置。" ∧
  friendlyErrorText "auth_failed: username or password is incorrect" = "用户名或密码不正确。" ∧
  friendlyErrorText "" = "" ∧ friendlyErrorText "strange" = unrecognised ∧
  compactDisplayAddr " 127.0.0.1:80 " = "80" ∧ compactDisplayAddr "[fd00::1]:80" = "[fd00::1]:80" ∧
  map isClientQuitArg [" /QUIT "; "quit"] = [true; false].
Proof. vm_compute. repeat split; reflexivity. Qed.

(** ** Forgetting a login *)

Lemma containsAny_app text l l' : containsAny text (l ++ l') = containsAny text l || containsAny text l'.
Proof. unfold containsAny. apply existsb_app. Qed.

(** What a state and a message tell the client to do with the saved login. *)
Definition forgets (forget : bool) (sm : string * string) : Prop :=
  shouldClearSavedPasswordStateText sm.2 = forget ∧ (forget = true → sm.1 = HealthAuthError).

(** A connection that ends forgets the saved login exactly when the server
    said that the login is wrong or has expired: not for another refusal, such as
    a block of the address or a version that does not fit, nor for a problem of
    the network or of a certificate. *)
Theorem login_forgotten_exactly err :
  let text := ToLower err in
  let '(state, message) := classifyHealthError (Some err) in
  shouldClearSavedPasswordStateText message =
    containsAny text ["auth_failed"; "username or password"; "credential_expired"; "saved login has expired"]
    && negb (containsAny text ["client_version_unsupported"; "protocol_version_unsupported"; "invalid tunnel request";
                               "unsupported request"; "bad_request"])
  ∧ (shouldClearSavedPasswordStateText message = true → state = HealthAuthError).
Proof.
  cbv zeta. assert (∀ forget, forgets forget (classifyHealthError (Some err)) →
    (let '(state, message) := classifyHealthError (Some err) in
     shouldClearSavedPasswordStateText message = forget ∧
     (shouldClearSavedPasswordStateText message = true → state = HealthAuthError))) as Hf.
  { intros forget. destruct (classifyHealthError (Some err)) as [state message]. intros [<- ?]. by split. }
  apply Hf. clear Hf. unfold classifyHealthError. set (text := ToLower err). cbv zeta.
  change ["auth_failed"; "username or password"; "credential_expired"; "saved login has expired"]
    with (["auth_failed"; "username or password"] ++ ["credential_expired"; "saved login has expired"]).
  change ["client_version_unsupported"; "protocol_version_unsupported"; "invalid tunnel request"; "unsupported request"; "bad_request"]
    with (["client_version_unsupported"] ++ ["protocol_version_unsupported"; "invalid tunnel request"; "unsupported request"; "bad_request"]).
  rewrite !containsAny_app.
  cbn [switch].
  destruct (containsAny text ["client_version_unsupported"]); [rewrite andb_false_r; by vm_compute|].
  destruct (containsAny text ["protocol_version_unsupported"; _; _; _]); [rewrite andb_false_r; by vm_compute|].
  destruct (containsAny text ["auth_failed"; _]); [by vm_compute|].
  destruct (containsAny text ["credential_expired"; _]); [by vm_compute|]. cbn [orb andb negb].
  repeat (match goal with |- forgets _ (if ?b then _ else _) => destruct b; [by vm_compute|] end). by vm_compute.
Qed.
