(* ===== verification/ClientGui.v ===== *)
(** * The desktop client (src/client/gui: api, process, config, mobile_export)

    The page's requests run at the same time, and each client that is started has a
    goroutine that waits for its end. Requests are programs over the critical
    sections of the application, the files and the tunnel client, which
    [ClientPrograms] models; a number names a client and the context it runs in. *)

From S2P Require Import Prelude.
From S2P Require Import Programs.
From S2P Require Import Ownership.
From S2P Require Import GoStd.
From S2P Require Import Disk.
From S2P Require Import GoCrypto.
From S2P Require Import Protocol.
From S2P Require Import Credseal.
From S2P Require Import CertificateGate.
From S2P Require Import Yaml.
From S2P Require Import Version.
From S2P Require Import VirtualAddress.
From S2P Require Import ClientErrors.
From S2P Require Import ClientConfig.
From S2P Require Import ClientState.
From S2P Require Import LogReader.
From S2P Require Import ProfileSwitch.
From S2P Require Import MobileProfile.
From S2P Require Import ClientTexts.

#[local] Open Scope Z_scope.

(** ** The application *)

(** The fields the requests share; [ap_stopping] are the contexts [cancel] was
    called for and [ap_started] all clients there were. *)
Record App := mkApp {
  ap_tun : option nat;
  ap_stop : option nat;
  ap_logs : list string;
  ap_notice : string;
  ap_noticeBad : bool;
  ap_started : gset nat;
  ap_stopping : gset nat
}.
Definition newApp : App := mkApp None None [] "" false ∅ ∅.

Definition set_client (a : App) (tun stop : option nat) : App :=
  mkApp tun stop (ap_logs a) (ap_notice a) (ap_noticeBad a) (ap_started a) (ap_stopping a).

(** [now] is the time as text. *)
Definition appendLog (a : App) (now msg : string) : App :=
  let logs := ap_logs a ++ ["[" +:+ now +:+ "] " +:+ msg] in
  mkApp (ap_tun a) (ap_stop a) (if (200 <? length logs)%nat then drop (length logs - 200) logs else logs)
    (ap_notice a) (ap_noticeBad a) (ap_started a) (ap_stopping a).

Definition setNotice (a : App) (message : string) (bad : bool) : App :=
  mkApp (ap_tun a) (ap_stop a) (ap_logs a) message bad (ap_started a) (ap_stopping a).

(** The second lock of [startClientEmbedded]: the client is the application's
    unless there is one. *)
Definition install (a : App) (client : nat) : App * bool :=
  match ap_tun a with
  | Some _ => (a, false)
  | None => (set_client a (Some client) (Some client), true)
  end.

(** The lock of [stopClientEmbedded]. *)
Definition take_client (a : App) : App * option (nat * option nat) :=
  match ap_tun a with
  | None => (a, None)
  | Some client => (set_client a None None, Some (client, ap_stop a))
  end.

(** The lock of [detachClient]: the context when the client is the application's. *)
Definition detach_section (a : App) (client : nat) (message : string) (bad : bool) : App * option (option nat) :=
  if bool_decide (ap_tun a = Some client)
  then (setNotice (set_client a None None) message bad, Some (ap_stop a))
  else (a, None).

Record loginForm := mkLoginForm { lf_ServerAddr : string; lf_Username : string; lf_Password : string }.

Record apiState := mkApiState {
  as_Running : bool;
  as_ServerVersion : string;
  as_Config : loginForm;
  as_Route : string;
  as_Stats : ClientStats;
  as_RunStatus : string;
  as_HasPassword : bool;
  as_Notice : string;
  as_NoticeBad : bool
}.

(** ** Calls *)

Inductive guiOp : Type → Type :=
  (* critical sections *)
  | GClient : guiOp (option nat)
  | GInstall (client : nat) : guiOp bool
  | GTake : guiOp (option (nat * option nat))
  | GDetach (client : nat) (message : string) (bad : bool) : guiOp (option (option nat))
  | GLog (msg : string) : guiOp unit
  | GNotice (message : string) (bad : bool) : guiOp unit
  | GNoticeSnapshot : guiOp (string * bool)
  | GInvalidateProfiles : guiOp unit
  (* files *)
  | GReadFile (path : string) : guiOp readResult
  | GMkdirAll (path : string) : guiOp (result unit)
  | GWriteFile (path data : string) : guiOp (result unit)
  | GValidate (cfg : Config) : guiOp (result unit)
  | GExport (certFile target : string) : guiOp (result string)
  | GDownloads : guiOp (result string)
  (* the tunnel client *)
  | GLogin (cfg : Config) (timeout : Duration) : guiOp (result OpenResponse)
  | GSeal (key : CredentialPublicKey) (cfg : Config) (password : string) : guiOp (result SealedCredential)
  | GStartVerified (cfg : Config) (serverVersion : string) : guiOp (result nat)
  | GCancel (context : nat) : guiOp unit
  | GClose (client : nat) : guiOp (option string)
  | GDone (client : nat) : guiOp unit
  | GStats (client : nat) : guiOp ClientStats
  | GCheckHealth (client : nat) : guiOp HealthStatus
  | GCheckForwards (client : nat) : guiOp ForwardCheckSummary
  | GNow : guiOp Time
  (* goroutines *)
  | GGoWatch (client : nat) : guiOp unit.

Abbreviation gprog := (Programs.prog guiOp).

Section Gui.
Context `{YAMLTree} `{StrictYAML Config} `{YAMLCodec Config} `{ZonedTime}.
Variable Hostname : result string.
Variable Getenv : string → string.
Variable parseTimeErr : string → string.
Variable FormatZonedDate : Time → Zone → string.
Variable configPath : string.

(** [readClientConfigRaw]: the configuration or the error, and whether
    [os.IsNotExist] holds of it. *)
Definition readRaw : gprog (result Config * bool) :=
  data ← call (GReadFile configPath);
  mret match data with
       | ReadNotExist => (Err (not_exist configPath), true)
       | ReadErr e => (Err e, false)
       | ReadData data =>
           (cfg ← decodeClientConfig data;
            let cfg := ApplyDefaults Hostname cfg in
            _ ← validateLoopbackAddresses cfg;
            Ok cfg, false)
       end.

(** ** Configuration (config_windows.go) *)

Definition defaultCACertFile : string := "../cert/server.crt".

Definition tunnelDefaultConfigVersion : Z := cl_ConfigVersion (ApplyDefaults Hostname zeroConfig).
Definition tunnelDefaultRequiredClientVersion : string := rc_MinClientVersion (cl_Requires (ApplyDefaults Hostname zeroConfig)).

Definition defaultClientConfig : Config :=
  let hostname := match Hostname with Ok h => if String.eqb h "" then "lsyl-tunnel-client" else h | Err _ => "lsyl-tunnel-client" end in
  mkClientConfig tunnelDefaultConfigVersion (mkRequires tunnelDefaultRequiredClientVersion) "" "" "" "" "" "" emptyCredential
    hostname "info" (mkTLS defaultCACertFile "" "1.3" false) (mkConnection 5) [].

Definition with_form (cfg : Config) (form : loginForm) : Config :=
  let typed := negb (String.eqb (lf_Password form) "") in
  mkClientConfig (cl_ConfigVersion cfg) (cl_Requires cfg) (TrimSpace (lf_ServerAddr form)) (cl_Remark cfg)
    (TrimSpace (lf_Username form)) (if typed then lf_Password form else cl_Password cfg)
    (if typed then "" else cl_PasswordEnv cfg) (if typed then "" else cl_PasswordFile cfg)
    (if typed then emptyCredential else cl_SavedCredential cfg) (cl_ClientID cfg) (cl_LogLevel cfg) (cl_TLS cfg)
    (cl_Connection cfg) (cl_Forwards cfg).

Definition prepareLoginConfig (form : loginForm) : gprog (result Config) :=
  '(raw, missing) ← readRaw;
  mret match raw, missing with
       | Err e, false => Err ("read client config: " +:+ e)
       | Err _, true => Ok (ApplyDefaults Hostname (with_form defaultClientConfig form))
       | Ok cfg, _ => Ok (ApplyDefaults Hostname (with_form cfg form))
       end.

Definition saveClientConfig (cfg : Config) : gprog (result unit) :=
  match yaml_marshal (ApplyDefaults Hostname cfg) with
  | Err e => mret (Err e)
  | Ok data =>
      made ← call (GMkdirAll (Dir configPath));
      match made with
      | Err e => mret (Err e)
      | Ok _ =>
          written ← call (GWriteFile configPath data);
          match written with
          | Err e => mret (Err e)
          | Ok _ => _ ← call GInvalidateProfiles; mret (Ok tt)
          end
      end
  end.

Definition set_password (cfg : Config) (password : string) : Config :=
  set_login cfg (cl_Username cfg) password (cl_PasswordFile cfg).
Definition set_credential (cfg : Config) (credential : SealedCredential) : Config :=
  mkClientConfig (cl_ConfigVersion cfg) (cl_Requires cfg) (cl_ServerAddr cfg) (cl_Remark cfg) (cl_Username cfg)
    (cl_Password cfg) (cl_PasswordEnv cfg) (cl_PasswordFile cfg) credential (cl_ClientID cfg) (cl_LogLevel cfg)
    (cl_TLS cfg) (cl_Connection cfg) (cl_Forwards cfg).

Definition saveLoginForm (form : loginForm) : gprog (result unit) :=
  cfg ← prepareLoginConfig form;
  match cfg with
  | Err e => mret (Err e)
  | Ok cfg => saveClientConfig (set_password cfg "")
  end.

Definition clearSavedPasswordState : gprog (result unit) :=
  '(raw, _) ← readRaw;
  match raw with
  | Err e => mret (Err e)
  | Ok cfg =>
      let clearPassword := negb (blank (cl_Password cfg)) in
      let clearCredential := negb (blank (sc_Ciphertext (cl_SavedCredential cfg))) in
      let cfg := if clearPassword then set_password cfg "" else cfg in
      let cfg := if clearCredential then set_credential cfg emptyCredential else cfg in
      if clearPassword || clearCredential then saveClientConfig cfg else mret (Ok tt)
  end.

Definition clearSavedPasswordStateAfterAuthFailure : gprog unit :=
  cleared ← clearSavedPasswordState;
  match cleared with
  | Err e => call (GLog ("清理已保存登录凭据失败: " +:+ e))
  | Ok _ => call (GLog "已清理本地保存的登录凭据，请重新输入密码")
  end.

(** [resolveLocalConfigPath] is [resolveConfigPath] of the tunnel client. *)
Definition runtimeClientConfigFromRaw (cfg : Config) : gprog (result Config) :=
  let base := Dir configPath in
  let cfg := ApplyDefaults Hostname cfg in
  let cfg := set_tls cfg (with_ca (cl_TLS cfg) (resolveConfigPath base (tl_CACertFile (cl_TLS cfg)))) in
  let cfg := set_login cfg (cl_Username cfg) (cl_Password cfg) (resolveConfigPath base (cl_PasswordFile cfg)) in
  let cfg := if String.eqb (cl_Password cfg) "" && negb (blank (cl_PasswordEnv cfg))
             then set_password cfg (Getenv (TrimSpace (cl_PasswordEnv cfg))) else cfg in
  let validated cfg :=
    valid ← call (GValidate cfg); mret match valid with Err e => Err e | Ok _ => Ok cfg end in
  if String.eqb (cl_Password cfg) "" && negb (blank (cl_PasswordFile cfg)) then
    data ← call (GReadFile (cl_PasswordFile cfg));
    match data with
    | ReadNotExist => mret (Err ("read password_file: " +:+ not_exist (cl_PasswordFile cfg)))
    | ReadErr e => mret (Err ("read password_file: " +:+ e))
    | ReadData data => validated (set_password cfg (TrimRight data (cr +:+ nl)))
    end
  else validated cfg.

(** ** The running client (process_windows.go) *)

(** [updateTrayToolTip] is not modelled. *)
Definition detachClient (client : nat) (message : string) (bad : bool) : gprog unit :=
  taken ← call (GDetach client message bad);
  match taken with
  | None => mret tt
  | Some cancel =>
      _ ← (match cancel with Some context => call (GCancel context) | None => mret tt end);
      _ ← (if negb (String.eqb message "") then call (GLog ("连接状态已取消: " +:+ message)) else mret tt);
      if shouldClearSavedPasswordStateText message then clearSavedPasswordStateAfterAuthFailure else mret tt
  end.

Definition watchClientDone (client : nat) : gprog unit :=
  _ ← call (GDone client);
  stats ← call (GStats client);
  detachClient client (terminalDisconnectMessage stats) true.

Definition alreadyRunning : string := "客户端已经在后台值守".

Definition startClientEmbedded (cfg : Config) (serverVersion : string) : gprog (result unit) :=
  running ← call GClient;
  match running with
  | Some _ => mret (Err alreadyRunning)
  | None =>
      started ← call (GStartVerified cfg serverVersion);
      match started with
      | Err e => mret (Err e)
      | Ok client =>
          installed ← call (GInstall client);
          if negb installed then
            _ ← call (GCancel client); _ ← call (GClose client); mret (Err alreadyRunning)
          else
            _ ← call (GGoWatch client);
            _ ← call (GLog "客户端已在当前窗口内启动后台值守");
            mret (Ok tt)
      end
  end.

(** The error of closing the client is the answer. *)
Definition stopClientEmbedded : gprog (option string) :=
  taken ← call GTake;
  match taken with
  | None => mret (Some "客户端未运行")
  | Some (client, cancel) =>
      _ ← (match cancel with Some context => call (GCancel context) | None => mret tt end);
      err ← call (GClose client);
      _ ← call (GLog "连接已停止");
      mret err
  end.

Definition stopClient : gprog (option string) :=
  running ← call GClient;
  match running with Some _ => stopClientEmbedded | None => mret (Some "客户端未运行") end.

Definition zeroStats : ClientStats := mkClientStats zeroHealth "" 0 0 [].

Definition clientStats : gprog ClientStats :=
  client ← call GClient;
  match client with Some client => call (GStats client) | None => mret zeroStats end.

Definition runtimeStatus : gprog string :=
  client ← call GClient;
  match client with
  | Some client => stats ← call (GStats client); mret (runtimeStatusText stats)
  | None => mret "未连接"
  end.

(** ** Requests (api_windows.go) *)

Record apiResult := mkApiResult { ar_OK : bool; ar_Message : string }.

Definition currentLoginForm : gprog loginForm :=
  '(raw, _) ← readRaw;
  cfg ← (match raw with
         | Err e => _ ← call (GLog ("读取配置失败: " +:+ e)); mret defaultClientConfig
         | Ok cfg => mret cfg
         end);
  mret (mkLoginForm (cl_ServerAddr cfg) (cl_Username cfg) "").

(** The profiles, the version and the window of the answer are left out. *)
Definition currentAPIState : gprog apiState :=
  status ← runtimeStatus;
  stats ← clientStats;
  '(notice, noticeBad) ← call GNoticeSnapshot;
  running ← call GClient;
  form ← currentLoginForm;
  '(route, _) ← readRaw;
  '(saved, _) ← readRaw;
  mret (mkApiState (bool_decide (is_Some running)) (st_ServerVersion stats) form (routeSummary route) stats status
          (hasPasswordState saved) notice noticeBad).

Definition with_state (r : apiResult) : gprog (apiResult * option apiState) :=
  state ← currentAPIState; mret (r, Some state).

Definition handleHealthCheck : gprog (apiResult * option apiState) :=
  client ← call GClient;
  match client with
  | None => with_state (mkApiResult false "客户端未运行")
  | Some client =>
      status ← call (GCheckHealth client);
      if hs_Terminal status then
        _ ← detachClient client (terminalDisconnectMessage (mkClientStats status "" 0 0 [])) true;
        with_state (mkApiResult false (hs_Message status))
      else
        let ok := String.eqb (hs_State status) HealthOK in
        '(message, ok) ← (if ok then
                            summary ← call (GCheckForwards client);
                            mret (ForwardCheckMessage summary, (su_Rejected summary =? 0) && (su_Failed summary =? 0))
                          else mret (hs_Message status, ok));
        with_state (mkApiResult ok (if String.eqb message "" then "状态已刷新" else message))
  end.

Definition failed (log e : string) : gprog apiResult :=
  _ ← call (GLog (log +:+ e)); mret (mkApiResult false (friendlyErrorText e)).

Definition loginTimeout (cfg : Config) : Duration :=
  let t := seconds (wrap_i64 (cn_DialTimeoutSec (cl_Connection cfg) + 3)) in
  if t <? 5 * nsecond then 5 * nsecond else t.

(** What is saved and what is started once the server took the login. *)
Definition sealLogin (rawCfg cfg : Config) (resp : OpenResponse) : gprog (result (Config * Config)) :=
  if String.eqb (cl_Password rawCfg) "" then mret (Ok (rawCfg, cfg))
  else match rs_CredentialKey resp with
  | Some key =>
      sealed ← call (GSeal key cfg (cl_Password rawCfg));
      mret match sealed with
           | Err e => Err e
           | Ok sealed => Ok (set_password (set_credential rawCfg sealed) "", set_password (set_credential cfg sealed) "")
           end
  | None =>
      _ ← call (GLog "服务端未提供本地凭据密封公钥，本次不会保存密码");
      mret (Ok (set_password rawCfg "", cfg))
  end.

(** [handleStart] after the probe. *)
Definition finishStart (rawCfg cfg : Config) (resp : OpenResponse) : gprog apiResult :=
  sealed ← sealLogin rawCfg cfg resp;
  match sealed with
  | Err e => failed "保存本地登录凭据失败: " e
  | Ok (rawCfg, cfg) =>
      saved ← saveClientConfig rawCfg;
      match saved with
      | Err e => failed "保存配置失败: " e
      | Ok _ =>
          started ← startClientEmbedded cfg (rs_ServerVersion resp);
          match started with
          | Err e => failed "启动连接失败: " e
          | Ok _ =>
              _ ← call (GLog "登录成功，隧道已启动并进入后台值守");
              mret (mkApiResult true "登录成功，已在后台值守")
          end
      end
  end.

(** [form] is the decoded body. *)
Definition handleStart (form : option loginForm) : gprog apiResult :=
  match form with
  | None => mret (mkApiResult false "请求格式不正确")
  | Some form =>
      rawCfg ← prepareLoginConfig form;
      _ ← call (GNotice "" false);
      match rawCfg with
      | Err e => failed "配置准备失败: " e
      | Ok rawCfg =>
          running ← call GClient;
          if bool_decide (is_Some running) then mret (mkApiResult true "已经连接，正在后台值守")
          else
            cfg ← runtimeClientConfigFromRaw rawCfg;
            match cfg with
            | Err e => failed "配置校验失败: " e
            | Ok cfg =>
                resp ← call (GLogin cfg (loginTimeout cfg));
                match resp with
                | Err e =>
                    _ ← call (GLog ("登录探测失败: " +:+ e));
                    _ ← (if shouldClearSavedPasswordStateText e then clearSavedPasswordStateAfterAuthFailure else mret tt);
                    mret (mkApiResult false (friendlyErrorText e))
                | Ok resp => finishStart rawCfg cfg resp
                end
            end
      end
  end.

Definition handleStop : gprog apiResult :=
  err ← stopClient;
  match err with
  | Some e => mret (mkApiResult false (friendlyErrorText e))
  | None => mret (mkApiResult true "连接已停止")
  end.

(** ** Exporting for the phone (mobile_export_windows.go) *)

Definition exportMobileProfileToDownloads : gprog (result string) :=
  running ← call GClient;
  match running with
  | None => mret (Err "请先登录成功后再导出移动端配置")
  | Some _ =>
      '(raw, _) ← readRaw;
      match raw with
      | Err e => mret (Err ("读取客户端配置失败: " +:+ e))
      | Ok cfg =>
          let ca := tl_CACertFile (cl_TLS cfg) in
          let certFile := resolveConfigPath (Dir configPath) (if String.eqb ca "" then defaultCACertFile else ca) in
          now ← call GNow;
          match FileNameFromConfig parseTimeErr FormatZonedDate now cfg with
          | Err e => mret (Err e)
          | Ok fileName =>
              downloads ← call GDownloads;
              match downloads with
              | Err e => mret (Err e)
              | Ok downloads => call (GExport certFile (JoinPath downloads fileName))
              end
          end
      end
  end.

Definition handleMobileExport (method : string) : gprog (apiResult * option apiState) :=
  if negb (String.eqb method "POST") then mret (mkApiResult false "请求方法不支持", None)
  else
    target ← exportMobileProfileToDownloads;
    match target with
    | Err e =>
        _ ← call (GLog ("导出移动端配置失败: " +:+ e));
        with_state (mkApiResult false (mobileExportFriendlyError (Some e)))
    | Ok target =>
        _ ← call (GLog ("已导出移动端配置: " +:+ target));
        with_state (mkApiResult true ("移动端配置已导出到系统下载目录：" +:+ target))
    end.
End Gui.

(** ** What the page may save and start *)

Section Saved.
Context `{YAMLTree} `{StrictYAML Config} `{YAMLCodec Config} `{ZonedTime}.
Variable Hostname : result string.
Variable Getenv : string → string.
Variable parseTimeErr : string → string.
Variable FormatZonedDate : Time → Zone → string.
Variable configPath : string.

(** Every program of the application: the requests and the goroutine of a client. *)
Inductive gui_program : gprog unit → Prop :=
  | gui_start form : gui_program (_ ← handleStart Hostname Getenv configPath form; mret tt)
  | gui_stop : gui_program (_ ← handleStop; mret tt)
  | gui_state : gui_program (_ ← currentAPIState Hostname configPath; mret tt)
  | gui_health : gui_program (_ ← handleHealthCheck Hostname configPath; mret tt)
  | gui_export method :
      gui_program (_ ← handleMobileExport Hostname parseTimeErr FormatZonedDate configPath method; mret tt)
  | gui_save form : gui_program (_ ← saveLoginForm Hostname configPath form; mret tt)
  | gui_watch client : gui_program (watchClientDone Hostname configPath client).

(** What is written is the configuration file, without a password. *)
Definition saves_no_password (c : done_call guiOp) : Prop :=
  match c with
  | Called (GWriteFile path data) _ =>
      path = configPath ∧ ∃ cfg, yaml_marshal cfg = Ok data ∧ blank (cl_Password cfg) = true
  | _ => True
  end.

Abbreviation quiet := (every saves_no_password).

Create HintDb gui discriminated.

Ltac quiet := walk_every ltac:(auto with gui) ltac:(exact I).

Lemma quiet_save cfg : blank (cl_Password cfg) = true → quiet (saveClientConfig Hostname configPath cfg).
Proof.
  intros Hb. unfold saveClientConfig. destruct (yaml_marshal _) as [data|e] eqn:E; [|quiet].
  apply every_bind; [quiet|]. intros [u|e]; [|quiet].
  apply every_bind; [|intros [v|e]; quiet].
  apply every_call. intros x. split; [done|]. by exists (ApplyDefaults Hostname cfg).
Qed.

Lemma quiet_clear : quiet (clearSavedPasswordState Hostname configPath).
Proof.
  unfold clearSavedPasswordState. apply every_bind; [quiet|]. intros [[cfg|e] b]; [|quiet]. cbv zeta.
  destruct (_ || _); [|quiet]. apply quiet_save.
  destruct (blank (cl_Password cfg)) eqn:E; cbn [negb]; by destruct (negb (blank (sc_Ciphertext _))).
Qed.
#[local] Hint Resolve quiet_clear : gui.

Lemma quiet_finish rawCfg cfg resp : quiet (finishStart Hostname configPath rawCfg cfg resp).
Proof.
  unfold finishStart. apply always_bind.
  assert (always (sealLogin rawCfg cfg resp)
            (λ t r, Forall saves_no_password t ∧ ∀ raw c, r = Ok (raw, c) → cl_Password raw = "")) as Hs.
  { unfold sealLogin. destruct (String.eqb_spec (cl_Password rawCfg) "") as [E|E]; [split; [constructor|by intros ? ? [= <- <-]]|].
    destruct (rs_CredentialKey resp); cbn; intros x; (split; [by constructor|]).
    - by destruct x as [sealed|e]; [intros ? ? [= <- <-]|].
    - by intros ? ? [= <- <-]. }
  eapply always_impl; [|exact Hs]. intros t [[raw c]|e] [Ht Hp]; cbv beta iota; apply every_after; try done; [|quiet].
  apply every_bind; [apply quiet_save; by rewrite (Hp raw c eq_refl)|]. intros a. quiet.
Qed.
#[local] Hint Resolve quiet_finish : gui.

(** C35: no program of the client's page ever writes a password to the disk: all
    it writes is the configuration file, and the configuration it writes there has
    no password, whether one was typed, came from the old file, from the
    environment or from a file, and however the steps before went. *)
Theorem password_never_saved p : gui_program p → always p (λ t _, Forall saves_no_password t).
Proof.
  intros Hp. change (quiet p). destruct Hp; try solve [quiet].
  apply every_bind; [|intros a; quiet]. unfold saveLoginForm. apply every_bind; [quiet|].
  intros [cfg|e]; [|quiet]. by apply quiet_save.
Qed.
End Saved.

(** ** What a login starts *)

Section Login.
Context `{YAMLTree} `{StrictYAML Config} `{YAMLCodec Config} `{ZonedTime}.
Variable Hostname : result string.
Variable Getenv : string → string.
Variable configPath : string.

(** A client became the application's. *)
Definition installs (c : done_call guiOp) : bool :=
  match c with
  | @Called _ X o x => match o in guiOp X return X → bool with GInstall _ => λ b, b | _ => λ _, false end x
  end.

Abbreviation calm := (every (λ c, installs c = false)).
Ltac calm := walk_every ltac:(fail) ltac:(reflexivity).

Definition same_server (form : loginForm) (cfg : Config) : Prop :=
  cl_ServerAddr cfg = TrimSpace (lf_ServerAddr form) ∧ cl_Username cfg = TrimSpace (lf_Username form).

(** The configuration a login works with, and what is saved and started after it. *)
Definition login_done (form : loginForm) (t : list (done_call guiOp)) : Prop :=
  ∃ cfg resp saved started data client,
    same_server form cfg ∧ (lf_Password form ≠ "" → cl_Password cfg = lf_Password form) ∧
    Called (GValidate cfg) (Ok tt) ∈ t ∧ Called (GLogin cfg (loginTimeout cfg)) (Ok resp) ∈ t ∧
    (lf_Password form ≠ "" → match rs_CredentialKey resp with
     | Some key => ∃ sealed, Called (GSeal key cfg (lf_Password form)) (Ok sealed) ∈ t ∧
         cl_SavedCredential saved = sealed ∧ cl_SavedCredential started = sealed ∧ cl_Password started = ""
     | None => started = cfg
     end) ∧
    same_server form saved ∧ same_server form started ∧ cl_Password saved = "" ∧
    yaml_marshal (ApplyDefaults Hostname saved) = Ok data ∧ Called (GWriteFile configPath data) (Ok tt) ∈ t ∧
    Called (GStartVerified started (rs_ServerVersion resp)) (Ok client) ∈ t ∧
    Called (GInstall client) true ∈ t ∧ Called (GGoWatch client) tt ∈ t.

(** The typed password is in the configuration, the saved one is dropped. *)
Lemma prepared form :
  always (prepareLoginConfig Hostname configPath form) (λ t r,
    Forall (λ c, installs c = false) t ∧ ∀ cfg, r = Ok cfg → same_server form cfg ∧
      (lf_Password form ≠ "" → cl_Password cfg = lf_Password form)).
Proof.
  assert (∀ cfg, same_server form (ApplyDefaults Hostname (with_form cfg form)) ∧
            (lf_Password form ≠ "" → cl_Password (ApplyDefaults Hostname (with_form cfg form)) = lf_Password form)) as Hf.
  { intros cfg. split; [by split|]. intros Hne. cbn. by destruct (String.eqb_spec (lf_Password form) ""). }
  unfold prepareLoginConfig, readRaw. intros [|e|data]; cbn; (split; [by constructor|]); intros cfg.
  - by intros [= <-].
  - done.
  - match goal with |- match ?r with _ => _ end = _ → _ => destruct r as [c|e]; [|done] end. by intros [= <-].
Qed.

Lemma runtime_checked form rawCfg :
  same_server form rawCfg → (lf_Password form ≠ "" → cl_Password rawCfg = lf_Password form) →
  always (runtimeClientConfigFromRaw Hostname Getenv configPath rawCfg) (λ t r,
    Forall (λ c, installs c = false) t ∧ ∀ cfg, r = Ok cfg → same_server form cfg ∧
      (lf_Password form ≠ "" → cl_Password cfg = lf_Password form) ∧ Called (GValidate cfg) (Ok tt) ∈ t).
Proof.
  intros Hs Hp. unfold runtimeClientConfigFromRaw. cbv zeta.
  set (c0 := set_login _ _ _ _).
  set (c1 := if String.eqb (cl_Password c0) "" && negb (blank (cl_PasswordEnv c0)) then _ else c0).
  assert (same_server form c0 ∧ (lf_Password form ≠ "" → cl_Password c0 = lf_Password form)) as [Hs0 Hp0] by done.
  assert (same_server form c1 ∧ (lf_Password form ≠ "" → cl_Password c1 = lf_Password form)) as [Hs1 Hp1].
  { unfold c1. destruct (String.eqb (cl_Password c0) "" && negb (blank (cl_PasswordEnv c0))) eqn:E; [|done].
    apply andb_true_iff in E as [E%String.eqb_eq _]. split; [exact Hs0|]. intros Hne. exfalso. by rewrite Hp0 in E. }
  clearbody c1 c0. clear Hs Hp Hs0 Hp0.
  destruct (String.eqb (cl_Password c1) "" && _) eqn:E.
  - apply andb_true_iff in E as [E%String.eqb_eq _]. intros [|e|data].
    + split; [by constructor|done].
    + split; [by constructor|done].
    + intros [u|e]; (split; [by repeat constructor|]); [|done]. intros cfg [= <-]. split; [exact Hs1|].
      split; [intros Hne; exfalso; by rewrite Hp1 in E|]. destruct u. right. left.
  - intros [[]|e]; (split; [by repeat constructor|]); [|done]. intros cfg [= <-]. split; [done|]. split; [done|left].
Qed.

Lemma sealed_login form rawCfg cfg resp :
  same_server form rawCfg → same_server form cfg →
  (lf_Password form ≠ "" → cl_Password rawCfg = lf_Password form) →
  always (sealLogin rawCfg cfg resp) (λ t r,
    Forall (λ c, installs c = false) t ∧ ∀ saved started, r = Ok (saved, started) →
      same_server form saved ∧ same_server form started ∧ cl_Password saved = "" ∧
      (lf_Password form ≠ "" → match rs_CredentialKey resp with
       | Some key => ∃ sealed, Called (GSeal key cfg (lf_Password form)) (Ok sealed) ∈ t ∧
           cl_SavedCredential saved = sealed ∧ cl_SavedCredential started = sealed ∧ cl_Password started = ""
       | None => started = cfg
       end)).
Proof.
  intros Hr Hc Hp. unfold sealLogin. destruct (String.eqb_spec (cl_Password rawCfg) "") as [E|E].
  { split; [constructor|]. intros ? ? [= <- <-]. split_and!; try done. intros Hne. exfalso. by rewrite Hp in E. }
  destruct (rs_CredentialKey resp) as [key|].
  - intros [sealed|e]; (split; [by constructor|]); [|done]. intros ? ? [= <- <-].
    split_and!; [exact Hr|exact Hc|done|]. intros Hne. rewrite (Hp Hne). exists sealed.
    split_and!; [left|done..].
  - intros []. split; [by constructor|]. intros ? ? [= <- <-]. split_and!; [exact Hr|done|done|done].
Qed.

Lemma save_written cfg :
  always (saveClientConfig Hostname configPath cfg) (λ t r,
    Forall (λ c, installs c = false) t ∧
    (r = Ok tt → ∃ data, yaml_marshal (ApplyDefaults Hostname cfg) = Ok data ∧ Called (GWriteFile configPath data) (Ok tt) ∈ t)).
Proof.
  unfold saveClientConfig. destruct (yaml_marshal _) as [data|e]; [|by split; [constructor|]].
  intros [u|e]; [|by split; [repeat constructor|]]. intros [[]|e]; [|by split; [repeat constructor|]].
  intros []. split; [by repeat constructor|]. intros _. exists data. split; [done|]. right. left.
Qed.

(** Only the client that is installed runs on. *)
Lemma started_client cfg version :
  always (startClientEmbedded cfg version) (λ t r,
    match r with
    | Ok _ => ∃ client, Called (GStartVerified cfg version) (Ok client) ∈ t ∧ Called (GInstall client) true ∈ t ∧
                Called (GGoWatch client) tt ∈ t
    | Err _ => Forall (λ c, installs c = false) t
    end).
Proof.
  unfold startClientEmbedded. intros [k|]; [by repeat constructor|]. intros [client|e]; [|by repeat constructor].
  intros [|]; cbn [negb].
  - intros [] []. exists client. split_and!; set_solver.
  - intros [] err. by repeat constructor.
Qed.
Definition loggedIn : apiResult := mkApiResult true "登录成功，已在后台值守".

(** What an answer says of the calls before it. *)
Definition login_outcome (form : loginForm) (t : list (done_call guiOp)) (r : apiResult) : Prop :=
  if existsb installs t then r = loggedIn ∧ login_done form t else r ≠ loggedIn.

(** [Q] holds of the calls of [t] and those of [p]. *)
Definition after {A} (t : list (done_call guiOp)) (p : gprog A) (Q : list (done_call guiOp) → A → Prop) : Prop :=
  always p (λ t' a, Q (t ++ t') a).

Lemma after_bind {A B} t (m : gprog A) (f : A → gprog B) (R : list (done_call guiOp) → A → Prop) Q :
  after t m R → (∀ t' a, R t' a → after t' (f a) Q) → after t (m ≫= f) Q.
Proof.
  intros Hm Hf. apply always_bind. eapply always_impl; [|exact Hm]. intros t' a HR. cbv beta in HR.
  eapply always_impl; [|exact (Hf _ _ HR)]. intros t'' b HQ. cbv beta in *. by rewrite app_assoc.
Qed.

Lemma after_call {X} t (o : guiOp X) Q : (∀ x, Q (t ++ [Called o x]) x) → after t (call o) Q.
Proof. intros HQ x. apply HQ. Qed.

Lemma after_ret {A} t (a : A) Q : Q t a → after t (mret a) Q.
Proof. intros HQ. unfold after. cbn. by rewrite app_nil_r. Qed.

(** What a program does on its own it does after other calls. *)
Lemma after_seq {A B} t (m : gprog A) (f : A → gprog B) R Q :
  always m R → (∀ t' a, R t' a → after (t ++ t') (f a) Q) → after t (m ≫= f) Q.
Proof.
  intros Hm Hf. apply (after_bind t m f (λ t1 a, ∃ t', t1 = t ++ t' ∧ R t' a)).
  - eapply always_impl; [|exact Hm]. intros t' a HR. by exists t'.
  - intros t1 a (t' & -> & HR). by apply Hf.
Qed.

Definition uninstalled (t : list (done_call guiOp)) : Prop := Forall (λ c, installs c = false) t.

Lemma no_install t : uninstalled t → existsb installs t = false.
Proof. induction 1 as [|c t Hc _ IH]; [done|]. cbn. by rewrite Hc. Qed.

Lemma uninstalled_app t t' : uninstalled t → uninstalled t' → uninstalled (t ++ t').
Proof. intros. by apply Forall_app. Qed.

Lemma outcome_other form t r : uninstalled t → r ≠ loggedIn → login_outcome form t r.
Proof. intros Ht Hr. unfold login_outcome. by rewrite no_install. Qed.

Lemma outcome_failed form t log e : uninstalled t → after t (failed log e) (login_outcome form).
Proof.
  intros Ht. eapply after_bind; [apply (after_call _ _ (λ t _, uninstalled t))|].
  - intros x. apply uninstalled_app; [done|]. by constructor.
  - intros t' [] Ht'. apply after_ret. by apply outcome_other.
Qed.

Lemma installs_done t client : Called (GInstall client) true ∈ t → existsb installs t = true.
Proof. intros Hin. apply existsb_exists. eexists. split; [by apply list_elem_of_In|done]. Qed.

(** After the probe. *)
Lemma finish_outcome form t rawCfg cfg resp :
  uninstalled t → same_server form rawCfg → same_server form cfg →
  (lf_Password form ≠ "" → cl_Password rawCfg = lf_Password form) →
  (lf_Password form ≠ "" → cl_Password cfg = lf_Password form) →
  Called (GValidate cfg) (Ok tt) ∈ t → Called (GLogin cfg (loginTimeout cfg)) (Ok resp) ∈ t →
  after t (finishStart Hostname configPath rawCfg cfg resp) (login_outcome form).
Proof.
  intros Ht Hr Hc Hpr Hpc Hv Hl. unfold finishStart.
  eapply after_seq; [by apply (sealed_login form)|].
  intros t1' [[saved started]|e] (Ht1 & Hs); [|by apply outcome_failed, uninstalled_app].
  destruct (Hs _ _ eq_refl) as (Hss & Hst & Hps & Hseal). clear Hs.
  eapply after_seq; [apply save_written|].
  intros t2' [[]|e] (Ht2 & Hw); [|by apply outcome_failed, uninstalled_app; [apply uninstalled_app|]].
  destruct (Hw eq_refl) as (data & Hd & Hdin). clear Hw.
  eapply after_seq; [apply started_client|].
  intros t3' [u|e] Hst3.
  2: { apply outcome_failed. do 2 (apply uninstalled_app; [|done]). by apply uninstalled_app. }
  destruct Hst3 as (client & Hsv & Hin & Hgo).
  eapply after_bind; [apply (after_call _ _ (λ t' _, ((t ++ t1') ++ t2') ++ t3' ⊆ t'))|].
  { intros x. set_solver. }
  intros t4 [] Hsub. apply after_ret. unfold login_outcome. rewrite (installs_done t4 client) by set_solver.
  split; [done|]. exists cfg, resp, saved, started, data, client. split_and!; try done; try set_solver.
  intros Hne. specialize (Hseal Hne). destruct (rs_CredentialKey resp); [|done].
  destruct Hseal as (sealed & Hsin & ?). exists sealed. split; [set_solver|done].
Qed.

End Login.

(** ** Who owns a running client *)

Section Running.
Context `{YAMLTree} `{StrictYAML Config} `{YAMLCodec Config} `{ZonedTime}.
Variable Hostname : result string.
Variable Getenv : string → string.
Variable parseTimeErr : string → string.
Variable FormatZonedDate : Time → Zone → string.
Variable configPath : string.

(** [gui_sem o a x a'] : the call [o] on [a] may answer [x] and leave [a']. *)
Definition gui_sem {X} (o : guiOp X) (a : App) : X → App → Prop :=
  match o in guiOp X return X → App → Prop with
  | GClient => λ x a', a' = a ∧ x = ap_tun a
  | GInstall client => λ x a', install a client = (a', x)
  | GTake => λ x a', take_client a = (a', x)
  | GDetach client message bad => λ x a', detach_section a client message bad = (a', x)
  | GLog msg => λ _ a', ∃ now, a' = appendLog a now msg
  | GNotice message bad => λ _ a', a' = setNotice a message bad
  | GNoticeSnapshot => λ x a', a' = a ∧ x = (ap_notice a, ap_noticeBad a)
  | GStartVerified _ _ => λ x a',
      match x with
      | Ok client => (client ∉ ap_started a) ∧
          a' = mkApp (ap_tun a) (ap_stop a) (ap_logs a) (ap_notice a) (ap_noticeBad a) ({[ client ]} ∪ ap_started a) (ap_stopping a)
      | Err _ => a' = a
      end
  | GCancel context => λ _ a',
      a' = mkApp (ap_tun a) (ap_stop a) (ap_logs a) (ap_notice a) (ap_noticeBad a) (ap_started a) ({[ context ]} ∪ ap_stopping a)
  | _ => λ _ a', a' = a
  end.

Definition gui_spawned {X} (o : guiOp X) : list (gprog unit) :=
  match o with GGoWatch client => [watchClientDone Hostname configPath client] | _ => [] end.

Definition gui_needs {X} (o : guiOp X) : gset nat :=
  match o with GInstall client | GCancel client => {[ client ]} | _ => ∅ end.
Definition gui_owns {X} (o : guiOp X) (mine : gset nat) : X → gset nat :=
  match o in guiOp X return X → gset nat with
  | GStartVerified _ _ => λ x, match x with Ok client => {[ client ]} ∪ mine | Err _ => mine end
  | GInstall client => λ installed : bool, if installed then mine ∖ {[ client ]} else mine
  | GTake => λ x, match x with Some (client, _) => {[ client ]} ∪ mine | None => mine end
  | GDetach client _ _ => λ x, match x with Some _ => {[ client ]} ∪ mine | None => mine end
  | GCancel client => λ _, mine ∖ {[ client ]}
  | _ => λ _, mine
  end.
(** The context that comes with a client is its own. *)
Definition gui_possible {X} (o : guiOp X) : X → Prop :=
  match o in guiOp X return X → Prop with
  | GTake => λ x, match x with Some (client, cancel) => cancel = Some client | None => True end
  | GDetach client _ _ => λ x, match x with Some cancel => cancel = Some client | None => True end
  | _ => λ _, True
  end.

Abbreviation gui_balanced := (Ownership.balanced (@gui_needs) (@gui_owns) (@gui_possible)).
Abbreviation gui_owned := (Ownership.owned (@gui_needs) (@gui_owns) (@gui_possible)).

(** The clients that were started and not told to stop. *)
Definition running (a : App) : gset nat := ap_started a ∖ ap_stopping a.
Definition current (a : App) : gset nat := match ap_tun a with Some client => {[ client ]} | None => ∅ end.

(** They are the application's and the [held] ones. *)
Record clients_of (held : gset nat) (a : App) : Prop := {
  co_running : running a = current a ∪ held;
  co_apart : current a ## held;
  co_stop : ap_stop a = ap_tun a;
  co_known : ap_stopping a ⊆ ap_started a
}.

Lemma clients_same held a a' :
  ap_tun a' = ap_tun a → ap_stop a' = ap_stop a → ap_started a' = ap_started a → ap_stopping a' = ap_stopping a →
  clients_of held a → clients_of held a'.
Proof. intros E1 E2 E3 E4 [A1 A2 A3 A4]. unfold running, current in *. split; unfold running, current; rewrite ?E1, ?E2, ?E3, ?E4; done. Qed.

Lemma clients_start held a client :
  client ∉ ap_started a → clients_of held a →
  (client ∉ held) ∧
  clients_of ({[ client ]} ∪ held)
    (mkApp (ap_tun a) (ap_stop a) (ap_logs a) (ap_notice a) (ap_noticeBad a) ({[ client ]} ∪ ap_started a) (ap_stopping a)).
Proof.
  intros Hc [A1 A2 A3 A4]. unfold running, current in *. assert (client ∉ held) by set_solver.
  split; [done|]. split; unfold running, current; cbn in *; [|set_solver|done|set_solver].
  rewrite difference_union_distr_l_L, A1. apply set_eq. intros k. set_solver.
Qed.

Lemma clients_install held a a' client installed :
  install a client = (a', installed) → client ∈ held → clients_of held a →
  clients_of (if installed then held ∖ {[ client ]} else held) a'.
Proof.
  unfold install. destruct (ap_tun a) eqn:Et; intros [= <- <-] Hc [A1 A2 A3 A4]; [by split|].
  unfold running, current in *. rewrite Et in A1, A2.
  split; unfold running, current; cbn in *; [|set_solver|done|done].
  rewrite A1. apply set_eq. intros k. destruct (decide (k = client)); set_solver.
Qed.

(** Taking the application's client. *)
Lemma clients_take held a client logs notice bad :
  ap_tun a = Some client → clients_of held a →
  (client ∉ held) ∧ clients_of ({[ client ]} ∪ held) (mkApp None None logs notice bad (ap_started a) (ap_stopping a)).
Proof.
  intros Et [A1 A2 A3 A4]. unfold running, current in *. rewrite Et in A1, A2.
  split; [set_solver|]. split; unfold running, current; cbn; [set_solver|set_solver|done|done].
Qed.

Lemma clients_cancel held a client :
  client ∈ held → clients_of held a →
  clients_of (held ∖ {[ client ]})
    (mkApp (ap_tun a) (ap_stop a) (ap_logs a) (ap_notice a) (ap_noticeBad a) (ap_started a) ({[ client ]} ∪ ap_stopping a)).
Proof.
  intros Hc [A1 A2 A3 A4]. unfold running, current in *.
  split; unfold running, current; cbn in *; [|set_solver|done|set_solver].
  apply set_eq. intros k. assert (k ∈ ap_started a ∖ ap_stopping a ↔ k ∈ match ap_tun a with Some client => {[ client ]} | None => ∅ end ∪ held)
    by (by rewrite A1). set_solver.
Qed.

Lemma gui_accounted {X} (o : guiOp X) a x a' mine held :
  gui_sem o a x a' → gui_needs o ⊆ mine → mine ## held → clients_of (mine ∪ held) a →
  gui_possible o x ∧ gui_owns o mine x ## held ∧ clients_of (gui_owns o mine x ∪ held) a'.
Proof.
  intros Hsem Hn Hd Hc.
  assert (∀ client, client ∈ mine → (mine ∪ held) ∖ {[ client ]} = mine ∖ {[ client ]} ∪ held) as Hdiff.
  { intros client Hin. apply set_eq. set_solver. }
  destruct o; cbn [gui_sem gui_needs gui_owns gui_possible] in *.
  all: try (subst; done).
  all: try (destruct_and?; subst; done).
  - apply singleton_subseteq_l in Hn. pose proof (clients_install _ _ _ _ _ Hsem (elem_of_union_l _ _ _ Hn) Hc) as Ha.
    destruct x; rewrite ?(Hdiff _ Hn) in Ha; split_and!; solve [done | set_solver].
  - unfold take_client in Hsem. destruct (ap_tun a) as [client|] eqn:Et; injection Hsem as <- <-; [|done].
    destruct (clients_take _ a client (ap_logs a) (ap_notice a) (ap_noticeBad a) Et Hc) as [Hf Ha].
    rewrite <-union_assoc_L. split_and!; [by rewrite (co_stop _ _ Hc)|set_solver|done].
  - unfold detach_section in Hsem. case_bool_decide as Et; injection Hsem as <- <-; [|done].
    destruct (clients_take _ a client (ap_logs a) message bad Et Hc) as [Hf Ha].
    rewrite <-union_assoc_L. split_and!; [by rewrite (co_stop _ _ Hc)|set_solver|done].
  - destruct Hsem as [now ->]. split_and!; [done|done|]. by apply (clients_same _ a).
  - subst. split_and!; [done|done|]. by apply (clients_same _ a).
  - destruct x as [client|e]; [|by subst]. destruct Hsem as [Hf ->]. destruct (clients_start _ _ _ Hf Hc).
    rewrite <-union_assoc_L. split_and!; [done|set_solver|done].
  - apply singleton_subseteq_l in Hn. subst. rewrite <-(Hdiff _ Hn).
    split_and!; [done|set_solver|]. apply clients_cancel; [set_solver|done].
Qed.

(** *** The programs *)

Create HintDb guiown discriminated.
Ltac gui_balanced := balanced_walk ltac:(auto with guiown).

(** A client whose context is cancelled is not held any more. *)
Lemma owned_cancel {A} client (k : unit → gprog A) Q :
  gui_owned (k tt) ∅ Q → gui_owned (call (GCancel client) ≫= k) {[ client ]} Q.
Proof.
  intros Hk. apply owned_call; [done|]. intros [] _. cbn [gui_owns].
  by replace ({[ client ]} ∖ {[ client ]}) with (∅ : gset nat) by set_solver.
Qed.

Lemma balanced_detach client message bad : gui_balanced (detachClient Hostname configPath client message bad).
Proof.
  unfold detachClient. apply owned_call; [done|]. intros [cancel|] Hp; [|done]. cbn in Hp. subst cancel.
  cbn [gui_owns]. rewrite union_empty_r_L. apply owned_cancel.
  match goal with |- owned _ _ _ ?p _ _ => change (gui_balanced p) end. gui_balanced.
Qed.

Lemma balanced_startClient cfg version : gui_balanced (startClientEmbedded cfg version).
Proof.
  unfold startClientEmbedded. apply balanced_bind; [gui_balanced|]. intros [k|]; [gui_balanced|].
  apply owned_call; [done|]. intros [client|e] _; [|done]. cbn [gui_owns]. rewrite union_empty_r_L.
  apply owned_call; [done|]. intros [|] _; cbn [gui_owns negb].
  - replace ({[ client ]} ∖ {[ client ]}) with (∅ : gset nat) by set_solver.
    match goal with |- owned _ _ _ ?p _ _ => change (gui_balanced p) end. gui_balanced.
  - apply owned_cancel. match goal with |- owned _ _ _ ?p _ _ => change (gui_balanced p) end. gui_balanced.
Qed.

Lemma balanced_stopClient : gui_balanced stopClientEmbedded.
Proof.
  unfold stopClientEmbedded. apply owned_call; [done|]. intros [[client cancel]|] Hp; [|done]. cbn in Hp. subst cancel.
  cbn [gui_owns]. rewrite union_empty_r_L. apply owned_cancel.
  match goal with |- owned _ _ _ ?p _ _ => change (gui_balanced p) end. gui_balanced.
Qed.
#[local] Hint Resolve balanced_detach balanced_startClient balanced_stopClient : guiown.

Lemma gui_program_balanced p :
  gui_program Hostname Getenv parseTimeErr FormatZonedDate configPath p → gui_balanced p.
Proof. intros []; gui_balanced. Qed.

Definition gui_step : App * list (gprog unit) → App * list (gprog unit) → Prop :=
  Ownership.pool_step (@gui_sem) (@gui_spawned) (gui_program Hostname Getenv parseTimeErr FormatZonedDate configPath).

Abbreviation gui_holds := (Ownership.holds (@gui_needs) (@gui_owns) (@gui_possible)).

(** C37: however the requests of the page and the goroutines of its clients
    interleave, every client that was started and not told to stop is the one the
    application has or is held by exactly one request, which hands it over or stops
    it before it ends. So two logins at the same time never leave a second tunnel
    behind, and when nothing is under way at most the application's client runs. *)
Theorem clients_accounted a ps :
  rtc gui_step (newApp, []) (a, ps) →
  (∃ held, Forall2 gui_holds ps held ∧ apart held ∧ clients_of (⋃ held) a) ∧
  (Forall (λ p, ∃ u, p = Ret u) ps → running a = current a).
Proof.
  intros Hrun. edestruct (pool_run_accounted (@gui_needs) (@gui_owns) (@gui_possible) (@gui_sem) (@gui_spawned)
    (gui_program Hostname Getenv parseTimeErr FormatZonedDate configPath) clients_of)
    as [(held & Hf & Ha & Hc) Hend]; [| | | | |exact Hrun|].
  - intros X o. destruct o; constructor; [|constructor]. cbn.
    exact (gui_program_balanced _ (gui_watch Hostname Getenv parseTimeErr FormatZonedDate configPath client)).
  - intros p. apply gui_program_balanced.
  - intros X o w x w' mine held. apply gui_accounted.
  - constructor.
  - by split.
  - split; [by exists held|]. intros Hdone. rewrite (co_running _ _ (Hend Hdone)). set_solver.
Qed.
End Running.

(** ** Concrete runs *)

(** What is saved shows the password. *)
Definition shownCodec : YAMLCodec Config := {|
  yaml_marshal cfg := Ok ("username: " +:+ cl_Username cfg +:+ " password: " +:+ cl_Password cfg);
  yaml_unmarshal _ := Err "unknown"
|}.
Definition noZone : ZonedTime := {|
  Zone := unit; ParseZoned _ := None; FormatZoned _ _ := ""; FormatZonedNano _ _ := ""
|}.
Definition sampleForm : loginForm := mkLoginForm "203.0.113.9:3443" "alice" "secret".

Abbreviation samplePage :=
  (@gui_program sampleTree sampleStrict shownCodec noZone (Ok "pc") (λ _, "") (λ _, "") (λ _ _, "") "conf/client.yaml").
Definition sampleLogin : gprog unit :=
  _ ← @handleStart sampleTree sampleStrict shownCodec (Ok "pc") (λ _, "") "conf/client.yaml" (Some sampleForm); mret tt.

Tactic Notation "answer" uconstr(x) := eapply (traces_do _ _ _ x).

(** A login with a typed password that ends with a running client. *)
Lemma password_never_saved_witness :
  ∃ t, traces sampleLogin t tt ∧ Called (GInstall 7%nat) true ∈ t ∧
    Called (GWriteFile "conf/client.yaml" "username: alice password: ") (Ok tt) ∈ t ∧
    Forall (@saves_no_password shownCodec "conf/client.yaml") t.
Proof.
  assert (∃ t, traces sampleLogin t tt ∧ Called (GInstall 7%nat) true ∈ t ∧
            Called (GWriteFile "conf/client.yaml" "username: alice password: ") (Ok tt) ∈ t) as (t & Ht & Hi & Hw).
  { eexists. split_and!.
    - answer ReadNotExist. answer tt. answer None. answer (Ok tt). answer (Ok (mkOpenResponse true "" "" "" "" "" None)).
      answer tt. answer (Ok tt). answer (Ok tt). answer tt. answer None. answer (Ok 7%nat). answer true. answer tt.
      answer tt. answer tt. apply traces_ret.
    - do 11 right. left.
    - do 7 right. left. }
  exists t. split_and!; [done..|].
  exact (traces_always _ _ _ _ Ht (@password_never_saved sampleTree sampleStrict shownCodec noZone (Ok "pc") (λ _, "") (λ _, "")
    (λ _ _, "") "conf/client.yaml" sampleLogin
    (@gui_start sampleTree sampleStrict shownCodec noZone (Ok "pc") (λ _, "") (λ _, "") (λ _ _, "") "conf/client.yaml" (Some sampleForm)))).
Defined.

Abbreviation sampleStep :=
  (@gui_step sampleTree sampleStrict shownCodec noZone (Ok "pc") (λ _, "") (λ _, "") (λ _ _, "") "conf/client.yaml").

(** The goroutine at position [n] makes its next call, which answers [x]. *)
Lemma page_at s s' ps ps' a X (o : guiOp X) k x a' :
  gui_sem o a x a' →
  rtc sampleStep (a', ps ++ k x :: ps' ++ @gui_spawned sampleTree sampleStrict shownCodec (Ok "pc") "conf/client.yaml" X o) s' →
  s = (a, ps ++ Do o k :: ps') → rtc sampleStep s s'.
Proof. intros Hsem Hrun ->. eapply rtc_l; [|exact Hrun]. by constructor. Qed.

Lemma page_start s' p ps a : samplePage p → rtc sampleStep (a, ps ++ [p]) s' → rtc sampleStep (a, ps) s'.
Proof. intros Hp Hrun. eapply rtc_l; [|exact Hrun]. by constructor. Qed.

Ltac page_pos n ps k :=
  lazymatch n with
  | O => k (@nil (gprog unit)) ps
  | S ?n => lazymatch ps with ?p :: ?ps => page_pos n ps ltac:(fun pre post => k (p :: pre) post) end
  end.
Tactic Notation "page" constr(n) uconstr(x) :=
  cbn [app gui_spawned];
  lazymatch goal with
  | |- rtc _ (?a, ?ps) _ =>
      page_pos n ps ltac:(fun pre rest => lazymatch rest with _ :: ?post =>
        eapply (page_at _ _ pre post a _ _ _ x); [| |reflexivity] end)
  end.

(** Two logins at the same time: both start a client, the second one's is spare. *)
Lemma clients_accounted_witness :
  ∃ a ps, running a = {[ 7%nat; 8%nat ]} ∧ current a = {[ 7%nat ]} ∧
    ∃ held, Forall2 (Ownership.holds (@gui_needs) (@gui_owns) (@gui_possible)) ps held ∧ apart held ∧ clients_of (⋃ held) a.
Proof.
  assert (∃ a ps, running a = {[ 7%nat; 8%nat ]} ∧ current a = {[ 7%nat ]} ∧ rtc sampleStep (newApp, []) (a, ps))
    as (a & ps & Hr & Hc & Hrun).
  { eexists _, _. split_and!; cycle 2.
    - apply (page_start _ sampleLogin); [constructor|]. apply (page_start _ sampleLogin); [constructor|].
      page 0%nat ReadNotExist; [done|]. page 1%nat ReadNotExist; [done|].
      page 0%nat tt; [done|]. page 1%nat tt; [done|].
      page 0%nat None; [done|]. page 1%nat None; [done|].
      page 0%nat (Ok tt); [done|]. page 1%nat (Ok tt); [done|].
      page 0%nat (Ok (mkOpenResponse true "" "" "" "" "" None)); [done|].
      page 1%nat (Ok (mkOpenResponse true "" "" "" "" "" None)); [done|].
      page 0%nat tt; [by exists "10:00"|]. page 1%nat tt; [by exists "10:00"|].
      page 0%nat (Ok tt); [done|]. page 1%nat (Ok tt); [done|].
      page 0%nat (Ok tt); [done|]. page 1%nat (Ok tt); [done|].
      page 0%nat tt; [done|]. page 1%nat tt; [done|].
      page 0%nat None; [done|]. page 1%nat None; [done|].
      page 0%nat (Ok 7%nat); [by split|]. page 1%nat (Ok 8%nat); [by split|].
      page 0%nat true; [done|]. page 1%nat false; [done|]. apply rtc_refl.
    - done.
    - done. }
  exists a, ps. split_and!; [done..|].
  exact (proj1 (@clients_accounted sampleTree sampleStrict shownCodec noZone (Ok "pc") (λ _, "") (λ _, "") (λ _ _, "")
    "conf/client.yaml" a ps Hrun)).
Defined.
